(* ===== verification/_CoqProject ===== *)
-Q . S2P
Prelude.v
Threads.v
GoString.v
GoTime.v
Rfc3339.v
GoError.v
Config.v
ConfigLoad.v
Logging.v
DataDir.v
Mux.v
Sql.v
AclStore.v
PlcStore.v
PlcOpen.v
UserStore.v
Http.v
Doctor.v
Auth.v
AuditLog.v
ApiAuth.v
ApiUsers.v
WriteGuard.v
ApiWrite.v
Retry.v
PlcDriver.v
PlcManager.v
Worker.v
Opcua.v
ServerState.v
ApiPlcs.v
ApiAcl.v
ApiConfig.v
Sparkplug.v
EdgeNode.v
EdgeThreads.v
Commands.v
Mqtt.v
Routes.v
Lifecycle.v
Surface.v
Startup.v
Historian.v
StoreOpen.v
HistorianWriter.v
ApiTags.v
Gateway.v
Requests.v
Process.v
Backup.v
ApiBackup.v
ApiHistorian.v
Pipeline.v
WebSocket.v
Cli.v
CommandTree.v
Plcsim.v
