(* ===== verification/Prelude.v ===== *)
(** * LGB, the Logix Gateway Bridge: a verification library

    LGB reads tags from Rockwell PLCs, keeps their current values, records them,
    publishes them over Sparkplug B (MQTT), WebSocket and OPC UA, and accepts
    writes over HTTP and over Sparkplug commands behind two gates.  This library
    models its Go packages and proves what makes them correct.

    ** How the program is put together

    [cmd/lgb] loads the configuration, opens the SQLite stores (users, PLCs,
    write rules, history) and the audit log, and builds the server.  The PLC
    manager runs one scan goroutine per PLC; every good reading goes into its
    tag store and to the callbacks: the tag hub (WebSocket clients), the edge
    node and the history writer.  A handler of the HTTP API changes a store,
    audits the change, and for PLCs hands the stored list to the manager
    ([Reload]).  A write passes [writeguard] before the manager hands it to the
    driver.

    ** Files

    Foundations: this file (notations, tactics, hint databases, the state monad
    and lemmas on lists, options and 64-bit integers); [GoString], [GoTime] and
    [GoError] (Go's strings, times, durations, dynamic values and error trees);
    [Threads] (goroutines as programs of atomic operations, their schedules, and a
    logic of what a goroutine knows while others run);
    [Sql] (tables, statements, transactions with failures from a script);
    [Http] (requests, the JSON envelope, pagination: [server/api.go]).

    - [Config], [ConfigLoad]: [internal/config] (schema, validation, redaction;
      loader and watcher); [DataDir], [Logging], [Doctor]: [internal/datadir],
      [internal/log], [internal/doctor] with [lgb doctor] and [GET /api/doctor];
    - [AclStore], [PlcStore], [PlcOpen]: [internal/aclstore], [internal/plcstore]
      (the last with the migration of its schema);
    - [UserStore], [Auth], [AuditLog]: [internal/auth] (store, password, wizard;
      jwt, middleware; audit); [StoreOpen]: the [Open], [migrate] and [Close] of
      [internal/aclstore], [internal/auth] and [internal/historian];
    - [WriteGuard]: [internal/writeguard/guard.go];
    - [ApiAuth], [ApiUsers], [ApiWrite], [ApiPlcs], [ApiAcl], [ApiConfig],
      [ApiTags], [WebSocket], [ApiHistorian], [ApiBackup], [Routes], [ServerState]:
      the files of [internal/server], one per API, the route table, and the state
      the handlers share;
    - [Mux] (the [ServeMux] of net/http), [Surface] ([internal/httpx/mux.go],
      [internal/health], [server/spa.go] and the registrations of [Server.Run]): from
      the bytes of a method and a path to the handler that answers;
    - compositions: [Gateway] (every store behind every endpoint, as one state),
      [Requests] (the handlers that change something, interleaved over that state),
      [Commands] (a Sparkplug command from its topic to the driver),
      [Pipeline] (the callbacks a scan hands its updates to, [cmd/server.go]);
    - [Retry]: [internal/retry]; [PlcDriver], [PlcManager], [Worker]:
      [internal/plc] (driver; manager; the body of a scan goroutine);
    - [Sparkplug], [EdgeNode], [EdgeThreads]: [internal/sparkplug] (the handlers of
      the node one after the other; its goroutines interleaved); [Mqtt]:
      [internal/mqtt]; [Opcua]: [internal/opcua];
    - [Historian], [HistorianWriter]: [internal/historian]; [Rfc3339]: the times of
      its API; [Backup]: [internal/backup], [lgb backup] and [VacuumInto];
    - [Lifecycle], [Startup], [Cli]: [server/server.go] ([New], [Run]), the start of
      [lgb server], and the other commands with [main] and the exit codes;
      [CommandTree]: the commands and flags of [NewRoot]; [Plcsim]: [cmd/plcsim] and the
      simulator of the tests; [Process]: starts, the requests between them, and what
      the data directory keeps from one life of the process to the next.

    A definition has the name of the Go function it translates, a record the
    fields of the struct; operations on state are functions into the state monad
    [State S A], run one after the other as the locks of the code serialise them.
    [PlcManager], [HistorianWriter], [ConfigLoad]'s watcher, [ApiBackup],
    [WebSocket], [EdgeThreads] and [Requests] interleave goroutines: there the
    locked sections, the atomic variables, the channel operations and the statements
    of a database are single steps, of a relation, of a list of events or of a
    schedule.  [sequential_is_a_schedule] and [serial_runs_are_schedules] relate the
    two kinds of model.

    ** What the theorems show

    - requests: [every_request_guarded] (whatever is sent, only a guarded handler
      changes anything), [requests_keep_stores], [routes_enforce_policy],
      [registration_never_panics], [serveSPA_correct]; when requests interleave,
      [every_write_permitted] and [every_request_answered] hold, and
      [concurrent_deletes] and [stale_reload] show what does not;
    - write safety: [session_write_exact] (from the login to the driver),
      [write_gate_exact], [dcmd_writes_exactly] and [host_writes_arrive] (from the
      broker to the driver), [handleWriteTag_correct] and
      [SparkplugCommandHandler_correct] (for every implementation of the
      interfaces of the gates), [CanWrite_correct];
    - stores: each store refines an abstract map under every operation and every
      failure of the database ([plc_refines], [acl_refines]), keeps its
      constraints ([plc_store_invariant], [acl_rules_unique]) and changes
      nothing when it fails ([plc_op_atomic]); opening a file of an older release
      keeps its rows ([Open_correct], [Open_keeps_rows]), and no failure loses a row
      or a connection ([open_store_correct], [OpenAuditLogger_correct]);
    - administration: a change through the API refines the abstract store, is
      audited, and takes effect ([plc_change_correct], [acl_change_correct],
      [acl_change_gate], [handleDeleteUser_keeps_admin],
      [config_change_store_wins]);
    - sessions: [handleLogin_correct], [handleRefresh_correct],
      [Issue_Validate_expiry], [Create_Authenticate];
    - PLC scanning: [one_goroutine_per_plc] under every interleaving,
      [Reload_correct], [scan_tags_correct], [tag_types_agree] (the type of a tag
      from the read to the wire); [worker_refines_manager] (the code of a goroutine
      takes only the steps of the manager's relation); [worker_never_reconnects] and
      [lost_connection_is_final] show that a lost connection is never made again;
    - Sparkplug and MQTT: sequence and birth/death numbers, the order of messages
      and round trips of metrics and commands ([edge_session_correct],
      [Stop_correct], [EncodeMetric_Decode], [handleDCMD_roundtrip],
      [nexts_correct], [Transition_linearizable]), what is left of it when the
      goroutines interleave ([every_schedule_safe]) and what is not
      ([rebirth_overtakes_data], [births_overtake], [data_after_death]), the behaviour after a lost
      connection ([connection_loss_is_final]), and the client
      ([operations_correct], [node_client_correct]);
    - history: [scan_recorded] (from the scan to the store), [recorded_then_served]
      (from the store to the API), [writer_delivers], [writer_conserves],
      [one_writer_at_a_time], [historian_roundtrip], [retention_loop_correct],
      [query_without_to];
    - live tags: [publish_correct], [handleCurrentTags_correct], and the WebSocket
      stream ([stream_authenticated], [stream_faithful], [unsubscribe_bounds],
      [stream_ends], [done_stream_reads]); for OPC UA
      [opcua_serves_last_reading], [refresh_tick_correct], [start_options_correct] and
      [Start_serves];
    - backups: [runBackupTo_correct], [manager_correct], [sqlQuote_roundtrip],
      [one_triggered_backup], [triggered_backup_ends], [scheduler_stops];
    - the process: [Run_correct] (order of the parts), [startup_store_wins],
      [startup_brackets], [restart_correct] (over any number of lives, with
      [deleted_plcs_return] and [lockout_survives_restart] on what a restart does not
      mend), [Addr_returns], [NewRoot_correct], [validate_main_correct], [doctor_command_correct],
      [ExitCode_correct], [New_correct] and [redaction_correct] (logging);
    - configuration, backoff: [Validate_correct], [Load_correct],
      [env_names_resolve], [watch_correct], [Do_terminates],
      [delay_after_correct].

    ** Failures, fuel and bounds

    What the outside answers is data: the failures of a database and of the
    audit file, the answers of drivers and of the broker, clocks and polls of a
    context are scripts carried in the state or functions given as arguments, so
    that a theorem about every state covers every behaviour.  The loop of
    [Retry.Do] has explicit fuel, which its callers (the driver's [Connect] and
    the edge node's reconnect round) pass on: [Do_terminates] shows that the
    configured number of attempts is enough, and [None] is kept apart from every
    result.  The compare-and-swap loop of [Sparkplug.Transition] has fuel for the
    rounds other goroutines make it repeat.  String loops have the length of the
    string as fuel, and every round consumes a byte.  Integers are [Z] with Go's
    64-bit wrap-around written out where an operation can overflow ([wrap_s],
    [wrap_u]).  [Worker.runWorker] takes the number of ticks before its context is
    done, and keeps a [Connect] that has not returned apart from every result.

    ** Interfaces to code outside the repository

    Class [Engine] (the texts of SQLite's constraint errors), [Bcrypt], [JWT],
    [Proto] (protobuf marshalling), [GologixClient], [Koanf], [Restic] and [OsErrors]
    give the functions of third-party packages and of the operating system with
    the laws the code relies on; the witnesses run concrete instances.  Class
    [Driver] is the interface of the same name between the manager and its
    drivers: [Worker] proves what a worker does against it, and
    [gologix_connected] what the gologix driver brings to it.

    ** Not modelled

    Sockets, files and processes themselves; the generated protobuf code; the
    YAML, paho, gopcua and WebSocket libraries; the web frontend; cobra's parsing
    of the command line; the data directory of Windows; the certificate and the logger
    of the tests.  [Requests] interleaves the requests that change a store or write a
    tag; the reads are handled one at a time, in [Gateway]. *)

From Stdlib Require Export ZArith String Ascii.
From stdpp Require Export base tactics option list strings gmap sorting relations.

#[global] Open Scope Z_scope.
#[global] Open Scope list_scope.

Declare Scope lgb_scope.
Delimit Scope lgb_scope with lgb.
#[global] Open Scope lgb_scope.

(** ** Hint databases

    [lgb] collects the preservation lemmas (invariants of the stores and of the
    state machines), [lgb_simpl] the rewriting equations of the Go helpers. *)

Create HintDb lgb discriminated.
Create Rewrite HintDb lgb_simpl.

(** ** Tactics *)

(** Case analysis on the first [match] or [if] of the goal that is stuck on a
    term without inner matches. *)
Ltac case_inner t :=
  lazymatch t with
  | context [match ?x with _ => _ end] => case_inner x
  | _ => destruct t eqn:?
  end.

Ltac split_match :=
  match goal with
  | |- context [match ?x with _ => _ end] => case_inner x
  end.

Ltac split_match_in H :=
  match type of H with
  | context [match ?x with _ => _ end] => case_inner x
  end.

(** Turns boolean facts of the context into propositions. *)
Ltac bool_to_prop :=
  repeat match goal with
  | H : bool_decide _ = true |- _ => apply bool_decide_eq_true_1 in H
  | H : bool_decide _ = false |- _ => apply bool_decide_eq_false_1 in H
  | H : (_ && _)%bool = true |- _ => apply andb_true_iff in H; destruct H
  | H : (_ || _)%bool = false |- _ => apply orb_false_iff in H; destruct H
  | H : negb _ = true |- _ => apply negb_true_iff in H
  | H : negb _ = false |- _ => apply negb_false_iff in H
  | H : (_ <? _) = true |- _ => apply Z.ltb_lt in H
  | H : (_ <? _) = false |- _ => apply Z.ltb_ge in H
  | H : (_ <=? _) = true |- _ => apply Z.leb_le in H
  | H : (_ <=? _) = false |- _ => apply Z.leb_gt in H
  | H : (_ =? _) = true |- _ => apply Z.eqb_eq in H
  | H : (_ =? _) = false |- _ => apply Z.eqb_neq in H
  end.

(** ** The state monad

    Code that changes shared state is written in this monad; [x ← m; k] is
    stdpp's notation for sequencing. *)

Definition State (S A : Type) : Type := S → A * S.

#[global] Instance state_ret (S : Type) : MRet (State S) := λ A a s, (a, s).
#[global] Instance state_bind (S : Type) : MBind (State S) :=
  λ A B k m s, let '(a, s') := m s in k a s'.

Definition get_state {S : Type} : State S S := λ s, (s, s).
Definition set_state {S : Type} (s : S) : State S unit := λ _, (tt, s).
Definition modify {S : Type} (f : S → S) : State S unit := λ s, (tt, f s).

(** Runs a computation on a part of the state, given how to read and how to
    write that part. *)
Definition zoom {S T A : Type} (rd : S → T) (wr : T → S → S)
    (m : State T A) : State S A :=
  λ s, let '(a, t) := m (rd s) in (a, wr t s).

Lemma bind_run {S A B : Type} (m : State S A) (k : A → State S B) s :
  (m ≫= k) s = let '(a, s') := m s in k a s'.
Proof. done. Qed.

Lemma bind_unit_ret {S : Type} (m : State S unit) s : (m ≫= λ _, mret tt) s = m s.
Proof. rewrite bind_run. by destruct (m s) as [[] s']. Qed.

Ltac unfold_state :=
  unfold mbind, state_bind, mret, state_ret, get_state, set_state, modify, zoom in *.

(** A loop over a list in the state monad, as Go's [for _, x := range xs]. *)
Fixpoint for_each {S A : Type} (xs : list A) (f : A → State S unit) : State S unit :=
  match xs with
  | [] => mret tt
  | x :: xs' => f x ≫= λ _, for_each xs' f
  end.

(** The same loop with an early [return err]. *)
Fixpoint for_each_err {S A E : Type} (xs : list A) (f : A → State S (option E))
    : State S (option E) :=
  match xs with
  | [] => mret None
  | x :: xs' => f x ≫= λ r,
      match r with Some e => mret (Some e) | None => for_each_err xs' f end
  end.

Lemma for_each_app {S A : Type} (xs ys : list A) (f : A → State S unit) s :
  for_each (xs ++ ys) f s = for_each ys f (for_each xs f s).2.
Proof.
  revert s. induction xs as [|x xs IH]; intros s; [done|].
  simpl. unfold_state. destruct (f x s) as [[] s']. apply IH.
Qed.

(** An invariant of the body is an invariant of the loop. *)
Lemma for_each_inv {S A : Type} (P : S → Prop) (f : A → State S unit) :
  (∀ x s, P s → P (f x s).2) → ∀ xs s, P s → P (for_each xs f s).2.
Proof.
  intros Hf xs. induction xs as [|x xs IH]; intros s Hs; [done|].
  simpl. unfold_state. specialize (Hf x s Hs). destruct (f x s) as [[] s'].
  by apply IH.
Qed.

Lemma for_each_err_inv {S A E : Type} (P : S → Prop) (f : A → State S (option E)) :
  (∀ x s, P s → P (f x s).2) → ∀ xs s, P s → P (for_each_err xs f s).2.
Proof.
  intros Hf xs. induction xs as [|x xs IH]; intros s Hs; [done|].
  simpl. unfold_state. specialize (Hf x s Hs). destruct (f x s) as [[e|] s']; [done|].
  by apply IH.
Qed.

(** A computation that keeps an invariant, whatever it returns. *)
Definition keeps {S A : Type} (P : S → Prop) (m : State S A) : Prop := ∀ s, P s → P (m s).2.

Lemma keeps_ret {S A : Type} (P : S → Prop) (a : A) : keeps P (mret a).
Proof. by intros s. Qed.

Lemma keeps_bind {S A B : Type} (P : S → Prop) (m : State S A) (k : A → State S B) :
  keeps P m → (∀ a, keeps P (k a)) → keeps P (m ≫= k).
Proof.
  intros Hm Hk s Hs. rewrite bind_run. specialize (Hm s Hs). destruct (m s) as [a s'].
  by apply Hk.
Qed.

Lemma keeps_for_each {S A : Type} (P : S → Prop) (f : A → State S unit) (xs : list A) :
  (∀ x, keeps P (f x)) → keeps P (for_each xs f).
Proof. intros Hf s. apply for_each_inv. intros x s'. apply Hf. Qed.

(** ** Machine integers *)

Definition two63 : Z := 9223372036854775808.
Definition two64 : Z := 18446744073709551616.

(** A w-bit unsigned result, and a w-bit signed (two's complement) one. *)
Definition wrap_u (w z : Z) : Z := z mod 2 ^ w.
Definition wrap_s (w z : Z) : Z := (z + 2 ^ (w - 1)) mod 2 ^ w - 2 ^ (w - 1).

Definition in_u (w z : Z) : Prop := 0 ≤ z < 2 ^ w.
Definition in_s (w z : Z) : Prop := - 2 ^ (w - 1) ≤ z < 2 ^ (w - 1).

Abbreviation int64 := (wrap_s 64).
Abbreviation uint64 := (wrap_u 64).

Lemma wrap_u_small w z : in_u w z → wrap_u w z = z.
Proof. unfold in_u, wrap_u. intros. by rewrite Z.mod_small. Qed.

Lemma pow2_half w : 0 < w → 2 ^ w = 2 * 2 ^ (w - 1).
Proof. intros. rewrite <- Z.pow_succ_r by lia. f_equal. lia. Qed.

Lemma wrap_s_small w z : 0 < w → in_s w z → wrap_s w z = z.
Proof.
  unfold in_s, wrap_s. intros Hw Hz. pose proof (pow2_half w Hw).
  rewrite Z.mod_small; lia.
Qed.

Lemma wrap_s_range w z : 0 < w → in_s w (wrap_s w z).
Proof.
  unfold in_s, wrap_s. intros Hw. pose proof (pow2_half w Hw).
  pose proof (Z.mod_pos_bound (z + 2 ^ (w - 1)) (2 ^ w) ltac:(lia)). lia.
Qed.

Lemma wrap_u_range w z : 0 ≤ w → in_u w (wrap_u w z).
Proof. intros. unfold in_u, wrap_u. apply Z.mod_pos_bound. lia. Qed.

(** Go converts a signed value to an unsigned type of another width by taking
    the low bits; going back through the same width recovers it. *)
Lemma wrap_s_wrap_u w v z : 0 < w → w ≤ v → in_s w z → wrap_s w (wrap_u v z) = z.
Proof.
  intros Hw Hv Hz. rewrite <- (wrap_s_small w z Hw Hz) at 2.
  unfold wrap_s, wrap_u. f_equal.
  assert (Hp : 2 ^ v = 2 ^ w * 2 ^ (v - w)) by (rewrite <- Z.pow_add_r by lia; f_equal; lia).
  rewrite Hp, Z.rem_mul_r by lia.
  rewrite <- Z.add_assoc, (Z.add_comm _ (2 ^ (w - 1))), Z.add_assoc.
  rewrite (Z.mul_comm (2 ^ w)), Z.mod_add by lia.
  by rewrite Z.add_mod_idemp_l by lia.
Qed.

(** Wrapping an intermediate result does not change the wrapped result. *)
Lemma wrap_s_congr w a b : 0 < w → (2 ^ w | a - b) → wrap_s w a = wrap_s w b.
Proof.
  intros Hw [k Hk]. unfold wrap_s. f_equal. replace a with (b + k * 2 ^ w) by lia.
  rewrite <- Z.add_assoc, (Z.add_comm (k * 2 ^ w)), Z.add_assoc. apply Z.mod_add. lia.
Qed.

Lemma wrap_s_divide w a : 0 < w → (2 ^ w | wrap_s w a - a).
Proof.
  intros Hw. unfold wrap_s. exists (- ((a + 2 ^ (w - 1)) / 2 ^ w)).
  pose proof (Z.div_mod (a + 2 ^ (w - 1)) (2 ^ w) ltac:(lia)). lia.
Qed.

Lemma wrap_s_add w a b : 0 < w → wrap_s w (a + wrap_s w b) = wrap_s w (a + b).
Proof.
  intros Hw. apply wrap_s_congr; [done|]. destruct (wrap_s_divide w b Hw) as [k Hk].
  exists k. lia.
Qed.

Lemma wrap_s_mul w a b : 0 < w → wrap_s w (wrap_s w a * b) = wrap_s w (a * b).
Proof.
  intros Hw. apply wrap_s_congr; [done|]. destruct (wrap_s_divide w a Hw) as [k Hk].
  exists (k * b). rewrite <- Z.mul_sub_distr_r, Hk. ring.
Qed.

(** ** Go slices

    [None] is the nil slice.  [nil] and an empty slice have the same elements
    but are told apart by [reflect.DeepEqual]. *)

Definition slice (A : Type) : Type := option (list A).
Definition elems {A : Type} (s : slice A) : list A := default [] s.

(** What [var xs []T] followed by appends of [l] leaves. *)
Definition appended {A : Type} (l : list A) : slice A :=
  match l with [] => None | _ => Some l end.

Lemma elems_appended {A : Type} (l : list A) : elems (appended l) = l.
Proof. by destruct l. Qed.
#[export] Hint Rewrite @elems_appended : lgb_simpl.

(** ** Lists *)

(** Go's [xs[lo:hi]]: [None] is the run-time panic of bounds out of range. *)
Definition slice_expr {A : Type} (lo hi : Z) (l : list A) : option (list A) :=
  if bool_decide (0 ≤ lo ∧ lo ≤ hi ∧ hi ≤ Z.of_nat (List.length l))
  then Some (take (Z.to_nat (hi - lo)) (drop (Z.to_nat lo) l)) else None.

Lemma existsb_elem {A : Type} (f : A → bool) (l : list A) :
  existsb f l = true ↔ ∃ x, x ∈ l ∧ f x = true.
Proof.
  rewrite existsb_exists. split; intros (x & Hx & Hf); exists x; split; try done;
    by apply list_elem_of_In.
Qed.

Lemma existsb_not_elem {A : Type} (f : A → bool) (l : list A) :
  existsb f l = false ↔ ∀ x, x ∈ l → f x = false.
Proof.
  split.
  - intros H x Hx. destruct (f x) eqn:E; [|done].
    rewrite (proj2 (existsb_elem f l)) in H; [done|eauto].
  - intros H. destruct (existsb f l) eqn:E; [|done].
    apply existsb_elem in E as (x & Hx & Hf). rewrite H in Hf; done.
Qed.

Lemma NoDup_fmap_filter {A B : Type} (f : A → B) (p : A → Prop) `{!∀ x, Decision (p x)}
    (l : list A) : NoDup (f <$> l) → NoDup (f <$> filter p l).
Proof.
  intros Hnd. eapply sublist_NoDup; [done|]. apply fmap_sublist, sublist_filter.
Qed.

(** Two elements of a list with the same value of an injective key coincide. *)
Lemma NoDup_fmap_inj {A B : Type} (f : A → B) (l : list A) x y :
  NoDup (f <$> l) → x ∈ l → y ∈ l → f x = f y → x = y.
Proof.
  induction l as [|a l IH]; simpl; [by intros _ ?%not_elem_of_nil|].
  rewrite NoDup_cons, !elem_of_cons. intros [Ha Hl] [->|Hx] [->|Hy] E; try done.
  - destruct Ha. rewrite E. by apply list_elem_of_fmap_2.
  - destruct Ha. rewrite <- E. by apply list_elem_of_fmap_2.
  - by apply IH.
Qed.

Lemma Sorted_fmap_mono {A B : Type} (R : relation A) (S : relation B) (f : A → B) (l : list A) :
  (∀ x y, R x y → S (f x) (f y)) → Sorted R l → Sorted S (f <$> l).
Proof.
  intros Hf Hl. induction Hl as [|x l Hl IH Hx]; simpl; constructor; [done|].
  destruct Hx; simpl; constructor. auto.
Qed.
