(* ===== verification/Threads.v ===== *)
(** * Goroutines that interleave

    A goroutine is a program of atomic operations on a shared state; a schedule
    says which goroutine makes its next operation.  [EdgeThreads] runs the
    goroutines of the edge node this way, [Requests] the handlers of requests that
    arrive at the same time. *)

From S2P Require Import Prelude.

(** ** Programs of atomic operations *)

Inductive prog (S : Type) := Done | Act (f : S → S * prog S).
Arguments Done {S}.
Arguments Act {S} f.

(** One operation, whose result the rest of the program has. *)
Definition act {S A : Type} (m : State S A) (k : A → prog S) : prog S :=
  Act (λ s, let '(a, s') := m s in (s', k a)).

(** A program nobody interferes with. *)
Fixpoint alone {S : Type} (p : prog S) (s : S) : S :=
  match p with
  | Done => s
  | Act f => let '(s', p') := f s in alone p' s'
  end.

Lemma alone_act {S A : Type} (m : State S A) k s : alone (act m k) s = let '(a, s') := m s in alone (k a) s'.
Proof. simpl. by destruct (m s). Qed.

Definition is_done {S : Type} (p : prog S) : bool := match p with Done => true | Act _ => false end.

Lemma prog_nested_ind {S : Type} (P : prog S → Prop) :
  P Done → (∀ f, (∀ s, P (f s).2) → P (Act f)) → ∀ p, P p.
Proof. intros HD HA. fix IH 1. intros [|f]; [exact HD|]. apply HA. intros s. exact (IH (f s).2). Qed.

(** Every operation of a program keeps [I], whoever comes between. *)
Fixpoint always {S : Type} (I : S → Prop) (p : prog S) : Prop :=
  match p with
  | Done => True
  | Act f => ∀ s, (I s → I (f s).1) ∧ always I (f s).2
  end.

Lemma always_act {S A : Type} (I : S → Prop) (m : State S A) k :
  (∀ s, I s → I (m s).2) → (∀ a, always I (k a)) → always I (act m k).
Proof. intros Hm Hk s. specialize (Hm s). destruct (m s) as [a s']. split; [exact Hm|apply Hk]. Qed.

(** ** Schedules *)

Section pool.
Context {S J : Type} (prog_of : J → prog S).
(** Jobs of which only one runs at a time. *)
Context (same_loop : J → J → bool).

Record system := mkSystem { sys_state : S; sys_threads : list (J * prog S) }.

Definition may_start (j : J) (σ : system) : bool :=
  forallb (λ t, is_done t.2 || negb (same_loop j t.1)) (sys_threads σ).

(** What the scheduler may do: let a goroutine begin a job, or let one make its
    next operation. *)
Inductive choice := Spawn (j : J) | Advance (i : nat).

Definition sys_step (c : choice) (σ : system) : system :=
  match c with
  | Spawn j => if may_start j σ then mkSystem (sys_state σ) (sys_threads σ ++ [(j, prog_of j)]) else σ
  | Advance i =>
      match sys_threads σ !! i with
      | Some (j, Act f) =>
          let '(s', p') := f (sys_state σ) in mkSystem s' (<[i := (j, p')]> (sys_threads σ))
      | _ => σ
      end
  end.

Definition schedule (cs : list choice) (σ : system) : system := foldl (λ σ c, sys_step c σ) σ cs.

(** No job is left. *)
Definition quiet (σ : system) : bool := forallb (λ t, is_done t.2) (sys_threads σ).

Lemma schedule_app cs cs' σ : schedule (cs ++ cs') σ = schedule cs' (schedule cs σ).
Proof. apply foldl_app. Qed.

(** ** Invariants *)

(** What every operation of every job keeps, every schedule keeps. *)
Lemma schedule_keeps (I : S → Prop) (cs : list choice) (s : S) :
  (∀ j, always I (prog_of j)) → I s → I (sys_state (schedule cs (mkSystem s []))).
Proof.
  intros Hj Hs. set (ok := λ σ, I (sys_state σ) ∧ Forall (λ t, always I t.2) (sys_threads σ)).
  assert (H : ok (schedule cs (mkSystem s []))); [|by destruct H].
  assert (H : ok (mkSystem s [])) by (by split). revert H. generalize (mkSystem s []).
  unfold schedule. induction cs as [|c cs IH]; intros σ Hσ; [done|]. apply IH. clear IH.
  destruct Hσ as [Hi Ht]. destruct c as [j|i]; simpl.
  - destruct (may_start j σ); [|done]. split; [done|]. apply Forall_app. split; [done|]. apply Forall_singleton, Hj.
  - destruct (sys_threads σ !! i) as [[j [|f]]|] eqn:Ei; [done| |done].
    pose proof (Forall_lookup_1 _ _ _ _ Ht Ei (sys_state σ)) as [H1 H2]. destruct (f (sys_state σ)) as [s' p'].
    split; [by apply H1|]. by apply Forall_insert.
Qed.

(** ** One job after the other *)

(** A goroutine the scheduler lets run to its end. *)
Lemma run_to_end j p s (before : list (J * prog S)) :
  ∃ n, schedule (replicate n (Advance (length before))) (mkSystem s (before ++ [(j, p)])) =
       mkSystem (alone p s) (before ++ [(j, Done)]).
Proof.
  revert s. induction p as [|f IH] using prog_nested_ind; intros s; [by exists 0%nat|].
  destruct (IH s (f s).1) as [n E]. exists (Datatypes.S n). unfold schedule in *. cbn [replicate foldl sys_step sys_threads].
  rewrite lookup_app_r, Nat.sub_diag by lia. cbn [list_lookup lookup]. cbn [sys_state alone].
  destruct (f s) as [s' p']. cbn [fst snd] in E.
  rewrite insert_app_r_alt, Nat.sub_diag by lia. exact E.
Qed.

Lemma may_start_idle j s (ts : list (J * prog S)) :
  Forall (λ t, is_done t.2 = true) ts → may_start j (mkSystem s ts) = true.
Proof. unfold may_start. simpl. induction 1 as [|t ts Ht _ IH]; simpl; [done|]. by rewrite Ht. Qed.

(** Running jobs to their ends one after the other is a schedule. *)
Lemma serial_schedule (js : list J) (s : S) :
  ∃ cs, sys_state (schedule cs (mkSystem s [])) = foldl (λ s j, alone (prog_of j) s) s js.
Proof.
  assert (H : ∀ ts, Forall (λ t, is_done t.2 = true) ts →
    ∃ cs, sys_state (schedule cs (mkSystem s ts)) = foldl (λ s j, alone (prog_of j) s) s js); [|by apply (H [])].
  revert s. induction js as [|j js IH]; intros s ts Hts; [by exists []|].
  destruct (run_to_end j (prog_of j) s ts) as [n En].
  destruct (IH (alone (prog_of j) s) (ts ++ [(j, Done)])) as [cs Ecs].
  { apply Forall_app. split; [done|]. by repeat constructor. }
  exists ([Spawn j] ++ replicate n (Advance (length ts)) ++ cs).
  rewrite !schedule_app. unfold schedule at 3. cbn [foldl sys_step]. rewrite may_start_idle by done.
  cbn [sys_state sys_threads]. by rewrite En, Ecs.
Qed.

(** ** Every goroutine finishes

    A scheduler is a sequence of choices without end; it is fair when it comes back
    to every goroutine. *)

Definition fair (c : nat → choice) : Prop := ∀ i t, ∃ n, c (t + n)%nat = Advance i.
Definition run_for (c : nat → choice) (t : nat) (σ : system) : system := schedule (c <$> seq 0 t) σ.

Lemma run_for_S c t σ : run_for c (Datatypes.S t) σ = sys_step (c t) (run_for c t σ).
Proof. unfold run_for. by rewrite seq_S, fmap_app, schedule_app. Qed.

(** A step leaves the goroutines it is not of as they are. *)
Lemma step_others c i t σ : c ≠ Advance i → sys_threads σ !! i = Some t → sys_threads (sys_step c σ) !! i = Some t.
Proof.
  intros Hc Hi. destruct c as [j|i']; simpl.
  - destruct (may_start j σ); [|done]. by apply lookup_app_l_Some.
  - destruct (sys_threads σ !! i') as [[j' [|f]]|]; [done| |done]. destruct (f (sys_state σ)) as [s' p']. simpl.
    rewrite list_lookup_insert_ne; [done|congruence].
Qed.

Lemma run_others c i t n σ : (∀ k, (k < n)%nat → c (t + k)%nat ≠ Advance i) → ∀ th,
  sys_threads (run_for c t σ) !! i = Some th → sys_threads (run_for c (t + n) σ) !! i = Some th.
Proof.
  intros Hc th Hi. induction n as [|n IH]; [by rewrite Nat.add_0_r|]. rewrite Nat.add_succ_r, run_for_S.
  apply step_others; [by apply Hc; lia|]. apply IH. intros k Hk. apply Hc. lia.
Qed.

(** The first time from [t] on that the scheduler comes back to [i]. *)
Lemma first_time c i t : fair c → ∃ n, c (t + n)%nat = Advance i ∧ ∀ k, (k < n)%nat → c (t + k)%nat ≠ Advance i.
Proof.
  intros Hc. destruct (Hc i t) as [n Hn]. revert Hn. induction n as [n IH] using lt_wf_ind. intros Hn.
  assert (Hd : ∀ x : choice, x = Advance i ∨ x ≠ Advance i).
  { intros [j|i']; [by right|]. destruct (decide (i' = i)) as [->|]; [by left|right; congruence]. }
  assert (Hs : (∃ k, (k < n)%nat ∧ c (t + k)%nat = Advance i) ∨ ∀ k, (k < n)%nat → c (t + k)%nat ≠ Advance i).
  { clear IH Hn. induction n as [|n [(k & Hk & E)|H]]; [right; lia|left; exists k; split; [lia|done]|].
    destruct (Hd (c (t + n)%nat)) as [E|E]; [left; exists n; split; [lia|done]|right]. intros k Hk.
    destruct (decide (k = n)) as [->|]; [done|apply H; lia]. }
  destruct Hs as [(k & Hk & E)|H]; [by eapply IH|by exists n].
Qed.

(** Under a fair scheduler, whatever else it begins, every goroutine gets to its end. *)
Theorem fair_finishes c t σ i j p : fair c → sys_threads (run_for c t σ) !! i = Some (j, p) →
  ∃ n, sys_threads (run_for c (t + n) σ) !! i = Some (j, Done).
Proof.
  intros Hc. revert t. induction p as [|f IH] using prog_nested_ind; intros t Hi; [exists 0%nat; by rewrite Nat.add_0_r|].
  destruct (first_time c i t Hc) as (n & Hn & Hb). pose proof (run_others c i t n σ Hb _ Hi) as Hi'.
  set (σ' := run_for c (t + n) σ) in *.
  destruct (IH (sys_state σ') (Datatypes.S (t + n))) as [m Hm].
  { rewrite run_for_S, Hn. fold σ'. simpl. rewrite Hi'. destruct (f (sys_state σ')) as [s' p']. simpl.
    apply list_lookup_insert_eq. by eapply lookup_lt_Some. }
  exists (Datatypes.S n + m)%nat. by replace (t + (Datatypes.S n + m))%nat with (Datatypes.S (t + n) + m)%nat by lia.
Qed.

(** ** What a goroutine does with its last operation only

    [said] counts, say, the answers given; a goroutine that [owes] one gives it with
    its last operation, the others give none. *)
Context (said : S → nat).

Fixpoint ends (owes : bool) (p : prog S) : Prop :=
  match p with
  | Done => True
  | Act f => ∀ s, said (f s).1 = (said s + if owes && is_done (f s).2 then 1 else 0)%nat ∧ ends owes (f s).2
  end.

(** A goroutine that has not begun. *)
Definition ready (owes : bool) (p : prog S) : Prop := (owes = true → is_done p = false) ∧ ends owes p.

Context (owes : J → bool).

Definition paid (ts : list (J * prog S)) : nat := length (filter (λ t, owes t.1 && is_done t.2 = true) ts).

Lemma paid_app ts ts' : paid (ts ++ ts') = (paid ts + paid ts')%nat.
Proof. unfold paid. by rewrite filter_app, length_app. Qed.

Lemma paid_cons j p ts : paid ((j, p) :: ts) = ((if owes j && is_done p then 1 else 0) + paid ts)%nat.
Proof. unfold paid. rewrite filter_cons. simpl. by destruct (owes j && is_done p). Qed.

Lemma paid_insert ts i j f p' : ts !! i = Some (j, Act f) →
  paid (<[i := (j, p')]> ts) = (paid ts + if owes j && is_done p' then 1 else 0)%nat.
Proof.
  intros Hi. rewrite (insert_take_drop _ _ _ (lookup_lt_Some _ _ _ Hi)). rewrite <- (take_drop_middle _ _ _ Hi) at 3.
  rewrite !paid_app, !paid_cons. simpl. rewrite andb_false_r. lia.
Qed.

(** Whatever the schedule, exactly the goroutines that have finished have paid. *)
Lemma schedule_pays (cs : list choice) (s : S) : (∀ j, ready (owes j) (prog_of j)) →
  let σ := schedule cs (mkSystem s []) in said (sys_state σ) = (said s + paid (sys_threads σ))%nat.
Proof.
  intros Hj. cbv zeta.
  set (ok := λ σ, said (sys_state σ) = (said s + paid (sys_threads σ))%nat ∧ Forall (λ t, ends (owes t.1) t.2) (sys_threads σ)).
  assert (H : ok (schedule cs (mkSystem s []))); [|by destruct H].
  assert (H : ok (mkSystem s [])) by (split; [unfold paid; simpl; lia|constructor]).
  revert H. generalize (mkSystem s []). unfold schedule. induction cs as [|c cs IH]; intros σ Hσ; [done|]. apply IH. clear IH.
  destruct Hσ as [Hp Ht]. destruct c as [j|i]; simpl.
  - destruct (may_start j σ); [|done]. destruct (Hj j) as [H1 H2]. split; simpl.
    + rewrite paid_app, paid_cons, Hp. change (paid []) with 0%nat.
      destruct (owes j); [rewrite H1 by done|]; simpl; lia.
    + apply Forall_app. split; [done|]. by apply Forall_singleton.
  - destruct (sys_threads σ !! i) as [[j [|f]]|] eqn:Ei; [done| |done].
    pose proof (Forall_lookup_1 _ _ _ _ Ht Ei (sys_state σ)) as [H1 H2]. simpl in H1, H2.
    destruct (f (sys_state σ)) as [s' p']. simpl in *. split; simpl.
    + erewrite paid_insert by done. rewrite H1, Hp. lia.
    + by apply Forall_insert.
Qed.
End pool.
Arguments Spawn {J} j.
Arguments Advance {J} i.
Arguments mkSystem {S J} _ _.
Arguments sys_state {S J} _.
Arguments sys_threads {S J} _.

(** A job from its beginning, in the [i]-th goroutine, and [n] operations of it;
    [n] operations more. *)
Definition begin {J : Type} (j : J) (i n : nat) : list (choice (J := J)) := Spawn j :: replicate n (Advance i).
Definition go_on {J : Type} (i n : nat) : list (choice (J := J)) := replicate n (Advance i).

(** ** Code that returns a value

    A program with a hole for what comes after: handlers are written in this monad
    as they are in the state monad, with [op] around every atomic operation. *)

Definition code (S A : Type) : Type := (A → prog S) → prog S.

#[export] Instance code_ret {S : Type} : MRet (code S) := λ A a k, k a.
#[export] Instance code_bind {S : Type} : MBind (code S) := λ A B f m k, m (λ a, f a k).

Definition op {S A : Type} (m : State S A) : code S A := act m.

(** A job is code that is run for its effects. *)
Definition job_prog {S A : Type} (c : code S A) : prog S := c (λ _, Done).

Lemma code_bind_run {S A B : Type} (c : code S A) (f : A → code S B) k : (c ≫= f) k = c (λ a, f a k).
Proof. done. Qed.

(** ** A logic of assertions other goroutines do not disturb *)

Section logic.
Context {S : Type} (I : S → Prop) (R : S → S → Prop).

(** [I] holds between any two operations, and every operation is within [R]; what
    a goroutine knows must withstand [R]. *)
Definition stable (K : S → Prop) : Prop := ∀ s s', R s s' → K s → K s'.

Fixpoint safe (K : S → Prop) (p : prog S) : Prop :=
  match p with
  | Done => True
  | Act f => ∀ s, I s → K s → I (f s).1 ∧ R s (f s).1 ∧ ∃ K', stable K' ∧ K' (f s).1 ∧ safe K' (f s).2
  end.

(** Knowing [K], the code can be run, and then [Q] of its result is known. *)
Definition triple {A : Type} (K : S → Prop) (c : code S A) (Q : A → S → Prop) : Prop :=
  ∀ k, (∀ a, safe (Q a) (k a)) → safe K (c k).

Lemma safe_weaken (K K' : S → Prop) p : (∀ s, K' s → K s) → safe K p → safe K' p.
Proof. intros HK. destruct p as [|f]; [done|]. intros H s Hs HKs. apply H; auto. Qed.

Lemma triple_op {A : Type} K (m : State S A) (Q : A → S → Prop) :
  (∀ a, stable (Q a)) → (∀ s, I s → K s → I (m s).2 ∧ R s (m s).2 ∧ Q (m s).1 (m s).2) → triple K (op m) Q.
Proof.
  intros HQ Hm k Hk s Hs HK. destruct (Hm s Hs HK) as (H1 & H2 & H3). destruct (m s) as [a s']. simpl in *.
  split_and!; [done..|]. exists (Q a). auto.
Qed.

Lemma triple_ret {A : Type} (a : A) (Q : A → S → Prop) : triple (Q a) (mret a) Q.
Proof. intros k Hk. apply Hk. Qed.

Lemma triple_ret_if {A : Type} K (a : A) (Q : A → S → Prop) : (∀ s, K s → Q a s) → triple K (mret a) Q.
Proof. intros H k Hk. eapply safe_weaken; [exact H|apply Hk]. Qed.

Lemma triple_bind {A B : Type} K (c : code S A) (f : A → code S B) (Q : A → S → Prop) (Q' : B → S → Prop) :
  triple K c Q → (∀ a, triple (Q a) (f a) Q') → triple K (c ≫= f) Q'.
Proof. intros Hc Hf k Hk. apply Hc. intros a. by apply Hf. Qed.

Lemma triple_weaken {A : Type} K K' (c : code S A) (Q Q' : A → S → Prop) :
  (∀ s, K' s → K s) → (∀ a s, Q a s → Q' a s) → triple K c Q → triple K' c Q'.
Proof. intros HK HQ Hc k Hk. eapply safe_weaken; [exact HK|]. apply Hc. intros a. eapply safe_weaken; [|apply Hk]. auto. Qed.

Lemma triple_pre {A : Type} (K K' : S → Prop) (c : code S A) Q : (∀ s, K' s → K s) → triple K c Q → triple K' c Q.
Proof. intros HK. by apply triple_weaken. Qed.

(** A pool of safe jobs keeps the invariant in every schedule. *)
Theorem logic_sound {J : Type} (prog_of : J → prog S) (same_loop : J → J → bool) (cs : list choice) (s : S) :
  (∀ j, safe (λ _, True) (prog_of j)) → I s → I (sys_state (schedule prog_of same_loop cs (mkSystem s []))).
Proof.
  intros Hj Hs.
  set (ok := λ σ : system, I (sys_state σ) ∧
    Forall (λ t : J * prog S, ∃ K, stable K ∧ K (sys_state σ) ∧ safe K t.2) (sys_threads σ)).
  assert (H : ok (schedule prog_of same_loop cs (mkSystem s []))); [|by destruct H].
  assert (H : ok (mkSystem s [])) by (by split). revert H. generalize (mkSystem (J := J) s []).
  unfold schedule. induction cs as [|c cs IH]; intros σ Hσ; [done|]. apply IH. clear IH.
  destruct Hσ as [Hi Ht]. destruct c as [j|i]; simpl.
  - destruct (may_start same_loop j σ); [|done]. split; [done|]. apply Forall_app. split; [done|]. apply Forall_singleton.
    exists (λ _, True). split_and!; [by intros ? ?|done|apply Hj].
  - destruct (sys_threads σ !! i) as [[j [|f]]|] eqn:Ei; [done| |done].
    destruct (Forall_lookup_1 _ _ _ _ Ht Ei) as (K & HK & HKs & Hsafe). destruct (Hsafe _ Hi HKs) as (H1 & H2 & K' & H3 & H4 & H5).
    destruct (f (sys_state σ)) as [s' p']. simpl in *. split; [done|]. apply Forall_insert; [|by exists K'].
    eapply Forall_impl; [exact Ht|]. intros t (K0 & H6 & H7 & H8). exists K0. split_and!; [done|by eapply H6|done].
Qed.
End logic.

Section logic_rules.
Context {S : Type} (I : S → Prop) (R : S → S → Prop).

Lemma triple_exists {X A : Type} (K : X → S → Prop) (c : code S A) Q :
  (∀ x, triple I R (K x) c Q) → triple I R (λ s, ∃ x, K x s) c Q.
Proof.
  intros H k Hk. assert (Hs : ∀ x, safe I R (K x) (c k)) by (intros x; by apply H).
  destruct (c k) as [|f]; [done|]. intros s HI [x Hx]. by apply (Hs x).
Qed.

Lemma triple_pure {A : Type} (P : Prop) (K : S → Prop) (c : code S A) Q :
  (P → triple I R K c Q) → triple I R (λ s, P ∧ K s) c Q.
Proof.
  intros H k Hk. assert (Hs : P → safe I R K (c k)) by (intros HP; by apply H).
  destruct (c k) as [|f]; [done|]. intros s HI [HP HK]. by apply Hs.
Qed.

Lemma stable_and (K K' : S → Prop) : stable R K → stable R K' → stable R (λ s, K s ∧ K' s).
Proof. intros H H' s s' HR [HK HK']. split; [by eapply H|by eapply H']. Qed.

Lemma stable_pure (P : Prop) : stable R (λ _, P).
Proof. by intros s s' _. Qed.

Lemma stable_exists {X : Type} (K : X → S → Prop) : (∀ x, stable R (K x)) → stable R (λ s, ∃ x, K x s).
Proof. intros H s s' HR [x Hx]. exists x. by eapply H. Qed.

Lemma stable_impl (P : Prop) (K : S → Prop) : stable R K → stable R (λ s, P → K s).
Proof. intros H s s' HR HK HP. by eapply H; [|apply HK]. Qed.
End logic_rules.
