(* ===== verification/GoString.v ===== *)
(** * Go strings

    The parts of Go's [strings], [strconv] and [unicode/utf8] packages the
    gateway uses, on [string] read as a sequence of bytes: prefixes, splitting,
    trimming, case mapping of ASCII keys, [ParseInt] at 64 bits, the number of
    runes of a byte string, and the byte order SQLite and Go compare with. *)

From S2P Require Import Prelude.

(** ** Bytes and substrings *)

Definition byte_at (s : string) (i : nat) : option Z :=
  Z.of_N ∘ N_of_ascii <$> String.get i s.

Definition bytes (s : string) : list Z :=
  Z.of_N ∘ N_of_ascii <$> String.list_ascii_of_string s.

Definition len (s : string) : Z := Z.of_nat (String.length s).

(** [s[i:]] and [s[:i]] for an index in range. *)
Definition str_from (i : nat) (s : string) : string :=
  String.substring i (String.length s - i) s.
Definition str_to (i : nat) (s : string) : string := String.substring 0 i s.

Definition has_prefix (p s : string) : bool := String.prefix p s.

Lemma has_prefix_app p s : has_prefix p (p +:+ s) = true.
Proof.
  unfold has_prefix. induction p as [|c p IH]; simpl; [by destruct s|].
  by destruct (Ascii.ascii_dec c c).
Qed.

Lemma substring_all s : String.substring 0 (String.length s) s = s.
Proof. induction s as [|c s IH]; [done|]. simpl. by rewrite IH. Qed.

Lemma str_from_app p s : str_from (String.length p) (p +:+ s) = s.
Proof.
  unfold str_from. induction p as [|c p IH]; simpl in *; [|done].
  rewrite Nat.sub_0_r. apply substring_all.
Qed.

(** [strings.TrimPrefix]. *)
Definition trim_prefix (p s : string) : string :=
  if has_prefix p s then str_from (String.length p) s else s.

(** [strings.Contains]. *)
Definition contains (s sub : string) : bool :=
  existsb (λ i, String.prefix sub (str_from i s)) (seq 0 (String.length s + 1)).

(** [strings.Split(s, sep)] for a separator of one byte. *)
Fixpoint split_aux (sep : ascii) (s : string) (cur : string) : list string :=
  match s with
  | EmptyString => [cur]
  | String c s' =>
      if Ascii.eqb c sep then cur :: split_aux sep s' ""
      else split_aux sep s' (cur +:+ String c "")
  end.
Definition split (sep : ascii) (s : string) : list string := split_aux sep s "".

Lemma string_app_nil_r s : s +:+ "" = s.
Proof. induction s as [|c s IH]; [done|]. exact (f_equal (String c) IH). Qed.

Lemma string_app_assoc s t u : (s +:+ t) +:+ u = s +:+ (t +:+ u).
Proof. induction s as [|c s IH]; [done|]. exact (f_equal (String c) IH). Qed.

Lemma string_app_cons x s t : String x s +:+ t = String x (s +:+ t).
Proof. done. Qed.

Lemma string_app_nil_l s : "" +:+ s = s.
Proof. done. Qed.

Lemma length_string_app a b : String.length (a +:+ b) = (String.length a + String.length b)%nat.
Proof. induction a as [|c a IH]; [done|]. simpl. f_equal. exact IH. Qed.

Lemma str_to_app a b : str_to (String.length a) (a +:+ b) = a.
Proof. induction a as [|c a IH]; [by destruct b|]. unfold str_to in *. simpl. by rewrite IH. Qed.

Lemma str_from_0 s : str_from 0 s = s.
Proof. unfold str_from. rewrite Nat.sub_0_r. apply substring_all. Qed.

Lemma str_from_S a c b : str_from (S (String.length a)) (a +:+ String c b) = b.
Proof.
  transitivity (str_from (String.length (a +:+ String c "")) ((a +:+ String c "") +:+ b)).
  - f_equal; [induction a as [|x a IH]; [done|exact (f_equal S IH)]|by rewrite string_app_assoc].
  - apply str_from_app.
Qed.

(** A string without the separator. *)
Fixpoint lacks (sep : ascii) (s : string) : bool :=
  match s with
  | EmptyString => true
  | String c s => negb (Ascii.eqb c sep) && lacks sep s
  end.

Lemma lacks_app c a b : lacks c (a +:+ b) = lacks c a && lacks c b.
Proof. induction a as [|x a IH]; [done|]. simpl. rewrite IH. by destruct (Ascii.eqb x c). Qed.

Lemma split_aux_app sep a rest cur :
  lacks sep a = true →
  split_aux sep (a +:+ String sep rest) cur = (cur +:+ a) :: split_aux sep rest "".
Proof.
  revert cur. induction a as [|c a IH]; intros cur Ha; simpl in *.
  - by rewrite Ascii.eqb_refl, string_app_nil_r.
  - bool_to_prop. rewrite H, (IH _ H0). f_equal. by rewrite string_app_assoc.
Qed.

Lemma split_aux_last sep a cur : lacks sep a = true → split_aux sep a cur = [cur +:+ a].
Proof.
  revert cur. induction a as [|c a IH]; intros cur Ha; simpl in *; [by rewrite string_app_nil_r|].
  bool_to_prop. rewrite H, (IH _ H0). f_equal. by rewrite string_app_assoc.
Qed.

(** The parts are what stands between the separators. *)
Lemma split_app sep a rest :
  lacks sep a = true → split sep (a +:+ String sep rest) = a :: split sep rest.
Proof. apply split_aux_app. Qed.

Lemma split_last sep a : lacks sep a = true → split sep a = [a].
Proof. apply split_aux_last. Qed.

(** [strings.SplitN(s, sep, 2)]. *)
Fixpoint split2_aux (sep : ascii) (s : string) (cur : string) : list string :=
  match s with
  | EmptyString => [cur]
  | String c s' =>
      if Ascii.eqb c sep then [cur; s'] else split2_aux sep s' (cur +:+ String c "")
  end.
Definition split2 (sep : ascii) (s : string) : list string := split2_aux sep s "".

Fixpoint map_string (f : ascii → ascii) (s : string) : string :=
  match s with EmptyString => "" | String c s' => String (f c) (map_string f s') end.

(** [strings.ReplaceAll(s, old, new)] for one-byte [old] and [new]. *)
Definition replace_char (old new : ascii) : string → string :=
  map_string (λ c, if Ascii.eqb c old then new else c).

Definition upper_ascii (c : ascii) : ascii :=
  let n := N_of_ascii c in
  if ((97 <=? n) && (n <=? 122))%N%bool then ascii_of_N (n - 32) else c.
Definition lower_ascii (c : ascii) : ascii :=
  let n := N_of_ascii c in
  if ((65 <=? n) && (n <=? 90))%N%bool then ascii_of_N (n + 32) else c.

(** [strings.ToUpper] and [strings.ToLower] on ASCII text. *)
Definition to_upper : string → string := map_string upper_ascii.
Definition to_lower : string → string := map_string lower_ascii.

(** ** [strings.TrimSpace]

    The encodings of the code points [unicode.IsSpace] accepts. *)

Definition of_bytes (l : list N) : string := String.string_of_list_ascii (ascii_of_N <$> l).

Definition space_encodings : list string :=
  [of_bytes [9]; of_bytes [10]; of_bytes [11]; of_bytes [12]; of_bytes [13]; of_bytes [32];
   of_bytes [194; 133]; of_bytes [194; 160]; of_bytes [225; 154; 128];
   of_bytes [226; 128; 128]; of_bytes [226; 128; 129]; of_bytes [226; 128; 130];
   of_bytes [226; 128; 131]; of_bytes [226; 128; 132]; of_bytes [226; 128; 133];
   of_bytes [226; 128; 134]; of_bytes [226; 128; 135]; of_bytes [226; 128; 136];
   of_bytes [226; 128; 137]; of_bytes [226; 128; 138]; of_bytes [226; 128; 168];
   of_bytes [226; 128; 169]; of_bytes [226; 128; 175]; of_bytes [226; 129; 159];
   of_bytes [227; 128; 128]]%N.

Definition has_suffix (p s : string) : bool :=
  (String.length p <=? String.length s)%nat &&
  String.eqb (str_from (String.length s - String.length p) s) p.

Fixpoint trim_left (fuel : nat) (s : string) : string :=
  match fuel with
  | O => s
  | S n =>
      match List.find (λ e, has_prefix e s) space_encodings with
      | Some e => trim_left n (str_from (String.length e) s)
      | None => s
      end
  end.

Fixpoint trim_right (fuel : nat) (s : string) : string :=
  match fuel with
  | O => s
  | S n =>
      match List.find (λ e, has_suffix e s) space_encodings with
      | Some e => trim_right n (str_to (String.length s - String.length e) s)
      | None => s
      end
  end.

(** Every step removes at least one byte: the length is enough fuel. *)
Definition trim_space (s : string) : string :=
  trim_right (String.length s) (trim_left (String.length s) s).

Example trim_space_ex : trim_space "  https://a.example  " = "https://a.example".
Proof. reflexivity. Qed.

(** ** [strconv.ParseInt(s, 10, 64)] and [strconv.Atoi] *)

Definition digit_of (c : ascii) : option Z :=
  let n := Z.of_N (N_of_ascii c) in
  if ((48 <=? n) && (n <=? 57))%bool then Some (n - 48) else None.

Fixpoint digits_aux (acc : Z) (s : string) : option Z :=
  match s with
  | EmptyString => Some acc
  | String c s' => d ← digit_of c; digits_aux (10 * acc + d) s'
  end.

Definition digits (s : string) : option Z :=
  match s with EmptyString => None | _ => digits_aux 0 s end.

(** [None] is a syntax or a range error; the caller treats both alike. *)
Definition parse_int64 (s : string) : option Z :=
  z ← match s with
      | String "+"%char s' => digits s'
      | String "-"%char s' => Z.opp <$> digits s'
      | _ => digits s
      end;
  if bool_decide (- two63 ≤ z < two63) then Some z else None.

Example parse_int64_ex :
  (parse_int64 "42", parse_int64 "-7", parse_int64 "", parse_int64 "1_0",
   parse_int64 "9223372036854775808") = (Some 42, Some (-7), None, None, None).
Proof. vm_compute. reflexivity. Qed.

Lemma parse_int64_range s z : parse_int64 s = Some z → - two63 ≤ z < two63.
Proof.
  unfold parse_int64. intros (z' & _ & H)%bind_Some. by case_bool_decide; simplify_eq.
Qed.

(** ** Runes

    [rune_width] is the number of bytes [utf8.DecodeRune] consumes at the start
    of a non-empty byte sequence: 1 for an ASCII byte and for an invalid byte. *)

Definition cont (lo hi b : Z) : bool := (lo <=? b) && (b <=? hi).

Definition rune_width (l : list Z) : nat :=
  (match l with
  | b0 :: b1 :: rest =>
      if cont 194 223 b0 && cont 128 191 b1 then 2%nat
      else match rest with
      | b2 :: rest' =>
          if cont 128 191 b2 &&
             ((b0 =? 224) && cont 160 191 b1 || cont 225 236 b0 && cont 128 191 b1 ||
              (b0 =? 237) && cont 128 159 b1 || cont 238 239 b0 && cont 128 191 b1) then 3%nat
          else match rest' with
          | b3 :: _ =>
              if cont 128 191 b2 && cont 128 191 b3 &&
                 ((b0 =? 240) && cont 144 191 b1 || cont 241 243 b0 && cont 128 191 b1 ||
                  (b0 =? 244) && cont 128 143 b1) then 4%nat
              else 1%nat
          | [] => 1%nat
          end
      | [] => 1%nat
      end
  | _ => 1%nat
  end)%bool.

Fixpoint rune_count_aux (fuel : nat) (l : list Z) : Z :=
  match fuel, l with
  | O, _ | _, [] => 0
  | S n, _ => 1 + rune_count_aux n (drop (rune_width l) l)
  end.

(** [len([]rune(s))]. *)
Definition rune_count (s : string) : Z := rune_count_aux (String.length s) (bytes s).

Lemma rune_width_bounds l : (1 ≤ rune_width l ≤ 4)%nat.
Proof. unfold rune_width. repeat split_match; lia. Qed.

Lemma length_bytes s : List.length (bytes s) = String.length s.
Proof. unfold bytes. rewrite length_fmap. induction s; simpl; congruence. Qed.

Lemma rune_count_aux_bounds n l :
  (List.length l ≤ n)%nat →
  rune_count_aux n l ≤ Z.of_nat (List.length l) ≤ 4 * rune_count_aux n l.
Proof.
  revert l. induction n as [|n IH]; intros l Hl.
  - destruct l; simpl in *; lia.
  - destruct l as [|b l]; [simpl; lia|]. cbn [rune_count_aux].
    set (w := rune_width (b :: l)). pose proof (rune_width_bounds (b :: l)) as Hw. fold w in Hw.
    specialize (IH (drop w (b :: l))). rewrite length_drop in IH. cbn [List.length] in *. lia.
Qed.

(** The runes of a byte sequence as [for _, r := range s] gives them, each as the
    bytes of [string(r)]: an invalid byte becomes U+FFFD. *)
Fixpoint rune_chunks (fuel : nat) (l : list Z) : list (list Z) :=
  match fuel, l with
  | S n, b :: _ =>
      let w := rune_width l in
      (if (w =? 1)%nat && (128 <=? b) then [239; 191; 189] else take w l)
      :: rune_chunks n (drop w l)
  | _, _ => []
  end.

Definition runes (s : string) : list (list Z) := rune_chunks (String.length s) (bytes s).

Definition string_of_bytes (l : list Z) : string := of_bytes (Z.to_N <$> l).

(** No byte of the string is replaced. *)
Definition valid_utf8 (s : string) : Prop := mjoin (runes s) = bytes s.
#[export] Instance valid_utf8_dec s : Decision (valid_utf8 s).
Proof. unfold valid_utf8. apply _. Defined.

Lemma string_of_bytes_bytes s : string_of_bytes (bytes s) = s.
Proof.
  unfold string_of_bytes, of_bytes, bytes. rewrite <- !list_fmap_compose.
  rewrite <- (String.string_of_list_ascii_of_string s) at 2. f_equal.
  rewrite <- (list_fmap_id (String.list_ascii_of_string s)) at 2. apply list_fmap_ext.
  intros i c _. unfold compose. by rewrite N2Z.id, ascii_N_embedding.
Qed.

Definition is_byte (b : Z) : Prop := 0 ≤ b < 256.

Lemma bytes_string_of_bytes l : Forall is_byte l → bytes (string_of_bytes l) = l.
Proof.
  intros Hl. unfold bytes, string_of_bytes, of_bytes. rewrite String.list_ascii_of_string_of_list_ascii.
  rewrite <- !list_fmap_compose. rewrite <- (list_fmap_id l) at 2. apply list_fmap_ext. intros i b Hb.
  apply list_elem_of_lookup_2 in Hb. rewrite Forall_forall in Hl. specialize (Hl b Hb).
  unfold is_byte in Hl. unfold compose. rewrite N_ascii_embedding by lia. simpl. lia.
Qed.

Lemma bytes_range s : Forall is_byte (bytes s).
Proof.
  unfold bytes. apply Forall_fmap, Forall_forall. intros c _. unfold compose, is_byte.
  pose proof (N_ascii_bounded c). lia.
Qed.

Lemma bytes_app s t : bytes (s +:+ t) = bytes s ++ bytes t.
Proof. induction s as [|c s IH]; [done|]. exact (f_equal (cons _) IH). Qed.

Lemma rune_chunks_range n l : Forall is_byte l → Forall is_byte (mjoin (rune_chunks n l)).
Proof.
  revert l. induction n as [|n IH]; intros [|b l] Hl; try by constructor.
  cbn [rune_chunks]. set (c := if (_ : bool) then _ else _). set (cs := rune_chunks n _).
  change (mjoin (c :: cs)) with (c ++ mjoin cs). apply Forall_app_2.
  - subst c. case_match; [repeat constructor; unfold is_byte; lia|by apply Forall_take].
  - apply IH. by apply Forall_drop.
Qed.

Lemma rune_width_multi l : (1 < rune_width l)%nat → Forall (λ b, 128 ≤ b) (take (rune_width l) l).
Proof.
  intros H. assert (Hc : ∀ lo hi b, cont lo hi b = true → lo ≤ b).
  { unfold cont. intros lo hi b Hb. bool_to_prop. lia. }
  destruct l as [|b0 [|b1 rest]]; try (simpl in H; lia). unfold rune_width in *.
  repeat (case_match; simplify_eq; bool_to_prop; try lia); simpl;
    repeat match goal with
    | H : (_ || _)%bool = true |- _ => apply orb_true_iff in H as [H|H]
    | H : (_ && _)%bool = true |- _ => apply andb_true_iff in H as [? ?]
    | H : (_ =? _) = true |- _ => apply Z.eqb_eq in H
    | H : cont _ _ _ = true |- _ => apply Hc in H
    end; repeat constructor; lia.
Qed.

(** A rune is one ASCII byte, or several bytes that are not ASCII. *)
Lemma rune_chunks_ok n l :
  Forall (λ c, (∃ b, c = [b] ∧ b < 128) ∨ (c ≠ [] ∧ Forall (λ b, 128 ≤ b) c)) (rune_chunks n l).
Proof.
  revert l. induction n as [|n IH]; intros [|b l]; cbn [rune_chunks]; constructor; [|apply IH].
  pose proof (rune_width_multi (b :: l)) as Hm. pose proof (rune_width_bounds (b :: l)) as Hb.
  set (w := rune_width (b :: l)) in *. clearbody w. destruct (Nat.eqb_spec w 1) as [->|Hn]; simpl.
  - destruct (Z.leb_spec 128 b); [right|left]; [|by eexists]. split; [done|]. repeat constructor; lia.
  - right. split; [|apply Hm; lia]. by destruct w; [lia|].
Qed.

(** A string has at most as many runes as bytes, and at most four bytes a rune. *)
Lemma rune_count_bounds s : rune_count s ≤ len s ≤ 4 * rune_count s.
Proof.
  unfold rune_count, len. rewrite <- length_bytes. apply rune_count_aux_bounds. lia.
Qed.

Example rune_count_ex :
  (rune_count "hello", rune_count (of_bytes [206; 188; 115]%N), rune_count (of_bytes [255; 65]%N))
  = (5, 2, 2).
Proof. vm_compute. reflexivity. Qed.

(** ** Byte order on strings, and on pairs and triples of them *)

Definition str_le (s t : string) : Prop := String.leb s t = true.
#[export] Instance str_le_dec : RelDecision str_le.
Proof. intros s t. unfold str_le. apply _. Defined.

Lemma string_compare_refl s : String.compare s s = Eq.
Proof. induction s as [|c s IH]; [done|]. simpl. unfold Ascii.compare. by rewrite N.compare_refl. Qed.

#[export] Instance str_le_total : Total str_le.
Proof.
  intros s t. unfold str_le. destruct (String.leb_total s t) as [->| ->]; auto.
Qed.

#[export] Instance str_le_refl : Reflexive str_le.
Proof. intros s. destruct (str_le_total s s); done. Qed.

#[export] Instance str_le_antisym : AntiSymm (=) str_le.
Proof.
  intros s t Hst Hts. by apply String.leb_antisym.
Qed.

#[export] Instance str_le_trans : Transitive str_le.
Proof.
  intros s. unfold str_le, String.leb. induction s as [|a s IH]; intros [|b t] [|c u]; simpl;
    try done; unfold Ascii.compare.
  destruct (N.compare_spec (N_of_ascii a) (N_of_ascii b)) as [E1|E1|E1]; [| |done];
    destruct (N.compare_spec (N_of_ascii b) (N_of_ascii c)) as [E2|E2|E2]; try done; intros H1 H2.
  - rewrite E1, E2, N.compare_refl. by apply (IH t).
  - by rewrite E1, (proj2 (N.compare_lt_iff _ _) E2).
  - by rewrite <- E2, (proj2 (N.compare_lt_iff _ _) E1).
  - by rewrite (proj2 (N.compare_lt_iff _ _) (N.lt_trans _ _ _ E1 E2)).
Qed.
