(* ===== verification/GoTime.v ===== *)
(** * Go's [time] package, as far as the gateway uses it

    Durations are nanoseconds in an [int64]; [parse_duration] is
    [time.ParseDuration] with its overflow checks and its [float64] step for
    fractions (IEEE binary64 from [SpecFloat]).  Instants are nanoseconds since
    the Unix epoch, unbounded; [unix_nano] wraps them to an [int64] as
    [Time.UnixNano] does. *)

From Stdlib Require Import SpecFloat.
From S2P Require Import Prelude GoString.

(** ** IEEE binary64 *)

Abbreviation f64 := spec_float.

Definition f64_of_Z (z : Z) : f64 := binary_normalize 53 1024 z 0 false.
Definition f64_mul : f64 → f64 → f64 := SFmul 53 1024.
Definition f64_add : f64 → f64 → f64 := SFadd 53 1024.
Definition f64_sub : f64 → f64 → f64 := SFsub 53 1024.
Definition f64_div : f64 → f64 → f64 := SFdiv 53 1024.
Definition f64_ltb : f64 → f64 → bool := SFltb.
Definition f64_eqb : f64 → f64 → bool := SFeqb.

(** Conversion to an integer type drops the fraction; what is not finite
    converts to the smallest [int64], as on amd64. *)
Definition f64_trunc (x : f64) : Z :=
  match x with
  | S754_zero _ => 0
  | S754_finite s m e =>
      let a := if 0 <=? e then Z.pos m * 2 ^ e else Z.pos m / 2 ^ (- e) in
      if s then - a else a
  | _ => - two63
  end.

Definition f64_to_int64 (x : f64) : Z :=
  let z := f64_trunc x in
  if bool_decide (- two63 ≤ z < two63) then z else - two63.

Definition f64_quarter : f64 := f64_div (f64_of_Z 1) (f64_of_Z 4).

(** ** Durations *)

Definition Nanosecond : Z := 1.
Definition Millisecond : Z := 1000000.
Definition Second : Z := 1000000000.
Definition Minute : Z := 60 * Second.
Definition Hour : Z := 3600 * Second.

(** The units [ParseDuration] knows; the micro sign has two encodings. *)
Definition unit_map (u : string) : option Z :=
  if String.eqb u "ns" then Some 1
  else if String.eqb u "us" then Some 1000
  else if String.eqb u (of_bytes [194; 181; 115]%N) then Some 1000
  else if String.eqb u (of_bytes [206; 188; 115]%N) then Some 1000
  else if String.eqb u "ms" then Some Millisecond
  else if String.eqb u "s" then Some Second
  else if String.eqb u "m" then Some Minute
  else if String.eqb u "h" then Some Hour
  else None.

(** [leadingInt]: [None] on overflow past 2^63. *)
Fixpoint leading_int (x : Z) (s : string) : option (Z * string) :=
  match s with
  | EmptyString => Some (x, s)
  | String c s' =>
      match digit_of c with
      | None => Some (x, s)
      | Some d =>
          if two63 / 10 <? x then None
          else let x' := x * 10 + d in
               if two63 <? x' then None else leading_int x' s'
      end
  end.

(** [leadingFraction]: digits past the overflow are read and ignored. *)
Fixpoint leading_fraction (x : Z) (scale : f64) (overflow : bool) (s : string)
    : Z * f64 * string :=
  match s with
  | EmptyString => (x, scale, s)
  | String c s' =>
      match digit_of c with
      | None => (x, scale, s)
      | Some d =>
          if overflow then leading_fraction x scale true s'
          else if (two63 - 1) / 10 <? x then leading_fraction x scale true s'
          else let y := x * 10 + d in
               if two63 <? y then leading_fraction x scale true s'
               else leading_fraction y (f64_mul scale (f64_of_Z 10)) false s'
      end
  end.

Definition is_dot_or_digit (c : ascii) : bool :=
  Ascii.eqb c "." || match digit_of c with Some _ => true | None => false end.

Fixpoint unit_end (s : string) : nat :=
  match s with
  | EmptyString => 0
  | String c s' => if is_dot_or_digit c then 0 else S (unit_end s')
  end.

(** One [number unit] group: its value, and the rest of the input. *)
Definition duration_group (s : string) : option (Z * string) :=
  match s with
  | EmptyString => None
  | String c _ =>
      if negb (is_dot_or_digit c) then None else
      '(v, s1) ← leading_int 0 s;
      let pre := negb (String.length s1 =? String.length s)%nat in
      let '(f, scale, s2, post) :=
        match s1 with
        | String "."%char s1' =>
            let '(f, scale, s2) := leading_fraction 0 (f64_of_Z 1) false s1' in
            (f, scale, s2, negb (String.length s2 =? String.length s1')%nat)
        | _ => (0, f64_of_Z 1, s1, false)
        end in
      if negb (pre || post) then None else
      let i := unit_end s2 in
      if (i =? 0)%nat then None else
      unit ← unit_map (str_to i s2);
      if two63 / unit <? v then None else
      let v := v * unit in
      let v := if 0 <? f
               then uint64 (v + f64_trunc (f64_mul (f64_of_Z f) (f64_div (f64_of_Z unit) scale)))
               else v in
      if two63 <? v then None else Some (v, str_from i s2)
  end.

Fixpoint duration_groups (fuel : nat) (d : Z) (s : string) : option Z :=
  match s, fuel with
  | EmptyString, _ => Some d
  | _, O => None
  | _, S n =>
      '(v, s') ← duration_group s;
      let d := uint64 (d + v) in
      if two63 <? d then None else duration_groups n d s'
  end.

(** What follows the sign.  Every group consumes input, so the length of the
    string is enough fuel. *)
Definition parse_unsigned (neg : bool) (s : string) : option Z :=
  if String.eqb s "0" then Some 0
  else if String.eqb s "" then None
  else d ← duration_groups (String.length s) 0 s;
       if neg then Some (- d) else if two63 - 1 <? d then None else Some d.

(** [time.ParseDuration]: [None] is its error. *)
Definition parse_duration (s : string) : option Z :=
  let '(neg, s) :=
    match s with
    | String "-"%char s' => (true, s')
    | String "+"%char s' => (false, s')
    | _ => (false, s)
    end in
  parse_unsigned neg s.

Example parse_duration_ex :
  (parse_duration "30s", parse_duration "1.5h", parse_duration "-250ms", parse_duration "1m30s",
   parse_duration "10", parse_duration "", parse_duration "9223372036854775808ns")
  = (Some (30 * Second), Some (5400 * Second), Some (-250 * Millisecond), Some (90 * Second),
     None, None, None).
Proof. vm_compute. reflexivity. Qed.

(** A parsed duration is an [int64]. *)
Lemma duration_groups_bound n d s r :
  0 ≤ d ≤ two63 → duration_groups n d s = Some r → 0 ≤ r ≤ two63.
Proof.
  revert d s. induction n as [|n IH]; intros d [|c s] Hd; cbn [duration_groups];
    [by intros [= <-]|done|by intros [= <-]|].
  intros ([v s'] & _ & H)%bind_Some. split_match_in H; [done|].
  eapply IH; [|done]. bool_to_prop.
  pose proof (wrap_u_range 64 (d + v) ltac:(lia)) as []. lia.
Qed.

Lemma parse_unsigned_range neg s d : parse_unsigned neg s = Some d → - two63 ≤ d < two63.
Proof.
  unfold parse_unsigned. destruct (String.eqb s "0"); [intros [= <-]; unfold two63; lia|].
  destruct (String.eqb s ""); [done|].
  intros (r & Hr%duration_groups_bound & Hd)%bind_Some; [|unfold two63; lia].
  destruct neg; [simplify_eq; unfold two63 in *; lia|].
  destruct (two63 - 1 <? r) eqn:Hlt; [done|]. simplify_eq. bool_to_prop. lia.
Qed.

Lemma parse_duration_range s d : parse_duration s = Some d → - two63 ≤ d < two63.
Proof. unfold parse_duration. repeat split_match; apply parse_unsigned_range. Qed.

(** ** Instants *)

Definition time := Z.

(** The zero [time.Time], January 1 of year 1 UTC. *)
Definition zero_time : time := -62135596800 * Second.
Definition is_zero (t : time) : bool := t =? zero_time.

(** [Time.Unix], [Time.UnixMilli], [Time.UnixNano]. *)
Definition unix_sec (t : time) : Z := t / Second.
Definition unix_milli (t : time) : Z := int64 (t / Millisecond).
Definition unix_nano (t : time) : Z := int64 t.

(** [time.Unix(sec, 0)] and [time.Unix(0, nsec)]. *)
Definition time_of_sec (s : Z) : time := s * Second.
Definition time_of_nano (n : Z) : time := n.

(** [UnixNano] of an instant outside the years 1678 to 2262 wraps. *)
Lemma unix_nano_zero_time : unix_nano zero_time = -6795364578871345152.
Proof. vm_compute. reflexivity. Qed.

Lemma unix_nano_id t : in_s 64 t → unix_nano t = t.
Proof. intros. by apply wrap_s_small. Qed.
