(* ===== verification/Rfc3339.v ===== *)
(** * Dates and [time.Parse] of the RFC 3339 layout

    The proleptic Gregorian calendar as [time.Date] has it, and the parser the
    history API applies to its bounds, with what it accepts beyond the RFC: an
    hour of one digit, a comma before the fraction, offsets up to 24:60. *)

From S2P Require Import Prelude GoString GoTime.

(** ** The calendar *)

Definition leap (y : Z) : bool := (y mod 4 =? 0) && (negb (y mod 100 =? 0) || (y mod 400 =? 0)).

Definition days_in (m y : Z) : Z :=
  if m =? 2 then (if leap y then 29 else 28)
  else if (m =? 4) || (m =? 6) || (m =? 9) || (m =? 11) then 30 else 31.

Definition valid_date (y m d : Z) : Prop := 1 ≤ m ≤ 12 ∧ 1 ≤ d ≤ days_in m y.

Definition next_date (y m d : Z) : Z * Z * Z :=
  if d <? days_in m y then (y, m, d + 1) else if m <? 12 then (y, m + 1, 1) else (y + 1, 1, 1).

(** Days since 1970-01-01, counting years from March. *)
Definition march_year (y m : Z) : Z := if m <=? 2 then y - 1 else y.
Definition days_before (m : Z) : Z := (153 * ((m + 9) mod 12) + 2) / 5.
Definition days_before_year (y : Z) : Z := 365 * y + y / 4 - y / 100 + y / 400.
Definition days_from_civil (y m d : Z) : Z :=
  days_before_year (march_year y m) + days_before m + d - 1 - 719468.

Example epoch : days_from_civil 1970 1 1 = 0.
Proof. reflexivity. Qed.

Lemma div_step y k : 0 < k → y / k = (y - 1) / k + (if y mod k =? 0 then 1 else 0).
Proof.
  intros Hk. pose proof (Z.div_mod y k ltac:(lia)). pose proof (Z.mod_pos_bound y k Hk).
  destruct (Z.eqb_spec (y mod k) 0) as [E|E].
  - rewrite <- (Z.div_unique (y - 1) k (y / k - 1) (k - 1)); lia.
  - rewrite <- (Z.div_unique (y - 1) k (y / k) (y mod k - 1)); lia.
Qed.

Lemma year_length y :
  days_before_year y = days_before_year (y - 1) + (if leap y then 366 else 365).
Proof.
  unfold days_before_year.
  rewrite (div_step y 4), (div_step y 100), (div_step y 400) by lia. unfold leap.
  assert (H1 : y mod 400 = 0 → y mod 100 = 0).
  { rewrite !Z.mod_divide by lia. intros [k ->]. exists (k * 4). lia. }
  assert (H2 : y mod 100 = 0 → y mod 4 = 0).
  { rewrite !Z.mod_divide by lia. intros [k ->]. exists (k * 25). lia. }
  destruct (Z.eqb_spec (y mod 4) 0), (Z.eqb_spec (y mod 100) 0), (Z.eqb_spec (y mod 400) 0); simpl;
    try lia; tauto.
Qed.

Lemma days_in_pos m y : 1 ≤ days_in m y.
Proof. unfold days_in. repeat case_match; lia. Qed.

Lemma month_step y m : 1 ≤ m < 12 → m ≠ 2 →
  march_year y (m + 1) = march_year y m ∧ days_before (m + 1) = days_before m + days_in m y.
Proof.
  intros Hm H2.
  assert (Hc : m = 1 ∨ m = 3 ∨ m = 4 ∨ m = 5 ∨ m = 6 ∨ m = 7 ∨ m = 8 ∨ m = 9 ∨ m = 10 ∨ m = 11) by lia.
  repeat (destruct Hc as [->|Hc]); try subst m; by split.
Qed.

(** The days are counted without a gap. *)
Theorem days_from_civil_next (y m d : Z) : valid_date y m d →
  let '(y', m', d') := next_date y m d in
  valid_date y' m' d' ∧ days_from_civil y' m' d' = days_from_civil y m d + 1.
Proof.
  intros [Hm Hd]. unfold next_date. pose proof (days_in_pos (m + 1) y). pose proof (days_in_pos 1 (y + 1)).
  destruct (Z.ltb_spec d (days_in m y)) as [Hlt|Hge].
  { split; [split; lia|]. unfold days_from_civil. lia. }
  assert (d = days_in m y) as -> by lia. clear Hd Hge. pose proof (year_length y) as Hy.
  destruct (Z.ltb_spec m 12) as [Hm'|Hm']; (split; [split; lia|]); unfold days_from_civil.
  - destruct (decide (m = 2)) as [->|H2].
    + change (march_year y (2 + 1)) with y. change (march_year y 2) with (y - 1).
      change (days_before (2 + 1)) with 0. change (days_before 2) with 337.
      change (days_in 2 y) with (if leap y then 29 else 28). rewrite Hy. destruct (leap y); lia.
    + destruct (month_step y m) as [-> ->]; lia.
  - assert (m = 12) as -> by lia. change (march_year (y + 1) 1) with (y + 1 - 1).
    replace (y + 1 - 1) with y by lia. change (march_year y 12) with y. change (days_in 12 y) with 31.
    change (days_before 1) with 306. change (days_before 12) with 275. lia.
Qed.

(** ** The parser *)

(** [getnum]: two digits, or one where the layout allows it. *)
Definition getnum (fixed : bool) (s : string) : option (Z * string) :=
  match s with
  | String a rest =>
      x ← digit_of a;
      match rest with
      | String b rest' =>
          match digit_of b with
          | Some y => Some (10 * x + y, rest')
          | None => if fixed then None else Some (x, rest)
          end
      | "" => if fixed then None else Some (x, "")
      end
  | "" => None
  end.

Definition skip (c : ascii) (s : string) : option string :=
  match s with String a rest => if Ascii.eqb a c then Some rest else None | "" => None end.

Definition in_range (lo hi z : Z) : option unit := if (lo <=? z) && (z <=? hi) then Some tt else None.

Fixpoint digit_prefix (s : string) : string * string :=
  match s with
  | String a rest =>
      match digit_of a with
      | Some _ => let '(ds, r) := digit_prefix rest in (String a ds, r)
      | None => ("", s)
      end
  | "" => ("", "")
  end.

(** The fraction of a second in nanoseconds: nine digits count. *)
Definition fraction (s : string) : Z * string :=
  match s with
  | String c rest =>
      if Ascii.eqb c "." || Ascii.eqb c "," then
        let '(ds, r) := digit_prefix rest in
        match ds with
        | "" => (0, s)
        | _ => let ds := str_to 9 ds in
               (default 0 (digits ds) * 10 ^ (9 - Z.of_nat (String.length ds)), r)
        end
      else (0, s)
  | "" => (0, s)
  end.

(** The offset in seconds; nothing may follow it. *)
Definition zone (s : string) : option Z :=
  match s with
  | "Z" => Some 0
  | String sign rest =>
      '(hr, rest) ← getnum true rest;
      rest ← skip ":" rest;
      '(mm, rest) ← getnum true rest;
      _ ← in_range 0 24 hr;
      _ ← in_range 0 60 mm;
      match rest with
      | "" => if Ascii.eqb sign "+" then Some ((hr * 60 + mm) * 60)
              else if Ascii.eqb sign "-" then Some (- ((hr * 60 + mm) * 60)) else None
      | _ => None
      end
  | "" => None
  end.

(** [time.Parse(time.RFC3339, s)]. *)
Definition parse_rfc3339 (s : string) : option time :=
  '(y1, s) ← getnum true s;
  '(y2, s) ← getnum true s;
  let year := 100 * y1 + y2 in
  s ← skip "-" s;
  '(month, s) ← getnum true s;
  _ ← in_range 1 12 month;
  s ← skip "-" s;
  '(day, s) ← getnum true s;
  s ← skip "T" s;
  '(hour, s) ← getnum false s;
  _ ← in_range 0 23 hour;
  s ← skip ":" s;
  '(minute, s) ← getnum true s;
  _ ← in_range 0 59 minute;
  s ← skip ":" s;
  '(second, s) ← getnum true s;
  _ ← in_range 0 59 second;
  let '(nsec, s) := fraction s in
  offset ← zone s;
  _ ← in_range 1 (days_in month year) day;
  Some ((days_from_civil year month day * 86400 + hour * 3600 + minute * 60 + second - offset) * Second + nsec).

Lemma zero_time_date : zero_time = days_from_civil 1 1 1 * 86400 * Second.
Proof. reflexivity. Qed.

Example parse_examples :
  (parse_rfc3339 "1970-01-01T00:00:01Z", parse_rfc3339 "2026-01-01T01:00:00.5+01:00",
   parse_rfc3339 "0001-01-01T00:00:00Z", parse_rfc3339 "2025-02-29T00:00:00Z", parse_rfc3339 "not-a-date",
   parse_rfc3339 "1970-01-01T0:00:00,25Z", parse_rfc3339 "1970-01-01T00:00:00") =
  (Some 1000000000, Some 1767225600500000000, Some zero_time, None, None, Some 250000000, None).
Proof. vm_compute. reflexivity. Qed.
