(* ===== verification/GoError.v ===== *)
(** * Values of type [any], formatted text and errors

    [value] is a dynamically typed Go value, one constructor per type the
    gateway switches on.  [text] is a formatted string kept as its format and
    arguments.  [error] is Go's error tree: [errors.New] sentinels, errors made
    outside the repository, [fmt.Errorf] with its [%w] operands, and
    [errors.Join]. *)

From S2P Require Import Prelude.

Set Warnings "-register-all".

(** ** [any]

    Integers are kept at their width as [Z]; floats as their IEEE bit pattern.
    [VList] and [VObj] are what [encoding/json] decodes arrays and objects to;
    [VPtr] is a pointer to an [any] (what [new(any)] returns); [VTime] is a
    [time.Time], in nanoseconds since the epoch. *)
Inductive value :=
| VNil
| VBool (b : bool)
| VInt8 (z : Z) | VInt16 (z : Z) | VInt32 (z : Z) | VInt64 (z : Z)
| VUint8 (z : Z) | VUint16 (z : Z) | VUint32 (z : Z) | VUint64 (z : Z)
| VFloat32 (bits : Z) | VFloat64 (bits : Z)
| VString (s : string)
| VList (vs : list value)
| VObj (kvs : list (string * value))
| VPtr (v : value)
| VTime (t : Z).

Definition value_is_nil (v : value) : bool := match v with VNil => true | _ => false end.

(** A value of one of the twelve scalar types is in the range of its type. *)
Definition value_ok (v : value) : Prop :=
  match v with
  | VInt8 z => in_s 8 z | VInt16 z => in_s 16 z | VInt32 z => in_s 32 z | VInt64 z => in_s 64 z
  | VUint8 z => in_u 8 z | VUint16 z => in_u 16 z | VUint32 z => in_u 32 z
  | VUint64 z => in_u 64 z | VFloat32 b => in_u 32 b | VFloat64 b => in_u 64 b
  | _ => True
  end.

(** ** Sentinel errors *)

(** The registry of [internal/errors]. *)
Inductive project_error :=
| ErrConfigInvalid | ErrConfigMissing | ErrConfigPermission
| ErrDataDirInvalid | ErrDataDirPermission
| ErrCheckFailed
| ErrPLCConnect | ErrPLCRead | ErrPLCWrite | ErrPLCTimeout
| ErrMQTTConnect | ErrMQTTPublish | ErrMQTTSubscribe
| ErrSparkplugEncode
| ErrMaxAttempts.

Inductive sentinel :=
| Project (e : project_error)
(* plc, plcstore, aclstore *)
| ErrManagerPLCNotFound
| ErrPLCNotFound | ErrPLCAlreadyExists
| ErrRuleNotFound | ErrRuleAlreadyExists | ErrInvalidRole
(* auth, historian *)
| ErrUserNotFound | ErrUserAlreadyExists
| ErrPasswordTooShort | ErrPasswordTooLong
| ErrTokenExpired | ErrTokenInvalid
| ErrWriterBusy
(* the standard library *)
| CtxCanceled | CtxDeadlineExceeded | IoEOF | ErrServerClosed.

#[export] Instance project_error_eq_dec : EqDecision project_error.
Proof. solve_decision. Defined.
#[export] Instance sentinel_eq_dec : EqDecision sentinel.
Proof. solve_decision. Defined.

Coercion Project : project_error >-> sentinel.

(** ** Errors made outside the repository

    What the code can observe of one: its text, the sentinels [errors.Is] finds
    in its chain, the first [net.Error] of its chain with its [Timeout()], and
    whether [errors.As] finds a [*gologix.CIPError] or a [*net.OpError]. *)
Record foreign := Foreign {
  f_text : string;
  f_is : list sentinel;
  f_net : option bool;
  f_cip : bool;
  f_op : bool;
}.

Definition plain_error (msg : string) : foreign := Foreign msg [] None false false.

(** ** Formatted text and errors *)

(** An operand of a formatting verb: [%s]/[%q] of a string, [%d] of an integer,
    [%v] of a value, of a list of strings or of an error, and the wrapped error
    of a [%w]. *)
Inductive fmt_arg (E : Type) :=
| FStr (s : string)
| FInt (z : Z)
| FVal (v : value)
| FStrs (ss : list string)
| FErr (e : E)
| FWrap (e : E).
Arguments FStr {E} s.
Arguments FInt {E} z.
Arguments FVal {E} v.
Arguments FStrs {E} ss.
Arguments FErr {E} e.
Arguments FWrap {E} e.

Inductive error :=
| Sentinel (s : sentinel)
| EForeign (f : foreign)
| Errorf (format : string) (args : list (fmt_arg error))
| Join (errs : list error).

(** A string the code builds: [Fmt format args] is [fmt.Sprintf format args],
    [ErrText e] is [e.Error()], [Cat] is concatenation. *)
Inductive text :=
| Lit (s : string)
| Fmt (format : string) (args : list (fmt_arg error))
| ErrText (e : error)
| Cat (a b : text).

(** [errors.Is(err, target)] for a sentinel target and a non-nil [err]. *)
Fixpoint is_error (target : sentinel) (e : error) : bool :=
  match e with
  | Sentinel s => bool_decide (s = target)
  | EForeign f => existsb (λ s, bool_decide (s = target)) (f_is f)
  | Errorf _ args =>
      existsb (λ a, match a with FWrap e' => is_error target e' | _ => false end) args
  | Join errs => existsb (is_error target) errs
  end.

(** [errors.Is] on a possibly nil error. *)
Definition errors_is (target : sentinel) (e : option error) : bool :=
  match e with Some e => is_error target e | None => false end.

(** [errors.Join(errs...)] of non-nil errors: nil when there is none. *)
Definition errors_join (errs : list error) : option error :=
  match errs with [] => None | _ => Some (Join errs) end.

(** The errors a joined error is made of. *)
Definition constituents (e : error) : list error :=
  match e with Join errs => errs | _ => [e] end.

Lemma errors_join_is target errs :
  errors_is target (errors_join errs) = existsb (is_error target) errs.
Proof. by destruct errs. Qed.

Lemma is_error_wrap target fmt args e :
  FWrap e ∈ args → is_error target e = true → is_error target (Errorf fmt args) = true.
Proof.
  intros Hin He. simpl. apply existsb_elem. by exists (FWrap e).
Qed.

Lemma is_error_sentinel s : is_error s (Sentinel s) = true.
Proof. simpl. by apply bool_decide_eq_true_2. Qed.
#[export] Hint Rewrite errors_join_is is_error_sentinel : lgb_simpl.

(** The result of a Go function that returns a value and an error. *)
Abbreviation result A := (A + error)%type.

Definition map_result {A B : Type} (f : A → B) (r : result A) : result B :=
  match r with inl a => inl (f a) | inr e => inr e end.

(** An error of outside code returned as it is. *)
Definition foreign_result {A : Type} (r : A + foreign) : result A :=
  match r with inl a => inl a | inr f => inr (EForeign f) end.
