(* ===== verification/Config.v ===== *)
(** * [internal/config]: the typed configuration, its validation and redaction

    The sections of [lgb.yaml] as records, [ValidatePLC] and [Config.Validate]
    as the lists of violations they collect, declarative specifications of a
    valid entry and of a valid configuration, and [Redacted] on a store of
    slices, where the aliasing of its shallow copy shows. *)

From S2P Require Import Prelude GoString GoTime GoError.

(** ** The schema

    [config R] is [Config] with the slice of backup repositories represented by
    [R]: its elements (type [Config]), or a reference to the backing array. *)

Record TagDef := mkTagDef {
  tName : string;
  tType : string;
  tWritable : bool;
  tDCMDEnabled : bool;
}.

Record PLC := mkPLC {
  pName : string;
  pAddress : string;
  pSlot : Z;
  pSocketTimeout : string;
  pScanRate : string;
  pKeepAlive : bool;
  pPath : string;
  pTags : slice TagDef;
}.

Record BackupRepo := mkBackupRepo { rURL : string; rPassword : string }.

Record GatewaySection := mkGateway {
  gID : string; gLogLevel : string; gLogFormat : string; gDataDir : string;
}.

Record ServerSection := mkServerSection {
  sHTTPAddr : string;
  sTLSEnabled : bool;
  sTLSCertFile : string;
  sTLSKeyFile : string;
  sShutdownTimeout : string;
  sAllowedOrigins : list string;
  sReadHeaderTimeout : string;
  sReadTimeout : string;
  sWriteTimeout : string;
  sIdleTimeout : string;
}.

Record AuthSection := mkAuth { aJwtSecret : string; aSessionTTL : string }.

Record MQTTSection := mkMQTT {
  mBrokerURL : string;
  mClientID : string;
  mPassword : string;
  mPasswordFile : string;
  mGroupID : string;
  mEdgeNodeID : string;
  mQoS : Z;
  mKeepAlive : string;
  mCleanSession : bool;
}.

Record HistorianSection := mkHistorian { hRetentionDays : Z }.

Record BackupSection (R : Type) := mkBackup { bRepos : R; bInterval : string }.
Arguments mkBackup {R} _ _.
Arguments bRepos {R} _.
Arguments bInterval {R} _.

Record OPCUASection := mkOPCUA {
  oEnabled : bool; oHost : string; oPort : Z; oSecurityMode : string;
  oCertFile : string; oKeyFile : string;
}.

Record config (R : Type) := mkConfig {
  Gateway : GatewaySection;
  Server : ServerSection;
  Auth : AuthSection;
  MQTT : MQTTSection;
  Historian : HistorianSection;
  Backup : BackupSection R;
  OPCUA : OPCUASection;
  PLCs : list PLC;
  PLCSimAddr : string;
}.
Arguments mkConfig {R} _ _ _ _ _ _ _ _ _.
Arguments Gateway {R} _.
Arguments Server {R} _.
Arguments Auth {R} _.
Arguments MQTT {R} _.
Arguments Historian {R} _.
Arguments Backup {R} _.
Arguments OPCUA {R} _.
Arguments PLCs {R} _.
Arguments PLCSimAddr {R} _.

Abbreviation Config := (config (list BackupRepo)).

#[export] Instance TagDef_eq_dec : EqDecision TagDef.
Proof. solve_decision. Defined.
#[export] Instance PLC_eq_dec : EqDecision PLC.
Proof. solve_decision. Defined.

(** ** [ValidatePLC] *)

Definition sparkplugScalarTypes : list string :=
  ["Boolean"; "Int8"; "Int16"; "Int32"; "Int64"; "UInt8"; "UInt16"; "UInt32"; "UInt64";
   "Float"; "Double"; "String"].

Definition validSparkplugType (t : string) : bool :=
  existsb (String.eqb t) sparkplugScalarTypes.

(** [errorf(format + ": %w", args..., ErrConfigInvalid)]. *)
Definition invalid (format : string) (args : list (fmt_arg error)) : error :=
  Errorf format (args ++ [FWrap (Sentinel ErrConfigInvalid)]).

(** The check of a duration field: parse error, then sign. *)
Definition duration_violations (bad neg : string) (args : list (fmt_arg error)) (val : string)
    : list error :=
  if String.eqb val "" then []
  else match parse_duration val with
       | None => [invalid bad (args ++ [FStr val])]
       | Some d => if d <=? 0 then [invalid neg (args ++ [FStr val])] else []
       end.

Definition tag_violations (j : nat) (tag : TagDef) : list error :=
  (if String.eqb (tName tag) ""
   then [invalid "tags[%d].name: must not be empty: %w" [FInt (Z.of_nat j)]] else []) ++
  (if String.eqb (tType tag) ""
   then [invalid "tags[%d].type: must not be empty: %w" [FInt (Z.of_nat j)]]
   else if negb (validSparkplugType (tType tag))
   then [invalid "tags[%d].type: %q is not a supported Sparkplug B scalar type: %w"
           [FInt (Z.of_nat j); FStr (tType tag)]]
   else []).

Definition plc_violations (p : PLC) : list error :=
  (if String.eqb (pAddress p) "" then [invalid "address: must not be empty: %w" []] else []) ++
  duration_violations "socketTimeout: %q is not a valid Go duration: %w"
    "socketTimeout: must be positive, got %q: %w" [] (pSocketTimeout p) ++
  duration_violations "scanRate: %q is not a valid Go duration: %w"
    "scanRate: must be positive, got %q: %w" [] (pScanRate p) ++
  (if (pSlot p <? 0) || (15 <? pSlot p)
   then [invalid "slot: must be between 0 and 15, got %d: %w" [FInt (pSlot p)]] else []) ++
  concat (imap tag_violations (elems (pTags p))).

Definition ValidatePLC (p : PLC) : option error := errors_join (plc_violations p).

(** [prefixPLCViolations]: re-wraps each constituent of a joined error. *)
Definition prefixPLCViolations (i : nat) (err : option error) : list error :=
  match err with
  | None => []
  | Some (Join inner) => (λ e, Errorf "plcs[%d].%w" [FInt (Z.of_nat i); FWrap e]) <$> inner
  | Some e => [Errorf "plcs[%d].%w" [FInt (Z.of_nat i); FWrap e]]
  end.

(** ** [Config.Validate]

    [stat] is [os.Stat]: whether the path is a directory, or an error. *)
Section validate.
Variable stat : string → bool + foreign.

Definition requireReadableFile (path : string) : option error :=
  match stat path with
  | inr f => Some (EForeign f)
  | inl true => Some (Errorf "%q is a directory" [FStr path])
  | inl false => None
  end.

Definition opcua_file_violations (empty bad : string) (mode path : string) : list error :=
  if String.eqb path "" then [invalid empty [FStr mode]]
  else match requireReadableFile path with
       | Some err => [invalid bad [FErr err]]
       | None => []
       end.

Definition opcua_violations (o : OPCUASection) : list error :=
  if negb (oEnabled o) then []
  else if String.eqb (oSecurityMode o) "None" then []
  else if String.eqb (oSecurityMode o) "Sign" || String.eqb (oSecurityMode o) "SignAndEncrypt"
  then opcua_file_violations
         "opcua.certFile: must not be empty when opcua.securityMode is %q: %w"
         "opcua.certFile: %s: %w" (oSecurityMode o) (oCertFile o) ++
       opcua_file_violations
         "opcua.keyFile: must not be empty when opcua.securityMode is %q: %w"
         "opcua.keyFile: %s: %w" (oSecurityMode o) (oKeyFile o)
  else [invalid "opcua.securityMode: %q is not one of None|Sign|SignAndEncrypt: %w"
          [FStr (oSecurityMode o)]].

Definition gateway_violations (g : GatewaySection) : list error :=
  (if existsb (String.eqb (gLogLevel g)) ["debug"; "info"; "warn"; "error"] then []
   else [invalid "gateway.logLevel: %q is not one of debug|info|warn|error: %w"
           [FStr (gLogLevel g)]]) ++
  (if existsb (String.eqb (gLogFormat g)) ["text"; "json"] then []
   else [invalid "gateway.logFormat: %q is not one of text|json: %w" [FStr (gLogFormat g)]]).

Definition origin_violation (i : nat) (origin : string) : list error :=
  if String.eqb origin ""
  then [invalid "server.allowedOrigins[%d]: entry must not be empty: %w" [FInt (Z.of_nat i)]]
  else [].

Definition server_violations (s : ServerSection) : list error :=
  (if String.eqb (sHTTPAddr s) "" then [invalid "server.httpAddr: must not be empty: %w" []]
   else []) ++
  (if sTLSEnabled s then
     (if String.eqb (sTLSCertFile s) ""
      then [invalid "server.tlsCertFile: must not be empty when server.tlsEnabled is true: %w" []]
      else []) ++
     (if String.eqb (sTLSKeyFile s) ""
      then [invalid "server.tlsKeyFile: must not be empty when server.tlsEnabled is true: %w" []]
      else [])
   else []) ++
  concat (imap origin_violation (sAllowedOrigins s)).

Definition server_timeouts (s : ServerSection) : list (string * string) :=
  [("ReadHeaderTimeout", sReadHeaderTimeout s); ("ReadTimeout", sReadTimeout s);
   ("WriteTimeout", sWriteTimeout s); ("IdleTimeout", sIdleTimeout s)].

Definition timeout_violations (s : ServerSection) : list error :=
  concat ((λ '(name, val),
    duration_violations "server.%s: %q is not a valid Go duration: %w"
      "server.%s: must be positive, got %q: %w" [FStr name] val) <$> server_timeouts s).

Definition auth_violations (a : AuthSection) : list error :=
  if String.eqb (aSessionTTL a) "" then []
  else match parse_duration (aSessionTTL a) with
       | None => [invalid "auth.sessionTTL: %q is not a valid Go duration: %w"
                    [FStr (aSessionTTL a)]]
       | Some _ => []
       end.

Definition historian_violations (h : HistorianSection) : list error :=
  if hRetentionDays h <? 0
  then [invalid "historian.retentionDays: must be a positive integer, got %d: %w"
          [FInt (hRetentionDays h)]] else [].

Definition repo_violation (i : nat) (r : BackupRepo) : list error :=
  if String.eqb (rURL r) ""
  then [invalid "backup.repos[%d].url: must not be empty: %w" [FInt (Z.of_nat i)]] else [].

Definition backup_violations (b : BackupSection (list BackupRepo)) : list error :=
  duration_violations "backup.interval: %q is not a valid Go duration: %w"
    "backup.interval: must be positive, got %q: %w" [] (bInterval b) ++
  concat (imap repo_violation (bRepos b)).

Definition mqtt_violations (m : MQTTSection) : list error :=
  (if (mQoS m <? 0) || (2 <? mQoS m)
   then [invalid "mqtt.qos: must be 0, 1, or 2, got %d: %w" [FInt (mQoS m)]] else []) ++
  duration_violations "mqtt.keepAlive: %q is not a valid Go duration: %w"
    "mqtt.keepAlive: must be positive, got %q: %w" [] (mKeepAlive m) ++
  (if String.eqb (mBrokerURL m) "" then [] else
     (if String.eqb (mGroupID m) ""
      then [invalid "mqtt.groupID: must not be empty when mqtt.brokerURL is set: %w" []]
      else []) ++
     (if String.eqb (mEdgeNodeID m) ""
      then [invalid "mqtt.edgeNodeID: must not be empty when mqtt.brokerURL is set: %w" []]
      else [])).

Definition violations (c : Config) : list error :=
  gateway_violations (Gateway c) ++ server_violations (Server c) ++ opcua_violations (OPCUA c) ++
  timeout_violations (Server c) ++ auth_violations (Auth c) ++
  historian_violations (Historian c) ++ backup_violations (Backup c) ++
  concat (imap (λ i p, prefixPLCViolations i (ValidatePLC p)) (PLCs c)) ++
  mqtt_violations (MQTT c).

Definition Validate (c : Config) : option error := errors_join (violations c).

End validate.

(** ** What a valid entry and a valid configuration are *)

Definition valid_duration (s : string) : Prop :=
  s = "" ∨ ∃ d, parse_duration s = Some d ∧ 0 < d.

Definition valid_tag (t : TagDef) : Prop := tName t ≠ "" ∧ tType t ∈ sparkplugScalarTypes.

Definition valid_plc (p : PLC) : Prop :=
  pAddress p ≠ "" ∧ valid_duration (pSocketTimeout p) ∧ valid_duration (pScanRate p) ∧
  0 ≤ pSlot p ≤ 15 ∧ (∀ t, t ∈ elems (pTags p) → valid_tag t).

Definition readable_file (stat : string → bool + foreign) (path : string) : Prop :=
  path ≠ "" ∧ stat path = inl false.

Definition valid_opcua (stat : string → bool + foreign) (o : OPCUASection) : Prop :=
  oEnabled o = true →
  oSecurityMode o = "None" ∨
  (oSecurityMode o = "Sign" ∨ oSecurityMode o = "SignAndEncrypt") ∧
  readable_file stat (oCertFile o) ∧ readable_file stat (oKeyFile o).

Definition valid_server (s : ServerSection) : Prop :=
  sHTTPAddr s ≠ "" ∧
  (sTLSEnabled s = true → sTLSCertFile s ≠ "" ∧ sTLSKeyFile s ≠ "") ∧
  (∀ o, o ∈ sAllowedOrigins s → o ≠ "").

(** A configuration for the concrete runs of the development. *)
Definition base_config (qos : Z) (ttl : string) (plcs : list PLC) : Config :=
  mkConfig (mkGateway "lgb-1" "info" "text" "") (mkServerSection ":8080" false "" "" "10s" [] "" "" "" "")
    (mkAuth "secret" ttl) (mkMQTT "tcp://broker:1883" "lgb" "" "" "plant" "line1" qos "30s" true)
    (mkHistorian 90) (mkBackup [] "24h") (mkOPCUA false "" 0 "None" "" "") plcs "plcsim:44818".

Definition valid_config (stat : string → bool + foreign) (c : Config) : Prop :=
  gLogLevel (Gateway c) ∈ ["debug"; "info"; "warn"; "error"] ∧
  gLogFormat (Gateway c) ∈ ["text"; "json"] ∧
  valid_server (Server c) ∧
  valid_opcua stat (OPCUA c) ∧
  (∀ n v, (n, v) ∈ server_timeouts (Server c) → valid_duration v) ∧
  (aSessionTTL (Auth c) = "" ∨ is_Some (parse_duration (aSessionTTL (Auth c)))) ∧
  0 ≤ hRetentionDays (Historian c) ∧
  valid_duration (bInterval (Backup c)) ∧
  (∀ r, r ∈ bRepos (Backup c) → rURL r ≠ "") ∧
  (∀ p, p ∈ PLCs c → valid_plc p) ∧
  0 ≤ mQoS (MQTT c) ≤ 2 ∧
  valid_duration (mKeepAlive (MQTT c)) ∧
  (mBrokerURL (MQTT c) ≠ "" → mGroupID (MQTT c) ≠ "" ∧ mEdgeNodeID (MQTT c) ≠ "").

(** ** Lemmas: each list of violations is empty exactly when its check holds,
    and holds only errors that wrap [ErrConfigInvalid] *)

Definition all_invalid (es : list error) : Prop :=
  Forall (λ e, is_error ErrConfigInvalid e = true) es.

Lemma invalid_is fmt args : is_error ErrConfigInvalid (invalid fmt args) = true.
Proof. eapply is_error_wrap; [|apply is_error_sentinel]. set_solver. Qed.

Lemma all_invalid_nil : all_invalid [].
Proof. constructor. Qed.
Lemma all_invalid_one fmt args : all_invalid [invalid fmt args].
Proof. repeat constructor. apply invalid_is. Qed.
Lemma all_invalid_app es es' : all_invalid es → all_invalid es' → all_invalid (es ++ es').
Proof. apply Forall_app_2. Qed.
Lemma all_invalid_concat ess : (∀ es, es ∈ ess → all_invalid es) → all_invalid (concat ess).
Proof.
  induction ess as [|es ess IH]; intros H; [constructor|]. simpl. apply all_invalid_app.
  - apply H. set_solver.
  - apply IH. set_solver.
Qed.

#[export] Hint Resolve all_invalid_nil all_invalid_one all_invalid_app : lgb.

Ltac solve_invalid := repeat split_match; eauto 10 with lgb.

Lemma duration_violations_invalid bad neg args val :
  all_invalid (duration_violations bad neg args val).
Proof. unfold duration_violations. solve_invalid. Qed.
#[export] Hint Resolve duration_violations_invalid : lgb.

Lemma elem_of_imap {A B : Type} (f : nat → A → B) (l : list A) b :
  b ∈ imap f l → ∃ i a, l !! i = Some a ∧ b = f i a.
Proof.
  intros (i & Hi)%list_elem_of_lookup. rewrite list_lookup_imap in Hi.
  destruct (l !! i) eqn:E; simplify_eq/=. eauto.
Qed.

Lemma all_invalid_imap {A : Type} (f : nat → A → list error) (l : list A) :
  (∀ i a, all_invalid (f i a)) → all_invalid (concat (imap f l)).
Proof.
  intros H. apply all_invalid_concat. intros es (i & a & _ & ->)%elem_of_imap. apply H.
Qed.

Lemma tag_violations_invalid j t : all_invalid (tag_violations j t).
Proof. unfold tag_violations. solve_invalid. Qed.
#[export] Hint Resolve all_invalid_imap tag_violations_invalid : lgb.

Lemma plc_violations_invalid p : all_invalid (plc_violations p).
Proof. unfold plc_violations. solve_invalid. Qed.

(** Emptiness of a concatenation, and of the [if]s the checks are built from. *)
Lemma if_nil (b : bool) (e : error) : (if b then [e] else []) = [] ↔ b = false.
Proof. by destruct b. Qed.
Lemma if_nil' (b : bool) (e : error) : (if b then [] else [e]) = [] ↔ b = true.
Proof. by destruct b. Qed.

Lemma concat_imap_nil {A : Type} (f : nat → A → list error) (P : A → Prop) (l : list A) :
  (∀ i a, f i a = [] ↔ P a) → concat (imap f l) = [] ↔ ∀ a, a ∈ l → P a.
Proof.
  intros Hf.
  assert (∀ g : nat → A → list error, (∀ i a, g i a = [] ↔ P a) →
    concat (imap g l) = [] ↔ ∀ a, a ∈ l → P a) as H;
    [|by apply H].
  clear f Hf. induction l as [|x l IH]; intros g Hg; [set_solver|].
  simpl. pose proof (IH (g ∘ S) (λ i a, Hg (S i) a)) as IH'. pose proof (Hg 0%nat x) as Hx.
  split.
  - intros [H1 H2]%app_nil. set_solver.
  - intros H. apply app_nil. set_solver.
Qed.

Lemma eqb_empty_false s : String.eqb s "" = false ↔ s ≠ "".
Proof. apply String.eqb_neq. Qed.

Lemma existsb_eqb s l : existsb (String.eqb s) l = true ↔ s ∈ l.
Proof.
  rewrite existsb_elem. split.
  - intros (x & Hx & Hs%String.eqb_eq). by subst.
  - intros H. exists s. by rewrite String.eqb_refl.
Qed.

Lemma duration_violations_nil bad neg args val :
  duration_violations bad neg args val = [] ↔ valid_duration val.
Proof.
  unfold duration_violations, valid_duration.
  destruct (String.eqb_spec val "") as [->|Hne]; [by intuition|].
  destruct (parse_duration val) as [d|]; [|naive_solver].
  destruct (Z.leb_spec d 0); naive_solver lia.
Qed.

Lemma tag_violations_nil j t : tag_violations j t = [] ↔ valid_tag t.
Proof.
  unfold tag_violations, valid_tag, validSparkplugType.
  rewrite app_nil, if_nil, eqb_empty_false.
  destruct (String.eqb_spec (tType t) "") as [->|Hne].
  - split; [naive_solver|]. intros [_ H%existsb_eqb]. done.
  - rewrite if_nil, negb_false_iff, existsb_eqb. done.
Qed.

Lemma plc_violations_nil p : plc_violations p = [] ↔ valid_plc p.
Proof.
  unfold plc_violations, valid_plc.
  rewrite !app_nil, !if_nil, eqb_empty_false, !duration_violations_nil, orb_false_iff,
    (concat_imap_nil _ valid_tag) by (intros; apply tag_violations_nil).
  rewrite !Z.ltb_ge. tauto.
Qed.

Lemma errors_join_None es : errors_join es = None ↔ es = [].
Proof. by destruct es. Qed.

Lemma ValidatePLC_None p : ValidatePLC p = None ↔ valid_plc p.
Proof. unfold ValidatePLC. by rewrite errors_join_None, plc_violations_nil. Qed.

Section validate_spec.
Context (stat : string → bool + foreign).

Lemma opcua_file_violations_nil empty bad mode path :
  opcua_file_violations stat empty bad mode path = [] ↔ readable_file stat path.
Proof.
  unfold opcua_file_violations, readable_file, requireReadableFile.
  destruct (String.eqb_spec path "") as [->|Hne]; [naive_solver|].
  destruct (stat path) as [[]|]; naive_solver.
Qed.

Lemma opcua_violations_nil o : opcua_violations stat o = [] ↔ valid_opcua stat o.
Proof.
  unfold opcua_violations, valid_opcua. destruct (oEnabled o); simpl; [|by split].
  destruct (String.eqb_spec (oSecurityMode o) "None") as [E|E]; [naive_solver|].
  destruct (String.eqb_spec (oSecurityMode o) "Sign") as [E'|E'];
    [|destruct (String.eqb_spec (oSecurityMode o) "SignAndEncrypt") as [E''|E'']]; simpl;
    rewrite ?app_nil, ?opcua_file_violations_nil; naive_solver.
Qed.

Lemma gateway_violations_nil g :
  gateway_violations g = [] ↔
  gLogLevel g ∈ ["debug"; "info"; "warn"; "error"] ∧ gLogFormat g ∈ ["text"; "json"].
Proof. unfold gateway_violations. by rewrite app_nil, !if_nil', !existsb_eqb. Qed.

Lemma server_violations_nil s : server_violations s = [] ↔ valid_server s.
Proof.
  unfold server_violations, valid_server.
  rewrite !app_nil, if_nil, eqb_empty_false, (concat_imap_nil _ (λ o, o ≠ "")).
  - destruct (sTLSEnabled s); rewrite ?app_nil, ?if_nil, ?eqb_empty_false; naive_solver.
  - intros. unfold origin_violation. by rewrite if_nil, eqb_empty_false.
Qed.

Lemma timeout_violations_nil s :
  timeout_violations s = [] ↔ ∀ n v, (n, v) ∈ server_timeouts s → valid_duration v.
Proof.
  unfold timeout_violations. induction (server_timeouts s) as [|[n v] l IH]; [set_solver|].
  simpl. rewrite app_nil, duration_violations_nil, IH. set_solver.
Qed.

Lemma backup_violations_nil b :
  backup_violations b = [] ↔
  valid_duration (bInterval b) ∧ ∀ r, r ∈ bRepos b → rURL r ≠ "".
Proof.
  unfold backup_violations. rewrite app_nil, duration_violations_nil,
    (concat_imap_nil _ (λ r, rURL r ≠ "")); [done|].
  intros. unfold repo_violation. by rewrite if_nil, eqb_empty_false.
Qed.

Lemma auth_violations_nil a :
  auth_violations a = [] ↔ aSessionTTL a = "" ∨ is_Some (parse_duration (aSessionTTL a)).
Proof.
  unfold auth_violations. destruct (String.eqb_spec (aSessionTTL a) "") as [->|Hne].
  - naive_solver.
  - destruct (parse_duration (aSessionTTL a)); naive_solver.
Qed.

Lemma historian_violations_nil h : historian_violations h = [] ↔ 0 ≤ hRetentionDays h.
Proof. unfold historian_violations. by rewrite if_nil, Z.ltb_ge. Qed.

Lemma mqtt_violations_nil m :
  mqtt_violations m = [] ↔
  0 ≤ mQoS m ≤ 2 ∧ valid_duration (mKeepAlive m) ∧
  (mBrokerURL m ≠ "" → mGroupID m ≠ "" ∧ mEdgeNodeID m ≠ "").
Proof.
  unfold mqtt_violations. rewrite !app_nil, if_nil, orb_false_iff, !Z.ltb_ge,
    duration_violations_nil.
  destruct (String.eqb_spec (mBrokerURL m) ""); rewrite ?app_nil, ?if_nil, ?eqb_empty_false;
    naive_solver.
Qed.

Lemma prefixPLCViolations_nil i p : prefixPLCViolations i (ValidatePLC p) = [] ↔ valid_plc p.
Proof.
  rewrite <- ValidatePLC_None. unfold ValidatePLC, errors_join.
  destruct (plc_violations p); simpl; naive_solver.
Qed.

Lemma prefixPLCViolations_invalid i p : all_invalid (prefixPLCViolations i (ValidatePLC p)).
Proof.
  pose proof (plc_violations_invalid p) as H. unfold ValidatePLC, errors_join.
  destruct (plc_violations p) as [|e es]; simpl; [constructor|].
  change (all_invalid ((λ e, Errorf "plcs[%d].%w" [FInt (Z.of_nat i); FWrap e]) <$> e :: es)).
  apply Forall_fmap. eapply Forall_impl; [exact H|]. intros x Hx.
  eapply is_error_wrap; [|exact Hx]. set_solver.
Qed.

Lemma violations_nil c : violations stat c = [] ↔ valid_config stat c.
Proof.
  unfold violations, valid_config.
  rewrite !app_nil, gateway_violations_nil, server_violations_nil, opcua_violations_nil,
    timeout_violations_nil, auth_violations_nil, historian_violations_nil,
    backup_violations_nil, mqtt_violations_nil, (concat_imap_nil _ valid_plc); [tauto|].
  intros. apply prefixPLCViolations_nil.
Qed.

Lemma opcua_file_violations_invalid empty bad mode path :
  all_invalid (opcua_file_violations stat empty bad mode path).
Proof. unfold opcua_file_violations. solve_invalid. Qed.
Hint Resolve opcua_file_violations_invalid prefixPLCViolations_invalid : lgb.

Lemma origin_violation_invalid i o : all_invalid (origin_violation i o).
Proof. unfold origin_violation. solve_invalid. Qed.
Lemma repo_violation_invalid i r : all_invalid (repo_violation i r).
Proof. unfold repo_violation. solve_invalid. Qed.
Hint Resolve origin_violation_invalid repo_violation_invalid : lgb.

Lemma server_violations_invalid s : all_invalid (server_violations s).
Proof. unfold server_violations. solve_invalid. Qed.

Lemma timeout_violations_invalid s : all_invalid (timeout_violations s).
Proof.
  apply all_invalid_concat. intros es ([n v] & -> & _)%list_elem_of_fmap. solve_invalid.
Qed.

Lemma backup_violations_invalid b : all_invalid (backup_violations b).
Proof.
  unfold backup_violations. solve_invalid.
Qed.

Lemma opcua_violations_invalid o : all_invalid (opcua_violations stat o).
Proof. unfold opcua_violations. solve_invalid. Qed.
Hint Resolve server_violations_invalid timeout_violations_invalid backup_violations_invalid
  opcua_violations_invalid : lgb.

Lemma violations_invalid c : all_invalid (violations stat c).
Proof.
  unfold violations, gateway_violations, auth_violations, historian_violations, mqtt_violations.
  repeat apply all_invalid_app; solve_invalid.
Qed.

End validate_spec.

(** ** [Redacted]

    A configuration value holds a slice header, not the repositories: the model
    keeps the backing arrays in a store and a [config (option nat)] refers to
    one by its address. *)

Abbreviation arrays := (gmap nat (list BackupRepo)).

Definition secret : string := "[redacted]".

Definition redact_repo (r : BackupRepo) : BackupRepo := mkBackupRepo (rURL r) secret.

Definition redact_auth (a : AuthSection) : AuthSection := mkAuth secret (aSessionTTL a).

Definition redact_mqtt (m : MQTTSection) : MQTTSection :=
  mkMQTT (mBrokerURL m) (mClientID m) secret secret (mGroupID m) (mEdgeNodeID m) (mQoS m)
    (mKeepAlive m) (mCleanSession m).

(** The fields of [c] that are not slices, redacted; [r] is its slice. *)
Definition redact_fields {R S : Type} (c : config R) (r : S) : config S :=
  mkConfig (Gateway c) (Server c) (redact_auth (Auth c)) (redact_mqtt (MQTT c)) (Historian c)
    (mkBackup r (bInterval (Backup c))) (OPCUA c) (PLCs c) (PLCSimAddr c).

(** [redactStructFields] on a slice writes its elements in place; the slices of
    strings and of PLCs hold no field tagged secret. *)
Definition redactStructFields (repos : option nat) : State arrays unit :=
  match repos with
  | None => mret tt
  | Some a => modify (alter (fmap redact_repo) a)
  end.

(** [copy := *c] copies the slice header. *)
Definition Redacted (c : config (option nat)) : State arrays (config (option nat)) :=
  let copy := c in
  _ ← redactStructFields (bRepos (Backup copy));
  mret (redact_fields copy (bRepos (Backup copy))).

(** The configuration a header refers to in a store. *)
Definition repos_of (h : arrays) (r : option nat) : list BackupRepo :=
  match r with Some a => default [] (h !! a) | None => [] end.

Definition view (h : arrays) (c : config (option nat)) : Config :=
  mkConfig (Gateway c) (Server c) (Auth c) (MQTT c) (Historian c)
    (mkBackup (repos_of h (bRepos (Backup c))) (bInterval (Backup c))) (OPCUA c) (PLCs c)
    (PLCSimAddr c).

Definition with_repos (c : Config) (repos : list BackupRepo) : Config :=
  mkConfig (Gateway c) (Server c) (Auth c) (MQTT c) (Historian c)
    (mkBackup repos (bInterval (Backup c))) (OPCUA c) (PLCs c) (PLCSimAddr c).

Lemma repos_of_redacted h r :
  repos_of (redactStructFields r h).2 r = redact_repo <$> repos_of h r.
Proof.
  unfold redactStructFields, modify. destruct r as [a|]; [|done]. cbn [snd repos_of]. rewrite lookup_alter_eq.
  by destruct (h !! a).
Qed.

(** ** Theorems *)

(** [ValidatePLC] accepts exactly the valid entries, and every violation it
    reports wraps [ErrConfigInvalid]. *)
Theorem ValidatePLC_correct (p : PLC) :
  match ValidatePLC p with
  | None => valid_plc p
  | Some e => ¬ valid_plc p ∧ Forall (λ e', is_error ErrConfigInvalid e' = true) (constituents e)
  end.
Proof.
  pose proof (ValidatePLC_None p) as H. pose proof (plc_violations_invalid p) as Hi.
  unfold ValidatePLC, errors_join in *. destruct (plc_violations p) as [|e es].
  - by apply H.
  - split; [by rewrite <- H|done].
Qed.

(** [Config.Validate] accepts exactly the valid configurations, and reports
    every violation as an error that wraps [ErrConfigInvalid]. *)
Theorem Validate_correct (stat : string → bool + foreign) (c : Config) :
  match Validate stat c with
  | None => valid_config stat c
  | Some e => ¬ valid_config stat c ∧
              Forall (λ e', is_error ErrConfigInvalid e' = true) (constituents e)
  end.
Proof.
  pose proof (violations_nil stat c) as H. pose proof (violations_invalid stat c) as Hi.
  unfold Validate, errors_join. destruct (violations stat c) as [|e es].
  - by apply H.
  - split; [by rewrite <- H|done].
Qed.

(** [Redacted] returns the configuration with every secret replaced and the
    rest unchanged, but its copy is shallow: the repositories of the
    configuration it was called on lose their passwords too. *)
Theorem Redacted_shares_repos (c : config (option nat)) (h : arrays) :
  let '(c', h') := Redacted c h in
  view h' c' = redact_fields (view h c) (redact_repo <$> bRepos (Backup (view h c))) ∧
  view h' c = with_repos (view h c) (redact_repo <$> bRepos (Backup (view h c))).
Proof.
  pose proof (repos_of_redacted h (bRepos (Backup c))) as H.
  unfold Redacted. unfold_state. cbn in H |- *. cbv zeta.
  destruct (redactStructFields _ h) as [[] h']. unfold view, with_repos, redact_fields.
  simpl in *. by rewrite H.
Qed.

(** ** The configuration of the tests *)

(** [testutil.MinimalConfig], with the directory it is given. *)
Definition MinimalConfig (dir : string) : Config :=
  mkConfig (mkGateway "lgb-test" "info" "text" dir) (mkServerSection ":0" false "" "" "1s" [] "" "" "" "")
    (mkAuth "fixture-jwt-value" "8h")
    (mkMQTT "tcp://localhost:1883" "lgb-test" "" "" "test-group" "lgb-test" 1 "30s" true)
    (mkHistorian 90) (mkBackup [] "") (mkOPCUA false "" 0 "" "" "") [] "127.0.0.1:44818".

(** It is valid as it stands, whatever files there are. *)
Theorem MinimalConfig_valid (stat : string → bool + foreign) (dir : string) :
  Validate stat (MinimalConfig dir) = None.
Proof. vm_compute. reflexivity. Qed.
