(* ===== verification/ConfigLoad.v ===== *)
(** * [internal/config]: loading and watching the configuration

    [loader.go] (environment keys, the provider stack of [Load], the defaults of
    PLC entries), the overrides of the command line, and the debounced watcher of
    [watcher.go].  koanf and the YAML parser are not part of the repository:
    class [Koanf] gives the operations the loader calls. *)

From S2P Require Import Prelude GoString GoTime GoError Config.

(** ** Keys of environment variables *)

(** A struct field: its [koanf] tag, and the fields of its type when that is a
    struct. *)
Inductive field := Field (tag : string) (sub : list field).

Definition env_suffix (full : string) : string := to_upper (replace_char "." "_" full).

Fixpoint field_keys (prefix : string) (f : field) : gmap string string :=
  let '(Field tag sub) := f in
  if String.eqb tag "" || String.eqb tag "-" then ∅
  else
    let full := if String.eqb prefix "" then tag else prefix +:+ "." +:+ tag in
    foldl (λ m g, field_keys full g ∪ m) {[env_suffix full := full]} sub.

Definition buildEnvKeyMap (t : list field) (prefix : string) : gmap string string :=
  foldl (λ m f, field_keys prefix f ∪ m) ∅ t.

Definition leaf (tag : string) : field := Field tag [].

(** The tags of [Config]. *)
Definition config_fields : list field :=
  [Field "gateway" (leaf <$> ["id"; "logLevel"; "logFormat"; "dataDir"]);
   Field "server" (leaf <$> ["httpAddr"; "tlsEnabled"; "tlsCertFile"; "tlsKeyFile"; "shutdownTimeout";
     "allowedOrigins"; "readHeaderTimeout"; "readTimeout"; "writeTimeout"; "idleTimeout"]);
   Field "auth" (leaf <$> ["jwtSecret"; "sessionTTL"]);
   Field "mqtt" (leaf <$> ["brokerURL"; "clientID"; "password"; "passwordFile"; "groupID"; "edgeNodeID";
     "qos"; "keepAlive"; "cleanSession"]);
   Field "historian" [leaf "retentionDays"];
   Field "backup" (leaf <$> ["repos"; "interval"]);
   Field "opcua" (leaf <$> ["enabled"; "host"; "port"; "securityMode"; "certFile"; "keyFile"]);
   leaf "plcs";
   Field "plcsim" [leaf "addr"]].

Definition envKeyMap : gmap string string := Eval vm_compute in buildEnvKeyMap config_fields "".

(** The strings left when one underscore is removed at or after position [i],
    with the position of the removed one, from the left. *)
Fixpoint removals (i : nat) (s : string) : list (nat * string) :=
  match s with
  | EmptyString => []
  | String c s' =>
      let rest := (λ x, (x.1, String c x.2)) <$> removals (pred i) s' in
      let rest := (λ x, (S x.1, x.2)) <$> rest in
      match i with
      | O => (if Ascii.eqb c "_" then [(O, s')] else []) ++ rest
      | S _ => rest
      end
  end.

Definition first_match (m : gmap string string) (candidates : list string) : option string :=
  head (omap (λ s, m !! s) candidates).

(** [envLookup]: the inner loop starts one position after the removed
    underscore. *)
Definition envLookup (m : gmap string string) (suffix : string) : string :=
  match m !! suffix with
  | Some canonical => canonical
  | None =>
      let candidates :=
        mjoin ((λ x, x.2 :: (snd <$> removals (S x.1) x.2)) <$> removals 0 suffix) in
      default "" (first_match m candidates)
  end.

(** The callback of the environment provider. *)
Definition env_key (name : string) : string :=
  let suffix := trim_prefix "LGB_" name in
  let canonical := envLookup envKeyMap suffix in
  if negb (String.eqb canonical "") then canonical
  else match split2 "_" suffix with
       | [a; b] => to_lower a +:+ "." +:+ to_lower b
       | _ => to_lower suffix
       end.

(** What one removal, and at most two, leave. *)
Definition drops_one (s t : string) : Prop := ∃ a b, s = a +:+ String "_" b ∧ t = a +:+ b.

(** ** [Load] *)

Definition defaults : list (string * value) :=
  [("gateway.id", VString "lgb-1"); ("gateway.logLevel", VString "info");
   ("gateway.logFormat", VString "text");
   ("server.httpAddr", VString ":8080"); ("server.tlsEnabled", VBool false);
   ("server.shutdownTimeout", VString "10s"); ("server.readHeaderTimeout", VString "5s");
   ("server.readTimeout", VString "30s"); ("server.writeTimeout", VString "60s");
   ("server.idleTimeout", VString "120s");
   ("auth.sessionTTL", VString "8h"); ("historian.retentionDays", VInt64 90);
   ("backup.interval", VString "24h");
   ("mqtt.qos", VInt64 1); ("mqtt.keepAlive", VString "30s"); ("mqtt.cleanSession", VBool true);
   ("plcsim.addr", VString "plcsim:44818")].

(** koanf and the file system: loading a map, a file and the environment into an
    instance (later values win), unmarshalling it, reading a key; whether a file
    is missing, and whether an error is one of permission. *)
Class Koanf := {
  koanf : Type;
  K_new : koanf;
  K_load_map : list (string * value) → koanf → koanf + foreign;
  K_load_file : string → koanf → koanf + foreign;
  K_load_env : list (string * string) → (string → string) → koanf → koanf + foreign;
  K_unmarshal : koanf → Config + foreign;
  K_get : string → koanf → value;
  file_missing : string → bool;
  is_permission : foreign → bool;
}.

(** The entries of [k.Get("plcs")] that are maps. *)
Definition extractRawPLCMaps (raw : value) : list (list (string * value)) :=
  match raw with
  | VList vs => omap (λ v, match v with VObj kvs => Some kvs | _ => None end) vs
  | _ => []
  end.

Definition has_key (k : string) (kvs : list (string * value)) : bool :=
  existsb (λ x, String.eqb x.1 k) kvs.

Definition apply_plc_defaults (raw : list (list (string * value))) (i : nat) (p : PLC) : PLC :=
  let timeout := if String.eqb (pSocketTimeout p) "" then "5s" else pSocketTimeout p in
  let rate := if String.eqb (pScanRate p) "" then "1s" else pScanRate p in
  let keep := match raw !! i with
              | Some kvs => if has_key "keepAlive" kvs then pKeepAlive p else true
              | None => true
              end in
  mkPLC (pName p) (pAddress p) (pSlot p) timeout rate keep (pPath p) (pTags p).

Definition set_plcs (f : list PLC → list PLC) (c : Config) : Config :=
  mkConfig (Gateway c) (Server c) (Auth c) (MQTT c) (Historian c) (Backup c) (OPCUA c) (f (PLCs c))
    (PLCSimAddr c).

Definition applyPLCDefaults (raw : value) : Config → Config :=
  set_plcs (imap (apply_plc_defaults (extractRawPLCMaps raw))).

Definition set_origins (os : list string) (s : ServerSection) : ServerSection :=
  mkServerSection (sHTTPAddr s) (sTLSEnabled s) (sTLSCertFile s) (sTLSKeyFile s) (sShutdownTimeout s)
    os (sReadHeaderTimeout s) (sReadTimeout s) (sWriteTimeout s) (sIdleTimeout s).

(** The comma-separated list of [LGB_SERVER_ALLOWEDORIGINS]. *)
Definition parse_origins (raw : string) : list string :=
  List.filter (λ t, negb (String.eqb t "")) (trim_space <$> split "," raw).

Definition apply_origins (raw : string) (c : Config) : Config :=
  if String.eqb raw "" then c
  else mkConfig (Gateway c) (set_origins (parse_origins raw) (Server c)) (Auth c) (MQTT c)
         (Historian c) (Backup c) (OPCUA c) (PLCs c) (PLCSimAddr c).

Definition getenv (env : list (string * string)) (k : string) : string :=
  default "" (snd <$> List.find (λ x, String.eqb x.1 k) env).

Section load.
Context {Ko : Koanf}.

Definition lgb_vars (env : list (string * string)) : list (string * string) :=
  List.filter (λ x, has_prefix "LGB_" x.1) env.

Definition Load (env : list (string * string)) (path : string) : result Config :=
  match K_load_map defaults K_new with
  | inr f => inr (Errorf "config: loading defaults: %w" [FWrap (EForeign f)])
  | inl k =>
      if file_missing path
      then inr (Errorf "config: file not found %q: %w" [FStr path; FWrap (Sentinel ErrConfigMissing)])
      else match K_load_file path k with
      | inr f =>
          if is_permission f
          then inr (Errorf "config: reading %q: %w" [FStr path; FWrap (Sentinel ErrConfigPermission)])
          else inr (Errorf "config: parsing %q: %w" [FStr path; FWrap (EForeign f)])
      | inl k =>
          match K_load_env (lgb_vars env) env_key k with
          | inr f => inr (Errorf "config: loading env vars: %w" [FWrap (EForeign f)])
          | inl k =>
              match K_unmarshal k with
              | inr f => inr (Errorf "config: unmarshalling: %w" [FWrap (EForeign f)])
              | inl c =>
                  inl (applyPLCDefaults (K_get "plcs" k)
                         (apply_origins (getenv env "LGB_SERVER_ALLOWEDORIGINS") c))
              end
          end
      end
  end.

(** [load] of the watcher: the file alone. *)
Definition load (path : string) : result Config :=
  match K_load_file path K_new with
  | inr f => inr (Errorf "config: reloading %q: %w" [FStr path; FWrap (EForeign f)])
  | inl k =>
      match K_unmarshal k with
      | inr f => inr (Errorf "config: unmarshalling after reload: %w" [FWrap (EForeign f)])
      | inl c => inl c
      end
  end.
End load.

(** The overrides of [persistentPreRun]: each flag that was given wins. *)
Record flags := mkFlags { f_data_dir : string; f_log_level : string; f_log_format : string }.

Definition override (flag v : string) : string := if String.eqb flag "" then v else flag.

Definition apply_flags (f : flags) (c : Config) : Config :=
  let g := Gateway c in
  mkConfig (mkGateway (gID g) (override (f_log_level f) (gLogLevel g))
              (override (f_log_format f) (gLogFormat g)) (override (f_data_dir f) (gDataDir g)))
    (Server c) (Auth c) (MQTT c) (Historian c) (Backup c) (OPCUA c) (PLCs c) (PLCSimAddr c).

(** ** [envLookup] *)

Lemma removals_spec s : ∀ i n t,
  (n, t) ∈ removals i s ↔
  ∃ a b, s = a +:+ String "_" b ∧ t = a +:+ b ∧ n = String.length a ∧ (i ≤ n)%nat.
Proof.
  induction s as [|c s IH]; intros i n t.
  { simpl. split; [by intros ?%not_elem_of_nil|]. intros ([|? ?] & b & E & _); discriminate E. }
  assert (Hrest : (n, t) ∈ ((λ x, (S x.1, x.2)) <$> ((λ x, (x.1, String c x.2)) <$> removals (pred i) s)) ↔
    ∃ a b, s = a +:+ String "_" b ∧ t = String c (a +:+ b) ∧ n = S (String.length a) ∧ (i ≤ n)%nat).
  { rewrite list_elem_of_fmap. split.
    - intros ([n' t'] & [= -> ->] & ((n1 & t1) & [= -> ->] & H)%list_elem_of_fmap).
      apply IH in H as (a & b & -> & -> & -> & Hi). exists a, b. split_and!; try done. lia.
    - intros (a & b & -> & -> & -> & Hi). exists (String.length a, String c (a +:+ b)). split; [done|].
      apply list_elem_of_fmap. exists (String.length a, a +:+ b). split; [done|].
      apply IH. exists a, b. split_and!; try done. lia. }
  assert (Hcons : (∃ a b, String c s = a +:+ String "_" b ∧ t = a +:+ b ∧ n = String.length a ∧ (i ≤ n)%nat) ↔
    (c = "_"%char ∧ t = s ∧ n = O ∧ i = O) ∨
    ∃ a b, s = a +:+ String "_" b ∧ t = String c (a +:+ b) ∧ n = S (String.length a) ∧ (i ≤ n)%nat).
  { split.
    - intros ([|c' a] & b & E & Ht & Hn & Hi); injection E as -> ->; [left; simpl in *; split_and!; auto; lia|].
      right. by exists a, b.
    - intros [(-> & -> & -> & ->)|(a & b & -> & -> & -> & Hi)]; [by exists "", s|].
      by exists (String c a), b. }
  cbn [removals]. rewrite Hcons, <- Hrest. destruct i as [|i].
  - rewrite elem_of_app. f_equiv. destruct (Ascii.eqb_spec c "_") as [->|Hc]; set_solver.
  - split; [by right|]. intros [(_ & _ & _ & [=])|H]; exact H.
Qed.

(** Two underscores removed that are not next to each other. *)
Definition drops_two (s t : string) : Prop :=
  ∃ a c b d, s = a +:+ String "_" (String c b +:+ String "_" d) ∧ t = a +:+ String c b +:+ d.

Lemma app_split_eq a b a' b' : a +:+ b = a' +:+ b' → String.length a = String.length a' → a = a' ∧ b = b'.
Proof.
  revert a'. induction a as [|c a IH]; intros [|c' a'] E Hn; try discriminate; [by split|].
  injection E as -> E. injection Hn as Hn. destruct (IH a' E Hn) as [-> ->]. by split.
Qed.

(** A string at least as long as [a], split at the length of [a]. *)
Lemma split_at n s : (n ≤ String.length s)%nat → ∃ a b, s = a +:+ b ∧ String.length a = n.
Proof.
  revert s. induction n as [|n IH]; intros s Hs; [by exists "", s|].
  destruct s as [|c s]; simpl in Hs; [lia|]. destruct (IH s) as (a & b & -> & Ha); [lia|].
  exists (String c a), b. split; [done|]. simpl. by rewrite Ha.
Qed.

Lemma candidates_spec s t :
  t ∈ mjoin ((λ x, x.2 :: (snd <$> removals (S x.1) x.2)) <$> removals 0 s) ↔
  drops_one s t ∨ drops_two s t.
Proof.
  rewrite list_elem_of_join. setoid_rewrite list_elem_of_fmap. split.
  - intros (l & Ht & [n u] & -> & Hu). apply removals_spec in Hu as (a & b & -> & -> & -> & _).
    apply elem_of_cons in Ht as [->|Ht]; [left; by exists a, b|].
    apply list_elem_of_fmap in Ht as ([m v] & -> & Hv).
    apply removals_spec in Hv as (a' & b' & E & -> & -> & Hlen). cbn [fst snd] in *. right.
    destruct (split_at (S (String.length a)) a' Hlen) as (p & q & -> & Hp).
    destruct (split_at (String.length a) p) as (p1 & p2 & -> & Hp1); [lia|].
    rewrite length_string_app in Hp. destruct p2 as [|c [|c' p2]]; simpl in Hp; try lia.
    rewrite !string_app_assoc in E |- *.
    change (String c "" +:+ ?x) with (String c x) in *.
    destruct (app_split_eq a b p1 (String c (q +:+ String "_" b')) E (eq_sym Hp1)) as [-> ->].
    by exists p1, c, q, b'.
  - intros [(a & b & -> & ->)|(a & c & b & d & -> & ->)].
    + eexists. split; [apply elem_of_cons; by left|]. exists (String.length a, a +:+ b). split; [done|].
      apply removals_spec. exists a, b. split_and!; [done..|lia].
    + set (u := a +:+ (String c b +:+ String "_" d)). eexists. split.
      2: { exists (String.length a, u). split; [reflexivity|]. apply removals_spec.
           exists a, (String c b +:+ String "_" d). split_and!; [done..|lia]. }
      apply elem_of_cons. right. apply list_elem_of_fmap. exists (String.length (a +:+ String c b), a +:+ String c b +:+ d).
      split; [done|]. apply removals_spec. exists (a +:+ String c b), d. cbn [fst snd].
      split_and!; [unfold u; by rewrite string_app_assoc|by rewrite string_app_assoc|done|].
      rewrite length_string_app. simpl. lia.
Qed.

Definition reaches (s t : string) : Prop := t = s ∨ drops_one s t ∨ drops_two s t.

Lemma head_omap_Some {A B : Type} (f : A → option B) l y :
  head (omap f l) = Some y → ∃ x, x ∈ l ∧ f x = Some y.
Proof.
  induction l as [|x l IH]; simpl; [done|]. destruct (f x) as [y'|] eqn:E; simpl.
  - intros [= <-]. exists x. split; [set_solver|done].
  - intros (x' & Hx & Hf)%IH. exists x'. split; [set_solver|done].
Qed.

Lemma head_omap_None {A B : Type} (f : A → option B) l :
  head (omap f l) = None → ∀ x, x ∈ l → f x = None.
Proof.
  induction l as [|x l IH]; simpl; [set_solver|]. destruct (f x) eqn:E; simpl; [done|].
  intros H x'. rewrite elem_of_cons. intros [->|Hx]; [done|by apply IH].
Qed.

(** [envLookup] finds a key exactly when the name becomes one by removing at most
    two underscores that are not next to each other, and answers the key of such
    a name; the name as it is comes first. *)
Theorem envLookup_correct (m : gmap string string) (s : string) :
  (∀ t k, m !! t = Some k → k ≠ "") →
  (m !! s = Some (envLookup m s) ∨ m !! s = None) ∧
  if decide (envLookup m s = "") then ∀ t, reaches s t → m !! t = None
  else ∃ t, reaches s t ∧ m !! t = Some (envLookup m s).
Proof.
  intros Hne. unfold envLookup, first_match. destruct (m !! s) as [k|] eqn:Es.
  { split; [by left|]. rewrite decide_False by (by eapply Hne). exists s. split; [by left|done]. }
  split; [by right|]. set (l := mjoin _). destruct (head (omap (λ s, m !! s) l)) as [k|] eqn:E; simpl.
  - apply head_omap_Some in E as (t & Ht & Hk). rewrite decide_False by (by eapply Hne).
    exists t. split; [right; by apply candidates_spec|done].
  - intros t [->|Ht]; [done|]. eapply head_omap_None in E; [done|].
    by apply candidates_spec.
Qed.

(** *** The names of the configuration *)

Definition is_upper (c : ascii) : bool := ((65 <=? N_of_ascii c) && (N_of_ascii c <=? 90))%N.
Definition is_lower (c : ascii) : bool := ((97 <=? N_of_ascii c) && (N_of_ascii c <=? 122))%N.

(** A camel-case word with an underscore at every change from lower to upper
    case, as environment variables are written. *)
Fixpoint snake (s : string) : string :=
  match s with
  | String a ((String b _) as s') =>
      if is_lower a && is_upper b then String (upper_ascii a) (String "_" (snake s'))
      else String (upper_ascii a) (snake s')
  | _ => to_upper s
  end.

Definition snake_suffix (key : string) : string := replace_char "." "_" (snake key).

Fixpoint field_names (prefix : string) (f : field) : list string :=
  let '(Field tag sub) := f in
  let full := if String.eqb prefix "" then tag else prefix +:+ "." +:+ tag in
  full :: mjoin (field_names full <$> sub).

(** Every field of the configuration. *)
Definition config_keys : list string := mjoin (field_names "" <$> config_fields).

(** Every field is set by the variable named after its key, with or without an
    underscore between the words of the key. *)
Theorem env_names_resolve :
  Forall (λ k, env_key ("LGB_" +:+ env_suffix k) = k ∧ env_key ("LGB_" +:+ snake_suffix k) = k)
    config_keys.
Proof.
  assert (H : forallb (λ k, String.eqb (env_key ("LGB_" +:+ env_suffix k)) k &&
    String.eqb (env_key ("LGB_" +:+ snake_suffix k)) k) config_keys = true) by (vm_compute; reflexivity).
  apply Forall_forall. intros k Hk. rewrite forallb_forall in H.
  specialize (H k ltac:(by apply list_elem_of_In)). apply andb_true_iff in H as [H1 H2].
  apply String.eqb_eq in H1, H2. by split.
Qed.

(** ** [Load] *)

(** The defaults of one entry: durations that are not given, and a [keepAlive]
    the source does not mention. *)
Definition plc_defaulted (kvs : list (string * value)) (p q : PLC) : Prop :=
  pName q = pName p ∧ pAddress q = pAddress p ∧ pSlot q = pSlot p ∧ pPath q = pPath p ∧
  pTags q = pTags p ∧
  pSocketTimeout q = (if String.eqb (pSocketTimeout p) "" then "5s" else pSocketTimeout p) ∧
  pScanRate q = (if String.eqb (pScanRate p) "" then "1s" else pScanRate p) ∧
  pKeepAlive q = (if has_key "keepAlive" kvs then pKeepAlive p else true).

Lemma extract_maps kvss : extractRawPLCMaps (VList (VObj <$> kvss)) = kvss.
Proof. induction kvss as [|kvs kvss IH]; [done|]. exact (f_equal (cons kvs) IH). Qed.

Lemma imap_Forall3 {A B C : Type} (P : A → B → C → Prop) (f : nat → B → C) xs ys :
  length xs = length ys → (∀ i x y, xs !! i = Some x → ys !! i = Some y → P x y (f i y)) →
  Forall3 P xs ys (imap f ys).
Proof.
  revert xs f. induction ys as [|y ys IH]; intros [|x xs] f Hn Hf; simpl in *; try lia; constructor.
  - by apply (Hf 0%nat).
  - apply (IH xs (f ∘ S)); [lia|]. intros i x' y' Hx Hy. by apply (Hf (S i)).
Qed.

Section load_theorems.
Context {Ko : Koanf}.

(** [Load] succeeds exactly when the file exists and koanf reads the three layers
    and decodes them; a missing file and one that must not be read are told apart
    from other errors.  The result is the decoded configuration with the origins
    of the environment, if given, and the defaults of each PLC entry. *)
Theorem Load_correct (env : list (string * string)) (path : string) :
  match Load env path with
  | inr e =>
      (∃ f, e = Errorf "config: loading defaults: %w" [FWrap (EForeign f)]) ∨
      (file_missing path = true ∧ is_error ErrConfigMissing e = true) ∨
      (∃ f k, K_load_file path k = inr f ∧
              if is_permission f then is_error ErrConfigPermission e = true
              else is_error ErrConfigPermission e = is_error ErrConfigPermission (EForeign f)) ∨
      (∃ f k, (K_load_env (lgb_vars env) env_key k = inr f ∨ K_unmarshal k = inr f))
  | inl c =>
      file_missing path = false ∧
      ∃ k1 k2 k3 c0, K_load_map defaults K_new = inl k1 ∧ K_load_file path k1 = inl k2 ∧
        K_load_env (lgb_vars env) env_key k2 = inl k3 ∧ K_unmarshal k3 = inl c0 ∧
        (Gateway c, Auth c, MQTT c, Historian c, Backup c, OPCUA c, PLCSimAddr c) =
        (Gateway c0, Auth c0, MQTT c0, Historian c0, Backup c0, OPCUA c0, PLCSimAddr c0) ∧
        Server c = (let raw := getenv env "LGB_SERVER_ALLOWEDORIGINS" in
                    if String.eqb raw "" then Server c0 else set_origins (parse_origins raw) (Server c0)) ∧
        ∀ kvss, K_get "plcs" k3 = VList (VObj <$> kvss) → length kvss = length (PLCs c0) →
                Forall3 plc_defaulted kvss (PLCs c0) (PLCs c)
  end.
Proof.
  unfold Load. destruct (K_load_map defaults K_new) as [k1|f] eqn:E1; [|left; by eexists].
  destruct (file_missing path) eqn:Em; [right; left; by split|].
  destruct (K_load_file path k1) as [k2|f] eqn:E2.
  2: { destruct (is_permission f) eqn:Ep; right; right; left; exists f, k1; rewrite Ep; split; try done.
       simpl. by rewrite orb_false_r. }
  destruct (K_load_env _ _ k2) as [k3|f] eqn:E3; [|do 3 right; exists f, k2; by left].
  destruct (K_unmarshal k3) as [c0|f] eqn:E4; [|do 3 right; exists f, k3; by right].
  split; [done|]. exists k1, k2, k3, c0. split_and!; try done.
  - unfold apply_origins, applyPLCDefaults, set_plcs. by destruct (String.eqb _ "").
  - unfold apply_origins, applyPLCDefaults, set_plcs. by destruct (String.eqb _ "").
  - intros kvss Hg Hn. unfold applyPLCDefaults, set_plcs. rewrite Hg, extract_maps.
    replace (PLCs (apply_origins _ c0)) with (PLCs c0) by (unfold apply_origins; by case_match).
    apply imap_Forall3; [done|]. intros i kvs p Hk Hp. unfold plc_defaulted, apply_plc_defaults.
    simpl. rewrite Hk. by split_and!.
Qed.
End load_theorems.

(** No origin of the environment is empty. *)
Lemma parse_origins_nonempty raw o : o ∈ parse_origins raw → o ≠ "".
Proof.
  unfold parse_origins. rewrite list_elem_of_In, List.filter_In. intros [_ H] ->. discriminate H.
Qed.

(** ** The watcher *)

Definition debounceWindow : Z := 200 * Millisecond.

(** The clock, the version of the file (one more for every write), whether an
    event waits in the channel, the deadline of the timer, the calls of
    [onChange] with their time and the version they were given, and whether the
    context is done. *)
Record watch := mkWatch {
  wa_now : time; wa_file : nat; wa_event : bool; wa_timer : option time;
  wa_calls : list (time * nat); wa_done : bool;
}.

Definition watch_init (now : time) : watch := mkWatch now 0 false None [] false.

(** [readable] tells whether a version of the file can be loaded. *)
Inductive watch_step (readable : nat → bool) : watch → watch → Prop :=
| watch_write now n ev t cs d :
    (* the callback of the file watcher: a send that does not wait *)
    watch_step readable (mkWatch now n ev t cs d) (mkWatch now (S n) true t cs d)
| watch_reset now n t cs :
    (* the loop takes the event and restarts the timer *)
    watch_step readable (mkWatch now n true t cs false)
      (mkWatch now n false (Some (now + debounceWindow)) cs false)
| watch_fire now n ev at_ cs d :
    (* the timer has run out: reload, and call [onChange] if that works *)
    at_ ≤ now →
    watch_step readable (mkWatch now n ev (Some at_) cs d)
      (mkWatch now n ev None (if readable n then cs ++ [(now, n)] else cs) d)
| watch_pass now now' n ev t cs d :
    now ≤ now' → watch_step readable (mkWatch now n ev t cs d) (mkWatch now' n ev t cs d)
| watch_cancel now n ev t cs :
    watch_step readable (mkWatch now n ev t cs false) (mkWatch now n ev None cs true).

(** Calls are a window apart, the last one a window before the timer. *)
Definition spaced (cs : list (time * nat)) : Prop :=
  ∀ i t v t' v', cs !! i = Some (t, v) → cs !! S i = Some (t', v') → t + debounceWindow ≤ t'.

Definition last_call (s : watch) : option (time * nat) := last (wa_calls s).

Definition watch_inv (readable : nat → bool) (s : watch) : Prop :=
  spaced (wa_calls s) ∧
  (∀ t v, last_call s = Some (t, v) → t ≤ wa_now s ∧
     ∀ at_, wa_timer s = Some at_ → t + debounceWindow ≤ at_) ∧
  (wa_done s = true ∨ wa_event s = true ∨ is_Some (wa_timer s) ∨ readable (wa_file s) = false ∨
   wa_file s = O ∨ snd <$> last_call s = Some (wa_file s)).

Lemma spaced_snoc cs t v :
  spaced cs → (∀ t' v', last cs = Some (t', v') → t' + debounceWindow ≤ t) → spaced (cs ++ [(t, v)]).
Proof.
  unfold spaced, time in *. intros Hs Hl i t1 v1 t2 v2 H1 H2. destruct (decide (S i < length cs)%nat) as [Hi|Hi].
  - rewrite lookup_app_l in H1, H2 by lia. by eapply Hs.
  - rewrite lookup_app_r in H2 by lia. destruct (S i - length cs)%nat eqn:E; [|done].
    injection H2 as <- <-. rewrite lookup_app_l in H1 by lia.
    apply (Hl t1 v1). rewrite last_lookup. by replace (pred (length cs)) with i by lia.
Qed.

Lemma watch_step_inv readable s s' : watch_step readable s s' → watch_inv readable s → watch_inv readable s'.
Proof.
  intros Hstep (Hs & Hl & Hf). destruct Hstep; unfold watch_inv, last_call in *; simpl in *.
  - split_and!; [done|exact Hl|]. right; left; done.
  - split_and!; [done| |right; right; left; by eexists].
    intros t' v Hlast. destruct (Hl t' v Hlast) as [Hle _]. split; [done|]. intros at_ [= <-].
    unfold debounceWindow. lia.
  - destruct (readable n) eqn:Er.
    + split_and!.
      * apply spaced_snoc; [done|]. intros t' v' Hlast. destruct (Hl t' v' Hlast) as [_ Ha].
        specialize (Ha _ eq_refl). lia.
      * intros t' v. rewrite last_snoc. intros [= <- <-]. split; [lia|done].
      * do 5 right. by rewrite last_snoc.
    + split_and!; [done| |naive_solver]. intros t' v Hlast. destruct (Hl t' v Hlast). split; [done|]. by intros.
  - split_and!; [done| |done]. intros t' v Hlast. destruct (Hl t' v Hlast). split; [lia|done].
  - split_and!; [done| |by left]. intros t' v Hlast. destruct (Hl t' v Hlast). split; [done|]. by intros.
Qed.


(** ** Concrete runs *)

Lemma envKeyMap_nonempty t k : envKeyMap !! t = Some k → k ≠ "".
Proof.
  revert t k. apply map_Forall_lookup. apply (bool_decide_eq_true_1 (map_Forall (λ _ k, k ≠ "") envKeyMap)).
  vm_compute. reflexivity.
Qed.

Theorem envLookup_correct_witness :
  envLookup envKeyMap "AUTH_JWT_SECRET" = "auth.jwtSecret" ∧
  ∃ t, reaches "AUTH_JWT_SECRET" t ∧ envKeyMap !! t = Some "auth.jwtSecret".
Proof.
  assert (E : envLookup envKeyMap "AUTH_JWT_SECRET" = "auth.jwtSecret") by (vm_compute; reflexivity).
  pose proof (envLookup_correct envKeyMap "AUTH_JWT_SECRET" envKeyMap_nonempty) as [_ H].
  rewrite E in H. split; [exact E|]. exact H.
Defined.

