(* ===== verification/Logging.v ===== *)
(** * [internal/log]: the logger and its redaction

    Which handler [New] builds, and the handler that hides secrets in front of
    it.  The handlers of [log/slog] are modelled by what a line contains: the
    attributes in order, each with the groups it is in. *)

From S2P Require Import Prelude GoString GoError Config.

(** ** Levels and formats *)

Definition Level := Z.
Definition LevelDebug : Level := -4.
Definition LevelInfo : Level := 0.
Definition LevelWarn : Level := 4.
Definition LevelError : Level := 8.

Definition parseLevel (s : string) : Level * option error :=
  let l := to_lower s in
  if String.eqb l "debug" then (LevelDebug, None)
  else if String.eqb l "info" || String.eqb l "" then (LevelInfo, None)
  else if String.eqb l "warn" || String.eqb l "warning" then (LevelWarn, None)
  else if String.eqb l "error" then (LevelError, None)
  else (LevelInfo, Some (Errorf "log: invalid level %q: must be one of debug|info|warn|error" [FStr s])).

(** ** Handlers of [log/slog] *)

(** An attribute is a key with a value or a group of attributes. *)
Inductive attr_value := AVal (v : value) | AGroup (attrs : list (string * attr_value)).
Abbreviation attr := (string * attr_value)%type.

(** A text or JSON handler: its options, the groups that are open and the
    attributes it was given, each in its groups. *)
Record slog_handler := mkHandler {
  h_level : Level; h_source : bool; h_json : bool;
  h_groups : list string; h_attrs : list (list string * attr);
}.

Record slog_record := mkRecord { r_level : Level; r_message : string; r_attrs : list attr }.

(** The line a handler writes. *)
Record line := mkLine { l_level : Level; l_message : string; l_attrs : list (list string * attr) }.

Definition enabled (h : slog_handler) (l : Level) : bool := h_level h <=? l.

Definition with_attrs (attrs : list attr) (h : slog_handler) : slog_handler :=
  mkHandler (h_level h) (h_source h) (h_json h) (h_groups h) (h_attrs h ++ (pair (h_groups h) <$> attrs)).

(** An empty name opens no group. *)
Definition with_group (name : string) (h : slog_handler) : slog_handler :=
  if String.eqb name "" then h
  else mkHandler (h_level h) (h_source h) (h_json h) (h_groups h ++ [name]) (h_attrs h).

Definition handle (r : slog_record) (h : slog_handler) : line :=
  mkLine (r_level r) (r_message r) (h_attrs h ++ (pair (h_groups h) <$> r_attrs r)).

(** ** Building *)

Record Options := mkOptions { oLevel : string; oFormat : string }.

Definition buildHandler (opts : Options) : result slog_handler :=
  match parseLevel (oLevel opts) with
  | (_, Some err) => inr err
  | (lvl, None) =>
      let build json := inl (mkHandler lvl (lvl =? LevelDebug) json [] []) in
      let f := to_lower (oFormat opts) in
      if String.eqb f "json" then build true
      else if String.eqb f "text" || String.eqb f "" then build false
      else inr (Errorf "log: invalid format %q: must be one of text|json" [FStr (oFormat opts)])
  end.

Definition New (opts : Options) : result slog_handler := buildHandler opts.

(** ** Redaction *)

Definition redactedValue : string := "[redacted]".

Record redactingHandler := mkRedacting { inner : slog_handler; secrets : list string }.

Definition is_secret (secrets : list string) (key : string) : bool := existsb (String.eqb key) secrets.

Definition redact (secrets : list string) (a : attr) : attr :=
  if is_secret secrets a.1 then (a.1, AVal (VString redactedValue)) else a.

Definition NewWithRedaction (opts : Options) (secretKeys : list string) : result redactingHandler :=
  match buildHandler opts with
  | inr err => inr err
  | inl h => inl (mkRedacting h secretKeys)
  end.

Definition Enabled (h : redactingHandler) (l : Level) : bool := enabled (inner h) l.

Definition Handle (r : slog_record) (h : redactingHandler) : line :=
  handle (mkRecord (r_level r) (r_message r) (redact (secrets h) <$> r_attrs r)) (inner h).

Definition WithAttrs (attrs : list attr) (h : redactingHandler) : redactingHandler :=
  mkRedacting (with_attrs (redact (secrets h) <$> attrs) (inner h)) (secrets h).

Definition WithGroup (name : string) (h : redactingHandler) : redactingHandler :=
  mkRedacting (with_group name (inner h)) (secrets h).

(** ** Theorems *)

(** A logger is built exactly for a known level and format, in any case; the
    source is added at the debug level only. *)
Theorem New_correct (opts : Options) :
  match New opts with
  | inl h =>
      (parseLevel (oLevel opts)).2 = None ∧ to_lower (oFormat opts) ∈ ["json"; "text"; ""] ∧
      h_level h = (parseLevel (oLevel opts)).1 ∧ (h_source h = true ↔ h_level h = LevelDebug) ∧
      (h_json h = true ↔ to_lower (oFormat opts) = "json")
  | inr _ =>
      to_lower (oLevel opts) ∉ ["debug"; "info"; ""; "warn"; "warning"; "error"] ∨
      to_lower (oFormat opts) ∉ ["json"; "text"; ""]
  end.
Proof.
  unfold New, buildHandler.
  assert (Hl : is_Some (parseLevel (oLevel opts)).2 →
    to_lower (oLevel opts) ∉ ["debug"; "info"; ""; "warn"; "warning"; "error"]).
  { unfold parseLevel. cbv zeta. set (l := to_lower (oLevel opts)). clearbody l.
    rewrite !elem_of_cons, elem_of_nil.
    destruct (String.eqb_spec l "debug"); [by intros [? [=]]|].
    destruct (String.eqb_spec l "info"); [by intros [? [=]]|].
    destruct (String.eqb_spec l ""); [by intros [? [=]]|].
    destruct (String.eqb_spec l "warn"); [by intros [? [=]]|].
    destruct (String.eqb_spec l "warning"); [by intros [? [=]]|].
    destruct (String.eqb_spec l "error"); [by intros [? [=]]|]. intuition. }
  destruct (parseLevel (oLevel opts)) as [lvl [err|]]; [left; by apply Hl|]. clear Hl.
  destruct (String.eqb_spec (to_lower (oFormat opts)) "json") as [Ej|Ej].
  { simpl. rewrite Ej, Z.eqb_eq. split_and!; [done|set_solver|done..]. }
  destruct (String.eqb_spec (to_lower (oFormat opts)) "text") as [Et|Et]; simpl.
  { rewrite Et, Z.eqb_eq. split_and!; [done|set_solver|done..]. }
  destruct (String.eqb_spec (to_lower (oFormat opts)) "") as [Ee|Ee]; simpl.
  { rewrite Ee, Z.eqb_eq. split_and!; [done|set_solver|done..]. }
  right. rewrite !elem_of_cons, elem_of_nil. intuition.
Qed.

(** What is done to a logger before it logs. *)
Inductive logger_op := OpAttrs (attrs : list attr) | OpGroup (name : string).

Definition plain_op (h : slog_handler) (o : logger_op) : slog_handler :=
  match o with OpAttrs attrs => with_attrs attrs h | OpGroup name => with_group name h end.
Definition redacting_op (h : redactingHandler) (o : logger_op) : redactingHandler :=
  match o with OpAttrs attrs => WithAttrs attrs h | OpGroup name => WithGroup name h end.

Definition redact_line (secrets : list string) (l : line) : line :=
  mkLine (l_level l) (l_message l) ((λ x, (x.1, redact secrets x.2)) <$> l_attrs l).

Lemma redacting_ops (os : list logger_op) (rh : redactingHandler) (h : slog_handler) :
  h_groups (inner rh) = h_groups h →
  h_attrs (inner rh) = (λ x, (x.1, redact (secrets rh) x.2)) <$> h_attrs h →
  let rh' := foldl redacting_op rh os in let h' := foldl plain_op h os in
  secrets rh' = secrets rh ∧ h_groups (inner rh') = h_groups h' ∧
  h_attrs (inner rh') = (λ x, (x.1, redact (secrets rh) x.2)) <$> h_attrs h'.
Proof.
  revert rh h. induction os as [|o os IH]; intros rh h Hg Ha; [done|]. simpl.
  destruct (IH (redacting_op rh o) (plain_op h o)) as (H1 & H2 & H3).
  - destruct o as [attrs|name]; simpl; [done|]. unfold with_group. destruct (String.eqb name ""); simpl; [done|].
    by rewrite Hg.
  - destruct o as [attrs|name]; simpl.
    + by rewrite Ha, Hg, fmap_app, <- !list_fmap_compose.
    + unfold with_group. by destruct (String.eqb name "").
  - assert (E : secrets (redacting_op rh o) = secrets rh) by (by destruct o). rewrite E in *. done.
Qed.

(** However a logger is derived, its lines are those of the plain logger with the
    attributes of the secret keys replaced: nothing else changes, and no such
    attribute, of a record or of the logger, inside a group or not, keeps its
    value. *)
Theorem redaction_correct (os : list logger_op) (r : slog_record) (h : slog_handler) (keys : list string) :
  h_attrs h = [] →
  let l := Handle r (foldl redacting_op (mkRedacting h keys) os) in
  l = redact_line keys (handle r (foldl plain_op h os)) ∧
  ∀ path k v, (path, (k, v)) ∈ l_attrs l → k ∈ keys → v = AVal (VString redactedValue).
Proof.
  intros Hh. cbv zeta.
  destruct (redacting_ops os (mkRedacting h keys) h) as (H1 & H2 & H3); [done|by rewrite Hh|].
  assert (E : Handle r (foldl redacting_op (mkRedacting h keys) os) = redact_line keys (handle r (foldl plain_op h os))).
  { unfold Handle, handle, redact_line. simpl. rewrite H1, H2, H3. simpl.
    by rewrite fmap_app, <- !list_fmap_compose. }
  split; [done|]. intros path k v. rewrite E. unfold redact_line. simpl.
  intros ([p [k' v']] & Heq & _)%list_elem_of_fmap Hk. simpl in Heq. unfold redact in Heq. simpl in Heq.
  destruct (is_secret keys k') eqn:Es; simplify_eq; [done|].
  unfold is_secret in Es. rewrite existsb_not_elem in Es. specialize (Es k' Hk). by rewrite String.eqb_refl in Es.
Qed.

(** The attributes within a group value are not looked at. *)
Lemma group_value_leaks :
  let secret := ("password", AVal (VString "hunter2")) in
  l_attrs (Handle (mkRecord LevelInfo "login" [("mqtt", AGroup [secret])])
             (mkRedacting (mkHandler LevelInfo false true [] []) ["password"])) =
  [([], ("mqtt", AGroup [secret]))].
Proof. reflexivity. Qed.

Example redaction_correct_witness :
  let h := mkHandler LevelInfo false true [] [] in
  let os := [OpAttrs [("component", AVal (VString "mqtt"))]; OpGroup "conn"] in
  let r := mkRecord LevelInfo "connect" [("password", AVal (VString "hunter2")); ("user", AVal (VString "lgb"))] in
  h_attrs h = [] ∧
  l_attrs (Handle r (foldl redacting_op (mkRedacting h ["password"]) os)) =
    [([], ("component", AVal (VString "mqtt"))); (["conn"], ("password", AVal (VString redactedValue)));
     (["conn"], ("user", AVal (VString "lgb")))].
Proof.
  cbv zeta. split; [reflexivity|].
  destruct (redaction_correct [OpAttrs [("component", AVal (VString "mqtt"))]; OpGroup "conn"]
    (mkRecord LevelInfo "connect" [("password", AVal (VString "hunter2")); ("user", AVal (VString "lgb"))])
    (mkHandler LevelInfo false true [] []) ["password"] eq_refl) as [H _].
  rewrite H. reflexivity.
Defined.
