(* ===== verification/DataDir.v ===== *)
(** * [internal/datadir]: the data directory

    [expandPath], [Resolve] and [Ensure] over a small file system: paths to
    files and directories, with the failures of system calls from a script.  The
    parts of [os] and [path/filepath] they use are those of Unix. *)

From S2P Require Import Prelude GoString GoTime GoError Config.

(** ** Paths *)

(** [filepath.Clean] of a rooted path, as its components: empty ones and [.] go
    away, [..] removes the component before it. *)
Definition clean_step (acc : list string) (c : string) : list string :=
  if String.eqb c "" || String.eqb c "." then acc
  else if String.eqb c ".." then tail acc
  else c :: acc.

Definition clean (components : list string) : list string := reverse (foldl clean_step [] components).

(** A component that stays. *)
Definition plain (c : string) : Prop := c ≠ "" ∧ c ≠ "." ∧ c ≠ "..".

Lemma clean_plain cs acc : Forall plain acc → Forall plain (foldl clean_step acc cs).
Proof.
  revert acc. induction cs as [|c cs IH]; intros acc Ha; [done|]. simpl. apply IH. unfold clean_step.
  destruct (String.eqb_spec c ""); [done|]. destruct (String.eqb_spec c "."); [done|]. simpl.
  destruct (String.eqb_spec c ".."); [by destruct Ha|]. by constructor.
Qed.

Lemma clean_id cs acc : Forall plain cs → foldl clean_step acc cs = reverse cs ++ acc.
Proof.
  revert acc. induction cs as [|c cs IH]; intros acc Hcs; [done|]. inversion_clear Hcs as [|? ? (H1 & H2 & H3) H].
  simpl. rewrite IH by done. unfold clean_step.
  rewrite (proj2 (String.eqb_neq _ _) H1), (proj2 (String.eqb_neq _ _) H2), (proj2 (String.eqb_neq _ _) H3).
  simpl. by rewrite reverse_cons, <- app_assoc.
Qed.

(** Cleaning leaves nothing to clean. *)
Theorem clean_idempotent cs : clean (clean cs) = clean cs.
Proof.
  unfold clean at 1. rewrite clean_id; [by rewrite app_nil_r, reverse_involutive|].
  unfold clean. apply Forall_reverse, clean_plain. constructor.
Qed.

(** A rooted path from its components. *)
Fixpoint join_path (cs : list string) : string :=
  match cs with
  | [] => ""
  | c :: cs => "/" +:+ c +:+ join_path cs
  end.

Definition rooted (cs : list string) : string :=
  match cs with [] => "/" | _ => join_path cs end.

(** [filepath.Abs] in the working directory [cwd], which is rooted. *)
Definition Abs (cwd path : string) : string :=
  if has_prefix "/" path then rooted (clean (split "/" path))
  else rooted (clean (split "/" cwd ++ split "/" path)).

(** Absolute paths are absolute and clean already: [Ensure] may resolve again
    what [Resolve] returned. *)
Lemma split_nonempty sep s : split sep s ≠ [].
Proof. unfold split. generalize "". induction s as [|c s IH]; intros cur; simpl; [done|]. by destruct (Ascii.eqb c sep). Qed.

Lemma split_lacks sep s : Forall (λ c, lacks sep c = true) (split sep s).
Proof.
  unfold split. assert (Hcur : lacks sep "" = true) by done. revert Hcur. generalize "".
  induction s as [|c s IH]; intros cur Hcur; simpl; [by repeat constructor|].
  destruct (Ascii.eqb c sep) eqn:E; [constructor; [done|by apply IH]|]. apply IH.
  rewrite lacks_app, Hcur. simpl. by rewrite E.
Qed.

Lemma clean_lacks sep cs acc : Forall (λ c, lacks sep c = true) cs → Forall (λ c, lacks sep c = true) acc →
  Forall (λ c, lacks sep c = true) (foldl clean_step acc cs).
Proof.
  revert acc. induction cs as [|c cs IH]; intros acc Hcs Ha; [done|]. inversion_clear Hcs. simpl. apply IH; [done|].
  unfold clean_step. repeat case_match; [done|by destruct Ha|by constructor].
Qed.

Lemma split_join_path cs : Forall (λ c, lacks "/" c = true) cs → split "/" (join_path cs) = "" :: cs.
Proof.
  assert (Hs : ∀ cs c, Forall (λ c, lacks "/" c = true) cs → lacks "/" c = true → split "/" (c +:+ join_path cs) = c :: cs).
  { clear. induction cs as [|d cs IH]; intros c Hcs Hc.
    - simpl. rewrite string_app_nil_r. by apply split_last.
    - inversion_clear Hcs. change (join_path (d :: cs)) with (String "/" (d +:+ join_path cs)).
      rewrite split_app by done. f_equal. by apply IH. }
  intros Hcs. by apply (Hs cs "").
Qed.

Theorem Abs_idempotent cwd cwd' path : Abs cwd' (Abs cwd path) = Abs cwd path.
Proof.
  assert (H : ∀ cs, Forall (λ c, lacks "/" c = true) cs → Abs cwd' (rooted (clean cs)) = rooted (clean cs)).
  { intros cs Hcs. pose proof (clean_idempotent cs) as Hi.
    assert (Hl : Forall (λ c, lacks "/" c = true) (clean cs)) by (apply Forall_reverse, clean_lacks; [done|constructor]).
    destruct (clean cs) as [|c cs'] eqn:E; [done|].
    change (rooted (c :: cs')) with (join_path (c :: cs')). unfold Abs.
    replace (has_prefix "/" (join_path (c :: cs'))) with true by (simpl; by destruct (_ +:+ _)).
    rewrite (split_join_path _ Hl). change (clean ("" :: c :: cs')) with (clean (c :: cs')). by rewrite Hi. }
  unfold Abs at 2 3. destruct (has_prefix "/" path); apply H; [apply split_lacks|].
  apply Forall_app; split; apply split_lacks.
Qed.

(** [DefaultPath] on Unix, and on macOS from a rooted home directory. *)
Definition DefaultPath_unix : string := "/var/lib/lgb".

Definition DefaultPath_darwin (home : option string) : string :=
  match home with
  | None => Abs "/" "/tmp/lgb"
  | Some home => Abs "/" (home +:+ "/Library/Application Support/lgb")
  end.

Lemma DefaultPath_absolute cwd home :
  Abs cwd DefaultPath_unix = DefaultPath_unix ∧ Abs cwd (DefaultPath_darwin home) = DefaultPath_darwin home.
Proof. split; [done|]. destruct home; apply Abs_idempotent. Qed.

(** [os.ExpandEnv]: [$name], [${name}], and the special names of one byte. *)
Definition is_alnum (c : ascii) : bool :=
  let n := N_of_ascii c in
  ((n =? 95) || ((48 <=? n) && (n <=? 57)) || ((65 <=? n) && (n <=? 90)) ||
   ((97 <=? n) && (n <=? 122)))%N%bool.

Definition is_special (c : ascii) : bool :=
  existsb (Ascii.eqb c) ["*"; "#"; "$"; "@"; "!"; "?"; "-"; "0"; "1"; "2"; "3"; "4"; "5"; "6"; "7"; "8"; "9"]%char.

(** The name at the start of a string, and how many bytes it takes:
    [getShellName]. *)
Fixpoint alnum_prefix (s : string) : string :=
  match s with
  | String c s' => if is_alnum c then String c (alnum_prefix s') else ""
  | "" => ""
  end.

Fixpoint until_brace (s : string) : option string :=
  match s with
  | String c s' => if Ascii.eqb c "}" then Some "" else String c <$> until_brace s'
  | "" => None
  end.

Definition getShellName (s : string) : string * nat :=
  match s with
  | "" => ("", O)
  | String c rest =>
      if Ascii.eqb c "{" then
        match until_brace rest with
        | Some "" => ("", 2%nat)
        | Some name => (name, (String.length name + 2)%nat)
        | None => ("", 1%nat)
        end
      else if is_special c then (String c "", 1%nat)
      else let name := alnum_prefix s in (name, String.length name)
  end.

(** [os.Expand]; the length of the string is enough fuel. *)
Fixpoint expand (fuel : nat) (env : string → string) (s : string) : string :=
  match fuel, s with
  | S fuel, String c rest =>
      if Ascii.eqb c "$" then
        match rest with
        | "" => "$"
        | _ =>
            let '(name, w) := getShellName rest in
            let after := str_from w rest in
            match name, w with
            | "", O => String "$" (expand fuel env after)
            | "", _ => expand fuel env after
            | _, _ => env name +:+ expand fuel env after
            end
        end
      else String c (expand fuel env rest)
  | _, _ => ""
  end.

Definition ExpandEnv (env : string → string) (s : string) : string := expand (String.length s) env s.

(** ** The file system *)

Inductive node := RegularFile | Directory (writable : bool).

(** [fs_faults] are the failures of the next system calls, as for a database. *)
Record fsys := mkFs { nodes : gmap string node; fs_faults : list (option foreign) }.

(** The environment of the process. *)
Record process := mkProcess {
  p_env : string → string; p_cwd : string; p_home : option string; p_default : string;
}.

(** [os.IsPermission] and [os.IsNotExist], and the errors of a missing path and
    of a directory that is not writable. *)
Class OsErrors := {
  is_permission : foreign → bool;
  is_not_exist : foreign → bool;
  not_exist : foreign;
  not_permitted : foreign;
  not_a_directory : foreign;
  not_exist_is : is_not_exist not_exist = true;
  not_permitted_is : is_permission not_permitted = true;
  not_a_directory_is : is_not_exist not_a_directory = false;
}.

(** The errors of a POSIX system, told apart by their texts. *)
#[export, refine] Instance posix_errors : OsErrors := {|
  is_permission := λ f, String.eqb (f_text f) "permission denied";
  is_not_exist := λ f, String.eqb (f_text f) "no such file or directory";
  not_exist := plain_error "no such file or directory";
  not_permitted := plain_error "permission denied";
  not_a_directory := plain_error "not a directory";
|}.
Proof. all: reflexivity. Defined.

Section datadir.
Context {Os : OsErrors} (p : process).

Definition sys_fault : State fsys (option foreign) := λ s,
  match fs_faults s with
  | [] => (None, s)
  | f :: fs => (f, mkFs (nodes s) fs)
  end.

Definition Stat (path : string) : State fsys (node + foreign) :=
  f ← sys_fault;
  s ← get_state;
  mret (match f with
        | Some f => inr f
        | None => match nodes s !! path with Some n => inl n | None => inr not_exist end
        end).

Definition MkdirAll (path : string) : State fsys (option foreign) :=
  f ← sys_fault;
  s ← get_state;
  match f, nodes s !! path with
  | Some f, _ => mret (Some f)
  | None, Some (Directory _) => mret None
  | None, Some RegularFile => mret (Some not_a_directory)
  | None, None => _ ← set_state (mkFs (<[path := Directory true]> (nodes s)) (fs_faults s)); mret None
  end.

(** A file in the directory [dir]. *)
Definition WriteFile (dir name : string) : State fsys (option foreign) :=
  f ← sys_fault;
  s ← get_state;
  match f, nodes s !! dir with
  | Some f, _ => mret (Some f)
  | None, Some (Directory true) =>
      _ ← set_state (mkFs (<[dir +:+ "/" +:+ name := RegularFile]> (nodes s)) (fs_faults s));
      mret None
  | None, Some _ => mret (Some not_permitted)
  | None, None => mret (Some not_exist)
  end.

Definition Remove (path : string) : State fsys unit :=
  f ← sys_fault;
  match f with
  | Some _ => mret tt
  | None => modify (λ s, mkFs (delete path (nodes s)) (fs_faults s))
  end.

(** ** The package *)

Definition writeProbeFile : string := ".lgb-write-probe".

Definition expandPath (path : string) : string :=
  let path :=
    match path with
    | String "~" rest => match p_home p with Some home => home +:+ rest | None => path end
    | _ => path
    end in
  ExpandEnv (p_env p) path.

(** [filepath.Abs] only fails when the working directory cannot be read; that is
    [p_cwd]. *)
Definition Resolve {R : Type} (cfg : option (config R)) (cliOverride : string) : string :=
  let raw :=
    if negb (String.eqb cliOverride "") then cliOverride
    else match cfg with
         | Some c => if negb (String.eqb (gDataDir (Gateway c)) "") then gDataDir (Gateway c) else p_default p
         | None => p_default p
         end in
  Abs (p_cwd p) (expandPath raw).

Definition path_error (format : string) (abs : string) (e : error) : error :=
  Errorf format [FStr abs; FWrap e].

Definition permission_or (f : foreign) : error :=
  if is_permission f then Sentinel ErrDataDirPermission else EForeign f.

(** The probe: a file written and removed again. *)
Definition probe (abs : string) : State fsys (result string) :=
  w ← WriteFile abs writeProbeFile;
  match w with
  | Some f =>
      mret (inr (path_error (if is_permission f then "datadir: %q is not writable: %w"
                             else "datadir: write probe in %q: %w") abs (permission_or f)))
  | None => _ ← Remove (abs +:+ "/" +:+ writeProbeFile); mret (inl abs)
  end.

Definition create (abs : string) : State fsys (result string) :=
  m ← MkdirAll abs;
  match m with
  | Some f => mret (inr (path_error "datadir: creating %q: %w" abs (permission_or f)))
  | None => probe abs
  end.

Definition Ensure (path : string) : State fsys (result string) :=
  let abs := Abs (p_cwd p) (expandPath path) in
  info ← Stat abs;
  match info with
  | inr f =>
      if is_not_exist f then
        create abs
      else mret (inr (path_error "datadir: stat %q: %w" abs (EForeign f)))
  | inl RegularFile =>
      mret (inr (path_error "datadir: %q exists but is not a directory: %w" abs
                   (Sentinel ErrDataDirInvalid)))
  | inl (Directory _) => probe abs
  end.

(** ** What [Ensure] promises *)

Definition probe_path (abs : string) : string := abs +:+ "/" +:+ writeProbeFile.

Lemma probe_path_ne abs : probe_path abs ≠ abs.
Proof.
  unfold probe_path. intros E. apply (f_equal String.length) in E. revert E.
  induction abs as [|c abs IH]; [done|]. intros [= E]. by apply IH.
Qed.

Lemma fault_nodes s : nodes (sys_fault s).2 = nodes s ∧ (fs_faults s = [] → sys_fault s = (None, s)).
Proof. unfold sys_fault. destruct s as [n [|f fs]]; by split. Qed.

(** The probe of a directory: it succeeds only on a writable one, of which it
    leaves no trace unless the removal fails. *)
Lemma probe_spec abs s b : nodes s !! abs = Some (Directory b) →
  let '(r, s') := probe abs s in
  match r with
  | inl a => a = abs ∧ b = true ∧ nodes s' !! abs = Some (Directory true)
  | inr e => nodes s' = nodes s
  end ∧
  (fs_faults s = [] →
   if b then r = inl abs ∧ nodes s' = delete (probe_path abs) (nodes s)
   else (∃ e, r = inr e ∧ is_error ErrDataDirPermission e = true) ∧ nodes s' = nodes s).
Proof.
  intros Hd. unfold probe, WriteFile. rewrite !bind_run. pose proof (fault_nodes s) as [H1 H2].
  destruct (sys_fault s) as [[f|] s1] eqn:E1; simpl in H1.
  { simpl. split; [done|]. intros Hf. specialize (H2 Hf). congruence. }
  rewrite bind_run. cbn [get_state]. rewrite H1, Hd. destruct b.
  - rewrite bind_run. unfold set_state. cbn [mret state_ret]. rewrite bind_run.
    unfold Remove. rewrite bind_run. set (s2 := mkFs _ _). pose proof (fault_nodes s2) as [H3 H4].
    assert (Hn : nodes s2 = <[probe_path abs := RegularFile]> (nodes s)) by done.
    assert (fault_none : fs_faults s = [] → fs_faults s2 = []).
    { intros Hf. specialize (H2 Hf). by injection H2 as ->. }
    assert (Hl : nodes s2 !! abs = Some (Directory true)).
    { rewrite Hn, lookup_insert_ne by apply probe_path_ne. done. }
    destruct (sys_fault s2) as [[f|] s3] eqn:E3; cbn [snd] in H3;
      rewrite <- H3 in Hl, Hn; clearbody s2; simpl.
    + split; [done|]. intros Hf. specialize (H4 (fault_none Hf)). congruence.
    + split; [by rewrite lookup_delete_ne by apply probe_path_ne|].
      intros _. split; [done|]. rewrite Hn. by rewrite delete_insert_eq.
  - simpl. rewrite not_permitted_is. split; [done|]. intros _. split; [|done].
    eexists. split; [done|]. unfold permission_or. by rewrite not_permitted_is.
Qed.

Lemma create_spec abs s :
  let '(r, s') := create abs s in
  match r with
  | inl a => a = abs ∧ nodes s' !! abs = Some (Directory true)
  | inr e => nodes s' = nodes s ∨
             nodes s !! abs = None ∧ nodes s' = <[abs := Directory true]> (nodes s)
  end ∧
  (fs_faults s = [] → nodes s !! abs = None →
   r = inl abs ∧ nodes s' = delete (probe_path abs) (<[abs := Directory true]> (nodes s))).
Proof.
  unfold create, MkdirAll. rewrite !bind_run. pose proof (fault_nodes s) as [H1 H2].
  destruct (sys_fault s) as [[f|] s1] eqn:E1; simpl in H1.
  { simpl. split; [by left|]. intros Hf. specialize (H2 Hf). congruence. }
  rewrite bind_run. cbn [get_state]. rewrite H1. destruct (nodes s !! abs) as [[|b]|] eqn:Ed.
  - simpl. split; [by left|done].
  - cbn [mret state_ret]. rewrite <- H1 in Ed. pose proof (probe_spec abs s1 b Ed) as Hp.
    destruct (probe abs s1) as [[a|e] s2]; destruct Hp as [Hp _]; split; try done.
    + naive_solver.
    + left. congruence.
  - rewrite bind_run. unfold set_state. cbn [mret state_ret]. set (s2 := mkFs _ _).
    assert (Hl : nodes s2 !! abs = Some (Directory true)) by apply lookup_insert_eq.
    pose proof (probe_spec abs s2 true Hl) as Hp. destruct (probe abs s2) as [r s3].
    destruct Hp as [Hp Hq]. split.
    + destruct r; [naive_solver|]. right. split; [done|]. by rewrite Hp.
    + intros Hf _. specialize (H2 Hf). injection H2 as ->. destruct (Hq Hf) as [-> ->]. by split.
Qed.

(** [Ensure] succeeds only with a writable directory at the absolute path, which
    it creates when there is nothing; it never replaces what is there, leaves no
    probe behind, and tells a file in the way and a directory that is not
    writable apart. *)
Theorem Ensure_correct (path : string) (s : fsys) :
  let abs := Abs (p_cwd p) (expandPath path) in
  let '(r, s') := Ensure path s in
  match r with
  | inl a => a = abs ∧ nodes s' !! abs = Some (Directory true)
  | inr e => nodes s' = nodes s ∨
             nodes s !! abs = None ∧ nodes s' = <[abs := Directory true]> (nodes s)
  end ∧
  (fs_faults s = [] →
   match nodes s !! abs with
   | None => r = inl abs ∧ nodes s' = delete (probe_path abs) (<[abs := Directory true]> (nodes s))
   | Some (Directory true) => r = inl abs ∧ nodes s' = delete (probe_path abs) (nodes s)
   | Some (Directory false) => (∃ e, r = inr e ∧ is_error ErrDataDirPermission e = true) ∧ nodes s' = nodes s
   | Some RegularFile => (∃ e, r = inr e ∧ is_error ErrDataDirInvalid e = true) ∧ nodes s' = nodes s
   end).
Proof.
  cbv zeta. unfold Ensure. set (abs := Abs _ _). rewrite bind_run. unfold Stat. rewrite bind_run.
  pose proof (fault_nodes s) as [H1 H2]. destruct (sys_fault s) as [[f|] s1] eqn:E1; simpl in H1.
  all: rewrite bind_run; cbn [get_state mret state_ret].
  { assert (Hno : fs_faults s ≠ []) by (intros Hf; specialize (H2 Hf); congruence).
    destruct (is_not_exist f); [|simpl; split; [by left|done]].
    pose proof (create_spec abs s1) as H. rewrite H1 in H. destruct (create abs s1) as [r s2].
    by split; [apply H|]. }
  rewrite H1. destruct (nodes s !! abs) as [[|b]|] eqn:Ed.
  - simpl. split; [by left|]. intros _. split; [|done]. by eexists.
  - pose proof (probe_spec abs s1 b ltac:(by rewrite H1)) as Hp. destruct (probe abs s1) as [r s2].
    destruct Hp as [Hp Hq]. split; [destruct r; naive_solver congruence|].
    intros Hf. specialize (H2 Hf). injection H2 as ->. specialize (Hq Hf). by destruct b.
  - rewrite not_exist_is. pose proof (create_spec abs s1) as H. rewrite H1 in H.
    destruct (create abs s1) as [r s2]. destruct H as [Hp Hq].
    split; [destruct r; naive_solver|]. intros Hf. specialize (H2 Hf). injection H2 as ->. by apply Hq.
Qed.

(** The flag wins over the configuration, which wins over the default. *)
Theorem Resolve_correct {R : Type} (cfg : option (config R)) (flag : string) :
  let dir := default "" ((λ c, gDataDir (Gateway c)) <$> cfg) in
  Resolve cfg flag =
  Abs (p_cwd p) (expandPath (if String.eqb flag "" then if String.eqb dir "" then p_default p else dir
                             else flag)).
Proof.
  unfold Resolve. destruct (String.eqb flag ""); [|done]. simpl.
  destruct cfg as [c|]; [|done]. simpl. by destruct (String.eqb _ "").
Qed.
End datadir.
