(* ===== verification/Mux.v ===== *)
(** * [net/http]: the multiplexer

    What the server uses of [http.ServeMux]: patterns, the conflicts that make a
    registration panic, the routing tree, the redirects to clean paths and the
    answers to what no pattern matches.  The patterns of this program have no
    host and no named multi-segment wildcard. *)

From S2P Require Import Prelude GoString DataDir.

(** ** Patterns *)

(** [Multi] is the wildcard of a trailing slash. *)
Inductive segment := Lit (s : string) | Wild (name : string) | Multi.

#[export] Instance segment_eq_dec : EqDecision segment.
Proof. solve_decision. Defined.

(** The empty method stands for every method. *)
Record Pattern := mkPattern { pt_method : string; pt_segments : list segment }.

Definition parse_segment (s : string) : segment :=
  if has_prefix "{" s && has_suffix "}" s
  then Wild (str_to (String.length s - 2) (str_from 1 s)) else Lit s.

(** The segments after the leading slash; a trailing slash ends in [Multi]. *)
Fixpoint parse_segments (parts : list string) : list segment :=
  match parts with
  | [] => []
  | [""] => [Multi]
  | s :: parts => parse_segment s :: parse_segments parts
  end.

Definition parsePattern (method path : string) : Pattern :=
  mkPattern method (parse_segments (tail (split "/" path))).

(** *** Conflicts *)

Inductive relationship := Equivalent | MoreGeneral | MoreSpecific | Disjoint | Overlaps.

Definition combineRelationships (r1 r2 : relationship) : relationship :=
  match r1, r2 with
  | Equivalent, _ => r2
  | Disjoint, _ => Disjoint
  | Overlaps, Disjoint => Disjoint
  | Overlaps, _ => Overlaps
  | _, Equivalent => r1
  | MoreGeneral, MoreSpecific => Overlaps
  | MoreSpecific, MoreGeneral => Overlaps
  | _, _ => r2
  end.

Definition compareMethods (m1 m2 : string) : relationship :=
  if String.eqb m1 m2 then Equivalent
  else if String.eqb m1 "" then MoreGeneral
  else if String.eqb m2 "" then MoreSpecific
  else if String.eqb m1 "GET" && String.eqb m2 "HEAD" then MoreGeneral
  else if String.eqb m2 "GET" && String.eqb m1 "HEAD" then MoreSpecific
  else Disjoint.

Definition compareSegments (s1 s2 : segment) : relationship :=
  match s1, s2 with
  | Multi, Multi => Equivalent
  | Multi, _ => MoreGeneral
  | _, Multi => MoreSpecific
  | Wild _, Wild _ => Equivalent
  | Wild _, Lit _ => MoreGeneral
  | Lit _, Wild _ => MoreSpecific
  | Lit a, Lit b => if String.eqb a b then Equivalent else Disjoint
  end.

Definition ends_in_multi (p : list segment) : bool :=
  match last p with Some Multi => true | _ => false end.

Fixpoint compare_from (rel : relationship) (p1 p2 : list segment) : relationship :=
  match p1, p2 with
  | [], [] => rel
  | s1 :: p1', s2 :: p2' =>
      match combineRelationships rel (compareSegments s1 s2), p1', p2' with
      | Disjoint, _, _ => Disjoint
      | rel', [], _ :: _ =>
          match s1 with Multi => combineRelationships rel' MoreGeneral | _ => Disjoint end
      | rel', _ :: _, [] =>
          match s2 with Multi => combineRelationships rel' MoreSpecific | _ => Disjoint end
      | rel', _, _ => compare_from rel' p1' p2'
      end
  | _, _ => Disjoint
  end.

Definition comparePaths (p1 p2 : list segment) : relationship :=
  if negb (length p1 =? length p2)%nat && negb (ends_in_multi p1) && negb (ends_in_multi p2)
  then Disjoint else compare_from Equivalent p1 p2.

Definition conflictsWith (p1 p2 : Pattern) : bool :=
  match compareMethods (pt_method p1) (pt_method p2) with
  | Disjoint => false
  | mrel =>
      match combineRelationships mrel (comparePaths (pt_segments p1) (pt_segments p2)) with
      | Equivalent | Overlaps => true
      | _ => false
      end
  end.

(** [mux.Handle] of patterns one after the other; [None] is the panic of a
    pattern that conflicts with one registered before. *)
Fixpoint register_all {H : Type} (es : list (Pattern * H)) (mux : list (Pattern * H)) : option (list (Pattern * H)) :=
  match es with
  | [] => Some mux
  | (p, h) :: es =>
      if existsb (λ e, conflictsWith p e.1) mux then None else register_all es (mux ++ [(p, h)])
  end.

(** ** The routing tree *)

Section tree.
Context {H : Type}.

(** The patterns below a node, each as what is left of its segments. *)
Abbreviation entries := (list (list segment * H)).

Definition findChild (seg : string) (n : entries) : entries :=
  omap (λ e, match e.1 with Lit s :: p => if String.eqb s seg then Some (p, e.2) else None | _ => None end) n.

Definition emptyChild (n : entries) : entries :=
  omap (λ e, match e.1 with Wild _ :: p => Some (p, e.2) | _ => None end) n.

Definition leaf (n : entries) : option H :=
  snd <$> List.find (λ e, match e.1 with [] => true | _ => false end) n.

Definition multiChild (n : entries) : option H :=
  snd <$> List.find (λ e, match e.1 with [Multi] => true | _ => false end) n.

(** [matchPath]: the handler, with the segments its wildcards matched.  The
    empty segment at the end of a path is its trailing slash. *)
Fixpoint matchPath (n : entries) (path : list string) : option (H * list string) :=
  match path with
  | [] => (λ h, (h, [])) <$> leaf n
  | seg :: rest =>
      match matchPath (findChild seg n) rest with
      | Some r => Some r
      | None =>
          match (if String.eqb seg "" then None else matchPath (emptyChild n) rest) with
          | Some (h, ms) => Some (h, seg :: ms)
          | None => (λ h, (h, [])) <$> multiChild n
          end
      end
  end.

(** *** What the tree finds *)

Inductive matches : list segment → list string → list string → Prop :=
| matches_nil : matches [] [] []
| matches_lit s p path ms : matches p path ms → matches (Lit s :: p) (s :: path) ms
| matches_wild name p seg path ms : seg ≠ "" → matches p path ms →
    matches (Wild name :: p) (seg :: path) (seg :: ms)
| matches_multi seg path : matches [Multi] (seg :: path) [].

Lemma elem_of_findChild seg n p h : (p, h) ∈ findChild seg n ↔ (Lit seg :: p, h) ∈ n.
Proof.
  unfold findChild. rewrite list_elem_of_omap. split.
  - intros ([[|[s| |] p'] h'] & Hin & E); simplify_eq/=.
    destruct (String.eqb_spec s seg); by simplify_eq.
  - intros Hin. exists (Lit seg :: p, h). simpl. by rewrite String.eqb_refl.
Qed.

Lemma elem_of_emptyChild n p h : (p, h) ∈ emptyChild n ↔ ∃ name, (Wild name :: p, h) ∈ n.
Proof.
  unfold emptyChild. rewrite list_elem_of_omap. split.
  - intros ([[|[|s|] p'] h'] & Hin & E); simplify_eq/=. eauto.
  - intros [name Hin]. by exists (Wild name :: p, h).
Qed.

Lemma find_entry (f : list segment * H → bool) n h :
  snd <$> List.find f n = Some h → ∃ p, (p, h) ∈ n ∧ f (p, h) = true.
Proof.
  intros E. destruct (List.find f n) as [[p h']|] eqn:Ef; simplify_eq/=.
  apply List.find_some in Ef as [Hin Hf]. exists p. by rewrite list_elem_of_In.
Qed.

Lemma find_entry_some (f : list segment * H → bool) n e : e ∈ n → f e = true → is_Some (snd <$> List.find f n).
Proof.
  intros Hin Hf. destruct (List.find f n) as [e'|] eqn:Ef; [by eexists|].
  apply list_elem_of_In in Hin. by rewrite (List.find_none f n Ef e Hin) in Hf.
Qed.

Lemma matchPath_sound n path h ms : matchPath n path = Some (h, ms) → ∃ p, (p, h) ∈ n ∧ matches p path ms.
Proof.
  revert n ms. induction path as [|seg path IH]; intros n ms E; cbn [matchPath] in E.
  - destruct (leaf n) as [h'|] eqn:El; simplify_eq/=. apply find_entry in El as ([|s p] & Hin & Hf); [|done].
    eexists. split; [done|constructor].
  - destruct (matchPath (findChild seg n) path) as [[h1 ms1]|] eqn:E1; simplify_eq/=.
    { apply IH in E1 as (p & Hin & Hm). apply elem_of_findChild in Hin. eexists. by split; [|constructor]. }
    assert (Hmulti : ∀ h ms, (λ h, (h, [])) <$> multiChild n = Some (h, ms) →
      ∃ p, (p, h) ∈ n ∧ matches p (seg :: path) ms).
    { intros h' ms' E'. destruct (multiChild n) as [h1|] eqn:Em; simplify_eq/=.
      apply find_entry in Em as ([|[| |] [|]] & Hin & Hf); try done. eexists. by split; [|constructor]. }
    destruct (String.eqb_spec seg ""); [by apply Hmulti|].
    destruct (matchPath (emptyChild n) path) as [[h1 ms1]|] eqn:E2; simplify_eq/=; [|by apply Hmulti].
    apply IH in E2 as (p & Hin & Hm). apply elem_of_emptyChild in Hin as [name Hin].
    eexists. by split; [|constructor].
Qed.

Lemma matchPath_complete n path p h ms : (p, h) ∈ n → matches p path ms → is_Some (matchPath n path).
Proof.
  intros Hin Hm. revert n Hin. induction Hm as [|s p path ms _ IH|name p seg path ms Hne _ IH|seg path]; intros n Hin.
  - simpl. destruct (find_entry_some (λ e, match e.1 with [] => true | _ => false end) n _ Hin eq_refl) as [h' E].
    unfold leaf. rewrite E. by eexists.
  - cbn [matchPath]. destruct (IH (findChild s n)) as [r ->]; [by apply elem_of_findChild|by eexists].
  - cbn [matchPath]. destruct (matchPath (findChild seg n) path); [by eexists|].
    rewrite (proj2 (String.eqb_neq _ _) Hne).
    destruct (IH (emptyChild n)) as [[h' ms'] ->]; [apply elem_of_emptyChild; eauto|by eexists].
  - cbn [matchPath]. destruct (matchPath (findChild seg n) path); [by eexists|].
    destruct (if String.eqb seg "" then _ else _) as [[h' ms']|]; [by eexists|].
    destruct (find_entry_some (λ e, match e.1 with [Multi] => true | _ => false end) n _ Hin eq_refl) as [h' E].
    unfold multiChild. rewrite E. by eexists.
Qed.

End tree.

(** ** Patterns with no path in common *)

Lemma combine_disjoint r1 r2 : combineRelationships r1 r2 = Disjoint → r1 = Disjoint ∨ r2 = Disjoint.
Proof. destruct r1, r2; simpl; auto; done. Qed.

Lemma matches_length p path ms : matches p path ms → ends_in_multi p = false → length p = length path.
Proof.
  induction 1 as [|s p path ms _ IH|name p seg path ms _ _ IH|]; intros E; [done| | |done];
    simpl; rewrite IH; try done; unfold ends_in_multi in *; rewrite last_cons in E; by destruct (last p).
Qed.

Lemma compare_from_common p1 path m1 p2 m2 rel :
  matches p1 path m1 → matches p2 path m2 → rel ≠ Disjoint → compare_from rel p1 p2 ≠ Disjoint.
Proof.
  intros H1. revert p2 m2 rel. induction H1 as [|s p path ms H1 IH|name p seg path ms Hne H1 IH|seg path];
    intros p2 m2 rel H2 Hrel; inversion H2; subst; try done; cbn [compare_from compareSegments];
    rewrite ?String.eqb_refl.
  all: repeat lazymatch goal with
    | |- context [match combineRelationships ?a ?b with _ => _ end] =>
        let E := fresh in destruct (combineRelationships a b) eqn:E;
        try (exfalso; apply combine_disjoint in E as [?|?]; done)
    end.
  all: repeat lazymatch goal with
    | H : matches ?p ?path _ |- context [match ?p with _ => _ end] => destruct p
    end; try (eapply IH; [eassumption|done]); try done.
  all: try (match goal with H : matches [] (_ :: _) _ |- _ => inversion H | H : matches [] [] _ |- _ => idtac end).
  all: repeat match goal with H : matches (_ :: _) [] _ |- _ => inversion H end.
  all: repeat match goal with H1 : matches [] ?x _, H2 : matches (_ :: _) ?x _ |- _ => inversion H1; subst; inversion H2 end.
Qed.

(** Patterns the multiplexer takes for disjoint match no path together. *)
Lemma comparePaths_disjoint p1 p2 path m1 m2 :
  comparePaths p1 p2 = Disjoint → matches p1 path m1 → matches p2 path m2 → False.
Proof.
  unfold comparePaths. intros E H1 H2. destruct (_ && _) eqn:Eb.
  - bool_to_prop. apply Nat.eqb_neq in H. apply H. by rewrite (matches_length _ _ _ H1), (matches_length _ _ _ H2).
  - by apply (compare_from_common p1 path m1 p2 m2 Equivalent) in E.
Qed.

(** ** Paths of requests *)

Definition hex_digit (c : ascii) : option N :=
  let n := N_of_ascii c in
  if ((48 <=? n) && (n <=? 57))%N then Some (n - 48)%N
  else if ((65 <=? n) && (n <=? 70))%N then Some (n - 55)%N
  else if ((97 <=? n) && (n <=? 102))%N then Some (n - 87)%N
  else None.

(** [url.PathUnescape]; [None] is its error. *)
Fixpoint PathUnescape (s : string) : option string :=
  match s with
  | "" => Some ""
  | String "%" (String a (String b s)) =>
      h ← hex_digit a; l ← hex_digit b; String (ascii_of_N (16 * h + l)%N) <$> PathUnescape s
  | String "%" _ => None
  | String c s => String c <$> PathUnescape s
  end.

Definition pathUnescape (s : string) : string := default s (PathUnescape s).

(** The segments of an escaped path that starts with a slash. *)
Definition segments_of (path : string) : list string := pathUnescape <$> tail (split "/" path).

(** [cleanPath]. *)
Definition cleanPath (p : string) : string :=
  let p := if has_prefix "/" p then p else "/" +:+ p in
  let np := rooted (clean (split "/" p)) in
  if has_suffix "/" p && negb (String.eqb np "/") then np +:+ "/" else np.

(** ** Requests to the multiplexer *)

Section serve_mux.
Context {H : Type}.
Implicit Types mux : list (Pattern * H).

Definition methodChild (method : string) mux : list (list segment * (Pattern * H)) :=
  omap (λ e, if String.eqb (pt_method e.1) method then Some (pt_segments e.1, e) else None) mux.

Definition matchMethodAndPath mux (method : string) (path : list string) : option ((Pattern * H) * list string) :=
  match matchPath (methodChild method mux) path with
  | Some r => Some r
  | None =>
      match (if String.eqb method "HEAD" then matchPath (methodChild "GET" mux) path else None) with
      | Some r => Some r
      | None => matchPath (methodChild "" mux) path
      end
  end.

(** Whether a wildcard of a trailing slash matched nothing but it. *)
Definition exactMatch (e : Pattern * H) (path : list string) : bool :=
  if negb (ends_in_multi (pt_segments e.1)) then true
  else bool_decide (last path = Some "") && (length (pt_segments e.1) =? length path)%nat.

Inductive found :=
| Found (e : Pattern * H) (ms : list string)
| Redirect (to : string)
| NotAllowed (methods : list string)
| NotFound.

Definition allowedMethods mux (path : list string) : list string :=
  let ms := filter (λ m, m ≠ "" ∧ (is_Some (matchPath (methodChild m mux) path) ∨
                                   is_Some (matchPath (methodChild m mux) (path ++ [""]))))
              (remove_dups (pt_method ∘ fst <$> mux)) in
  merge_sort str_le (remove_dups (if bool_decide ("GET" ∈ ms) then "HEAD" :: ms else ms)).

(** [findHandler]: paths are cleaned, except for CONNECT. *)
Definition findHandler mux (method escapedPath : string) : found :=
  let path := if String.eqb method "CONNECT" then escapedPath else cleanPath escapedPath in
  let segs := segments_of path in
  let r := matchMethodAndPath mux method segs in
  let exact := match r with Some (e, _) => exactMatch e segs | None => false end in
  let slashed :=
    match matchMethodAndPath mux method (segs ++ [""]) with
    | Some (e, _) => exactMatch e (segs ++ [""])
    | None => false
    end in
  if negb exact && negb (has_suffix "/" path) && negb (String.eqb path "") && slashed
  then Redirect (cleanPath path +:+ "/")
  else if negb (String.eqb path escapedPath) then Redirect path
  else match r with
       | Some (e, ms) => Found e ms
       | None => match allowedMethods mux segs with [] => NotFound | ms => NotAllowed ms end
       end.

(** *** What a request finds *)

Definition reads_as (registered asked : string) : Prop :=
  registered = asked ∨ asked = "HEAD" ∧ registered = "GET" ∨ registered = "".

Lemma elem_of_methodChild method mux p e :
  (p, e) ∈ methodChild method mux ↔ e ∈ mux ∧ pt_method e.1 = method ∧ p = pt_segments e.1.
Proof.
  unfold methodChild. rewrite list_elem_of_omap. split.
  - intros (e' & Hin & E). destruct (String.eqb_spec (pt_method e'.1) method); by simplify_eq.
  - intros (Hin & <- & ->). exists e. by rewrite String.eqb_refl.
Qed.

Lemma matchMethodAndPath_sound mux method path e ms :
  matchMethodAndPath mux method path = Some (e, ms) →
  e ∈ mux ∧ reads_as (pt_method e.1) method ∧ matches (pt_segments e.1) path ms.
Proof.
  unfold matchMethodAndPath, reads_as.
  destruct (matchPath (methodChild method mux) path) as [[e1 ms1]|] eqn:E1.
  { intros [= -> ->]. apply matchPath_sound in E1 as (p & (Hin & Hm & ->)%elem_of_methodChild & Hp). naive_solver. }
  destruct (String.eqb_spec method "HEAD") as [->|Hne];
    [destruct (matchPath (methodChild "GET" mux) path) as [[e2 ms2]|] eqn:E2|].
  { intros [= -> ->]. apply matchPath_sound in E2 as (p & (Hin & Hm & ->)%elem_of_methodChild & Hp). naive_solver. }
  all: intros E; apply matchPath_sound in E as (p & (Hin & Hm & ->)%elem_of_methodChild & Hp); naive_solver.
Qed.

(** A pattern registered for the method itself that matches is not passed over
    for one of another method. *)
Lemma matchMethodAndPath_method mux method path e ms :
  e ∈ mux → pt_method e.1 = method → matches (pt_segments e.1) path ms →
  ∃ e' ms', matchMethodAndPath mux method path = Some (e', ms') ∧ pt_method e'.1 = method.
Proof.
  intros Hin Hm Hp. unfold matchMethodAndPath.
  destruct (matchPath_complete (methodChild method mux) path (pt_segments e.1) e ms) as [[e' ms'] E];
    [by apply elem_of_methodChild|done|].
  rewrite E. exists e', ms'. split; [done|]. by apply matchPath_sound in E as (p & (_ & ? & _)%elem_of_methodChild & _).
Qed.

Lemma findHandler_found mux method path e ms :
  findHandler mux method path = Found e ms → matchMethodAndPath mux method (segments_of path) = Some (e, ms).
Proof.
  unfold findHandler. destruct (_ && _ && _ && _); [done|].
  destruct (String.eqb_spec (if String.eqb method "CONNECT" then path else cleanPath path) path) as [->|]; [|done].
  simpl. destruct (matchMethodAndPath _ _ _) as [[e' ms']|]; [by intros [= -> ->]|]. by case_match.
Qed.

End serve_mux.
