(* ===== verification/Sql.v ===== *)
(** * SQL tables and statements

    The stores keep their data in SQLite through [database/sql].  This file
    gives the meaning of the SQL the stores send: a table with an
    [INTEGER PRIMARY KEY AUTOINCREMENT] column is the list of its rows in
    insertion order, statements are functions on tables, and a transaction
    restores the tables unless it commits.  Any statement, [BEGIN] and [COMMIT]
    may fail: the failures come from a script the database carries, so that a
    theorem about every script covers a cancelled context, a full disk or a
    locked file.  The text of the constraint errors is the engine's: class
    [Engine] states what the stores rely on. *)

From S2P Require Import Prelude GoString GoError.

(** ** Constraint errors *)

(** [containsStr(s, substr)], written out in each of the three stores. *)
Definition containsStr (s substr : string) : bool :=
  if (String.length s <? String.length substr)%nat then false
  else existsb (λ i, String.eqb (String.substring i (String.length substr) s) substr)
         (seq 0 (String.length s - String.length substr + 1)).

Lemma substring_prefix a b : String.substring 0 (String.length a) (a +:+ b) = a.
Proof. induction a as [|c a IH]; [by destruct b|]. change (String c a +:+ b) with (String c (a +:+ b)). simpl. by rewrite IH. Qed.

Lemma substring_inside a b c : String.substring (String.length a) (String.length b) (a +:+ b +:+ c) = b.
Proof. induction a as [|x a IH]; [exact (substring_prefix b c)|exact IH]. Qed.

Lemma substring_take n s : (n ≤ String.length s)%nat → ∃ b, s = String.substring 0 n s +:+ b.
Proof.
  revert s. induction n as [|n IH]; intros s Hn; [exists s; by destruct s|].
  destruct s as [|c s]; simpl in Hn; [lia|]. destruct (IH s ltac:(lia)) as [b E]. exists b.
  change (String c s = String c (String.substring 0 n s +:+ b)). by rewrite <- E.
Qed.

Lemma substring_parts i n s : (i + n ≤ String.length s)%nat → ∃ a b, s = a +:+ String.substring i n s +:+ b.
Proof.
  revert s. induction i as [|i IH]; intros s Hn.
  - destruct (substring_take n s Hn) as [b E]. by exists "", b.
  - destruct s as [|c s]; simpl in Hn; [lia|]. destruct (IH s ltac:(lia)) as (a & b & E). exists (String c a), b.
    change (String c s = String c (a +:+ String.substring i n s +:+ b)). by rewrite <- E.
Qed.

Lemma length_str_app a b : String.length (a +:+ b) = (String.length a + String.length b)%nat.
Proof. induction a as [|c a IH]; [done|]. exact (f_equal S IH). Qed.

(** The hand-written search is [strings.Contains]. *)
Theorem containsStr_correct (s substr : string) :
  containsStr s substr = true ↔ ∃ a b, s = a +:+ substr +:+ b.
Proof.
  unfold containsStr. destruct (Nat.ltb_spec (String.length s) (String.length substr)) as [Hlt|Hge].
  - split; [done|]. intros (a & b & ->). rewrite !length_str_app in Hlt. lia.
  - rewrite existsb_exists. split.
    + intros (i & Hi%in_seq & E%String.eqb_eq).
      destruct (substring_parts i (String.length substr) s) as (a & b & Hs); [lia|].
      rewrite E in Hs. by exists a, b.
    + intros (a & b & ->). exists (String.length a). rewrite in_seq, substring_inside, String.eqb_refl.
      rewrite !length_str_app in *. split; [lia|done].
Qed.

(** The user store writes it with a helper: [searchStr], whose loop runs over the
    positions from [i], [n] of them being left. *)
Fixpoint searchStr_from (n i : nat) (s substr : string) : bool :=
  match n with
  | O => false
  | S n => if String.eqb (String.substring i (String.length substr) s) substr then true
           else searchStr_from n (S i) s substr
  end.

Definition searchStr (s substr : string) : bool :=
  searchStr_from (Z.to_nat (Z.of_nat (String.length s) - Z.of_nat (String.length substr) + 1)) 0 s substr.

Definition containsStr_auth (s substr : string) : bool :=
  (String.length substr <=? String.length s)%nat && searchStr s substr.

Lemma searchStr_from_existsb n i s substr :
  searchStr_from n i s substr = existsb (λ i, String.eqb (String.substring i (String.length substr) s) substr) (seq i n).
Proof. revert i. induction n as [|n IH]; intros i; simpl; [done|]. rewrite IH. by destruct (String.eqb _ _). Qed.

(** The copies of the search agree. *)
Theorem containsStr_copies (s substr : string) : containsStr_auth s substr = containsStr s substr.
Proof.
  unfold containsStr_auth, containsStr, searchStr. rewrite searchStr_from_existsb.
  destruct (Nat.leb_spec (String.length substr) (String.length s)), (Nat.ltb_spec (String.length s) (String.length substr));
    [lia| |done|lia]. simpl. by replace (Z.to_nat _) with (String.length s - String.length substr + 1)%nat by lia.
Qed.

(** [isUniqueViolation(err)] of a non-nil error of the driver. *)
Definition isUniqueViolation (err : foreign) : bool :=
  containsStr (f_text err) "UNIQUE constraint failed".

(** The errors SQLite reports for a violated constraint. *)
Class Engine := {
  unique_error : foreign;
  fk_error : foreign;
  unique_error_law : isUniqueViolation unique_error = true;
  fk_error_law : isUniqueViolation fk_error = false;
  unique_error_foreign : f_is unique_error = [];
}.

(** The messages of modernc.org/sqlite. *)
#[export, refine] Instance sqlite_messages : Engine := {|
  unique_error := plain_error "constraint failed: UNIQUE constraint failed (2067)";
  fk_error := plain_error "constraint failed: FOREIGN KEY constraint failed (787)";
|}.
Proof. all: reflexivity. Defined.

(** ** Tables *)

Record table (R : Type) := Table { rows : list (Z * R); last_id : Z }.
Arguments Table {R} _ _.
Arguments rows {R} _.
Arguments last_id {R} _.

Definition empty_table {R : Type} : table R := Table [] 0.

Section table.
Context {R : Type}.
Implicit Types (t : table R) (p : Z * R → bool) (f : R → R).

Definition ids t : list Z := fst <$> rows t.

Definition select_where p t : list (Z * R) := List.filter p (rows t).

(** The only row of a result set [QueryRow] reads. *)
Definition select_one p t : option (Z * R) := head (select_where p t).

Definition insert_row (r : R) t : table R :=
  Table (rows t ++ [(last_id t + 1, r)]) (last_id t + 1).

Definition delete_where p t : table R :=
  Table (List.filter (λ x, negb (p x)) (rows t)) (last_id t).

Definition update_where p f t : table R :=
  Table ((λ x, if p x then (x.1, f x.2) else x) <$> rows t) (last_id t).

(** [RowsAffected]. *)
Definition affected p t : Z := Z.of_nat (List.length (select_where p t)).

(** Identifiers ascend and none exceeds the counter. *)
Definition table_ok t : Prop :=
  StronglySorted Z.lt (ids t) ∧ Forall (λ i, i ≤ last_id t) (ids t).

Lemma table_ok_empty : table_ok empty_table.
Proof. split; constructor. Qed.

Lemma ids_insert r t : ids (insert_row r t) = ids t ++ [last_id t + 1].
Proof. unfold ids, insert_row. cbn. by rewrite fmap_app. Qed.

Lemma table_ok_insert r t : table_ok t → table_ok (insert_row r t).
Proof.
  intros [Hs Hl]. unfold table_ok, ids, insert_row in *. cbn in *. rewrite fmap_app. cbn. split.
  - apply StronglySorted_app. repeat split; [|done|repeat constructor].
    intros x1 x2 Hx1 ->%list_elem_of_singleton.
    rewrite Forall_forall in Hl. specialize (Hl _ Hx1). lia.
  - apply Forall_app. split; [|constructor; [lia|done]].
    eapply Forall_impl; [exact Hl|]. simpl. lia.
Qed.

Lemma filter_sorted p (l : list (Z * R)) :
  StronglySorted Z.lt l.*1 → StronglySorted Z.lt (List.filter p l).*1.
Proof.
  induction l as [|x l IH]; simpl; [done|]. intros [Hx Hs]%StronglySorted_cons.
  specialize (IH Hs). destruct (p x); [|exact IH]. simpl. apply StronglySorted_cons.
  split; [|exact IH].
  rewrite Forall_forall in Hx |- *. intros y (z & -> & Hz)%list_elem_of_fmap.
  apply Hx, list_elem_of_fmap. exists z. split; [done|].
  rewrite list_elem_of_In, filter_In in Hz. apply list_elem_of_In, Hz.
Qed.

Lemma table_ok_delete p t : table_ok t → table_ok (delete_where p t).
Proof.
  intros [Hs Hl]. split; [by apply filter_sorted|].
  unfold ids, delete_where in *. simpl. rewrite Forall_forall in Hl |- *.
  intros y (z & -> & Hz)%list_elem_of_fmap. apply Hl, list_elem_of_fmap. exists z. split; [done|].
  rewrite list_elem_of_In, filter_In in Hz. apply list_elem_of_In, Hz.
Qed.

Lemma ids_update p f t : ids (update_where p f t) = ids t.
Proof.
  unfold ids, update_where. simpl. rewrite <- list_fmap_compose. apply list_fmap_ext.
  intros i [j r] _. simpl. by destruct (p (j, r)).
Qed.

Lemma table_ok_update p f t : table_ok t → table_ok (update_where p f t).
Proof. intros [Hs Hl]. split; by rewrite ids_update. Qed.

Lemma ids_NoDup t : table_ok t → NoDup (ids t).
Proof.
  intros [Hs _]. induction Hs as [|x l Hs IH Hx]; constructor; [|done].
  intros Hin. rewrite Forall_forall in Hx. specialize (Hx _ Hin). lia.
Qed.

(** A row is determined by its identifier. *)
Lemma row_by_id t i r r' : table_ok t → (i, r) ∈ rows t → (i, r') ∈ rows t → r = r'.
Proof.
  intros Hok H1 H2. apply ids_NoDup in Hok.
  assert (H : (i, r) = (i, r')) by by eapply (NoDup_fmap_inj fst). by simplify_eq.
Qed.

Lemma elem_of_select p t x : x ∈ select_where p t ↔ x ∈ rows t ∧ p x = true.
Proof. unfold select_where. by rewrite !list_elem_of_In, filter_In. Qed.

Lemma select_insert p r t :
  select_where p (insert_row r t) =
  select_where p t ++ (if p (last_id t + 1, r) then [(last_id t + 1, r)] else []).
Proof. unfold select_where, insert_row. cbn. rewrite List.filter_app. simpl. by destruct (p _). Qed.

Lemma select_sublist p t : select_where p t `sublist_of` rows t.
Proof.
  unfold select_where. induction (rows t) as [|x l IH]; simpl; [done|].
  destruct (p x); by constructor.
Qed.

Lemma select_delete p q t :
  select_where p (delete_where q t) = List.filter (λ x, negb (q x) && p x) (rows t).
Proof.
  unfold select_where, delete_where. cbn. induction (rows t) as [|x l IH]; [done|].
  simpl. destruct (q x); simpl; [done|]. destruct (p x); by rewrite IH.
Qed.

Lemma select_empty p t : (∀ x, x ∈ rows t → p x = false) → select_where p t = [].
Proof.
  intros H. destruct (select_where p t) as [|x l] eqn:E; [done|].
  assert (x ∈ select_where p t) as [Hx Hp]%elem_of_select by (rewrite E; set_solver).
  by rewrite H in Hp.
Qed.

Lemma elem_of_delete p t x : x ∈ rows (delete_where p t) ↔ x ∈ rows t ∧ p x = false.
Proof. unfold delete_where. simpl. by rewrite !list_elem_of_In, filter_In, negb_true_iff. Qed.

Lemma select_one_Some p t x : select_one p t = Some x → x ∈ rows t ∧ p x = true.
Proof.
  unfold select_one. intros H. apply elem_of_select.
  destruct (select_where p t); simplify_eq/=. set_solver.
Qed.

Lemma select_one_None p t : select_one p t = None ↔ ∀ x, x ∈ rows t → p x = false.
Proof.
  unfold select_one. split.
  - intros H x Hx. destruct (p x) eqn:E; [|done].
    assert (x ∈ select_where p t) by by apply elem_of_select.
    destruct (select_where p t); simplify_eq/=. set_solver.
  - intros H. destruct (select_where p t) as [|x l] eqn:E; [done|].
    assert (x ∈ select_where p t) as [Hx Hp]%elem_of_select by (rewrite E; set_solver).
    rewrite H in Hp; done.
Qed.

Lemma elem_of_update p f t x :
  x ∈ rows (update_where p f t) ↔
  ∃ y, y ∈ rows t ∧ x = if p y then (y.1, f y.2) else y.
Proof. unfold update_where. cbn. rewrite list_elem_of_fmap. naive_solver. Qed.

Lemma update_ext p q f t : (∀ x, x ∈ rows t → p x = q x) → update_where p f t = update_where q f t.
Proof.
  intros H. unfold update_where. f_equal. apply list_fmap_ext. intros i x Hx.
  by rewrite (H x (list_elem_of_lookup_2 _ _ _ Hx)).
Qed.

(** An update that selects no row is the identity. *)
Lemma update_none p f t : (∀ x, x ∈ rows t → p x = false) → update_where p f t = t.
Proof.
  intros H. destruct t as [l n]. unfold update_where. cbn in *. f_equal.
  rewrite <- (list_fmap_id l) at 2. apply list_fmap_ext. intros i x Hx.
  by rewrite (H x (list_elem_of_lookup_2 _ _ _ Hx)).
Qed.

Lemma rows_NoDup t : table_ok t → NoDup (rows t).
Proof. intros H%ids_NoDup. by eapply NoDup_fmap_1. Qed.

(** The selection of one row, by identifier. *)
Definition by_id (i : Z) : Z * R → bool := λ x, x.1 =? i.

Lemma by_id_eq i x : by_id i x = true ↔ x.1 = i.
Proof. apply Z.eqb_eq. Qed.

(** The table as a map from identifiers to rows. *)
Definition abs t : gmap Z R := list_to_map (rows t).

Lemma abs_lookup t i r : table_ok t → abs t !! i = Some r ↔ (i, r) ∈ rows t.
Proof. intros H%ids_NoDup. symmetry. by apply elem_of_list_to_map. Qed.

Lemma abs_next t : table_ok t → abs t !! (last_id t + 1) = None.
Proof.
  intros Hok. apply eq_None_not_Some. intros [r Hr%abs_lookup]; [|done].
  destruct Hok as [_ Hl]. rewrite Forall_forall in Hl.
  cut (last_id t + 1 ≤ last_id t); [lia|apply Hl].
  apply list_elem_of_fmap. by exists (last_id t + 1, r).
Qed.

Lemma abs_ext t (m : gmap Z R) : table_ok t →
  (∀ i r, (i, r) ∈ rows t ↔ m !! i = Some r) → abs t = m.
Proof.
  intros Hok H. apply map_eq. intros i. apply option_eq. intros r.
  by rewrite <- H, abs_lookup.
Qed.

Lemma abs_insert r t : table_ok t → abs (insert_row r t) = <[last_id t + 1 := r]> (abs t).
Proof.
  intros Hok. unfold abs, insert_row. cbn. rewrite list_to_map_snoc; [done|].
  apply not_elem_of_list_to_map, abs_next, Hok.
Qed.

Lemma abs_delete i t : table_ok t → abs (delete_where (by_id i) t) = delete i (abs t).
Proof.
  intros Hok. apply abs_ext; [by apply table_ok_delete|]. intros j r.
  rewrite elem_of_delete, lookup_delete_Some, abs_lookup by done.
  unfold by_id. cbn. rewrite Z.eqb_neq. naive_solver.
Qed.

Lemma abs_update i f t : table_ok t → abs (update_where (by_id i) f t) = alter f i (abs t).
Proof.
  intros Hok. apply abs_ext; [by apply table_ok_update|]. intros j r.
  rewrite elem_of_update, lookup_alter_Some. setoid_rewrite abs_lookup; [|done..]. split.
  - intros ([j' r'] & Hin & E). destruct (by_id i (j', r')) eqn:Hi; simplify_eq.
    + apply by_id_eq in Hi. simplify_eq/=. eauto.
    + right. apply Z.eqb_neq in Hi. simpl in Hi. eauto.
  - intros [(-> & r' & Hin & ->)|[Hne Hin]].
    + exists (j, r'). split; [done|]. unfold by_id. simpl. by rewrite Z.eqb_refl.
    + exists (j, r). split; [done|]. unfold by_id. simpl.
      by rewrite (proj2 (Z.eqb_neq j i)) by done.
Qed.

Lemma select_one_by_id i t : table_ok t → snd <$> select_one (by_id i) t = abs t !! i.
Proof.
  intros Hok. destruct (select_one (by_id i) t) as [[j r]|] eqn:E; simpl.
  - apply select_one_Some in E as [Hin Hi%by_id_eq]. simpl in Hi. subst.
    symmetry. by apply abs_lookup.
  - symmetry. apply eq_None_not_Some. intros [r Hr%abs_lookup]; [|done].
    rewrite select_one_None in E. specialize (E _ Hr). unfold by_id in E. simpl in E.
    by rewrite Z.eqb_refl in E.
Qed.

Lemma abs_empty t : table_ok t → abs t = ∅ ↔ List.length (rows t) = 0%nat.
Proof.
  intros Hok. split.
  - intros H. destruct (rows t) as [|[i r] l] eqn:E; [done|].
    assert (abs t !! i = Some r) as Hi by (apply abs_lookup; [done|rewrite E; set_solver]).
    by rewrite H in Hi.
  - intros H. unfold abs. by destruct (rows t).
Qed.

Lemma by_id_none i t : table_ok t → abs t !! i = None → ∀ x, x ∈ rows t → by_id i x = false.
Proof.
  intros Hok H [j r] Hx. destruct (by_id i (j, r)) eqn:E; [|done].
  apply by_id_eq in E. simpl in E. subst. apply abs_lookup in Hx; [|done]. congruence.
Qed.

Lemma update_absent i f t : table_ok t → abs t !! i = None → update_where (by_id i) f t = t.
Proof. intros Hok H. by apply update_none, by_id_none. Qed.

Lemma affected_by_id i t : table_ok t → affected (by_id i) t = 0 ↔ abs t !! i = None.
Proof.
  intros Hok. rewrite <- (select_one_by_id i t Hok). unfold affected, select_one.
  destruct (select_where (by_id i) t); naive_solver lia.
Qed.

(** Deleting a row by identifier removes it from every count it was in. *)
Lemma affected_delete p i t : table_ok t →
  affected p (delete_where (by_id i) t) =
  affected p t - match abs t !! i with Some r => if p (i, r) then 1 else 0 | None => 0 end.
Proof.
  intros Hok%ids_NoDup. unfold affected. rewrite select_delete. unfold ids, select_where, abs in *.
  induction (rows t) as [|[j r] l IH]; [done|]. simpl in *.
  apply NoDup_cons in Hok as [Hj Hl]. specialize (IH Hl). unfold by_id at 1. simpl.
  destruct (Z.eqb_spec j i) as [->|Hne]; simpl.
  - rewrite lookup_insert_eq.
    assert (Hf : List.filter (λ x, negb (by_id i x) && p x) l = List.filter p l).
    { apply filter_ext_in. intros [k q] Hk%list_elem_of_In. unfold by_id. simpl.
      destruct (Z.eqb_spec k i) as [->|]; [|done]. destruct Hj.
      apply list_elem_of_fmap. by exists (i, q). }
    rewrite Hf. destruct (p (i, r)); simpl; lia.
  - rewrite lookup_insert_ne by done. destruct (p (j, r)); simpl; lia.
Qed.

Lemma affected_update p i f t : table_ok t →
  affected p (update_where (by_id i) f t) =
  affected p t + match abs t !! i with
                 | Some r => (if p (i, f r) then 1 else 0) - (if p (i, r) then 1 else 0)
                 | None => 0
                 end.
Proof.
  intros Hok%ids_NoDup. unfold affected, update_where, select_where, abs, ids in *. simpl.
  induction (rows t) as [|[j r] l IH]; [done|]. simpl in *.
  apply NoDup_cons in Hok as [Hj Hl]. specialize (IH Hl). unfold by_id at 1. simpl.
  destruct (Z.eqb_spec j i) as [->|Hne]; simpl.
  - rewrite lookup_insert_eq.
    assert (Hf : ((λ x, if by_id i x then (x.1, f x.2) else x) <$> l) = l).
    { rewrite <- (list_fmap_id l) at 2. apply list_fmap_ext. intros n [k q] Hk.
      unfold by_id. simpl. destruct (Z.eqb_spec k i) as [->|]; [|done]. destruct Hj.
      apply list_elem_of_fmap. exists (i, q). split; [done|]. by eapply list_elem_of_lookup_2. }
    change (list_fmap ?A ?B ?g l) with (g <$> l). rewrite Hf.
    destruct (p (i, r)), (p (i, f r)); simpl; lia.
  - rewrite lookup_insert_ne by done.
    change (list_fmap ?A ?B ?g l) with (g <$> l). destruct (p (j, r)); simpl; lia.
Qed.

Lemma affected_zero p t : affected p t = 0 ↔ select_one p t = None.
Proof. unfold affected, select_one. destruct (select_where p t); naive_solver lia. Qed.

(** ** Tables with a uniqueness constraint *)

Context {K : Type} `{EqDecision K} (key : R → K).

Definition keys t : list K := key ∘ snd <$> rows t.
Definition unique t : Prop := NoDup (keys t).

Lemma unique_iff t : table_ok t →
  unique t ↔ ∀ x y, x ∈ rows t → y ∈ rows t → key x.2 = key y.2 → x = y.
Proof.
  intros Hok. split.
  - intros Hu x y Hx Hy E. by eapply (NoDup_fmap_inj (key ∘ snd)).
  - intros H. apply NoDup_fmap_2_strong; [done|by apply rows_NoDup].
Qed.

Lemma unique_empty : unique empty_table.
Proof. constructor. Qed.

(** [INSERT]; [None] is a violated uniqueness constraint. *)
Definition insert_unique (r : R) t : option (table R) :=
  if bool_decide (key r ∈ keys t) then None else Some (insert_row r t).

(** [UPDATE]: the rows affected and the new table. *)
Definition update_unique p f t : option (Z * table R) :=
  let t' := update_where p f t in
  if decide (NoDup (keys t')) then Some (affected p t, t') else None.

Lemma elem_of_keys t k : k ∈ keys t ↔ ∃ i r, (i, r) ∈ rows t ∧ key r = k.
Proof. unfold keys. rewrite list_elem_of_fmap. split.
  - intros ([i r] & -> & H). by exists i, r.
  - intros (i & r & H & <-). by exists (i, r).
Qed.

(** Updating one row keeps keys distinct unless another row has the new key. *)
Lemma update_id_unique i f t r : table_ok t → unique t → (i, r) ∈ rows t →
  NoDup (keys (update_where (by_id i) f t)) ↔
  ∀ j r', (j, r') ∈ rows t → j ≠ i → key r' ≠ key (f r).
Proof.
  intros Hok Hu Hr. pose proof (table_ok_update (by_id i) f t Hok) as Hok'.
  change (unique (update_where (by_id i) f t) ↔ ∀ j r', (j, r') ∈ rows t → j ≠ i → key r' ≠ key (f r)).
  rewrite unique_iff by done. rewrite unique_iff in Hu by done.
  assert (Hnew : (i, f r) ∈ rows (update_where (by_id i) f t)).
  { apply elem_of_update. exists (i, r). unfold by_id. simpl. by rewrite Z.eqb_refl. }
  split.
  - intros H j r' Hj Hne E. assert ((j, r') = (i, f r)); [|naive_solver].
    apply H; [|done|done]. apply elem_of_update. exists (j, r'). split; [done|].
    unfold by_id. simpl. by rewrite (proj2 (Z.eqb_neq j i)).
  - intros H x y ([j a] & Hx & ->)%elem_of_update ([k b] & Hy & ->)%elem_of_update.
    destruct (by_id i (j, a)) eqn:Ej, (by_id i (k, b)) eqn:Ek; unfold by_id in *;
      bool_to_prop; simpl in *; subst.
    + by rewrite (row_by_id t i a b), (row_by_id t i b r).
    + rewrite (row_by_id t i a r) by done. intros E. by destruct (H k b).
    + rewrite (row_by_id t i b r) by done. intros E. by destruct (H j a).
    + by apply (Hu (j, a) (k, b)).
Qed.

Lemma unique_delete p t : unique t → unique (delete_where p t).
Proof.
  unfold unique, keys, delete_where. simpl. intros H. eapply sublist_NoDup; [exact H|].
  apply fmap_sublist. induction (rows t) as [|x l IH]; simpl; [done|].
  destruct (p x); simpl; by constructor; apply IH; inversion H.
Qed.

Lemma unique_insert r t : unique t → key r ∉ keys t → unique (insert_row r t).
Proof.
  unfold unique, keys, insert_row. simpl. intros H Hr. rewrite fmap_app.
  apply NoDup_app. split; [done|]. split; [|repeat constructor; set_solver].
  set_solver.
Qed.

Lemma unique_row t i j r r' :
  unique t → (i, r) ∈ rows t → (j, r') ∈ rows t → key r = key r' → (i, r) = (j, r').
Proof. intros H H1 H2 E. by eapply (NoDup_fmap_inj (key ∘ snd)). Qed.

End table.

#[global] Arguments insert_row : simpl never.
#[global] Arguments delete_where : simpl never.
#[global] Arguments update_where : simpl never.
#[global] Arguments select_where : simpl never.
#[global] Arguments select_one : simpl never.
#[global] Arguments affected : simpl never.
#[global] Arguments abs : simpl never.

#[export] Hint Resolve table_ok_empty table_ok_insert table_ok_delete table_ok_update
  unique_delete unique_insert unique_empty : lgb.

(** ** [ORDER BY] text columns

    The byte order of the columns, compared one after the other. *)

Fixpoint lex_le (ks ls : list string) : bool :=
  match ks, ls with
  | k :: ks', l :: ls' => if String.eqb k l then lex_le ks' ls' else String.leb k l
  | [], _ => true
  | _ :: _, [] => false
  end.

Definition order_by {R : Type} (cols : R → list string) (x y : Z * R) : Prop :=
  lex_le (cols x.2) (cols y.2) = true.

#[export] Instance order_by_dec {R : Type} (cols : R → list string) : RelDecision (order_by cols).
Proof. intros x y. unfold order_by. apply _. Defined.

#[export] Instance order_by_total {R : Type} (cols : R → list string) : Total (order_by cols).
Proof.
  intros x y. unfold order_by. generalize (cols x.2) (cols y.2).
  induction l as [|k ks IH]; intros [|l ls]; simpl; auto.
  rewrite (String.eqb_sym l k). destruct (String.eqb k l); [apply IH|].
  destruct (String.leb_total k l); auto.
Qed.

#[export] Instance order_by_trans {R : Type} (cols : R → list string) :
  Transitive (order_by cols).
Proof.
  intros x y z. unfold order_by. generalize (cols x.2) (cols y.2) (cols z.2).
  induction l as [|a l IH]; intros [|b l'] [|c l'']; simpl; try done.
  destruct (String.eqb_spec a b) as [->|Hab], (String.eqb_spec b c) as [->|Hbc]; try done.
  - apply IH.
  - by rewrite (proj2 (String.eqb_neq a c)).
  - intros H1 H2. destruct (String.eqb_spec a c) as [->|Hac].
    + destruct Hab. by apply String.leb_antisym.
    + by apply (str_le_trans a b c).
Qed.

(** ** Statements and transactions *)

(** A database: its tables, and what goes wrong with the next statements. *)
Record db (T : Type) := Db { tables : T; faults : list (option foreign) }.
Arguments Db {T} _ _.
Arguments tables {T} _.
Arguments faults {T} _.

(** A statement that fails changes nothing. *)
Definition stmt (T A : Type) : Type := T → (A * T) + foreign.

Section exec.
Context {T : Type}.

Definition next_fault : State (db T) (option foreign) :=
  λ d, match faults d with [] => (None, d) | f :: fs => (f, Db (tables d) fs) end.

Definition exec {A : Type} (s : stmt T A) : State (db T) (A + foreign) :=
  f ← next_fault;
  match f with
  | Some f => mret (inr f)
  | None => λ d, match s (tables d) with
                 | inl (a, t) => (inl a, Db t (faults d))
                 | inr f => (inr f, d)
                 end
  end.

(** A query. *)
Definition query {A : Type} (q : T → A) : State (db T) (A + foreign) :=
  exec (λ t, inl (q t, t)).

(** [BeginTx], the body, then [Commit]; the deferred [Rollback] restores the
    tables when the body returns an error or the commit fails. *)
Definition transaction (body : State (db T) (option error)) : State (db T) (option error) :=
  f ← next_fault;
  match f with
  | Some f => mret (Some (EForeign f))
  | None =>
      λ d,
        let '(r, d') := body d in
        match r with
        | Some e => (Some e, Db (tables d) (faults d'))
        | None =>
            let '(f, d'') := next_fault d' in
            match f with
            | Some f => (Some (EForeign f), Db (tables d) (faults d''))
            | None => (None, d'')
            end
        end
  end.

(** ** What computations preserve *)

Definition preserves {A : Type} (P : T → Prop) (m : State (db T) A) : Prop :=
  ∀ d, P (tables d) → P (tables (m d).2).

Lemma next_fault_tables d : tables (next_fault d).2 = tables d.
Proof. unfold next_fault. by destruct (faults d). Qed.

Lemma preserves_ret {A : Type} P (a : A) : preserves P (mret a).
Proof. intros d Hd. done. Qed.

Lemma preserves_bind {A B : Type} P (m : State (db T) A) (k : A → State (db T) B) :
  preserves P m → (∀ a, preserves P (k a)) → preserves P (m ≫= k).
Proof.
  intros Hm Hk d Hd. unfold_state. specialize (Hm d Hd).
  destruct (m d) as [a d']. by apply Hk.
Qed.

Lemma preserves_exec {A : Type} (P : T → Prop) (s : stmt T A) :
  (∀ t, P t → match s t with inl (_, t') => P t' | inr _ => True end) → preserves P (exec s).
Proof.
  intros Hs d Hd. unfold exec, next_fault. unfold_state.
  destruct (faults d) as [|[f|] fs]; simpl; [|done|];
    specialize (Hs (tables d) Hd); by destruct (s (tables d)) as [[a t']|f].
Qed.

Lemma preserves_query {A : Type} (P : T → Prop) (q : T → A) : preserves P (query q).
Proof. by apply preserves_exec. Qed.

Lemma preserves_transaction P body : preserves P body → preserves P (transaction body).
Proof.
  intros Hb d Hd. unfold transaction. unfold_state.
  pose proof (next_fault_tables d) as E.
  destruct (next_fault d) as [[f|] d1]; simpl in *; [by rewrite E|].
  rewrite <- E in Hd. specialize (Hb d1 Hd).
  destruct (body d1) as [[e|] d2]; simpl in *; [done|].
  pose proof (next_fault_tables d2) as E2.
  destruct (next_fault d2) as [[f|] d3]; simpl in *; [done|by rewrite E2].
Qed.

Lemma preserves_for_each_err {A} (P : T → Prop) (xs : list A) f :
  (∀ x, preserves P (f x)) → preserves P (for_each_err (E := error) (S := db T) xs f).
Proof. intros Hf d. apply (for_each_err_inv (λ d, P (tables d))). intros x s. apply Hf. Qed.

(** A transaction that reports an error has changed nothing. *)
Lemma transaction_atomic body d e d' :
  transaction body d = (Some e, d') → tables d' = tables d.
Proof.
  unfold transaction. unfold_state. pose proof (next_fault_tables d) as E.
  destruct (next_fault d) as [[f|] d1]; simpl in *; [by intros; simplify_eq|].
  destruct (body d1) as [[e'|] d2]; [intros; by simplify_eq/=|].
  destruct (next_fault d2) as [[f|] d3]; intros; by simplify_eq/=.
Qed.

(** Without faults a statement runs, and a transaction that returns nil has
    kept what its body did. *)
Lemma exec_ok {A : Type} (s : stmt T A) t :
  exec s (Db t []) = match s t with
                     | inl (a, t') => (inl a, Db t' [])
                     | inr f => (inr f, Db t []) end.
Proof. done. Qed.

Lemma query_ok {A : Type} (q : T → A) t : query q (Db t []) = (inl (q t), Db t []).
Proof. done. Qed.

Lemma transaction_ok body t r t' :
  body (Db t []) = (r, Db t' []) →
  transaction body (Db t []) = (r, Db (match r with Some _ => t | None => t' end) []).
Proof. unfold transaction. unfold_state. simpl. intros ->. by destruct r. Qed.

End exec.

#[global] Arguments exec : simpl never.
#[global] Arguments transaction : simpl never.

#[export] Hint Resolve preserves_ret preserves_bind preserves_query preserves_transaction
  preserves_for_each_err : lgb.
#[export] Hint Rewrite @exec_ok @query_ok : lgb_simpl.
