(* ===== verification/AclStore.v ===== *)
(** * [internal/aclstore]: the per-role tag write rules

    The [tag_acl] table, the operations of [Store], and what they promise: an
    abstract map from rule identifiers to rules that every operation refines,
    and [CanWrite] as a membership test that fails closed. *)

From S2P Require Import Prelude GoString GoError Sql.

Definition validRoles : list string := ["admin"; "operator"; "viewer"].
Definition valid_role (r : string) : bool := bool_decide (r ∈ validRoles).

Record ACLRule := mkACLRule {
  aclID : Z; aclRole : string; aclPLC : string; aclTag : string; aclAllowWrite : bool;
}.

(** A row of [tag_acl] without its [id]; [allow_write] is an integer. *)
Record acl_row := AclRow {
  row_role : string; row_plc : string; row_tag : string; row_allow_write : Z;
}.

(** [UNIQUE(role, plc, tag)]. *)
Definition acl_key (r : acl_row) : string * string * string :=
  (row_role r, row_plc r, row_tag r).

Abbreviation acl_table := (table acl_row).

Definition boolToInt (b : bool) : Z := if b then 1 else 0.

Definition rule_row (r : ACLRule) : acl_row :=
  AclRow (aclRole r) (aclPLC r) (aclTag r) (boolToInt (aclAllowWrite r)).

Definition scan_rule (x : Z * acl_row) : ACLRule :=
  mkACLRule x.1 (row_role x.2) (row_plc x.2) (row_tag x.2) (negb (row_allow_write x.2 =? 0)).

Section store.
Context {Eng : Engine}.

(** [INSERT INTO tag_acl(role, plc, tag, allow_write) VALUES (...)]. *)
Definition insert_rule (r : ACLRule) : stmt acl_table unit := λ t,
  match insert_unique acl_key (rule_row r) t with
  | Some t' => inl (tt, t')
  | None => inr unique_error
  end.

(** [UPDATE tag_acl SET ... WHERE id = ?], with the rows affected. *)
Definition update_rule (id : Z) (r : ACLRule) : stmt acl_table Z := λ t,
  match update_unique acl_key (by_id id) (λ _, rule_row r) t with
  | Some x => inl x
  | None => inr unique_error
  end.

Definition delete_rule (id : Z) : stmt acl_table Z := λ t,
  inl (affected (by_id id) t, delete_where (by_id id) t).

(** ** Bootstrap *)

Definition IsEmpty : State (db acl_table) (result bool) :=
  count ← query (λ t, Z.of_nat (List.length (rows t)));
  mret (match count with inl n => inl (n =? 0) | inr f => inr (EForeign f) end).

Definition seed_rule (r : ACLRule) : State (db acl_table) (option error) :=
  res ← exec (insert_rule r);
  mret (match res with inl _ => None | inr f => Some (EForeign f) end).

Definition Seed (rules : list ACLRule) : State (db acl_table) (option error) :=
  match rules with
  | [] => mret None
  | _ =>
      empty ← IsEmpty;
      match empty with
      | inr err => mret (Some err)
      | inl false => mret None
      | inl true => transaction (for_each_err rules seed_rule)
      end
  end.

(** ** CRUD *)

(** The error of a write: the collision sentinel, or the driver's own error. *)
Definition write_error (err : foreign) : error :=
  if isUniqueViolation err then Sentinel ErrRuleAlreadyExists else EForeign err.

Definition CreateRule (r : ACLRule) : State (db acl_table) (option error) :=
  if negb (valid_role (aclRole r)) then mret (Some (Sentinel ErrInvalidRole))
  else
    res ← exec (insert_rule r);
    mret (match res with inl _ => None | inr f => Some (write_error f) end).

Definition scanRules (rs : list (Z * acl_row)) : slice ACLRule := appended (scan_rule <$> rs).

Definition by_role_plc_tag (r : acl_row) : list string := [row_role r; row_plc r; row_tag r].
Definition by_plc_tag (r : acl_row) : list string := [row_plc r; row_tag r].

Definition ListRules : State (db acl_table) (result (slice ACLRule)) :=
  res ← query (λ t, merge_sort (order_by by_role_plc_tag) (rows t));
  mret (map_result scanRules (foreign_result res)).

Definition GetRule (id : Z) : State (db acl_table) (result ACLRule) :=
  res ← query (select_one (by_id id));
  mret (match res with
        | inl (Some x) => inl (scan_rule x)
        | inl None => inr (Sentinel ErrRuleNotFound)
        | inr f => inr (EForeign f)
        end).

Definition ListRulesByRole (role : string) : State (db acl_table) (result (slice ACLRule)) :=
  res ← query (λ t, merge_sort (order_by by_plc_tag)
                      (select_where (λ x, String.eqb (row_role x.2) role) t));
  mret (map_result scanRules (foreign_result res)).

Definition UpdateRule (id : Z) (r : ACLRule) : State (db acl_table) (option error) :=
  if negb (valid_role (aclRole r)) then mret (Some (Sentinel ErrInvalidRole))
  else
    res ← exec (update_rule id r);
    mret (match res with
          | inr f => Some (write_error f)
          | inl n => if n =? 0 then Some (Sentinel ErrRuleNotFound) else None
          end).

Definition DeleteRule (id : Z) : State (db acl_table) (option error) :=
  res ← exec (delete_rule id);
  mret (match res with
        | inr f => Some (EForeign f)
        | inl n => if n =? 0 then Some (Sentinel ErrRuleNotFound) else None
        end).

Definition CanWrite (role plc tag : string) : State (db acl_table) (result bool) :=
  res ← query (select_one (λ x, String.eqb (row_role x.2) role && String.eqb (row_plc x.2) plc
                                 && String.eqb (row_tag x.2) tag));
  mret (match res with
        | inl (Some x) => inl (negb (row_allow_write x.2 =? 0))
        | inl None => inl false
        | inr f => inr (EForeign f)
        end).

End store.

(** ** The invariant *)

(** Identifiers are distinct and ascending, and no two rows are for the same
    (role, plc, tag). *)
Definition acl_ok (t : acl_table) : Prop := table_ok t ∧ unique acl_key t.

(** Every rule is for a role of the gateway. *)
Definition roles_ok (t : acl_table) : Prop := ∀ x, x ∈ rows t → row_role x.2 ∈ validRoles.

Lemma acl_ok_empty : acl_ok empty_table.
Proof. split; auto with lgb. Qed.

Lemma valid_role_iff r : valid_role r = true ↔ r ∈ validRoles.
Proof. apply bool_decide_eq_true. Qed.

(** A change to the store. *)
Inductive acl_op :=
| OpSeed (rules : list ACLRule)
| OpCreate (r : ACLRule)
| OpUpdate (id : Z) (r : ACLRule)
| OpDelete (id : Z).

Section specification.
Context {Eng : Engine}.

Definition run_op (op : acl_op) : State (db acl_table) (option error) :=
  match op with
  | OpSeed rules => Seed rules
  | OpCreate r => CreateRule r
  | OpUpdate id r => UpdateRule id r
  | OpDelete id => DeleteRule id
  end.

Definition run_ops (ops : list acl_op) : State (db acl_table) unit :=
  for_each ops (λ op, _ ← run_op op; mret tt).

(** ** The abstract store: a map from identifiers to rules *)

(** Some rule other than [except] is for the key. *)
Definition taken (m : gmap Z acl_row) (k : string * string * string) (except : option Z) : bool :=
  bool_decide (map_Exists (λ j r, Some j ≠ except ∧ acl_key r = k) m).

Fixpoint seed_spec (rules : list ACLRule) (next : Z) (m : gmap Z acl_row)
    : option (gmap Z acl_row) :=
  match rules with
  | [] => Some m
  | r :: rules' =>
      if taken m (acl_key (rule_row r)) None then None
      else seed_spec rules' (next + 1) (<[next := rule_row r]> m)
  end.

(** What an operation does when the database does not fail; [next] is the
    identifier the next insertion gets. *)
Definition acl_spec (op : acl_op) (next : Z) (m : gmap Z acl_row)
    : option error * gmap Z acl_row :=
  match op with
  | OpSeed rules =>
      if bool_decide (m = ∅) then
        match seed_spec rules next m with
        | Some m' => (None, m')
        | None => (Some (EForeign unique_error), m)
        end
      else (None, m)
  | OpCreate r =>
      if negb (valid_role (aclRole r)) then (Some (Sentinel ErrInvalidRole), m)
      else if taken m (acl_key (rule_row r)) None
      then (Some (Sentinel ErrRuleAlreadyExists), m)
      else (None, <[next := rule_row r]> m)
  | OpUpdate id r =>
      if negb (valid_role (aclRole r)) then (Some (Sentinel ErrInvalidRole), m)
      else match m !! id with
           | None => (Some (Sentinel ErrRuleNotFound), m)
           | Some _ =>
               if taken m (acl_key (rule_row r)) (Some id)
               then (Some (Sentinel ErrRuleAlreadyExists), m)
               else (None, <[id := rule_row r]> m)
           end
  | OpDelete id =>
      match m !! id with
      | None => (Some (Sentinel ErrRuleNotFound), m)
      | Some _ => (None, delete id m)
      end
  end.

(** The rule for the triple exists and allows the write. *)
Definition granted (t : acl_table) (role plc tag : string) : Prop :=
  ∃ i r, (i, r) ∈ rows t ∧ acl_key r = (role, plc, tag) ∧ row_allow_write r ≠ 0.

Lemma insert_rule_ok r t : acl_ok t →
  match insert_rule r t with inl (_, t') => acl_ok t' | inr _ => True end.
Proof.
  intros [Hok Hu]. unfold insert_rule, insert_unique. case_bool_decide; [done|].
  split; auto with lgb.
Qed.

Lemma update_rule_ok id r t : acl_ok t →
  match update_rule id r t with inl (_, t') => acl_ok t' | inr _ => True end.
Proof.
  intros [Hok Hu]. unfold update_rule, update_unique. case_decide; [|done].
  split; auto with lgb.
Qed.

Lemma delete_rule_ok id t : acl_ok t →
  match delete_rule id t with inl (_, t') => acl_ok t' | inr _ => True end.
Proof. intros [Hok Hu]. split; simpl; auto with lgb. Qed.

Lemma acl_run_op_ok op : preserves acl_ok (run_op op).
Proof.
  assert (Hexec : ∀ r, preserves acl_ok (exec (insert_rule r))).
  { intros r. apply preserves_exec, insert_rule_ok. }
  destruct op as [rules|r|id r|id]; simpl.
  - unfold Seed, IsEmpty. destruct rules as [|r rules]; auto with lgb.
    apply preserves_bind; [auto with lgb|]. intros [[]|]; auto with lgb.
    apply preserves_transaction, preserves_for_each_err. unfold seed_rule. auto with lgb.
  - unfold CreateRule. destruct (negb _); auto with lgb.
  - unfold UpdateRule. destruct (negb _); auto with lgb.
    apply preserves_bind; [apply preserves_exec, update_rule_ok|auto with lgb].
  - apply preserves_bind; [apply preserves_exec, delete_rule_ok|auto with lgb].
Qed.

(** ** The abstract map of the operations' tables *)

Lemma taken_None t k : table_ok t → taken (abs t) k None = bool_decide (k ∈ keys acl_key t).
Proof.
  intros Hok. apply bool_decide_ext. rewrite elem_of_keys. unfold map_Exists.
  setoid_rewrite abs_lookup; [|done]. naive_solver.
Qed.

Lemma insert_rule_abs r t : acl_ok t →
  insert_rule r t =
  if taken (abs t) (acl_key (rule_row r)) None then inr unique_error
  else inl (tt, insert_row (rule_row r) t).
Proof.
  intros [Hok _]. unfold insert_rule, insert_unique. rewrite taken_None by done.
  by destruct (bool_decide _).
Qed.

Lemma update_rule_abs id r t : acl_ok t →
  match abs t !! id with
  | None => ∃ t', update_rule id r t = inl (0, t') ∧ abs t' = abs t
  | Some _ =>
      if taken (abs t) (acl_key (rule_row r)) (Some id) then update_rule id r t = inr unique_error
      else ∃ n t', update_rule id r t = inl (n, t') ∧ n ≠ 0 ∧ abs t' = <[id := rule_row r]> (abs t)
  end.
Proof.
  intros [Hok Hu]. unfold update_rule, update_unique.
  destruct (abs t !! id) as [r0|] eqn:E.
  - pose proof E as Hin. rewrite abs_lookup in Hin by done.
    pose proof (update_id_unique acl_key id (λ _, rule_row r) t r0 Hok Hu Hin) as Hiff.
    destruct (taken _ _ _) eqn:Et; unfold taken in Et; bool_to_prop.
    + destruct (decide _) as [Hnd|]; [|done]. destruct Et as (j & r' & Hj & Hne & Hk).
      rewrite Hiff in Hnd. rewrite abs_lookup in Hj by done.
      destruct (Hnd j r'); naive_solver.
    + destruct (decide _) as [Hnd|Hnd].
      * eexists _, _. split; [done|]. split; [by rewrite affected_by_id, E|].
        rewrite abs_update by done. apply map_eq. intros j.
        destruct (decide (j = id)) as [->|].
        -- by rewrite lookup_alter_eq, lookup_insert_eq, E.
        -- by rewrite lookup_alter_ne, lookup_insert_ne.
      * destruct Hnd. apply Hiff. intros j r' Hj Hne Hk. destruct Et. exists j, r'.
        rewrite abs_lookup by done. split_and!; [done|congruence|done].
  - rewrite update_absent by done. rewrite decide_True by done. exists t.
    by rewrite (proj2 (affected_by_id id t Hok) E).
Qed.

Lemma seed_rule_abs r t : acl_ok t →
  seed_rule r (Db t []) =
  if taken (abs t) (acl_key (rule_row r)) None then (Some (EForeign unique_error), Db t [])
  else (None, Db (insert_row (rule_row r) t) []).
Proof.
  intros Hok. unfold seed_rule. unfold_state. rewrite exec_ok, insert_rule_abs by done.
  by destruct (taken _ _ None).
Qed.

Lemma seed_rules_abs rules t : acl_ok t →
  match seed_spec rules (last_id t + 1) (abs t) with
  | None => ∃ t', for_each_err rules seed_rule (Db t []) =
                  (Some (EForeign unique_error), Db t' [])
  | Some m => ∃ t', for_each_err rules seed_rule (Db t []) = (None, Db t' []) ∧ abs t' = m
  end.
Proof.
  revert t. induction rules as [|r rules IH]; intros t Hok; simpl; [eauto|].
  pose proof (insert_rule_ok r t Hok) as Hok'. rewrite insert_rule_abs in Hok' by done.
  unfold mbind, state_bind. rewrite seed_rule_abs by done.
  destruct (taken _ _ None); [eauto|].
  specialize (IH _ Hok'). rewrite abs_insert in IH by apply Hok. exact IH.
Qed.

Lemma Seed_abs rules t : acl_ok t →
  let '(res, d') := Seed rules (Db t []) in
  (res, abs (tables d')) = acl_spec (OpSeed rules) (last_id t + 1) (abs t) ∧ faults d' = [].
Proof.
  intros Hok. pose proof (seed_rules_abs rules t Hok) as H. simpl.
  destruct rules as [|r rules]; [simpl; by case_bool_decide|].
  unfold Seed, IsEmpty, mbind at 1, state_bind at 1. unfold_state. rewrite query_ok.
  destruct (Z.eqb_spec (Z.of_nat (List.length (rows t))) 0) as [E|E].
  - rewrite bool_decide_eq_true_2 by (apply abs_empty; [apply Hok|lia]).
    destruct (seed_spec _ _ _); destruct H as (t' & H).
    + destruct H as [H <-]. by rewrite (transaction_ok _ _ _ _ H).
    + by rewrite (transaction_ok _ _ _ _ H).
  - rewrite bool_decide_eq_false_2; [done|]. rewrite abs_empty by apply Hok. lia.
Qed.

Lemma acl_run (op : acl_op) (t : acl_table) : acl_ok t →
  let '(res, d') := run_op op (Db t []) in
  (res, abs (tables d')) = acl_spec op (last_id t + 1) (abs t) ∧ faults d' = [].
Proof.
  intros Hok. destruct op as [rules|r|id r|id]; [by apply Seed_abs|simpl..].
  - unfold CreateRule, write_error. destruct (negb _); [done|].
    unfold_state. rewrite exec_ok, insert_rule_abs by done.
    destruct (taken _ _ None); simpl; [by rewrite unique_error_law|].
    by rewrite abs_insert by apply Hok.
  - unfold UpdateRule, write_error. destruct (negb _); [done|].
    unfold_state. rewrite exec_ok. pose proof (update_rule_abs id r t Hok) as H.
    destruct (abs t !! id).
    + destruct (taken _ _ _).
      * rewrite H. simpl. by rewrite unique_error_law.
      * destruct H as (n & t' & -> & Hn & <-). simpl. by rewrite (proj2 (Z.eqb_neq n 0)).
    + destruct H as (t' & -> & <-). done.
  - unfold DeleteRule. unfold_state. simpl.
    rewrite abs_delete by apply Hok.
    destruct (Z.eqb_spec (affected (by_id id) t) 0) as [E|E];
      rewrite affected_by_id in E by apply Hok.
    + by rewrite E, delete_id.
    + destruct (abs t !! id); [done|]. by destruct E.
Qed.

(** C17 Every operation of the ACL store refines the abstract map: without
    database faults its result and the rules it leaves are those of [acl_spec]. *)
Theorem acl_refines (op : acl_op) (t : acl_table) : acl_ok t →
  let '(res, d') := run_op op (Db t []) in
  (res, abs (tables d')) = acl_spec op (last_id t + 1) (abs t) ∧ faults d' = [].
Proof. apply acl_run. Qed.

(** The same with the new table named. *)
Lemma acl_op_spec op t : acl_ok t →
  let '(res, m) := acl_spec op (last_id t + 1) (abs t) in
  ∃ t', run_op op (Db t []) = (res, Db t' []) ∧ acl_ok t' ∧ abs t' = m.
Proof.
  intros Hok. pose proof (acl_run op t Hok) as H. pose proof (acl_run_op_ok op (Db t []) Hok) as Hok'.
  destruct (acl_spec _ _ _) as [res m]. destruct (run_op op (Db t [])) as [res' [t' fs]].
  simpl in *. destruct H as [H ->]. simplify_eq. eauto.
Qed.

(** Whatever the database does, no sequence of operations on a new store
    leaves two rules for the same (role, plc, tag), nor reuses an identifier. *)
Theorem acl_rules_unique (ops : list acl_op) (script : list (option foreign)) :
  let t := tables (run_ops ops (Db empty_table script)).2 in
  NoDup (keys acl_key t) ∧ NoDup (ids t).
Proof.
  assert (H : acl_ok (tables (run_ops ops (Db empty_table script)).2)).
  { apply (for_each_inv (λ d, acl_ok (tables d))).
    - intros op d. apply preserves_bind; [apply acl_run_op_ok|auto with lgb].
    - apply acl_ok_empty. }
  destruct H as [Hok Hu]. split; [done|by apply ids_NoDup].
Qed.

Lemma granted_select t role plc tag : acl_ok t →
  match select_one (λ x, String.eqb (row_role x.2) role && String.eqb (row_plc x.2) plc
                         && String.eqb (row_tag x.2) tag) t with
  | Some x => negb (row_allow_write x.2 =? 0)
  | None => false
  end = true ↔ granted t role plc tag.
Proof.
  intros [Hok Hu]. unfold granted, acl_key. destruct (select_one _ t) as [[i r]|] eqn:E.
  - apply select_one_Some in E as [Hin E]. simpl in *. bool_to_prop.
    repeat match goal with H : String.eqb _ _ = true |- _ => apply String.eqb_eq in H end.
    subst. rewrite negb_true_iff, Z.eqb_neq. split; [by intros; exists i, r|].
    intros (j & r' & Hin' & Hk & Ha).
    assert (E : (j, r') = (i, r)) by (by apply (unique_row acl_key t)). by simplify_eq.
  - split; [done|]. intros (i & r & Hin & Hk & _). simplify_eq.
    rewrite select_one_None in E. specialize (E _ Hin). simpl in E.
    by rewrite !String.eqb_refl in E.
Qed.

Lemma CanWrite_run t role plc tag : acl_ok t →
  ∃ b, CanWrite role plc tag (Db t []) = (inl b, Db t []) ∧ (b = true ↔ granted t role plc tag).
Proof.
  intros Hok. pose proof (granted_select t role plc tag Hok) as H.
  unfold CanWrite. rewrite bind_run, query_ok. destruct (select_one _ t); eauto.
Qed.

(** [CanWrite] answers yes exactly when a rule for the triple allows the
    write; it changes nothing, and answers no question when the database
    fails. *)
Theorem CanWrite_correct (d : db acl_table) (role plc tag : string) : acl_ok (tables d) →
  let '(res, d') := CanWrite role plc tag d in
  tables d' = tables d ∧
  match res with
  | inl b => b = true ↔ granted (tables d) role plc tag
  | inr _ => ∃ f fs, faults d = Some f :: fs
  end.
Proof.
  intros Hok. pose proof (granted_select (tables d) role plc tag Hok) as H.
  unfold CanWrite, query, exec, next_fault. unfold_state. destruct d as [t [|[f|] fs]]; simpl in *.
  - destruct (select_one _ t); by rewrite <- H.
  - eauto.
  - destruct (select_one _ t); by rewrite <- H.
Qed.

(** [ListRules] returns every rule once, in the order of (role, plc, tag). *)
Theorem ListRules_sorted (t : acl_table) :
  ∃ rs, ListRules (Db t []) = (inl (scanRules rs), Db t []) ∧
        rs ≡ₚ rows t ∧ Sorted (order_by by_role_plc_tag) rs.
Proof.
  exists (merge_sort (order_by by_role_plc_tag) (rows t)). split; [done|]. split.
  - apply merge_sort_Permutation.
  - apply Sorted_merge_sort, _.
Qed.

End specification.

(** ** Witnesses *)

(** Two rules: a viewer may write ["plc1"]/["A"], and may not write ["B"]. *)
Definition sample_acl : acl_table :=
  Table [(1, AclRow "viewer" "plc1" "A" 1); (2, AclRow "viewer" "plc1" "B" 0)] 2.

Lemma sample_acl_ok : acl_ok sample_acl.
Proof.
  split; [split; repeat constructor; simpl; lia|].
  apply (bool_decide_unpack _). vm_compute. exact I.
Qed.

Lemma acl_refines_witness :
  acl_ok sample_acl ∧
  let '(res, d') := run_op (OpUpdate 2 (mkACLRule 0 "viewer" "plc1" "A" true)) (Db sample_acl []) in
  (res, abs (tables d')) = (Some (Sentinel ErrRuleAlreadyExists), abs sample_acl) ∧ faults d' = [].
Proof.
  split; [exact sample_acl_ok|].
  exact (acl_refines (OpUpdate 2 (mkACLRule 0 "viewer" "plc1" "A" true)) sample_acl sample_acl_ok).
Defined.

Lemma CanWrite_correct_witness :
  (CanWrite "viewer" "plc1" "A" (Db sample_acl [])).1 = inl true ∧
  granted sample_acl "viewer" "plc1" "A".
Proof.
  split; [reflexivity|].
  apply (CanWrite_correct (Db sample_acl []) "viewer" "plc1" "A" sample_acl_ok). reflexivity.
Defined.
