(* ===== verification/PlcStore.v ===== *)
(** * [internal/plcstore]: the PLC configurations

    The tables [plcs] and [plc_tags] with their constraints (unique names, a
    foreign key with [ON DELETE CASCADE]), and the operations of [Store], each
    a transaction over both tables. *)

From S2P Require Import Prelude GoString GoTime GoError Config Sql.

(** ** The tables *)

Record plc_row := PlcRow {
  plcName : string; plcAddress : string; plcSlot : Z; plcSocketTimeout : string;
  plcScanRate : string; plcKeepAlive : Z; plcPath : string;
  plcCreatedAt : Z; plcUpdatedAt : Z;
}.

Record tag_row := TagRow {
  tagPlcID : Z; tagName : string; tagType : string; tagWritable : Z; tagDCMD : Z;
}.

Record plc_tables := PlcTables { plcs : table plc_row; plc_tags : table tag_row }.

Definition tag_key (r : tag_row) : Z * string := (tagPlcID r, tagName r).

Definition empty_plcs : plc_tables := PlcTables empty_table empty_table.

Definition boolToInt (b : bool) : Z := if b then 1 else 0.

Definition plc_to_row (p : PLC) (now : Z) : plc_row :=
  PlcRow (pName p) (pAddress p) (pSlot p) (pSocketTimeout p) (pScanRate p)
    (boolToInt (pKeepAlive p)) (pPath p) now now.

Definition tag_to_row (plcID : Z) (t : TagDef) : tag_row :=
  TagRow plcID (tName t) (tType t) (boolToInt (tWritable t)) (boolToInt (tDCMDEnabled t)).

Definition scan_tag (r : tag_row) : TagDef :=
  mkTagDef (tagName r) (tagType r) (negb (tagWritable r =? 0)) (negb (tagDCMD r =? 0)).

Definition scan_plc (r : plc_row) (tags : slice TagDef) : PLC :=
  mkPLC (plcName r) (plcAddress r) (plcSlot r) (plcSocketTimeout r) (plcScanRate r)
    (negb (plcKeepAlive r =? 0)) (plcPath r) tags.

Definition of_plc (id : Z) : Z * tag_row → bool := λ x, tagPlcID x.2 =? id.
Definition by_name (name : string) : Z * plc_row → bool := λ x, String.eqb (plcName x.2) name.

Section store.
Context {Eng : Engine}.

(** ** Statements *)

(** [INSERT INTO plcs]: the last insert id. *)
Definition insert_plc (p : PLC) (now : Z) : stmt plc_tables Z := λ t,
  match insert_unique plcName (plc_to_row p now) (plcs t) with
  | Some t' => inl (last_id t', PlcTables t' (plc_tags t))
  | None => inr unique_error
  end.

(** [INSERT INTO plc_tags], which references a row of [plcs]. *)
Definition insert_tag (plcID : Z) (tag : TagDef) : stmt plc_tables unit := λ t,
  if negb (bool_decide (plcID ∈ ids (plcs t))) then inr fk_error
  else match insert_unique tag_key (tag_to_row plcID tag) (plc_tags t) with
       | Some t' => inl (tt, PlcTables (plcs t) t')
       | None => inr unique_error
       end.

Definition set_plc (p : PLC) (now : Z) (r : plc_row) : plc_row :=
  PlcRow (pName p) (pAddress p) (pSlot p) (pSocketTimeout p) (pScanRate p)
    (boolToInt (pKeepAlive p)) (pPath p) (plcCreatedAt r) now.

(** [UPDATE plcs SET ... WHERE name = ?]. *)
Definition update_plc (name : string) (p : PLC) (now : Z) : stmt plc_tables Z := λ t,
  match update_unique plcName (by_name name) (set_plc p now) (plcs t) with
  | Some (n, t') => inl (n, PlcTables t' (plc_tags t))
  | None => inr unique_error
  end.

(** [DELETE FROM plc_tags WHERE plc_id = ?]. *)
Definition delete_tags (plcID : Z) : stmt plc_tables unit := λ t,
  inl (tt, PlcTables (plcs t) (delete_where (of_plc plcID) (plc_tags t))).

(** [DELETE FROM plcs WHERE id = ?], with the cascade. *)
Definition delete_plc (plcID : Z) : stmt plc_tables unit := λ t,
  inl (tt, PlcTables (delete_where (by_id plcID) (plcs t))
                     (delete_where (of_plc plcID) (plc_tags t))).

Definition select_plc (name : string) (t : plc_tables) : option (Z * plc_row) :=
  select_one (by_name name) (plcs t).

(** ** Helpers *)

(** An [ExecContext] whose result only matters as an error. *)
Definition must {A : Type} (r : A + foreign) : option error :=
  match r with inl _ => None | inr f => Some (EForeign f) end.

Definition listTags (plcID : Z) : State (db plc_tables) (result (slice TagDef)) :=
  res ← query (λ t, select_where (of_plc plcID) (plc_tags t));
  mret (map_result (λ rs, appended (scan_tag ∘ snd <$> rs)) (foreign_result res)).

Definition insertTags (plcID : Z) (tags : slice TagDef)
    : State (db plc_tables) (option error) :=
  for_each_err (elems tags) (λ tag, res ← exec (insert_tag plcID tag); mret (must res)).

(** ** CRUD *)

(** The tags of each PLC of a result set, in its order. *)
Fixpoint with_tags (rs : list (Z * plc_row)) : State (db plc_tables) (result (list PLC)) :=
  match rs with
  | [] => mret (inl [])
  | (id, r) :: rs' =>
      tags ← listTags id;
      match tags with
      | inr err => mret (inr err)
      | inl tags => ps ← with_tags rs'; mret (map_result (cons (scan_plc r tags)) ps)
      end
  end.

Definition plc_columns (r : plc_row) : list string := [plcName r].

Definition List : State (db plc_tables) (result (list PLC)) :=
  res ← query (λ t, merge_sort (order_by plc_columns) (rows (plcs t)));
  match res with
  | inr f => mret (inr (EForeign f))
  | inl rs => with_tags rs
  end.

Definition Get (name : string) : State (db plc_tables) (result PLC) :=
  res ← query (select_plc name);
  match res with
  | inr f => mret (inr (EForeign f))
  | inl None => mret (inr (Sentinel ErrPLCNotFound))
  | inl (Some (id, r)) => tags ← listTags id; mret (map_result (scan_plc r) tags)
  end.

Definition write_error (err : foreign) : error :=
  if isUniqueViolation err then Sentinel ErrPLCAlreadyExists else EForeign err.

(** Inserting a PLC and its tags inside a transaction, as [Create] and [Seed]
    do; [on_error] is what they return for a failed insertion into [plcs], and
    [now] the clock reading in seconds. *)
Definition insert_with_tags (on_error : foreign → error) (now : Z) (p : PLC)
    : State (db plc_tables) (option error) :=
  res ← exec (insert_plc p now);
  match res with
  | inr f => mret (Some (on_error f))
  | inl plcID => insertTags plcID (pTags p)
  end.

Definition Create (now : Z) (p : PLC) : State (db plc_tables) (option error) :=
  transaction (insert_with_tags write_error now p).

(** The tags of a row are replaced wholesale. *)
Definition replace_tags (plcID : Z) (tags : slice TagDef)
    : State (db plc_tables) (option error) :=
  res ← exec (delete_tags plcID);
  match res with
  | inr f => mret (Some (EForeign f))
  | inl _ => insertTags plcID tags
  end.

Definition no_rows : error := EForeign (plain_error "sql: no rows in result set").

Definition update_tx (now : Z) (name : string) (p : PLC)
    : State (db plc_tables) (option error) :=
  res ← exec (update_plc name p now);
  match res with
  | inr f => mret (Some (write_error f))
  | inl n =>
      if n =? 0 then mret (Some (Sentinel ErrPLCNotFound))
      else
        row ← query (select_plc (pName p));
        match row with
        | inr f => mret (Some (EForeign f))
        | inl None => mret (Some no_rows)
        | inl (Some (plcID, _)) => replace_tags plcID (pTags p)
        end
  end.

Definition Update (now : Z) (name : string) (p : PLC) : State (db plc_tables) (option error) :=
  transaction (update_tx now name p).

Definition delete_tx (name : string) : State (db plc_tables) (option error) :=
  row ← query (select_plc name);
  match row with
  | inr f => mret (Some (EForeign f))
  | inl None => mret (Some (Sentinel ErrPLCNotFound))
  | inl (Some (plcID, _)) =>
      res ← exec (delete_tags plcID);
      match res with
      | inr f => mret (Some (EForeign f))
      | inl _ => res ← exec (delete_plc plcID); mret (must res)
      end
  end.

Definition Delete (name : string) : State (db plc_tables) (option error) :=
  transaction (delete_tx name).

(** ** Bootstrap *)

Definition IsEmpty : State (db plc_tables) (result bool) :=
  res ← query (λ t, Z.of_nat (List.length (rows (plcs t))));
  mret (map_result (λ n, n =? 0) (foreign_result res)).

Definition Seed (now : Z) (ps : list PLC) : State (db plc_tables) (option error) :=
  match ps with
  | [] => mret None
  | _ =>
      empty ← IsEmpty;
      match empty with
      | inr err => mret (Some err)
      | inl false => mret None
      | inl true => transaction (for_each_err ps (insert_with_tags EForeign now))
      end
  end.

End store.

(** ** The invariant: both tables are well formed, names are unique, and every
    tag belongs to a PLC *)

Record plc_ok (t : plc_tables) : Prop := {
  ok_plcs : table_ok (plcs t);
  ok_names : unique plcName (plcs t);
  ok_tags : table_ok (plc_tags t);
  ok_tag_keys : unique tag_key (plc_tags t);
  ok_fk : ∀ x, x ∈ rows (plc_tags t) → tagPlcID x.2 ∈ ids (plcs t);
}.

Lemma plc_ok_empty : plc_ok empty_plcs.
Proof. split; simpl; auto with lgb. intros x Hx. set_solver. Qed.

(** A change to the store. *)
Inductive plc_op :=
| OpCreate (now : Z) (p : PLC)
| OpUpdate (now : Z) (name : string) (p : PLC)
| OpDelete (name : string)
| OpSeed (now : Z) (ps : list PLC).

Section invariant.
Context {Eng : Engine}.

Definition run_op (op : plc_op) : State (db plc_tables) (option error) :=
  match op with
  | OpCreate now p => Create now p
  | OpUpdate now name p => Update now name p
  | OpDelete name => Delete name
  | OpSeed now ps => Seed now ps
  end.

Definition run_ops (ops : list plc_op) : State (db plc_tables) unit :=
  for_each ops (λ op, _ ← run_op op; mret tt).

Lemma insert_plc_ok p now : preserves plc_ok (exec (insert_plc p now)).
Proof.
  apply preserves_exec. intros t [H1 H2 H3 H4 H5]. unfold insert_plc, insert_unique.
  case_bool_decide; [done|]. split; simpl; auto with lgb.
  intros x Hx. unfold ids, insert_row. cbn. rewrite fmap_app. set_solver.
Qed.

Lemma insert_tag_ok id tag : preserves plc_ok (exec (insert_tag id tag)).
Proof.
  apply preserves_exec. intros t [H1 H2 H3 H4 H5]. unfold insert_tag, insert_unique.
  case_bool_decide; simpl; [|done]. case_bool_decide; [done|]. split; simpl; auto with lgb.
  intros x Hx. unfold insert_row in Hx. cbn in Hx.
  apply elem_of_app in Hx as [Hx| ->%list_elem_of_singleton]; auto.
Qed.

Lemma update_plc_ok name p now : preserves plc_ok (exec (update_plc name p now)).
Proof.
  apply preserves_exec. intros t [H1 H2 H3 H4 H5]. unfold update_plc, update_unique.
  case_decide; [|done]. split; simpl; auto with lgb. by rewrite ids_update.
Qed.

Lemma delete_tags_ok id : preserves plc_ok (exec (delete_tags id)).
Proof.
  apply preserves_exec. intros t [H1 H2 H3 H4 H5]. split; simpl; auto with lgb.
  intros x [Hx _]%elem_of_delete. auto.
Qed.

Lemma delete_plc_ok id : preserves plc_ok (exec (delete_plc id)).
Proof.
  apply preserves_exec. intros t [H1 H2 H3 H4 H5]. split; simpl; auto with lgb.
  intros x [Hx Hp]%elem_of_delete. specialize (H5 _ Hx). unfold of_plc in Hp. bool_to_prop.
  unfold ids in *. apply list_elem_of_fmap in H5 as ([j r] & E & Hj). simpl in E.
  apply list_elem_of_fmap. exists (j, r). split; [done|]. apply elem_of_delete.
  split; [done|]. unfold by_id. simpl. apply Z.eqb_neq. congruence.
Qed.

Hint Resolve insert_plc_ok insert_tag_ok update_plc_ok delete_tags_ok delete_plc_ok : lgb.

Lemma insertTags_preserves id tags : preserves plc_ok (insertTags id tags).
Proof. apply preserves_for_each_err. auto with lgb. Qed.
Hint Resolve insertTags_preserves : lgb.

Lemma insert_with_tags_preserves on_error now p :
  preserves plc_ok (insert_with_tags on_error now p).
Proof. apply preserves_bind; [auto with lgb|]. intros []; auto with lgb. Qed.

Lemma replace_tags_preserves id tags : preserves plc_ok (replace_tags id tags).
Proof. apply preserves_bind; [auto with lgb|]. intros []; auto with lgb. Qed.
Hint Resolve insert_with_tags_preserves replace_tags_preserves : lgb.

Lemma update_tx_preserves now name p : preserves plc_ok (update_tx now name p).
Proof.
  apply preserves_bind; [auto with lgb|]. intros [n|]; auto with lgb.
  destruct (n =? 0); auto with lgb.
  apply preserves_bind; [auto with lgb|]. intros [[[]|]|]; auto with lgb.
Qed.

Lemma delete_tx_preserves name : preserves plc_ok (delete_tx name).
Proof.
  apply preserves_bind; [auto with lgb|]. intros [[[]|]|]; auto with lgb.
  apply preserves_bind; [auto with lgb|]. intros []; auto with lgb.
Qed.
Hint Resolve update_tx_preserves delete_tx_preserves : lgb.

Lemma plc_run_op_ok op : preserves plc_ok (run_op op).
Proof.
  destruct op as [now p|now name p|name|now ps]; simpl;
    try (apply preserves_transaction; auto with lgb).
  unfold Seed, IsEmpty. destruct ps as [|p ps]; auto with lgb.
  apply preserves_bind; [auto with lgb|]. intros [[]|]; auto with lgb.
Qed.

(** Whatever the database does, no sequence of operations on a new store
    leaves two PLCs with one name, two tags of a PLC with one name, or a tag
    without its PLC. *)
Theorem plc_store_invariant (ops : list plc_op) (script : list (option foreign)) :
  let t := tables (run_ops ops (Db empty_plcs script)).2 in
  NoDup (keys plcName (plcs t)) ∧ NoDup (keys tag_key (plc_tags t)) ∧
  (∀ x, x ∈ rows (plc_tags t) → tagPlcID x.2 ∈ ids (plcs t)).
Proof.
  assert (H : plc_ok (tables (run_ops ops (Db empty_plcs script)).2)).
  { apply (for_each_inv (λ d, plc_ok (tables d))); [|apply plc_ok_empty].
    intros op d. apply preserves_bind; [apply plc_run_op_ok|auto with lgb]. }
  by destruct H.
Qed.

Lemma run_op_atomic op d e d' : run_op op d = (Some e, d') → tables d' = tables d.
Proof.
  intros E. destruct op as [now p|now name p|name|now ps]; simpl in E;
    try (by eapply transaction_atomic).
  unfold Seed, IsEmpty, query in E. destruct ps; [done|]. unfold mbind at 1, state_bind at 1 in E.
  unfold_state. unfold exec, next_fault in E. unfold_state.
  destruct d as [t [|[f|] fs]]; simpl in E; repeat split_match_in E; simplify_eq/=; try done;
    by apply transaction_atomic in E.
Qed.

(** C30 An operation that reports an error has left both tables as they were,
    wherever in its transaction the database failed. *)
Theorem plc_op_atomic (op : plc_op) (d : db plc_tables) :
  match run_op op d with
  | (Some _, d') => tables d' = tables d
  | (None, _) => True
  end.
Proof.
  destruct (run_op op d) as [[e|] d'] eqn:E; [|done]. by eapply run_op_atomic.
Qed.

End invariant.

(** ** The abstract store: a map from names to PLCs *)

(** The tags of a row, in the order they were inserted. *)
Definition tags_of (t : plc_tables) (id : Z) : list TagDef :=
  scan_tag ∘ snd <$> select_where (of_plc id) (plc_tags t).

Definition find (t : plc_tables) (name : string) : option PLC :=
  '(id, r) ← select_plc name t; Some (scan_plc r (appended (tags_of t id))).

(** A PLC as the store returns it: an empty list of tags comes back as nil. *)
Definition stored (p : PLC) : PLC :=
  mkPLC (pName p) (pAddress p) (pSlot p) (pSocketTimeout p) (pScanRate p) (pKeepAlive p)
    (pPath p) (appended (elems (pTags p))).

Definition distinct_tags (p : PLC) : bool := bool_decide (NoDup (tName <$> elems (pTags p))).

Section specification.
Context {Eng : Engine}.

Definition duplicate_tag : error := EForeign unique_error.

(** The map with the PLC [p] in place of whatever is under its name. *)
Definition put (p : PLC) (m : string → option PLC) (n : string) : option PLC :=
  if String.eqb n (pName p) then Some (stored p) else m n.

Definition remove (name : string) (m : string → option PLC) (n : string) : option PLC :=
  if String.eqb n name then None else m n.

Fixpoint seed_spec (ps : list PLC) (m : string → option PLC) : option (string → option PLC) :=
  match ps with
  | [] => Some m
  | p :: ps' =>
      if bool_decide (is_Some (m (pName p))) || negb (distinct_tags p) then None
      else seed_spec ps' (put p m)
  end.

(** What an operation does when the database does not fail; [empty] tells
    whether there is no PLC yet. *)
Definition plc_spec (op : plc_op) (empty : bool) (m : string → option PLC)
    : option error * (string → option PLC) :=
  match op with
  | OpCreate _ p =>
      if bool_decide (is_Some (m (pName p))) then (Some (Sentinel ErrPLCAlreadyExists), m)
      else if negb (distinct_tags p) then (Some duplicate_tag, m)
      else (None, put p m)
  | OpUpdate _ name p =>
      if bool_decide (m name = None) then (Some (Sentinel ErrPLCNotFound), m)
      else if negb (String.eqb name (pName p)) && bool_decide (is_Some (m (pName p)))
      then (Some (Sentinel ErrPLCAlreadyExists), m)
      else if negb (distinct_tags p) then (Some duplicate_tag, m)
      else (None, put p (remove name m))
  | OpDelete name =>
      if bool_decide (m name = None) then (Some (Sentinel ErrPLCNotFound), m)
      else (None, remove name m)
  | OpSeed _ ps =>
      if empty then
        match seed_spec ps m with
        | Some m' => (None, m')
        | None => (Some duplicate_tag, m)
        end
      else (None, m)
  end.

(** *** Rows by name *)

Lemma by_name_eq name x : by_name name x = true ↔ plcName x.2 = name.
Proof. apply String.eqb_eq. Qed.

Lemma select_plc_Some t name id r : plc_ok t →
  select_plc name t = Some (id, r) ↔ (id, r) ∈ rows (plcs t) ∧ plcName r = name.
Proof.
  intros Hok. unfold select_plc. split.
  - by intros [Hin Hn%by_name_eq]%select_one_Some.
  - intros [Hin Hn]. destruct (select_one _ _) as [[j r']|] eqn:E.
    + apply select_one_Some in E as [Hin' Hn'%by_name_eq]. simpl in Hn'. f_equal.
      apply (unique_row plcName (plcs t)); [apply Hok|done|done|congruence].
    + rewrite select_one_None in E. specialize (E _ Hin).
      by rewrite (proj2 (by_name_eq name (id, r)) Hn) in E.
Qed.

Lemma select_plc_None t name : plc_ok t →
  select_plc name t = None ↔ name ∉ keys plcName (plcs t).
Proof.
  intros Hok. rewrite elem_of_keys. destruct (select_plc name t) as [[id r]|] eqn:E.
  - apply select_plc_Some in E; [|done]. split; [done|]. naive_solver.
  - split; [|done]. intros _ (i & r & Hin & Hn).
    by rewrite (proj2 (select_plc_Some t name i r Hok)) in E.
Qed.

Lemma find_None t name : plc_ok t → find t name = None ↔ name ∉ keys plcName (plcs t).
Proof.
  intros Hok. rewrite <- select_plc_None by done. unfold find.
  by destruct (select_plc name t) as [[]|].
Qed.

Lemma find_is_Some t name : plc_ok t → is_Some (find t name) ↔ name ∈ keys plcName (plcs t).
Proof.
  intros Hok. rewrite <- not_eq_None_Some, find_None by done.
  destruct (decide (name ∈ keys plcName (plcs t))); naive_solver.
Qed.

Lemma find_Some t id r : plc_ok t → (id, r) ∈ rows (plcs t) →
  find t (plcName r) = Some (scan_plc r (appended (tags_of t id))).
Proof.
  intros Hok Hin. unfold find. by rewrite (proj2 (select_plc_Some t (plcName r) id r Hok)).
Qed.

Lemma find_name t n p : find t n = Some p → pName p = n.
Proof.
  unfold find. intros ([id r] & E & H)%bind_Some. simplify_eq.
  by apply select_one_Some in E as [_ Hn%by_name_eq].
Qed.

Lemma scan_tag_row id tag : scan_tag (tag_to_row id tag) = tag.
Proof. by destruct tag as [n ty [] []]. Qed.

Lemma scan_plc_row p now tags :
  scan_plc (plc_to_row p now) tags =
  mkPLC (pName p) (pAddress p) (pSlot p) (pSocketTimeout p) (pScanRate p) (pKeepAlive p)
    (pPath p) tags.
Proof. unfold scan_plc. simpl. by destruct (pKeepAlive p). Qed.

Lemma ids_elem (t : table plc_row) id : id ∈ ids t ↔ ∃ r, (id, r) ∈ rows t.
Proof.
  unfold ids. rewrite list_elem_of_fmap. split.
  - intros ([j r] & -> & H). eauto.
  - intros [r H]. by exists (id, r).
Qed.

(** An identifier without a PLC has no tags. *)
Lemma tags_of_absent t id : plc_ok t → id ∉ ids (plcs t) → tags_of t id = [].
Proof.
  intros Hok Hid. unfold tags_of. rewrite select_empty; [done|].
  intros x Hx. unfold of_plc. apply Z.eqb_neq. intros E. destruct Hid. rewrite <- E.
  by apply Hok.
Qed.

(** *** Inserting tags *)

Lemma tag_key_taken t id name :
  (id, name) ∈ keys tag_key (plc_tags t) ↔ name ∈ tName <$> tags_of t id.
Proof.
  rewrite elem_of_keys. unfold tags_of. rewrite <- list_fmap_compose, list_elem_of_fmap. split.
  - intros (i & r & Hin & [= <- <-]). exists (i, r). split; [done|].
    apply elem_of_select. split; [done|]. by apply Z.eqb_refl.
  - intros ([i r] & -> & [Hin E]%elem_of_select). exists i, r. split; [done|].
    unfold of_plc in E. simpl in *. bool_to_prop. unfold tag_key. by subst.
Qed.

Lemma tags_of_insert t id tag j :
  tags_of (PlcTables (plcs t) (insert_row (tag_to_row id tag) (plc_tags t))) j =
  tags_of t j ++ (if j =? id then [tag] else []).
Proof.
  unfold tags_of. simpl. rewrite select_insert. unfold of_plc. simpl. rewrite (Z.eqb_sym id j).
  destruct (j =? id); rewrite fmap_app; simpl; by rewrite ?scan_tag_row.
Qed.

Definition tag_step (tables0 : plc_tables) (id : Z) (tags : list TagDef) (t' : plc_tables) : Prop :=
  plcs t' = plcs tables0 ∧
  ∀ j, tags_of t' j = tags_of tables0 j ++ (if j =? id then tags else []).

Lemma tags_of_NoDup t id : plc_ok t → NoDup (tName <$> tags_of t id).
Proof.
  intros Hok. unfold tags_of. rewrite <- list_fmap_compose.
  apply NoDup_fmap_2_strong.
  - intros [i r] [j r'] [Hx Ex]%elem_of_select [Hy Ey]%elem_of_select E.
    unfold of_plc in *. simpl in *. bool_to_prop.
    apply (unique_row tag_key (plc_tags t)); [apply Hok|done|done|].
    unfold tag_key. congruence.
  - eapply sublist_NoDup; [apply rows_NoDup, Hok|apply select_sublist].
Qed.

Lemma insert_tag_spec id tag t : plc_ok t → id ∈ ids (plcs t) →
  insert_tag id tag t =
  if bool_decide (tName tag ∈ tName <$> tags_of t id) then inr unique_error
  else inl (tt, PlcTables (plcs t) (insert_row (tag_to_row id tag) (plc_tags t))).
Proof.
  intros Hok Hid. unfold insert_tag, insert_unique. rewrite bool_decide_eq_true_2 by done.
  cbn [negb].
  rewrite (bool_decide_ext (tag_key (tag_to_row id tag) ∈ keys tag_key (plc_tags t))
             (tName tag ∈ tName <$> tags_of t id)) by apply tag_key_taken.
  by destruct (bool_decide _).
Qed.

Lemma insertTags_spec id tags t : plc_ok t → id ∈ ids (plcs t) →
  if bool_decide (NoDup (tName <$> tags_of t id ++ tags))
  then ∃ t', insertTags id (Some tags) (Db t []) = (None, Db t' []) ∧ tag_step t id tags t'
  else ∃ t', insertTags id (Some tags) (Db t []) = (Some duplicate_tag, Db t' []).
Proof.
  revert t. induction tags as [|tag tags IH]; intros t Hok Hid.
  - rewrite app_nil_r, bool_decide_eq_true_2 by by apply tags_of_NoDup.
    exists t. split; [done|]. split; [done|]. intros j. destruct (j =? id); by rewrite app_nil_r.
  - unfold insertTags in *. simpl in *. unfold mbind, state_bind, mret, state_ret.
    pose proof (insert_tag_ok id tag (Db t []) Hok) as Hok'.
    rewrite exec_ok, insert_tag_spec in * by done. case_bool_decide as Hdup; simpl in *.
    + rewrite bool_decide_eq_false_2; [eauto|]. rewrite fmap_app. intros [_ [H _]]%NoDup_app.
      apply (H (tName tag)); [done|]. simpl. set_solver.
    + specialize (IH _ Hok' Hid). rewrite tags_of_insert, Z.eqb_refl, <- app_assoc in IH.
      simpl in IH. destruct (bool_decide _); [|exact IH].
      destruct IH as (t' & E & Hp & Ht). exists t'. split; [exact E|]. split; [done|].
      intros j. rewrite Ht, tags_of_insert, <- app_assoc. by destruct (j =? id).
Qed.

Lemma insertTags_elems id tags d : insertTags id tags d = insertTags id (Some (elems tags)) d.
Proof. done. Qed.

(** *** The operations *)

Lemma find_ext t id r name :
  select_plc name t = Some (id, r) → find t name = Some (scan_plc r (appended (tags_of t id))).
Proof. intros E. unfold find. by rewrite E. Qed.

(** The PLCs other than one row are those of the old tables. *)
Lemma find_frame t t' name name' :
  select_plc name t' = select_plc name' t →
  (∀ id r, select_plc name t' = Some (id, r) → tags_of t' id = tags_of t id) →
  find t' name = find t name'.
Proof.
  intros E H. unfold find. rewrite E in *. destruct (select_plc name' t) as [[id r]|]; [|done].
  simpl. by rewrite (H id r).
Qed.

Lemma select_plc_insert t p now tags n : plc_ok t → pName p ∉ keys plcName (plcs t) →
  select_plc n (PlcTables (insert_row (plc_to_row p now) (plcs t)) tags) =
  if String.eqb n (pName p) then Some (last_id (plcs t) + 1, plc_to_row p now)
  else select_plc n t.
Proof.
  intros Hok Hnew. unfold select_plc, select_one. simpl. rewrite select_insert. unfold by_name.
  simpl. rewrite (String.eqb_sym (pName p) n). destruct (String.eqb_spec n (pName p)) as [->|Hne].
  - rewrite select_empty; [done|]. intros x Hx. apply String.eqb_neq. intros E. destruct Hnew.
    apply elem_of_keys. exists x.1, x.2. by destruct x.
  - by rewrite app_nil_r.
Qed.

Lemma last_id_fresh {R} (t : table R) : table_ok t → last_id t + 1 ∉ ids t.
Proof.
  intros [_ Hl] Hin. rewrite Forall_forall in Hl. specialize (Hl _ Hin). lia.
Qed.

Lemma insert_plc_spec p now t : plc_ok t →
  insert_plc p now t =
  if bool_decide (is_Some (find t (pName p))) then inr unique_error
  else inl (last_id (plcs t) + 1,
            PlcTables (insert_row (plc_to_row p now) (plcs t)) (plc_tags t)).
Proof.
  intros Hok. unfold insert_plc, insert_unique.
  rewrite (bool_decide_ext (is_Some (find t (pName p))) (pName p ∈ keys plcName (plcs t)))
    by by apply find_is_Some.
  by destruct (bool_decide _).
Qed.

(** The PLC of a freshly inserted row, once its tags are in. *)
Lemma find_inserted t p now t' : plc_ok t → find t (pName p) = None →
  tag_step (PlcTables (insert_row (plc_to_row p now) (plcs t)) (plc_tags t))
    (last_id (plcs t) + 1) (elems (pTags p)) t' →
  ∀ n, find t' n = put p (find t) n.
Proof.
  unfold put. intros Hok Hnew [Hp Ht] n. simpl in Hp. rewrite find_None in Hnew by done.
  assert (E : select_plc n t' = if String.eqb n (pName p)
                then Some (last_id (plcs t) + 1, plc_to_row p now) else select_plc n t).
  { rewrite <- (select_plc_insert t p now (plc_tags t') n) by done. unfold select_plc.
    by rewrite Hp. }
  destruct (String.eqb n (pName p)).
  - rewrite (find_ext _ _ _ _ E), scan_plc_row, Ht, Z.eqb_refl.
    change (tags_of (PlcTables _ (plc_tags t)) ?i) with (tags_of t i).
    rewrite tags_of_absent; [done|done|apply last_id_fresh, Hok].
  - apply find_frame; [done|]. intros id r Hid. rewrite Ht.
    rewrite E in Hid. apply select_plc_Some in Hid as [Hin _]; [|done].
    destruct (Z.eqb_spec id (last_id (plcs t) + 1)) as [->|]; [|by rewrite app_nil_r].
    destruct (last_id_fresh (plcs t)); [apply Hok|]. apply ids_elem. eauto.
Qed.

Lemma insert_with_tags_spec on_error now p t : plc_ok t →
  if bool_decide (is_Some (find t (pName p)))
  then insert_with_tags on_error now p (Db t []) = (Some (on_error unique_error), Db t [])
  else if distinct_tags p
  then ∃ t', insert_with_tags on_error now p (Db t []) = (None, Db t' []) ∧
             ∀ n, find t' n = put p (find t) n
  else ∃ t', insert_with_tags on_error now p (Db t []) = (Some duplicate_tag, Db t' []).
Proof.
  intros Hok. pose proof (insert_plc_ok p now (Db t []) Hok) as Hok1.
  unfold insert_with_tags. rewrite bind_run. rewrite exec_ok, insert_plc_spec in * by done.
  case_bool_decide as Hin; [done|]. cbn in Hok1. set (t1 := PlcTables _ _) in *.
  set (id := last_id (plcs t) + 1).
  assert (Htags : tags_of t1 id = [])
    by (apply (tags_of_absent t); [done|apply last_id_fresh, Hok]).
  assert (Hid : id ∈ ids (plcs t1)) by (simpl; rewrite ids_insert; set_solver).
  pose proof (insertTags_spec id (elems (pTags p)) t1 Hok1 Hid) as Hs.
  rewrite Htags in Hs. unfold distinct_tags. rewrite insertTags_elems. simpl in Hs.
  destruct (bool_decide (NoDup _)); simpl; destruct Hs as (t' & Es); [|by exists t'].
  destruct Es as [Es Hstep]. exists t'. split; [done|].
  apply (find_inserted t p now); [done| |done]. by apply eq_None_not_Some.
Qed.

Lemma Create_spec now p t empty : plc_ok t →
  ∃ t', Create now p (Db t []) = ((plc_spec (OpCreate now p) empty (find t)).1, Db t' []) ∧
  ∀ n, find t' n = (plc_spec (OpCreate now p) empty (find t)).2 n.
Proof.
  intros Hok. pose proof (insert_with_tags_spec write_error now p t Hok) as H.
  unfold Create, plc_spec. case_bool_decide; simpl.
  - exists t. split; [|done]. rewrite (transaction_ok _ _ _ _ H). unfold write_error.
    by rewrite unique_error_law.
  - destruct (distinct_tags p); simpl; destruct H as (t' & E).
    + destruct E as [E Hf]. exists t'. by rewrite (transaction_ok _ _ _ _ E).
    + exists t. by rewrite (transaction_ok _ _ _ _ E).
Qed.

Lemma seed_plcs_spec now ps t m : plc_ok t → (∀ n, find t n = m n) →
  match seed_spec ps m with
  | Some m' => ∃ t', for_each_err ps (insert_with_tags EForeign now) (Db t []) =
                     (None, Db t' []) ∧ ∀ n, find t' n = m' n
  | None => ∃ t', for_each_err ps (insert_with_tags EForeign now) (Db t []) =
                  (Some duplicate_tag, Db t' [])
  end.
Proof.
  revert t m. induction ps as [|p ps IH]; intros t m Hok Hm; simpl; [eauto|].
  pose proof (insert_with_tags_spec EForeign now p t Hok) as H.
  pose proof (insert_with_tags_preserves EForeign now p (Db t []) Hok) as Hok'.
  rewrite bind_run. rewrite Hm in H. case_bool_decide; simpl.
  - rewrite H. eauto.
  - destruct (distinct_tags p); simpl; destruct H as (t' & E); [|rewrite E; eauto].
    destruct E as [E Hf]. rewrite E in Hok' |- *. apply IH; [exact Hok'|].
    intros n. rewrite Hf. unfold put. by rewrite Hm.
Qed.

Lemma Seed_spec now ps t : plc_ok t →
  let empty := bool_decide (List.length (rows (plcs t)) = 0%nat) in
  ∃ t', Seed now ps (Db t []) = ((plc_spec (OpSeed now ps) empty (find t)).1, Db t' []) ∧
  ∀ n, find t' n = (plc_spec (OpSeed now ps) empty (find t)).2 n.
Proof.
  intros Hok. pose proof (seed_plcs_spec now ps t (find t) Hok (λ n, eq_refl)) as H. simpl.
  destruct ps as [|p ps]; [exists t; simpl; by case_bool_decide|].
  unfold Seed, IsEmpty. rewrite !bind_run, query_ok. cbn [foreign_result map_result mret state_ret].
  destruct (Z.eqb_spec (Z.of_nat (List.length (rows (plcs t)))) 0) as [E|E].
  - rewrite bool_decide_eq_true_2 by lia. destruct (seed_spec _ _); destruct H as (t' & H).
    + destruct H as [H Hf]. exists t'. by rewrite (transaction_ok _ _ _ _ H).
    + exists t. by rewrite (transaction_ok _ _ _ _ H).
  - rewrite bool_decide_eq_false_2 by lia. by exists t.
Qed.

(** *** Renaming and replacing *)

Lemma by_name_by_id t id r name : plc_ok t → (id, r) ∈ rows (plcs t) → plcName r = name →
  ∀ x, x ∈ rows (plcs t) → by_name name x = by_id id x.
Proof.
  intros Hok Hin Hn [j r'] Hx. apply eq_bool_prop_intro. rewrite !Is_true_true.
  rewrite by_name_eq, by_id_eq. simpl. split.
  - intros E. assert (E' : (j, r') = (id, r)); [|by simplify_eq].
    apply (unique_row plcName (plcs t)); [apply Hok|done|done|congruence].
  - intros ->. by rewrite (row_by_id (plcs t) id r' r) by (done || apply Hok).
Qed.

Lemma update_plc_spec name p now t : plc_ok t →
  match select_plc name t with
  | None => update_plc name p now t = inl (0, t)
  | Some (id, r) =>
      if negb (String.eqb name (pName p)) && bool_decide (is_Some (find t (pName p)))
      then update_plc name p now t = inr unique_error
      else ∃ n, n ≠ 0 ∧ update_plc name p now t =
             inl (n, PlcTables (update_where (by_id id) (set_plc p now) (plcs t)) (plc_tags t))
  end.
Proof.
  intros Hok. unfold update_plc, update_unique. destruct (select_plc name t) as [[id r]|] eqn:E.
  - apply select_plc_Some in E as [Hin Hn]; [|done].
    rewrite (update_ext _ _ _ _ (by_name_by_id t id r name Hok Hin Hn)).
    pose proof (update_id_unique plcName id (set_plc p now) (plcs t) r
      (ok_plcs t Hok) (ok_names t Hok) Hin) as Hiff. simpl in Hiff.
    destruct (negb _ && _)%bool eqn:Eb.
    + bool_to_prop. apply String.eqb_neq in H. rewrite find_is_Some, elem_of_keys in H0 by done.
      destruct H0 as (j & r' & Hj & Hk).
      rewrite decide_False; [done|]. rewrite Hiff. intros H'. apply (H' j r'); [done| |done].
      intros ->. apply H. rewrite <- Hn, <- Hk.
      by rewrite (row_by_id (plcs t) id r r') by (done || apply Hok).
    + rewrite decide_True.
      * eexists. split; [|done]. intros Hz%affected_zero. rewrite select_one_None in Hz.
        specialize (Hz _ Hin). by rewrite (proj2 (by_name_eq name (id, r)) Hn) in Hz.
      * rewrite Hiff. intros j r' Hj Hne Hk. rewrite andb_false_iff, negb_false_iff in Eb.
        destruct Eb as [Eb|Eb].
        -- apply String.eqb_eq in Eb. destruct Hne.
           assert (E : (j, r') = (id, r)); [|by simplify_eq].
           apply (unique_row plcName (plcs t)); [apply Hok|done|done|congruence].
        -- bool_to_prop. destruct Eb. rewrite find_is_Some, elem_of_keys by done. eauto.
  - pose proof E as Hz. unfold select_plc in Hz. rewrite select_one_None in Hz.
    rewrite (update_none _ _ _ Hz), decide_True by apply Hok.
    rewrite (proj2 (affected_zero _ _) E). by destruct t.
Qed.

Lemma select_plc_update name p now t id r ts n : plc_ok t →
  plc_ok (PlcTables (update_where (by_id id) (set_plc p now) (plcs t)) ts) →
  select_plc name t = Some (id, r) →
  select_plc n (PlcTables (update_where (by_id id) (set_plc p now) (plcs t)) ts) =
  if String.eqb n (pName p) then Some (id, set_plc p now r)
  else if String.eqb n name then None else select_plc n t.
Proof.
  intros Hok Hok' [Hin Hn]%select_plc_Some; [|done]. apply option_eq. intros [j q].
  rewrite select_plc_Some by done. cbn [plcs]. rewrite elem_of_update. split.
  - intros [([k b] & Hk & E) Hq]. destruct (by_id id (k, b)) eqn:Eid; simplify_eq.
    + apply by_id_eq in Eid. simpl in *. subst. rewrite String.eqb_refl.
      by rewrite (row_by_id (plcs t) id b r) by (done || apply Hok).
    + destruct (String.eqb_spec (plcName b) (pName p)) as [Ep|Ep].
      * destruct Hok' as [_ Hu _ _ _]. simpl in Hu.
        assert (Ek : (k, b) = (id, set_plc p now r)).
        { apply (unique_row plcName _ _ _ _ _ Hu); [| |done]; apply elem_of_update.
          - exists (k, b). by rewrite Eid.
          - exists (id, r). unfold by_id. simpl. by rewrite Z.eqb_refl. }
        simplify_eq. unfold by_id in Eid. simpl in Eid. by rewrite Z.eqb_refl in Eid.
      * destruct (String.eqb_spec (plcName b) (plcName r)) as [Er|Er].
        -- assert (E : (k, b) = (id, r)) by
             (apply (unique_row plcName (plcs t)); [apply Hok|done..]).
           simplify_eq. unfold by_id in Eid. simpl in Eid. by rewrite Z.eqb_refl in Eid.
        -- by apply select_plc_Some.
  - destruct (String.eqb_spec n (pName p)) as [->|Hp].
    + intros [= <- <-]. split; [|done]. exists (id, r). split; [done|]. unfold by_id. simpl.
      by rewrite Z.eqb_refl.
    + destruct (String.eqb_spec n name) as [|Hne]; [done|].
      intros [Hj Hq]%select_plc_Some; [|done]. split; [|done]. exists (j, q). split; [done|].
      destruct (by_id id (j, q)) eqn:Eid; [|done]. apply by_id_eq in Eid. simpl in Eid. subst.
      destruct Hne. by rewrite (row_by_id (plcs t) id q r) by (done || apply Hok).
Qed.

Lemma tags_of_delete ps t id j :
  tags_of (PlcTables ps (delete_where (of_plc id) (plc_tags t))) j =
  if j =? id then [] else tags_of t j.
Proof.
  unfold tags_of. simpl. rewrite select_delete. destruct (Z.eqb_spec j id) as [->|Hne].
  - rewrite (filter_ext _ (λ _, false)).
    + by induction (rows (plc_tags t)).
    + intros x. by destruct (of_plc id x).
  - do 2 f_equal. apply filter_ext. intros x. unfold of_plc.
    destruct (Z.eqb_spec (tagPlcID x.2) j) as [->|]; [|by rewrite andb_false_r].
    by rewrite (proj2 (Z.eqb_neq j id)).
Qed.

(** The tables once the tags of a row have been replaced. *)
Lemma replace_tags_spec id p t : plc_ok t → id ∈ ids (plcs t) →
  if distinct_tags p
  then ∃ t', replace_tags id (pTags p) (Db t []) = (None, Db t' []) ∧ plcs t' = plcs t ∧
             ∀ j, tags_of t' j = if j =? id then elems (pTags p) else tags_of t j
  else ∃ t', replace_tags id (pTags p) (Db t []) = (Some duplicate_tag, Db t' []).
Proof.
  intros Hok Hid. pose proof (delete_tags_ok id (Db t []) Hok) as Hok'.
  rewrite exec_ok in Hok'. cbn [snd tables delete_tags] in Hok'. unfold replace_tags.
  rewrite bind_run, exec_ok. cbn [delete_tags]. rewrite insertTags_elems.
  pose proof (insertTags_spec id (elems (pTags p)) _ Hok' Hid) as Hs.
  rewrite tags_of_delete, Z.eqb_refl in Hs. unfold distinct_tags. simpl in Hs.
  destruct (bool_decide _); [|exact Hs].
  destruct Hs as (t' & Es & Hp & Ht). exists t'. split; [exact Es|]. split; [done|].
  intros j. rewrite Ht, tags_of_delete. destruct (j =? id); [done|]. by rewrite app_nil_r.
Qed.

Lemma find_replaced name p now t id r t' : plc_ok t → select_plc name t = Some (id, r) →
  plc_ok (PlcTables (update_where (by_id id) (set_plc p now) (plcs t)) (plc_tags t)) →
  plcs t' = update_where (by_id id) (set_plc p now) (plcs t) →
  (∀ j, tags_of t' j = if j =? id then elems (pTags p) else tags_of t j) →
  ∀ n, find t' n = put p (remove name (find t)) n.
Proof.
  unfold put, remove. intros Hok Hsel Hok1 Hp Ht n.
  pose proof (select_plc_update name p now t id r (plc_tags t) n Hok Hok1 Hsel) as E.
  unfold select_plc at 1 in E. cbn [plcs] in E. rewrite <- Hp in E. fold (select_plc n t') in E.
  destruct (String.eqb_spec n (pName p)); [|destruct (String.eqb_spec n name)].
  - rewrite (find_ext _ _ _ _ E), Ht, Z.eqb_refl. unfold scan_plc, stored. simpl.
    by destruct (pKeepAlive p).
  - unfold find. by rewrite E.
  - apply find_frame; [done|]. intros j q Hq. rewrite Ht. rewrite E in Hq.
    destruct (Z.eqb_spec j id) as [->|]; [|done].
    apply select_plc_Some in Hq as [Hin Hn]; [|done].
    apply select_plc_Some in Hsel as [Hin' Hn']; [|done].
    rewrite (row_by_id (plcs t) id q r) in Hn by (done || apply Hok). congruence.
Qed.

Lemma Update_spec now name p t empty : plc_ok t →
  ∃ t', Update now name p (Db t []) = ((plc_spec (OpUpdate now name p) empty (find t)).1, Db t' []) ∧
  ∀ n, find t' n = (plc_spec (OpUpdate now name p) empty (find t)).2 n.
Proof.
  intros Hok. pose proof (update_plc_ok name p now (Db t []) Hok) as Hok1.
  pose proof (update_plc_spec name p now t Hok) as Hu. rewrite exec_ok in Hok1.
  unfold plc_spec. destruct (select_plc name t) as [[id r]|] eqn:Esel.
  - rewrite bool_decide_eq_false_2 by (by rewrite (find_ext _ _ _ _ Esel)).
    destruct (negb _ && _)%bool.
    + exists t. split; [|done]. apply (transaction_ok _ _ (Some _) t). unfold update_tx.
      rewrite bind_run, exec_ok, Hu. unfold write_error. by rewrite unique_error_law.
    + destruct Hu as (k & Hk & Hu). rewrite Hu in Hok1. cbn [snd tables] in Hok1.
      set (t1 := PlcTables _ _) in Hok1, Hu.
      assert (Esel1 : select_plc (pName p) t1 = Some (id, set_plc p now r)).
      { unfold t1. rewrite (select_plc_update name p now t id r) by done.
        by rewrite String.eqb_refl. }
      assert (Hid : id ∈ ids (plcs t1)).
      { apply ids_elem. apply select_plc_Some in Esel1 as [Hin _]; [eauto|done]. }
      assert (Hbody : update_tx now name p (Db t []) = replace_tags id (pTags p) (Db t1 [])).
      { unfold update_tx. rewrite bind_run, exec_ok, Hu, (proj2 (Z.eqb_neq k 0)) by done.
        by rewrite bind_run, query_ok, Esel1. }
      pose proof (replace_tags_spec id p t1 Hok1 Hid) as Hs.
      destruct (distinct_tags p); simpl; destruct Hs as (t' & Es).
      * destruct Es as (Es & Hp & Ht). exists t'. rewrite <- Hbody in Es.
        split; [by apply (transaction_ok _ _ None)|]. by apply (find_replaced name p now t id r).
      * exists t. rewrite <- Hbody in Es. split; [|done]. apply (transaction_ok _ _ (Some _) _ Es).
  - exists t. rewrite bool_decide_eq_true_2 by (unfold find; by rewrite Esel).
    split; [|done]. apply (transaction_ok _ _ (Some _) t). unfold update_tx.
    by rewrite bind_run, exec_ok, Hu.
Qed.

Lemma select_plc_delete name t id r n ts : plc_ok t → select_plc name t = Some (id, r) →
  select_plc n (PlcTables (delete_where (by_id id) (plcs t)) ts) =
  if String.eqb n name then None else select_plc n t.
Proof.
  intros Hok [Hin Hn]%select_plc_Some; [|done].
  unfold select_plc, select_one. cbn [plcs]. rewrite select_delete.
  destruct (String.eqb_spec n name) as [->|Hne].
  - destruct (List.filter _ _) as [|x l] eqn:Ef; [done|]. exfalso.
    assert (Hx : x ∈ x :: l) by set_solver. rewrite <- Ef in Hx.
    rewrite list_elem_of_In, filter_In, <- list_elem_of_In in Hx.
    destruct Hx as [Hx Hb]. bool_to_prop.
    by rewrite (by_name_by_id t id r name Hok Hin Hn x Hx), H in H0.
  - f_equal. unfold select_where. apply filter_ext_in. intros [j q] Hx%list_elem_of_In.
    unfold by_name, by_id. simpl. destruct (Z.eqb_spec j id) as [->|]; [|done].
    rewrite (row_by_id (plcs t) id q r) by (done || apply Hok). simpl.
    symmetry. apply String.eqb_neq. congruence.
Qed.

Lemma Delete_spec name t empty : plc_ok t →
  ∃ t', Delete name (Db t []) = ((plc_spec (OpDelete name) empty (find t)).1, Db t' []) ∧
  ∀ n, find t' n = (plc_spec (OpDelete name) empty (find t)).2 n.
Proof.
  intros Hok. unfold plc_spec. destruct (select_plc name t) as [[id r]|] eqn:E.
  - rewrite bool_decide_eq_false_2 by (by rewrite (find_ext _ _ _ _ E)).
    set (ts := delete_where (of_plc id) (delete_where (of_plc id) (plc_tags t))).
    exists (PlcTables (delete_where (by_id id) (plcs t)) ts). split.
    + apply (transaction_ok _ _ None). unfold delete_tx. by rewrite bind_run, query_ok, E.
    + intros n. unfold remove. cbn [snd]. pose proof (select_plc_delete name t id r n ts Hok E) as Hsel.
      revert Hsel. destruct (String.eqb_spec n name) as [En|Hne]; intros Hsel;
        [unfold find; by rewrite Hsel|].
      apply find_frame; [done|]. intros j q Hq. rewrite Hsel in Hq.
      unfold ts. rewrite (tags_of_delete _ (PlcTables (plcs t) (delete_where (of_plc id) (plc_tags t)))).
      rewrite tags_of_delete. destruct (Z.eqb_spec j id) as [->|]; [|done].
      apply select_plc_Some in Hq as [Hin Hn]; [|done].
      apply select_plc_Some in E as [Hin' Hn']; [|done].
      destruct Hne. rewrite <- Hn, <- Hn'.
      by rewrite (row_by_id (plcs t) id q r) by (done || apply Hok).
  - exists t. rewrite bool_decide_eq_true_2 by (unfold find; by rewrite E).
    split; [|done]. apply (transaction_ok _ _ (Some _) t). unfold delete_tx.
    by rewrite bind_run, query_ok, E.
Qed.

(** The same for one change, with the state kept when it is refused. *)
Lemma run_op_spec op t : plc_ok t → (∀ now ps, op ≠ OpSeed now ps) →
  let '(res, m) := plc_spec op false (find t) in
  ∃ t', run_op op (Db t []) = (res, Db t' []) ∧ plc_ok t' ∧ (∀ n, find t' n = m n) ∧
        (is_Some res → t' = t).
Proof.
  intros Hok Hop. destruct (plc_spec op false (find t)) as [res m] eqn:Hs.
  assert (H : ∃ t', run_op op (Db t []) = (res, Db t' []) ∧ ∀ n, find t' n = m n).
  { destruct op as [now p|now name p|name|now ps]; [| | |by destruct (Hop now ps)]; simpl run_op.
    - destruct (Create_spec now p t false Hok) as (t' & E & H). rewrite Hs in *. eauto.
    - destruct (Update_spec now name p t false Hok) as (t' & E & H). rewrite Hs in *. eauto.
    - destruct (Delete_spec name t false Hok) as (t' & E & H). rewrite Hs in *. eauto. }
  destruct H as (t' & E & H). exists t'. split_and!; [done| |done|].
  - pose proof (plc_run_op_ok op (Db t []) Hok) as Hok'. by rewrite E in Hok'.
  - intros [err ->]. exact (run_op_atomic op _ _ _ E).
Qed.

(** C14 Every operation of the PLC store refines the abstract map from names to
    PLCs: without database faults its result and the PLCs it leaves are those
    of [plc_spec]. *)
Theorem plc_refines (op : plc_op) (t : plc_tables) : plc_ok t →
  let empty := bool_decide (List.length (rows (plcs t)) = 0%nat) in
  let '(res, d') := run_op op (Db t []) in
  res = (plc_spec op empty (find t)).1 ∧ faults d' = [] ∧
  ∀ n, find (tables d') n = (plc_spec op empty (find t)).2 n.
Proof.
  intros Hok empty. destruct op as [now p|now name p|name|now ps]; simpl run_op.
  - by destruct (Create_spec now p t empty Hok) as (t' & -> & H).
  - by destruct (Update_spec now name p t empty Hok) as (t' & -> & H).
  - by destruct (Delete_spec name t empty Hok) as (t' & -> & H).
  - by destruct (Seed_spec now ps t Hok) as (t' & -> & H).
Qed.

Lemma Get_run (name : string) (t : plc_tables) :
  Get name (Db t []) =
  (match find t name with Some p => inl p | None => inr (Sentinel ErrPLCNotFound) end, Db t []).
Proof.
  unfold Get, find. rewrite bind_run, query_ok. destruct (select_plc name t) as [[id r]|]; [|done].
  unfold listTags. rewrite !bind_run, query_ok. simpl. unfold tags_of. done.
Qed.

(** [Get] reads the abstract map. *)
Theorem Get_correct (name : string) (t : plc_tables) :
  Get name (Db t []) =
  (match find t name with Some p => inl p | None => inr (Sentinel ErrPLCNotFound) end, Db t []).
Proof. apply Get_run. Qed.

Lemma with_tags_spec rs t :
  with_tags rs (Db t []) =
  (inl ((λ x, scan_plc x.2 (appended (tags_of t x.1))) <$> rs), Db t []).
Proof.
  induction rs as [|[id r] rs IH]; [done|]. simpl. unfold listTags.
  rewrite !bind_run, query_ok. simpl. by rewrite bind_run, IH.
Qed.

Lemma List_run (t : plc_tables) : plc_ok t →
  ∃ ps, List (Db t []) = (inl ps, Db t []) ∧ Sorted str_le (pName <$> ps) ∧
        NoDup (pName <$> ps) ∧ ∀ p, p ∈ ps ↔ find t (pName p) = Some p.
Proof.
  intros Hok. set (rs := merge_sort (order_by plc_columns) (rows (plcs t))).
  set (f := λ x : Z * plc_row, scan_plc x.2 (appended (tags_of t x.1))).
  assert (Hperm : rs ≡ₚ rows (plcs t)) by apply merge_sort_Permutation.
  exists (f <$> rs). split_and!.
  - unfold List. rewrite bind_run, query_ok. apply with_tags_spec.
  - rewrite <- list_fmap_compose.
    apply (Sorted_fmap_mono (order_by plc_columns)); [|apply Sorted_merge_sort, _].
    intros x y. unfold order_by, str_le. simpl.
    destruct (String.eqb_spec (plcName x.2) (plcName y.2)) as [->|]; [|done].
    by intros _; apply (reflexivity (R := str_le)).
  - rewrite <- list_fmap_compose. rewrite Hperm. apply Hok.
  - intros p. rewrite list_elem_of_fmap. setoid_rewrite Hperm. split.
    + intros ([id r] & -> & Hin). by apply find_Some.
    + unfold find. intros ([id r] & E & Hp)%bind_Some. exists (id, r). simplify_eq.
      by apply select_plc_Some in E as [? _].
Qed.

(** [List] returns the PLCs of the store, each once, ordered by name. *)
Theorem List_correct (t : plc_tables) : plc_ok t →
  ∃ ps, List (Db t []) = (inl ps, Db t []) ∧ Sorted str_le (pName <$> ps) ∧
        NoDup (pName <$> ps) ∧ ∀ p, p ∈ ps ↔ find t (pName p) = Some p.
Proof. apply List_run. Qed.

End specification.

(** ** Witnesses *)

Definition sample_plc : PLC :=
  mkPLC "plc1" "10.0.0.5" 0 "5s" "1s" true "1,0"
    (Some [mkTagDef "Speed" "Float" true false; mkTagDef "Run" "Boolean" false false]).

Definition sample_plcs : plc_tables :=
  Eval vm_compute in tables (run_op (OpCreate 1700000000 sample_plc) (Db empty_plcs [])).2.

Lemma sample_plcs_ok : plc_ok sample_plcs.
Proof. exact (plc_run_op_ok (OpCreate 1700000000 sample_plc) (Db empty_plcs []) plc_ok_empty). Qed.

Definition renamed_plc : PLC := mkPLC "plc2" "10.0.0.6" 1 "" "" false "" None.

Lemma plc_refines_witness :
  plc_ok sample_plcs ∧
  let '(res, d') := run_op (OpUpdate 1700000001 "plc1" renamed_plc) (Db sample_plcs []) in
  res = None ∧ faults d' = [] ∧ ∀ n, find (tables d') n =
    put renamed_plc (remove "plc1" (find sample_plcs)) n.
Proof.
  split; [exact sample_plcs_ok|].
  exact (plc_refines (OpUpdate 1700000001 "plc1" renamed_plc) sample_plcs sample_plcs_ok).
Defined.

Lemma List_correct_witness :
  plc_ok sample_plcs ∧
  ∃ ps, List (Db sample_plcs []) = (inl ps, Db sample_plcs []) ∧ Sorted str_le (pName <$> ps) ∧
        NoDup (pName <$> ps) ∧ ∀ p, p ∈ ps ↔ find sample_plcs (pName p) = Some p.
Proof. split; [exact sample_plcs_ok|]. apply List_correct, sample_plcs_ok. Defined.
