(* ===== verification/PlcOpen.v ===== *)
(** * [internal/plcstore]: opening the store

    [Open] with the schema migration: the tables are created when they are not
    there, and a [plc_tags] made before the column [dcmd_enabled] existed gets
    it.  A database file is what its schema statements can tell apart. *)

From S2P Require Import Prelude GoString GoError Config Sql PlcStore.

(** ** Files *)

(** Whether foreign keys are enforced on the connection, and the two tables;
    [plc_tags] with whether it has the column [dcmd_enabled]: without it the
    field of its rows means nothing. *)
Record db_file := mkFile {
  fl_fk : bool; fl_plcs : option (table plc_row); fl_tags : option (bool * table tag_row);
}.

Definition new_file : db_file := mkFile false None None.

(** A new connection enforces no foreign keys. *)
Definition reconnected (f : db_file) : db_file := mkFile false (fl_plcs f) (fl_tags f).

Definition set_dcmd (v : Z) (r : tag_row) : tag_row :=
  TagRow (tagPlcID r) (tagName r) (tagType r) (tagWritable r) v.

Definition map_rows {R : Type} (g : R → R) (t : table R) : table R :=
  Table ((λ x, (x.1, g x.2)) <$> rows t) (last_id t).

(** What SQLite reports for a column that is there already. *)
Class DuplicateColumn := {
  duplicate_column : foreign;
  duplicate_column_law : containsStr (f_text duplicate_column) "duplicate column name" = true;
}.

Section open.
Context {Dup : DuplicateColumn}.

(** ** [migrate] *)

Definition pragma_foreign_keys : stmt db_file unit :=
  λ f, inl (tt, mkFile true (fl_plcs f) (fl_tags f)).
Definition create_plcs : stmt db_file unit :=
  λ f, inl (tt, mkFile (fl_fk f) (Some (default empty_table (fl_plcs f))) (fl_tags f)).
Definition create_plc_tags : stmt db_file unit :=
  λ f, inl (tt, mkFile (fl_fk f) (fl_plcs f) (Some (default (true, empty_table) (fl_tags f)))).
Definition add_dcmd_enabled : stmt db_file unit := λ f,
  match fl_tags f with
  | None => inr (plain_error "no such table: plc_tags")
  | Some (true, _) => inr duplicate_column
  | Some (false, t) => inl (tt, mkFile (fl_fk f) (fl_plcs f) (Some (true, map_rows (set_dcmd 0) t)))
  end.

(** The two [CREATE TABLE] are one call, run one after the other. *)
Definition migrate : State (db db_file) (option error) :=
  res ← exec pragma_foreign_keys;
  match res with
  | inr err => mret (Some (EForeign err))
  | inl _ =>
      res ← exec create_plcs;
      res ← (match res with inr err => mret (inr err) | inl _ => exec create_plc_tags end);
      match res with
      | inr err => mret (Some (EForeign err))
      | inl _ =>
          res ← exec add_dcmd_enabled;
          match res with
          | inr alterErr =>
              if negb (containsStr (f_text alterErr) "duplicate column name")
              then mret (Some (EForeign alterErr)) else mret None
          | inl _ => mret None
          end
      end
  end.

(** [Open]: what [os.MkdirAll] and [sql.Open] answer, then the migration on the
    new connection. *)
Definition Open (path : string) (mkdir_err open_err : option foreign) : State (db db_file) (option error) :=
  match (if String.eqb path ":memory:" then None else mkdir_err) with
  | Some err => mret (Some (EForeign err))
  | None =>
      match open_err with
      | Some err => mret (Some (EForeign err))
      | None => _ ← modify (λ d, Db (reconnected (tables d)) (faults d)); migrate
      end
  end.

(** ** What an open file holds *)

(** The tables a store works on, when the file has them. *)
Definition tables_of (f : db_file) : option plc_tables :=
  match fl_plcs f, fl_tags f with
  | Some ps, Some (true, ts) => Some (PlcTables ps ts)
  | _, _ => None
  end.

(** The tables after a migration; an old [plc_tags] has every command switch
    off. *)
Definition migrated (f : db_file) : plc_tables :=
  PlcTables (default empty_table (fl_plcs f))
    (match fl_tags f with
     | None => empty_table
     | Some (true, t) => t
     | Some (false, t) => map_rows (set_dcmd 0) t
     end).

Definition file_ok (f : db_file) : Prop :=
  plc_ok (PlcTables (default empty_table (fl_plcs f)) (default empty_table (snd <$> fl_tags f))).

Lemma ids_map_rows {R : Type} (g : R → R) (t : table R) : ids (map_rows g t) = ids t.
Proof. unfold ids, map_rows. simpl. by rewrite <- list_fmap_compose. Qed.

Lemma migrated_ok f : file_ok f → plc_ok (migrated f).
Proof.
  unfold file_ok, migrated. destruct (fl_tags f) as [[[] t]|]; [done| |done].
  intros [H1 H2 H3 H4 H5]. simpl in *. split; simpl; try done.
  - destruct H3 as [Ha Hb]. split; rewrite ids_map_rows; done.
  - unfold unique, keys in *. unfold map_rows. simpl. rewrite <- list_fmap_compose. exact H4.
  - intros x (y & -> & Hy)%list_elem_of_fmap. simpl. by apply (H5 y).
Qed.

Lemma migrate_run f : migrate (Db f []) =
  (None, Db (mkFile true (Some (plcs (migrated f))) (Some (true, plc_tags (migrated f)))) []).
Proof.
  unfold migrate, migrated, exec, next_fault. unfold_state. simpl.
  destruct f as [fk ps [[[] ts]|]]; simpl; try done; by rewrite duplicate_column_law.
Qed.

(** ** Theorems *)

(** Opening a file, new, of an older release or of this one, gives a store that
    keeps its constraints and enforces its foreign keys, with every row the file
    had; in a file of an older release no tag accepts commands.  Opening it again
    changes nothing. *)
Theorem Open_correct (path : string) (f : db_file) :
  file_ok f →
  ∃ f', Open path None None (Db f []) = (None, Db f' []) ∧
  tables_of f' = Some (migrated f) ∧ plc_ok (migrated f) ∧ fl_fk f' = true ∧
  (∀ t, fl_tags f = Some (false, t) → ∀ x, x ∈ rows (plc_tags (migrated f)) → scan_tag x.2 =
     mkTagDef (tagName x.2) (tagType x.2) (negb (tagWritable x.2 =? 0)) false) ∧
  Open path None None (Db f' []) = (None, Db f' []).
Proof.
  intros Hok. unfold Open.
  assert (E : (if String.eqb path ":memory:" then None else @None foreign) = None) by by case_match.
  rewrite E. rewrite bind_run. cbn [modify tables faults]. rewrite migrate_run.
  change (migrated (reconnected f)) with (migrated f). eexists. split; [done|].
  split; [done|]. split; [by apply migrated_ok|]. split; [done|]. split.
  - intros t Ht x Hx. unfold migrated in Hx. rewrite Ht in Hx. simpl in Hx.
    apply list_elem_of_fmap in Hx as (y & -> & _). done.
  - rewrite bind_run. cbn [modify tables faults]. by rewrite migrate_run.
Qed.

(** The rows of [f], up to a command switch the file did not have, are in [g]. *)
Definition keeps (f g : db_file) : Prop :=
  (∀ t, fl_plcs f = Some t → fl_plcs g = Some t) ∧
  (∀ b t, fl_tags f = Some (b, t) →
     fl_tags g = Some (b, t) ∨ b = false ∧ fl_tags g = Some (true, map_rows (set_dcmd 0) t)).

(** Whatever fails, opening never loses a row. *)
Theorem Open_keeps_rows (path : string) (mkdir_err open_err : option foreign) (f : db_file) (fs : list (option foreign)) :
  keeps f (tables (Open path mkdir_err open_err (Db f fs)).2).
Proof.
  assert (Hrefl : keeps f f) by (split; auto).
  unfold Open. destruct (if String.eqb _ _ then _ else _); [done|]. destruct open_err; [done|].
  rewrite bind_run. cbn [modify tables faults]. unfold migrate, exec, next_fault. unfold_state. simpl.
  destruct f as [fk ps ts]. unfold keeps in *. simpl in *.
  destruct fs as [|[e1|] [|[e2|] [|[e3|] [|[e4|] fs]]]]; simpl;
    destruct ts as [[[] ts]|]; simpl; repeat case_match; simpl;
    (split; [by intros t ->|]; intros b t [=]); subst; auto.
Qed.
End open.

(** ** Concrete files *)

#[export, refine] Instance sqlite_duplicate : DuplicateColumn := {|
  duplicate_column := plain_error "SQL logic error: duplicate column name: dcmd_enabled (1)";
|}.
Proof. vm_compute. reflexivity. Defined.

(** A file of the first release: one PLC with one tag. *)
Definition old_file : db_file :=
  mkFile false
    (Some (Table [(1, PlcRow "plc1" "10.0.0.5" 0 "" "" 0 "" 0 0)] 1))
    (Some (false, Table [(1, TagRow 1 "Speed" "Float" 1 7)] 1)).

Lemma old_file_ok : file_ok old_file.
Proof.
  split; simpl.
  - split; [repeat constructor|repeat constructor; simpl; lia].
  - apply NoDup_singleton.
  - split; [repeat constructor|repeat constructor; simpl; lia].
  - apply NoDup_singleton.
  - intros x ->%list_elem_of_singleton. simpl. left.
Qed.

Example Open_correct_witness :
  file_ok old_file ∧
  ∃ f', Open "plcs.db" None None (Db old_file []) = (None, Db f' []) ∧ tables_of f' = Some (migrated old_file) ∧
        rows (plc_tags (migrated old_file)) = [(1, TagRow 1 "Speed" "Float" 1 0)].
Proof.
  split; [exact old_file_ok|].
  destruct (Open_correct "plcs.db" old_file old_file_ok) as (f' & H1 & H2 & _).
  exists f'. split; [exact H1|]. split; [exact H2|reflexivity].
Defined.
