(* ===== verification/UserStore.v ===== *)
(** * [internal/auth]: the user store and the password policy

    The [users] table, [UserStore]'s operations, [ValidatePassword] and the
    first-run wizard.  bcrypt is not part of the repository: class [Bcrypt]
    gives its two functions and the one law the store needs. *)

From S2P Require Import Prelude GoString GoTime GoError Sql.

(** ** Roles *)

Definition RoleAdmin : string := "admin".
Definition RoleOperator : string := "operator".
Definition RoleViewer : string := "viewer".

(** [Role.Valid]. *)
Definition Valid (r : string) : bool :=
  String.eqb r RoleAdmin || String.eqb r RoleOperator || String.eqb r RoleViewer.

Lemma Valid_iff r : Valid r = true ↔ r ∈ [RoleAdmin; RoleOperator; RoleViewer].
Proof. unfold Valid. rewrite !orb_true_iff, !String.eqb_eq. set_solver. Qed.

(** ** [ValidatePassword] *)

Definition ValidatePassword (s : string) : option error :=
  if rune_count s <? 12 then Some (Sentinel ErrPasswordTooShort)
  else if 72 <? len s then Some (Sentinel ErrPasswordTooLong)
  else None.

(** ** bcrypt *)

(** [GenerateFromPassword] (with the salt it draws) and
    [CompareHashAndPassword], [None] being a match. *)
Class Bcrypt := {
  GenerateFromPassword : Z → string → string + foreign;
  CompareHashAndPassword : string → string → option foreign;
  bcrypt_matches : ∀ salt pw h,
    GenerateFromPassword salt pw = inl h → CompareHashAndPassword h pw = None;
}.

(** ** The store *)

Record User := mkUser {
  uID : Z; uUsername : string; uPasswordHash : string; uRole : string; uCreatedAt : time;
}.

Record user_row := UserRow {
  user_name : string; user_hash : string; user_role : string; user_created : Z;
}.

Abbreviation user_table := (table user_row).

Definition scanUser (x : Z * user_row) : User :=
  mkUser x.1 (user_name x.2) (user_hash x.2) (user_role x.2) (time_of_sec (user_created x.2)).

Definition with_username (name : string) : Z * user_row → bool :=
  λ x, String.eqb (user_name x.2) name.
Definition with_role (role : string) : Z * user_row → bool :=
  λ x, String.eqb (user_role x.2) role.

Definition set_role (role : string) (r : user_row) : user_row :=
  UserRow (user_name r) (user_hash r) role (user_created r).
Definition set_hash (hash : string) (r : user_row) : user_row :=
  UserRow (user_name r) hash (user_role r) (user_created r).

Section store.
Context {Eng : Engine} {Bc : Bcrypt}.

(** [INSERT INTO users]: the last insert id. *)
Definition insert_user (r : user_row) : stmt user_table Z := λ t,
  match insert_unique user_name r t with
  | Some t' => inl (last_id t', t')
  | None => inr unique_error
  end.

(** [UPDATE users SET ... WHERE id = ?] of a column without constraint. *)
Definition update_user (id : Z) (f : user_row → user_row) : stmt user_table Z := λ t,
  inl (affected (by_id id) t, update_where (by_id id) f t).

Definition delete_user (id : Z) : stmt user_table Z := λ t,
  inl (affected (by_id id) t, delete_where (by_id id) t).

(** What [RowsAffected] of a write by identifier means. *)
Definition found (res : Z + foreign) : option error :=
  match res with
  | inr f => Some (EForeign f)
  | inl n => if n =? 0 then Some (Sentinel ErrUserNotFound) else None
  end.

Definition Create (now : time) (salt : Z) (username password role : string)
    : State (db user_table) (result User) :=
  if negb (Valid role) then mret (inr (Errorf "invalid role %q" [FStr role]))
  else match GenerateFromPassword salt password with
  | inr f => mret (inr (Errorf "hash password: %w" [FWrap (EForeign f)]))
  | inl hash =>
      res ← exec (insert_user (UserRow username hash role (unix_sec now)));
      mret (match res with
            | inr f => inr (if isUniqueViolation f then Sentinel ErrUserAlreadyExists
                            else EForeign f)
            | inl id => inl (mkUser id username "" role now)
            end)
  end.

Definition scanOne (p : Z * user_row → bool) : State (db user_table) (result User) :=
  res ← query (select_one p);
  mret (match res with
        | inr f => inr (EForeign f)
        | inl None => inr (Sentinel ErrUserNotFound)
        | inl (Some x) => inl (scanUser x)
        end).

Definition GetByUsername (username : string) : State (db user_table) (result User) :=
  scanOne (with_username username).
Definition GetByID (id : Z) : State (db user_table) (result User) := scanOne (by_id id).

Definition List : State (db user_table) (result (list User)) :=
  res ← query (λ t, scanUser <$> rows t);
  mret (foreign_result res).

Definition UpdateRole (id : Z) (role : string) : State (db user_table) (option error) :=
  if negb (Valid role) then mret (Some (Errorf "invalid role %q" [FStr role]))
  else res ← exec (update_user id (set_role role)); mret (found res).

Definition UpdatePassword (salt : Z) (id : Z) (password : string)
    : State (db user_table) (option error) :=
  match GenerateFromPassword salt password with
  | inr f => mret (Some (Errorf "hash password: %w" [FWrap (EForeign f)]))
  | inl hash => res ← exec (update_user id (set_hash hash)); mret (found res)
  end.

Definition Delete (id : Z) : State (db user_table) (option error) :=
  res ← exec (delete_user id); mret (found res).

Definition Count : State (db user_table) (result Z) :=
  res ← query (λ t, Z.of_nat (List.length (rows t))); mret (foreign_result res).

Definition CountByRole (role : string) : State (db user_table) (result Z) :=
  res ← query (affected (with_role role)); mret (foreign_result res).

Definition Authenticate (username password : string) : State (db user_table) (result User) :=
  user ← GetByUsername username;
  mret (match user with
        | inr err => inr err
        | inl user =>
            match CompareHashAndPassword (uPasswordHash user) password with
            | Some _ => inr (Sentinel ErrUserNotFound)
            | None => inl user
            end
        end).

(** ** The first-run wizard *)

(** [EnsureAdminExists], given the two environment variables. *)
Definition EnsureAdminExists (now : time) (salt : Z) (env_user env_password : string)
    : State (db user_table) (bool * option error) :=
  count ← Count;
  match count with
  | inr err => mret (false, Some (Errorf "auth wizard: count users: %w" [FWrap err]))
  | inl count =>
      if 0 <? count then mret (false, None)
      else
        let username := if String.eqb env_user "" then "admin" else env_user in
        if String.eqb env_password ""
        then mret (false, Some (Errorf
          "auth wizard: no users exist and LGB_AUTH_ADMIN_PASSWORD is not set — cannot create admin user" []))
        else match ValidatePassword env_password with
        | Some err => mret (false, Some (Errorf "auth wizard: password policy: %w" [FWrap err]))
        | None =>
            user ← Create now salt username env_password RoleAdmin;
            mret (match user with
                  | inr err => (false, Some (Errorf "auth wizard: create admin: %w" [FWrap err]))
                  | inl _ => (true, None)
                  end)
        end
  end.

End store.

(** ** The invariant *)

Definition user_ok (t : user_table) : Prop :=
  table_ok t ∧ unique user_name t ∧ Forall (λ x, Valid (user_role x.2) = true) (rows t).

Lemma user_ok_empty : user_ok empty_table.
Proof. split_and!; auto with lgb. Qed.

(** The number of administrators. *)
Definition admins (t : user_table) : Z := affected (with_role RoleAdmin) t.

Section invariant.
Context {Eng : Engine} {Bc : Bcrypt}.

Lemma Create_preserves now salt name pw role : preserves user_ok (Create now salt name pw role).
Proof.
  unfold Create. destruct (Valid role) eqn:Hv; simpl; auto with lgb.
  destruct (GenerateFromPassword salt pw); auto with lgb.
  apply preserves_bind; [|auto with lgb]. apply preserves_exec. intros t (H1 & H2 & H3).
  unfold insert_user, insert_unique. case_bool_decide; [done|]. split_and!; auto with lgb.
  unfold insert_row. cbn. apply Forall_app_2; [done|]. by constructor.
Qed.

Lemma update_user_preserves id f :
  (∀ r, user_name (f r) = user_name r) →
  (∀ r, Valid (user_role r) = true → Valid (user_role (f r)) = true) →
  preserves user_ok (exec (update_user id f)).
Proof.
  intros Hn Hv. apply preserves_exec. intros t (H1 & H2 & H3). unfold update_user.
  split_and!; auto with lgb.
  - unfold unique, keys, update_where in *. cbn. rewrite <- list_fmap_compose.
    erewrite list_fmap_ext; [exact H2|]. intros i [j r] _. simpl.
    destruct (by_id id (j, r)); simpl; auto.
  - unfold update_where. cbn. apply Forall_fmap. eapply Forall_impl; [exact H3|].
    intros [j r] Hr. simpl. destruct (by_id id (j, r)); simpl; auto.
Qed.

Lemma UpdateRole_preserves id role : preserves user_ok (UpdateRole id role).
Proof.
  unfold UpdateRole. destruct (Valid role) eqn:Hv; simpl; auto with lgb.
  apply preserves_bind; [by apply update_user_preserves|auto with lgb].
Qed.

Lemma UpdatePassword_preserves salt id pw : preserves user_ok (UpdatePassword salt id pw).
Proof.
  unfold UpdatePassword. destruct (GenerateFromPassword salt pw); auto with lgb.
  apply preserves_bind; [by apply update_user_preserves|auto with lgb].
Qed.

Lemma Delete_preserves id : preserves user_ok (Delete id).
Proof.
  apply preserves_bind; [|auto with lgb]. apply preserves_exec. intros t (H1 & H2 & H3).
  unfold delete_user. split_and!; auto with lgb. apply Forall_forall.
  intros x [Hx _]%elem_of_delete. by eapply Forall_forall in H3.
Qed.

End invariant.

#[export] Hint Resolve Create_preserves UpdateRole_preserves UpdatePassword_preserves
  Delete_preserves : lgb.

(** ** Theorems *)

(** A password passes the policy exactly when it has at least 12 runes and
    at most 72 bytes; then bcrypt gets all of it, and it has at least 12 and at
    most 72 of both. *)
Theorem ValidatePassword_correct (s : string) :
  match ValidatePassword s with
  | None => 12 ≤ rune_count s ≤ 72 ∧ 12 ≤ len s ≤ 72
  | Some e =>
      e = Sentinel ErrPasswordTooShort ∧ rune_count s < 12 ∨
      e = Sentinel ErrPasswordTooLong ∧ 12 ≤ rune_count s ∧ 72 < len s
  end.
Proof.
  pose proof (rune_count_bounds s). unfold ValidatePassword.
  destruct (Z.ltb_spec (rune_count s) 12); [auto|].
  destruct (Z.ltb_spec 72 (len s)); [auto with lia|lia].
Qed.

Section theorems.
Context {Eng : Engine} {Bc : Bcrypt}.

Lemma with_username_select t i r : user_ok t → (i, r) ∈ rows t →
  select_one (with_username (user_name r)) t = Some (i, r).
Proof.
  intros (_ & Hu & _) Hin. destruct (select_one _ t) as [[j r']|] eqn:E.
  - apply select_one_Some in E as [Hin' E%String.eqb_eq]. simpl in E. f_equal.
    by apply (unique_row user_name t).
  - rewrite select_one_None in E. specialize (E _ Hin). unfold with_username in E. simpl in E.
    by rewrite String.eqb_refl in E.
Qed.

(** Authentication after creation: a user that [Create] returned logs in
    with the password it was created with, gets the role it was created with,
    and the store keeps only the hash. *)
Theorem Create_Authenticate (now : time) (salt : Z) (name pw role : string) (t : user_table) :
  user_ok t →
  match Create now salt name pw role (Db t []) with
  | (inl u, d') =>
      Valid role = true ∧
      (∃ h, GenerateFromPassword salt pw = inl h ∧
            (Authenticate name pw d').1 =
            inl (mkUser (uID u) name h role (time_of_sec (unix_sec now)))) ∧
      uPasswordHash u = ""
  | (inr e, d') => d' = Db t []
  end.
Proof.
  intros Hok. pose proof (Create_preserves now salt name pw role (Db t []) Hok) as Hok'.
  unfold Create in *. destruct (Valid role); simpl in *; [|done].
  destruct (GenerateFromPassword salt pw) as [h|f] eqn:Eg; [|done].
  rewrite bind_run, exec_ok in *. unfold insert_user, insert_unique in *.
  case_bool_decide as Hin; simpl in *; [done|]. split; [done|]. split; [|done].
  exists h. split; [done|]. unfold Authenticate, GetByUsername, scanOne.
  set (row := UserRow name h role (unix_sec now)) in *.
  pose proof (with_username_select (insert_row row t) (last_id t + 1) row Hok') as Hsel.
  simpl in Hsel. rewrite Hsel by (unfold insert_row; cbn; set_solver). cbn.
  by rewrite (bcrypt_matches _ _ _ Eg).
Qed.

(** The wizard creates an administrator exactly when there is no user and
    the configured password passes the policy; it never changes a store that
    already has users. *)
Theorem EnsureAdminExists_correct (now : time) (salt : Z) (user pw : string) (t : user_table) :
  let '(created, err, d') := EnsureAdminExists now salt user pw (Db t []) in
  (created = true → err = None ∧ rows t = [] ∧ ValidatePassword pw = None ∧
                    admins (tables d') = 1) ∧
  (created = false → d' = Db t [] ∧ (err = None → rows t ≠ [])).
Proof.
  unfold EnsureAdminExists, Count. rewrite !bind_run, query_ok. simpl.
  destruct (Z.ltb_spec 0 (Z.of_nat (List.length (rows t)))) as [Hlt|Hge].
  - simpl. split; [done|]. intros _. split; [done|]. intros _ E. by rewrite E in Hlt.
  - assert (Et : rows t = []) by (destruct (rows t); simpl in *; [done|lia]).
    destruct (String.eqb pw ""); [simpl; naive_solver|].
    destruct (ValidatePassword pw); [simpl; naive_solver|].
    rewrite bind_run. unfold Create. simpl (negb _).
    destruct (GenerateFromPassword salt pw); [|simpl; naive_solver].
    cbn iota. rewrite bind_run, exec_ok. unfold insert_user, insert_unique.
    case_bool_decide as Hin; [unfold keys in Hin; rewrite Et in Hin; set_solver|].
    simpl. split; [|done]. intros _. split_and!; try done.
    unfold admins, affected. rewrite select_insert. unfold select_where. rewrite Et. done.
Qed.

End theorems.

(** ** Witnesses *)

(** A stand-in for bcrypt: the hash is the password, tagged. *)
#[refine] Instance plain_bcrypt : Bcrypt := {|
  GenerateFromPassword _ pw :=
    if 72 <? len pw then inr (plain_error "bcrypt: password length exceeds 72 bytes")
    else inl ("$" +:+ pw);
  CompareHashAndPassword h pw :=
    if String.eqb h ("$" +:+ pw) then None
    else Some (plain_error "crypto/bcrypt: hashedPassword is not the hash of the given password");
|}.
Proof. intros _ pw h. destruct (72 <? len pw); [done|]. intros [= <-]. by rewrite String.eqb_refl. Defined.

Lemma Create_Authenticate_witness :
  user_ok empty_table ∧
  match Create (1700000000 * Second) 7 "root" "correct horse battery" "admin" (Db empty_table []) with
  | (inl u, d') =>
      Valid "admin" = true ∧
      (∃ h, GenerateFromPassword 7 "correct horse battery" = inl h ∧
            (Authenticate "root" "correct horse battery" d').1 =
            inl (mkUser (uID u) "root" h "admin" (time_of_sec (unix_sec (1700000000 * Second))))) ∧
      uPasswordHash u = ""
  | (inr e, d') => False
  end.
Proof.
  split; [exact user_ok_empty|].
  exact (Create_Authenticate (1700000000 * Second) 7 "root" "correct horse battery" "admin"
           empty_table user_ok_empty).
Defined.
