(* ===== verification/Http.v ===== *)
(** * Requests, responses and the JSON envelope of the HTTP API

    What [net/http] hands a handler and what a handler writes back, with the
    helpers every handler of [internal/server] shares: [writeAPIError],
    [parsePagination] and the page bounds of the list handlers. *)

From S2P Require Import Prelude GoString GoTime GoError.

(** ** Requests *)

(** The claims of a validated token. *)
Record Claims := mkClaims {
  cUserID : Z; cUsername : string; cRole : string; cIssuedAt : time; cExpiresAt : time;
}.

(** [r_cookie] and [r_query] give the empty string for what is absent, as
    [Query().Get] does; [r_body] is what [json.Decoder.Decode] makes of the
    body, [None] being its error; [r_claims] is the value under [claimsKey] in
    the request's context. *)
Record request (B : Type) := mkRequest {
  r_method : string;
  r_authorization : string;
  r_cookie : string → option string;
  r_query : string → string;
  r_path : string → string;
  r_remote : string;
  r_body : option B;
  r_claims : option Claims;
}.
Arguments mkRequest {B} _ _ _ _ _ _ _ _.
Arguments r_method {B} _.
Arguments r_authorization {B} _.
Arguments r_cookie {B} _ _.
Arguments r_query {B} _ _.
Arguments r_path {B} _ _.
Arguments r_remote {B} _.
Arguments r_body {B} _.
Arguments r_claims {B} _.

(** [r.WithContext(context.WithValue(ctx, claimsKey, claims))]. *)
Definition with_claims {B : Type} (c : Claims) (r : request B) : request B :=
  mkRequest (r_method r) (r_authorization r) (r_cookie r) (r_query r) (r_path r) (r_remote r)
    (r_body r) (Some c).

(** ** Responses *)

Record cookie := mkCookie {
  ck_name : string; ck_value : string; ck_path : string;
  ck_expires : option time; ck_max_age : Z;
  ck_http_only : bool; ck_secure : bool; ck_same_site : string;
}.

(** The status, the JSON body if any, and the cookies set.  [error_text] is for
    the error bodies whose message is [err.Error()] of some error: that error,
    the body having the empty string in its place. *)
Record response := Response {
  status : Z; body : option value; set_cookies : list cookie; error_text : option error;
}.

Definition mkResponse (code : Z) (v : option value) (cookies : list cookie) : response :=
  Response code v cookies None.

Definition StatusOK : Z := 200.
Definition StatusCreated : Z := 201.
Definition StatusNoContent : Z := 204.
Definition StatusBadRequest : Z := 400.
Definition StatusUnauthorized : Z := 401.
Definition StatusForbidden : Z := 403.
Definition StatusNotFound : Z := 404.
Definition StatusConflict : Z := 409.
Definition StatusInternalServerError : Z := 500.
Definition StatusServiceUnavailable : Z := 503.
Definition StatusGatewayTimeout : Z := 504.

Definition writeJSON (code : Z) (v : value) : response := mkResponse code (Some v) [].

Definition writeAPIError (code : Z) (err_code message : string) : response :=
  writeJSON code
    (VObj [("error", VObj [("code", VString err_code); ("message", VString message)])]).

(** [writeAPIError(w, code, err_code, err.Error())]. *)
Definition writeAPIError_of (code : Z) (err_code : string) (err : error) : response :=
  Response code (body (writeAPIError code err_code "")) [] (Some err).

Definition data (v : value) : value := VObj [("data", v)].

Definition internal_error (message : string) : response :=
  writeAPIError StatusInternalServerError "internal_error" message.

(** The run-time panic of a handler, which [net/http] recovers: the connection
    is closed without a response. *)
Definition panic : response := mkResponse 0 None [].

Definition no_content : response := mkResponse StatusNoContent None [].

(** A handler: what it does to the state of the server, and its response. *)
Definition handler (S B : Type) : Type := request B → State S response.

(** ** Pagination *)

(** [parsePagination]: the limit and the offset, or the error response. *)
Definition parse_limit (raw : string) : option Z :=
  if String.eqb raw "" then Some 100
  else match parse_int64 raw with
       | Some n => if (n <? 1) || (1000 <? n) then None else Some n
       | None => None
       end.

Definition parse_offset (raw : string) : option Z :=
  if String.eqb raw "" then Some 0
  else match parse_int64 raw with
       | Some n => if n <? 0 then None else Some n
       | None => None
       end.

Definition parsePagination {B : Type} (r : request B) : (Z * Z) + response :=
  match parse_limit (r_query r "limit") with
  | None => inr (writeAPIError StatusBadRequest "bad_request"
                   "limit must be an integer between 1 and 1000")
  | Some limit =>
      match parse_offset (r_query r "offset") with
      | None => inr (writeAPIError StatusBadRequest "bad_request"
                       "offset must be a non-negative integer")
      | Some offset => inl (limit, offset)
      end
  end.

Definition paginationResponse (limit offset count : Z) : value :=
  VObj [("limit", VInt64 limit); ("offset", VInt64 offset); ("count", VInt64 count)].

Definition data_page (vs : list value) (limit offset count : Z) : value :=
  VObj [("data", VList vs); ("pagination", paginationResponse limit offset count)].

(** The bounds every list handler computes, in [int] arithmetic. *)
Definition page_bounds (limit offset count : Z) : Z * Z :=
  let start := if count <? offset then count else offset in
  let end_ := int64 (start + limit) in
  (start, if count <? end_ then count else end_).

(** [xs[start:end]]; [None] is the panic of bounds out of range. *)
Definition page {A : Type} (limit offset : Z) (xs : list A) : option (list A) :=
  let '(lo, hi) := page_bounds limit offset (Z.of_nat (List.length xs)) in slice_expr lo hi xs.

Lemma parsePagination_ok {B} (r : request B) limit offset :
  parsePagination r = inl (limit, offset) → 1 ≤ limit ≤ 1000 ∧ 0 ≤ offset < two63.
Proof.
  unfold parsePagination, parse_limit, parse_offset. intros H.
  repeat split_match_in H; simplify_eq; bool_to_prop;
    repeat match goal with E : parse_int64 _ = Some _ |- _ => apply parse_int64_range in E end;
    unfold two63 in *; lia.
Qed.

(** A page request never slices out of range: the page is the [limit] elements
    that follow the first [offset]. *)
Lemma page_total {A} limit offset (xs : list A) :
  1 ≤ limit ≤ 1000 → 0 ≤ offset → Z.of_nat (List.length xs) < 2 ^ 62 →
  page limit offset xs = Some (take (Z.to_nat limit) (drop (Z.to_nat offset) xs)).
Proof.
  intros Hl Ho Hn. unfold page, page_bounds. set (n := Z.of_nat (List.length xs)) in *.
  assert (Hw : ∀ z, 0 ≤ z < 2 ^ 63 → int64 z = z) by (intros; apply wrap_s_small; unfold in_s; lia).
  destruct (Z.ltb_spec n offset).
  - rewrite Hw by lia. destruct (Z.ltb_spec n (n + limit)); [|lia].
    unfold slice_expr. rewrite bool_decide_eq_true_2 by lia.
    rewrite !drop_ge by lia. by rewrite !take_nil.
  - rewrite Hw by lia. unfold slice_expr. destruct (Z.ltb_spec n (offset + limit)).
    + rewrite bool_decide_eq_true_2 by lia.
      rewrite !take_ge by (rewrite length_drop; lia). done.
    + rewrite bool_decide_eq_true_2 by lia. do 2 f_equal. lia.
Qed.
