(* ===== verification/Doctor.v ===== *)
(** * [internal/doctor]: diagnostic checks

    The registry and its concurrent runner, the checks, the exit code, and the
    two places that report them: [GET /api/doctor] and [lgb doctor].  What the
    network, [$PATH] and the runtime answer are arguments of the checks. *)

From S2P Require Import Prelude GoString GoTime GoError Config Sql UserStore DataDir.

(** ** Results *)

(** [CheckStatus] is an [int]. *)
Definition CheckStatus := Z.
Definition StatusInfo : CheckStatus := 0.
Definition StatusPass : CheckStatus := 1.
Definition StatusWarn : CheckStatus := 2.
Definition StatusFail : CheckStatus := 3.

Definition status_string (s : CheckStatus) : string :=
  if s =? StatusInfo then "info" else if s =? StatusPass then "pass"
  else if s =? StatusWarn then "warn" else if s =? StatusFail then "fail" else "unknown".

Record Result := mkResult { dName : string; dStatus : CheckStatus; dMessage : text; dTook : Z }.

(** A run of a check returns, or panics with a value. *)
Inductive outcome := Returns (r : Result) | Panics (v : value).

(** [checkRun] is what the check does in its surroundings; [checkTook] how long
    that takes. *)
Record Check := mkCheck { checkName : string; checkRun : outcome; checkTook : Z }.

(** ** The runner *)

Definition runSafe (c : Check) : Result :=
  match checkRun c with
  | Returns r => mkResult (dName r) (dStatus r) (dMessage r) (checkTook c)
  | Panics v => mkResult (checkName c) StatusFail (Fmt "panic: %v" [FVal v]) 0
  end.

(** [Run]: one goroutine per check, each writing its own slot of the results;
    [order] is the order in which they finish. *)
Definition finish (checks : list Check) (results : list (option Result)) (i : nat) : list (option Result) :=
  match checks !! i with
  | Some c => <[i := Some (runSafe c)]> results
  | None => results
  end.

Definition Run (checks : list Check) (order : list nat) : list (option Result) :=
  foldl (finish checks) (replicate (length checks) None) order.

Definition ExitCodeFromResults (results : list Result) : Z :=
  if existsb (λ r, dStatus r =? StatusFail) results then 1 else 0.

(** ** Reports *)

(** The larger of the running value and each status, as both reports compute it. *)
Definition worst (init : CheckStatus) (results : list Result) : CheckStatus :=
  foldl (λ w r, if w <? dStatus r then dStatus r else w) init results.

(** [worstStatus] of the command. *)
Definition worstStatus (results : list Result) : string :=
  let w := worst StatusPass results in
  if w =? StatusFail then "fail" else if w =? StatusWarn then "warn" else "pass".

(** The payload of both reports: name, status and message of each check. *)
Record report := mkReport { rp_checks : list (string * string * text); rp_overall : string }.

Definition checkResult (r : Result) : string * string * text :=
  (dName r, status_string (dStatus r), dMessage r).

(** [overallStr] of the handler. *)
Definition overall_string (w : CheckStatus) : string :=
  if StatusFail <=? w then "fail" else if StatusWarn <=? w then "warn" else "pass".

(** [handleDoctor] runs the checks itself, one after the other: a panic is that
    of the handler. *)
Fixpoint run_all (checks : list Check) : option (list Result) :=
  match checks with
  | [] => Some []
  | c :: cs =>
      match checkRun c with
      | Panics _ => None
      | Returns r => rs ← run_all cs; Some (r :: rs)
      end
  end.

Definition handleDoctor (checks : list Check) : option report :=
  results ← run_all checks;
  Some (mkReport (checkResult <$> results) (overall_string (worst StatusPass results))).

Definition statusPrefix (s : CheckStatus) : string :=
  if s =? StatusInfo then "[INFO]" else if s =? StatusPass then "[PASS]"
  else if s =? StatusWarn then "[WARN]" else if s =? StatusFail then "[FAIL]" else "[????]".

(** ** The checks *)

Definition result (name : string) (s : CheckStatus) (m : text) : outcome := Returns (mkResult name s m 0).

(** [resticCheck]; [found] tells whether the binary is on the path. *)
Definition resticCheck (found : bool) (cfg : option Config) : outcome :=
  let name := "restic-on-path" in
  if found then result name StatusPass (Lit "restic found on $PATH")
  else match cfg with
       | Some c =>
           match bRepos (Backup c) with
           | [] => result name StatusWarn (Lit "restic not found on $PATH — backup checks unavailable")
           | _ => result name StatusFail (Lit "restic not found on $PATH while backup repositories are configured")
           end
       | None => result name StatusWarn (Lit "restic not found on $PATH — backup checks unavailable")
       end.

(** [strconv.Atoi] with its error ignored: 0, or the nearest 64-bit bound when
    the digits are out of range. *)
Definition atoi_value (s : string) : Z :=
  let '(neg, ds) := match s with
                    | String "-" r => (true, r)
                    | String "+" r => (false, r)
                    | _ => (false, s)
                    end in
  match digits ds with
  | Some z => if (neg : bool) then Z.max (- two63) (- z) else Z.min (two63 - 1) z
  | None => 0
  end.

Definition goRuntimeCheck (v : string) : outcome :=
  let name := "go-runtime-version" in
  let msg := Fmt "runtime version: %s" [FStr v] in
  let old := result name StatusInfo (Cat msg (Lit " (< 1.24 recommended)")) in
  match split "." (trim_prefix "go" v) with
  | a :: b :: _ =>
      let major := atoi_value a in let minor := atoi_value b in
      if (1 <? major) || (major =? 1) && (24 <=? minor) then result name StatusPass msg else old
  | _ => old
  end.

(** [portCheck]; [listen] is what [net.Listen] answers for an address. *)
Definition portCheck (listen : string → option foreign) (addr : string) : outcome :=
  let addr := if String.eqb addr "" then ":8080" else addr in
  match listen addr with
  | Some f => result "http-port-available" StatusFail
                (Fmt "%s is already in use: %v" [FStr addr; FErr (EForeign f)])
  | None => result "http-port-available" StatusPass (Fmt "%s is available" [FStr addr])
  end.

Definition configLoadedCheck : outcome :=
  result "config-loaded" StatusPass (Lit "configuration loaded and valid").

Definition data_dir_outcome (path : string) (r : GoError.result string) : outcome :=
  match r with
  | inr err => result "data-dir-writable" StatusFail (Fmt "%v" [FErr err])
  | inl _ => result "data-dir-writable" StatusPass (Fmt "%s is writable" [FStr path])
  end.

Definition dataDirCheck {Os : OsErrors} (p : process) (c : Config) : State fsys outcome :=
  let path := Resolve p (Some c) "" in
  r ← Ensure p path;
  mret (data_dir_outcome path r).

(** *** Addresses *)

(** The position of a byte in a string: the last one, and the first one. *)
Fixpoint last_index (c : ascii) (s : string) : option nat :=
  match s with
  | "" => None
  | String a s' =>
      match last_index c s' with
      | Some i => Some (S i)
      | None => if Ascii.eqb a c then Some O else None
      end
  end.

Definition index_byte (c : ascii) (s : string) : option nat := String.index 0 (String c "") s.
#[global] Arguments index_byte : simpl never.

(** [net.SplitHostPort]; [None] is one of its errors. *)
Definition SplitHostPort (hostport : string) : option (string * string) :=
  match last_index ":" hostport with
  | None => None
  | Some i =>
      let port := str_from (S i) hostport in
      let no_brackets (j k : nat) :=
        match index_byte "[" (str_from j hostport), index_byte "]" (str_from k hostport) with
        | None, None => true
        | _, _ => false
        end in
      if has_prefix "[" hostport then
        match index_byte "]" hostport with
        | None => None
        | Some e =>
            if Nat.eqb (S e) i then
              if no_brackets 1%nat (S e) then Some (str_from 1 (str_to e hostport), port) else None
            else None
        end
      else
        let host := str_to i hostport in
        match index_byte ":" host with
        | Some _ => None
        | None => if no_brackets O O then Some (host, port) else None
        end
  end.

Definition JoinHostPort (host port : string) : string :=
  match index_byte ":" host with
  | Some _ => "[" +:+ host +:+ "]:" +:+ port
  | None => host +:+ ":" +:+ port
  end.

Definition resolvedAddr (addr : string) : string :=
  match SplitHostPort addr with
  | Some (host, port) =>
      if String.eqb port "" then JoinHostPort (if String.eqb host "" then addr else host) "44818" else addr
  | None => JoinHostPort addr "44818"
  end.

Definition resolvedTimeout (s : string) : Z :=
  if String.eqb s "" then 5 * Second
  else match parse_duration s with
       | Some d => if d <=? 0 then 5 * Second else d
       | None => 5 * Second
       end.

Definition plc_check_name (p : PLC) : string :=
  "plc-reachable/" +:+ (if String.eqb (pName p) "" then pAddress p else pName p).

(** [dial] is what [net.DialTimeout] answers. *)
Definition plcReachableCheck (dial : string → Z → option foreign) (p : PLC) : outcome :=
  let addr := resolvedAddr (pAddress p) in
  match dial addr (resolvedTimeout (pSocketTimeout p)) with
  | Some f => result (plc_check_name p) StatusFail
                (Fmt "plc %q not reachable at %s: %v" [FStr (pName p); FStr addr; FErr (EForeign f)])
  | None => result (plc_check_name p) StatusPass
              (Fmt "plc %q reachable at %s" [FStr (pName p); FStr addr])
  end.

(** [usersExistCheck]. *)
Definition usersExistCheck : State (db user_table) outcome :=
  let name := "auth-users-exist" in
  count ← Count;
  mret (match count with
        | inr err => result name StatusFail (Fmt "cannot query user store: %v" [FErr err])
        | inl n =>
            if n =? 0 then result name StatusWarn
              (Lit "no users configured — set LGB_AUTH_ADMIN_PASSWORD to create admin on first run")
            else result name StatusPass (Fmt "%d user(s) configured" [FInt n])
        end).

(** *** The default registry and the command *)

(** What the checks of a configuration find: the answer of [Ensure] for the
    resolved data directory, whether [restic] is on the path, the Go version,
    the answers of the network, and how long each check takes. *)
Record surroundings := mkSurroundings {
  h_path : string;
  h_datadir : GoError.result string;
  h_restic : bool;
  h_version : string;
  h_listen : string → option foreign;
  h_dial : string → Z → option foreign;
  h_took : string → Z;
}.

Definition check (h : surroundings) (name : string) (o : outcome) : Check := mkCheck name o (h_took h name).

Definition Default (h : surroundings) (cfg : Config) : list Check :=
  [check h "data-dir-writable" (data_dir_outcome (h_path h) (h_datadir h));
   check h "restic-on-path" (resticCheck (h_restic h) (Some cfg));
   check h "go-runtime-version" (goRuntimeCheck (h_version h));
   check h "http-port-available" (portCheck (h_listen h) (sHTTPAddr (Server cfg)));
   check h "config-loaded" configLoadedCheck]
  ++ ((λ p, check h (plc_check_name p) (plcReachableCheck (h_dial h) p)) <$> PLCs cfg).

(** [Deps.DoctorRegistry], or the default registry of [Deps.Config]. *)
Definition command_registry (h : surroundings) (reg : option (list Check)) (cfg : option Config)
    : option (list Check) :=
  match reg with Some checks => Some checks | None => Default h <$> cfg end.

(** [runDoctorTo]: the exit code, and the report or the error. *)
Definition runDoctorTo (checks : option (list Check)) (order : list nat) : Z * GoError.result report :=
  match checks with
  | None => (2, inr (Errorf "doctor: config not loaded" []))
  | Some checks =>
      let results := omap id (Run checks order) in
      (ExitCodeFromResults results, inl (mkReport (checkResult <$> results) (worstStatus results)))
  end.

(** [RunE] of the command: its error makes the process exit with 1. *)
Definition doctor_command (checks : option (list Check)) (order : list nat) : option error :=
  match runDoctorTo checks order with
  | (_, inr err) => Some err
  | (code, inl _) => if code =? 0 then None else Some (Errorf "doctor: one or more checks failed" [])
  end.

(** ** The runner *)

Lemma finish_length checks rs i : length (finish checks rs i) = length rs.
Proof. unfold finish. case_match; [apply length_insert|done]. Qed.

Lemma finish_lookup checks order rs i :
  length rs = length checks →
  foldl (finish checks) rs order !! i =
  if bool_decide (i ∈ order) && bool_decide (i < length checks)%nat
  then Some <$> (runSafe <$> checks !! i) else rs !! i.
Proof.
  revert rs. induction order as [|k order IH]; intros rs Hn; [done|]. simpl.
  rewrite IH by (by rewrite finish_length). unfold finish.
  destruct (decide (i < length checks)%nat) as [Hi|Hi].
  2: { rewrite !(bool_decide_eq_false_2 (i < length checks)%nat), !andb_false_r by done.
       destruct (checks !! k) eqn:E; [|done]. apply list_lookup_insert_ne. intros ->.
       apply lookup_lt_Some in E. lia. }
  rewrite !(bool_decide_eq_true_2 (i < length checks)%nat), !andb_true_r by done.
  destruct (lookup_lt_is_Some_2 checks i Hi) as [c Hc]. rewrite Hc.
  destruct (decide (i ∈ order)) as [Ho|Ho].
  - rewrite (bool_decide_eq_true_2 (i ∈ order)), (bool_decide_eq_true_2 (i ∈ k :: order));
      [done|set_solver|done].
  - rewrite (bool_decide_eq_false_2 (i ∈ order)) by done. destruct (decide (i = k)) as [->|Hk].
    + rewrite bool_decide_eq_true_2 by set_solver. rewrite Hc, list_lookup_insert_eq; [done|]. lia.
    + rewrite bool_decide_eq_false_2 by set_solver. destruct (checks !! k); [|done]. by rewrite list_lookup_insert_ne.
Qed.

Lemma Run_in_order checks order :
  order ≡ₚ seq 0 (length checks) → Run checks order = Some <$> (runSafe <$> checks).
Proof.
  intros Ho. apply list_eq. intros i. unfold Run. rewrite finish_lookup by apply length_replicate.
  rewrite !list_lookup_fmap. destruct (decide (i < length checks)%nat) as [Hi|Hi].
  - rewrite !bool_decide_eq_true_2; [|done|rewrite Ho; apply elem_of_seq; lia].
    simpl. by destruct (checks !! i).
  - rewrite (bool_decide_eq_false_2 (i < length checks)%nat), andb_false_r by done.
    rewrite (lookup_ge_None_2 checks) by lia.
    apply (proj1 (lookup_replicate_None (length checks) (None : option Result) i)). lia.
Qed.

Lemma omap_id_Some {A : Type} (l : list A) : omap id (Some <$> l) = l.
Proof. induction l as [|x l IH]; [done|]. simpl. by f_equal. Qed.

(** Whatever the order in which the checks finish, the results are those of the
    checks in the order of registration, one each; a check that panics fails
    alone. *)
Theorem checks_run_correct (checks : list Check) (order : list nat) :
  order ≡ₚ seq 0 (length checks) →
  Run checks order = Some <$> (runSafe <$> checks) ∧
  ∀ c, c ∈ checks → match checkRun c with
                    | Panics _ => dName (runSafe c) = checkName c ∧ dStatus (runSafe c) = StatusFail
                    | Returns r => dName (runSafe c) = dName r ∧ dStatus (runSafe c) = dStatus r
                    end.
Proof.
  intros Ho. split; [by apply Run_in_order|]. intros c _. unfold runSafe. by destruct (checkRun c).
Qed.

(** ** The reports *)

Lemma worst_max init rs : worst init rs = foldl Z.max init (dStatus <$> rs).
Proof.
  unfold worst. revert init. induction rs as [|r rs IH]; intros init; [done|]. simpl. rewrite IH. f_equal.
  destruct (Z.ltb_spec init (dStatus r)); lia.
Qed.

Lemma foldl_max_spec init l :
  init ≤ foldl Z.max init l ∧ (∀ x, x ∈ l → x ≤ foldl Z.max init l) ∧
  (foldl Z.max init l = init ∨ foldl Z.max init l ∈ l).
Proof.
  revert init. induction l as [|x l IH]; intros init; simpl; [split_and!; [lia|set_solver|auto]|].
  destruct (IH (Z.max init x)) as (H1 & H2 & H3). split_and!; [lia| |].
  - intros y. rewrite elem_of_cons. intros [->|Hy]; [lia|auto].
  - rewrite elem_of_cons. destruct H3 as [H3|H3]; [|auto]. rewrite H3.
    destruct (Z.max_spec init x) as [[_ ->]|[_ ->]]; auto.
Qed.

(** The results have one of the four statuses. *)
Definition known (rs : list Result) : Prop := Forall (λ r, StatusInfo ≤ dStatus r ≤ StatusFail) rs.

Lemma worst_spec rs : known rs →
  (worst StatusPass rs = 1 ∨ worst StatusPass rs = 2 ∨ worst StatusPass rs = 3) ∧
  (∀ s, 1 < s → worst StatusPass rs ≤ s →
   existsb (λ r, dStatus r =? s) rs = (worst StatusPass rs =? s)).
Proof.
  unfold known. rewrite Forall_forall, worst_max. intros Hrs.
  destruct (foldl_max_spec StatusPass (dStatus <$> rs)) as (H1 & H2 & H3).
  set (w := foldl _ _ _) in *. unfold StatusPass, StatusFail, StatusInfo in *.
  assert (Hin : w = 1 ∨ ∃ r, r ∈ rs ∧ dStatus r = w).
  { destruct H3 as [H3|(r & Hr & Hin)%list_elem_of_fmap]; [by left|right; by exists r]. }
  split; [destruct Hin as [|(r & Hr & Hw)]; [lia|specialize (Hrs r Hr); lia]|].
  intros s Hs Hle. destruct (Z.eqb_spec w s) as [<-|Hne].
  - apply existsb_elem. destruct Hin as [|(r & Hr & Hw)]; [lia|]. exists r. by rewrite Hw, Z.eqb_refl.
  - apply existsb_not_elem. intros r Hr. apply Z.eqb_neq.
    specialize (H2 (dStatus r) (list_elem_of_fmap_2 _ _ _ Hr)). lia.
Qed.

(** The command and the handler agree on every set of results with the four
    statuses: the overall status is the worst one, information counting as a
    pass, and the exit code is 1 exactly when it is a failure. *)
Theorem reports_agree (rs : list Result) :
  known rs →
  worstStatus rs = overall_string (worst StatusPass rs) ∧
  (ExitCodeFromResults rs = 1 ↔ worstStatus rs = "fail") ∧
  worstStatus rs = (if existsb (λ r, dStatus r =? StatusFail) rs then "fail"
                    else if existsb (λ r, dStatus r =? StatusWarn) rs then "warn" else "pass").
Proof.
  intros Hrs. destruct (worst_spec rs Hrs) as [Hw Hex].
  unfold worstStatus, overall_string, ExitCodeFromResults. set (w := worst StatusPass rs) in *.
  clearbody w. unfold StatusPass, StatusWarn, StatusFail in *. rewrite (Hex 3) by lia.
  destruct Hw as [->|[->| ->]]; [rewrite (Hex 2) by lia..|]; by split_and!.
Qed.

Example reports_agree_witness :
  let rs := [mkResult "a" StatusInfo (Lit "") 0; mkResult "b" StatusWarn (Lit "") 0] in
  known rs ∧ worstStatus rs = "warn" ∧ ExitCodeFromResults rs = 0.
Proof.
  cbv zeta. assert (Hk : known [mkResult "a" StatusInfo (Lit "") 0; mkResult "b" StatusWarn (Lit "") 0])
    by (repeat constructor; vm_compute; discriminate).
  destruct (reports_agree _ Hk) as (_ & _ & H). split_and!; [done|exact H|reflexivity].
Defined.

Example checks_run_correct_witness :
  let checks := [mkCheck "a" (Returns (mkResult "a" StatusPass (Lit "") 0)) 5;
                 mkCheck "b" (Panics (VString "boom")) 7] in
  [1%nat; 0%nat] ≡ₚ seq 0 (length checks) ∧
  Run checks [1%nat; 0%nat] = [Some (mkResult "a" StatusPass (Lit "") 5);
                     Some (mkResult "b" StatusFail (Fmt "panic: %v" [FVal (VString "boom")]) 0)].
Proof.
  cbv zeta. assert (Ho : [1%nat; 0%nat] ≡ₚ seq 0 2) by apply perm_swap. split; [exact Ho|].
  apply (checks_run_correct [mkCheck "a" (Returns (mkResult "a" StatusPass (Lit "") 0)) 5;
                      mkCheck "b" (Panics (VString "boom")) 7] _ Ho).
Defined.

(** ** The command's verdict *)

Lemma exit_code rs : ExitCodeFromResults rs = 0 ↔ ∀ r, r ∈ rs → dStatus r ≠ StatusFail.
Proof.
  unfold ExitCodeFromResults. destruct (existsb _ rs) eqn:E.
  - apply existsb_elem in E as (r & Hr & Hs). apply Z.eqb_eq in Hs. naive_solver.
  - rewrite existsb_not_elem in E. split; [|done]. intros _ r Hr. by apply Z.eqb_neq, E.
Qed.

Lemma goRuntime_passes v : ∃ r, goRuntimeCheck v = Returns r ∧ dStatus r ≠ StatusFail.
Proof.
  unfold goRuntimeCheck, result. destruct (split _ _) as [|a [|b cs]]; [by eexists..|].
  destruct (_ || _); by eexists.
Qed.

(** What the default checks ask of the surroundings. *)
Definition healthy (h : surroundings) (cfg : Config) : Prop :=
  (∃ dir, h_datadir h = inl dir) ∧
  (h_restic h = true ∨ bRepos (Backup cfg) = []) ∧
  h_listen h (if String.eqb (sHTTPAddr (Server cfg)) "" then ":8080" else sHTTPAddr (Server cfg)) = None ∧
  Forall (λ p, h_dial h (resolvedAddr (pAddress p)) (resolvedTimeout (pSocketTimeout p)) = None) (PLCs cfg).

(** [lgb doctor] without a registry of its own succeeds exactly when the data
    directory is usable, [restic] is there if a repository needs it, the port is
    free and every configured PLC answers, in whatever order the checks finish;
    the version of Go never makes it fail. *)
Theorem doctor_command_correct (h : surroundings) (cfg : Config) (order : list nat) :
  order ≡ₚ seq 0 (length (Default h cfg)) →
  (doctor_command (command_registry h None (Some cfg)) order = None ↔ healthy h cfg) ∧
  length (Default h cfg) = (5 + length (PLCs cfg))%nat.
Proof.
  intros Ho. split; [|unfold Default; by rewrite length_app, length_fmap].
  unfold doctor_command, command_registry, runDoctorTo.
  change (Default h <$> Some cfg) with (Some (Default h cfg)). cbn iota. cbv zeta.
  rewrite (Run_in_order _ _ Ho), omap_id_Some.
  transitivity (ExitCodeFromResults (runSafe <$> Default h cfg) = 0).
  { rewrite <- Z.eqb_eq. by destruct (_ =? 0). }
  rewrite exit_code. transitivity (Forall (λ c, dStatus (runSafe c) ≠ StatusFail) (Default h cfg)).
  { rewrite Forall_forall. setoid_rewrite list_elem_of_fmap. naive_solver. }
  unfold Default, healthy. rewrite Forall_app, Forall_fmap, !Forall_cons, Forall_nil.
  destruct (goRuntime_passes (h_version h)) as (rv & Hv & Hok).
  unfold runSafe, check. cbn [checkRun checkName]. rewrite Hv.
  unfold data_dir_outcome, resticCheck, portCheck, configLoadedCheck, result. split.
  - intros ((H1 & H2 & _ & H4 & _) & H5). split_and!.
    + destruct (h_datadir h); [by eexists|done].
    + destruct (h_restic h); [by left|]. destruct (bRepos (Backup cfg)); [by right|done].
    + by destruct (h_listen _ _).
    + eapply Forall_impl; [exact H5|]. intros p. unfold compose, plcReachableCheck, result. simpl.
      by destruct (h_dial _ _ _).
  - intros ((dir & H1) & H2 & H4 & H5). split_and!; try done.
    + by rewrite H1.
    + destruct (h_restic h); [done|]. destruct H2 as [| ->]; done.
    + by rewrite H4.
    + eapply Forall_impl; [exact H5|]. intros p. unfold compose, plcReachableCheck, result. simpl.
      by intros ->.
Qed.

(** ** Addresses *)

(** A name, number or port: no colon, no bracket. *)
Definition bare (s : string) : Prop :=
  lacks ":" s = true ∧ lacks "[" s = true ∧ lacks "]" s = true.

Lemma index_byte_cons c a s :
  index_byte c (String a s) = if Ascii.eqb c a then Some O else S <$> index_byte c s.
Proof.
  unfold index_byte. simpl. destruct (ascii_dec c a) as [->|Hne].
  - rewrite Ascii.eqb_refl. by destruct s.
  - rewrite (proj2 (Ascii.eqb_neq c a) Hne). by destruct (String.index 0 (String c "") s).
Qed.

Lemma index_byte_lacks c s : lacks c s = true → index_byte c s = None.
Proof.
  induction s as [|a s IH]; [done|]. rewrite index_byte_cons. simpl. rewrite Ascii.eqb_sym.
  destruct (Ascii.eqb c a); [done|]. simpl. intros Hs. by rewrite (IH Hs).
Qed.

Lemma last_index_lacks c s : lacks c s = true → last_index c s = None.
Proof.
  induction s as [|a s IH]; [done|]. simpl. destruct (Ascii.eqb a c); [done|]. simpl. intros Hs.
  by rewrite (IH Hs).
Qed.

Lemma last_index_app c a b : lacks c b = true →
  last_index c (a +:+ String c b) = Some (String.length a).
Proof.
  intros Hb. induction a as [|x a IH]; simpl; [|by rewrite IH].
  by rewrite (last_index_lacks _ _ Hb), Ascii.eqb_refl.
Qed.

Lemma index_byte_app c a b : lacks c a = true → index_byte c (a +:+ String c b) = Some (String.length a).
Proof.
  induction a as [|x a IH]; rewrite ?string_app_nil_l, ?string_app_cons, index_byte_cons; [by rewrite Ascii.eqb_refl|].
  simpl. intros Ha. bool_to_prop. rewrite Ascii.eqb_sym, H. by rewrite IH.
Qed.

Lemma index_byte_some c a b : index_byte c (a +:+ String c b) ≠ None.
Proof.
  induction a as [|x a IH]; rewrite ?string_app_nil_l, ?string_app_cons, index_byte_cons; [by rewrite Ascii.eqb_refl|].
  destruct (Ascii.eqb c x); [done|]. by rewrite fmap_None.
Qed.

Lemma has_prefix_char c x s : has_prefix (String c "") (String x s) = Ascii.eqb c x.
Proof.
  unfold has_prefix. cbn [String.prefix]. destruct (ascii_dec c x) as [->|Hne].
  - rewrite Ascii.eqb_refl. by destruct s.
  - by rewrite (proj2 (Ascii.eqb_neq c x) Hne).
Qed.

Lemma prefix_lacks c s : lacks c s = true → has_prefix (String c "") s = false.
Proof.
  destruct s as [|x s]; [done|]. rewrite has_prefix_char. cbn [lacks]. rewrite Ascii.eqb_sym.
  by destruct (Ascii.eqb c x).
Qed.

Lemma SplitHostPort_bare host port : bare host → bare port →
  SplitHostPort (host +:+ String ":" port) = Some (host, port).
Proof.
  intros (H1 & H2 & H3) (P1 & P2 & P3). unfold SplitHostPort. rewrite last_index_app by done.
  rewrite str_from_S, str_to_app, str_from_0.
  assert (Hp : has_prefix "[" (host +:+ String ":" port) = false).
  { by apply prefix_lacks; rewrite lacks_app, H2. }
  rewrite Hp, (index_byte_lacks ":" host) by done.
  by rewrite !index_byte_lacks by (rewrite lacks_app; simpl; by rewrite ?H2, ?H3, ?P2, ?P3).
Qed.

Lemma SplitHostPort_bracketed v6 port : lacks "[" v6 = true → lacks "]" v6 = true → bare port →
  SplitHostPort ("[" +:+ v6 +:+ "]" +:+ String ":" port) = Some (v6, port).
Proof.
  intros H2 H3 (P1 & P2 & P3).
  set (s := "[" +:+ _).
  assert (E1 : s = ("[" +:+ v6 +:+ "]") +:+ String ":" port) by (unfold s; by rewrite !string_app_assoc).
  assert (E2 : s = String "[" (v6 +:+ String "]" (String ":" port))) by done.
  assert (E3 : s = ("[" +:+ v6) +:+ String "]" (String ":" port)) by done.
  assert (Hl : String.length ("[" +:+ v6 +:+ "]") = S (S (String.length v6))).
  { rewrite !length_string_app. simpl. lia. }
  assert (Hi : last_index ":" s = Some (S (S (String.length v6)))).
  { rewrite E1, last_index_app by done. by rewrite Hl. }
  assert (He : index_byte "]" s = Some (S (String.length v6))).
  { rewrite E2, index_byte_cons, index_byte_app by done. done. }
  assert (Hport : str_from (S (S (S (String.length v6)))) s = port) by (rewrite E1, <- Hl; apply str_from_S).
  assert (Hrest : str_from (S (S (String.length v6))) s = String ":" port).
  { rewrite E3. change (S (String.length v6)) with (String.length ("[" +:+ v6)). apply str_from_S. }
  assert (Hv6 : str_to (S (String.length v6)) s = "[" +:+ v6).
  { rewrite E3. change (S (String.length v6)) with (String.length ("[" +:+ v6)). apply str_to_app. }
  assert (H1 : str_from 1 s = v6 +:+ String "]" (String ":" port)) by (rewrite E2; apply (str_from_app "[")).
  unfold SplitHostPort. rewrite Hi, He, Hport, E2, has_prefix_char, <- E2. cbn [Ascii.eqb Bool.eqb].
  rewrite Nat.eqb_refl, Hrest, H1, Hv6, (str_from_app "[").
  rewrite !index_byte_lacks; [done|simpl; by rewrite P3|].
  rewrite lacks_app, H2. simpl. by rewrite P2.
Qed.

Lemma SplitHostPort_portless s : lacks ":" s = true → SplitHostPort s = None.
Proof. intros H. unfold SplitHostPort. by rewrite last_index_lacks. Qed.

(** Two colons and no bracket: an IPv6 literal. *)
Lemma SplitHostPort_colons a b c : lacks "[" a = true → lacks ":" c = true →
  SplitHostPort (a +:+ String ":" b +:+ String ":" c) = None.
Proof.
  intros Ha Hc. unfold SplitHostPort.
  assert (Hp : has_prefix "[" (a +:+ String ":" b +:+ String ":" c) = false).
  { destruct a as [|x a]; [done|]. rewrite string_app_cons, has_prefix_char. cbn [lacks] in Ha.
    rewrite Ascii.eqb_sym. by destruct (Ascii.eqb x "["). }
  rewrite Hp, <- string_app_assoc, last_index_app, str_to_app by done.
  destruct (index_byte ":" (a +:+ String ":" b)) eqn:E; [done|]. by apply index_byte_some in E.
Qed.

(** The address a probe dials: one with a port is used as it is, an empty port is
    completed, and a plain host or IPv6 literal gets the EtherNet/IP port. *)
Theorem resolvedAddr_correct (host port a b c : string) :
  bare host → bare port → port ≠ "" →
  lacks "[" a = true → lacks ":" c = true →
  resolvedAddr host = host +:+ ":44818" ∧
  resolvedAddr (host +:+ String ":" port) = host +:+ String ":" port ∧
  (host ≠ "" → resolvedAddr (host +:+ ":") = host +:+ ":44818") ∧
  resolvedAddr ("[" +:+ host +:+ "]" +:+ String ":" port) = "[" +:+ host +:+ "]" +:+ String ":" port ∧
  resolvedAddr (a +:+ String ":" b +:+ String ":" c) = "[" +:+ (a +:+ String ":" b +:+ String ":" c) +:+ "]:44818".
Proof.
  intros Hh Hp Hne Ha Hc. pose proof Hh as (H1 & H2 & H3). apply String.eqb_neq in Hne.
  unfold resolvedAddr. rewrite (SplitHostPort_portless host), (SplitHostPort_bare host port),
    (SplitHostPort_bare host ""), (SplitHostPort_bracketed host port), SplitHostPort_colons, Hne by done.
  cbn [String.eqb]. unfold JoinHostPort. rewrite (index_byte_lacks ":" host) by done. split_and!; try done.
  - intros Hn%String.eqb_neq. rewrite Hn. by rewrite (index_byte_lacks ":" host).
  - destruct (index_byte ":" (a +:+ String ":" b +:+ String ":" c)) eqn:E; [done|].
    by apply index_byte_some in E.
Qed.

Example resolvedAddr_correct_witness :
  bare "10.0.0.5" ∧ resolvedAddr "10.0.0.5" = "10.0.0.5:44818" ∧ resolvedAddr "::1" = "[::1]:44818".
Proof.
  assert (Hh : bare "10.0.0.5") by done. assert (Hp : bare "1000") by done.
  destruct (resolvedAddr_correct "10.0.0.5" "1000" "" "" "1" Hh Hp ltac:(done) eq_refl eq_refl)
    as (H1 & _ & _ & _ & H5).
  split_and!; [exact Hh|exact H1|exact H5].
Defined.

(** A bracketed IPv6 literal without a port gets a second pair of brackets. *)
Lemma resolvedAddr_brackets : resolvedAddr "[::1]" = "[[::1]]:44818".
Proof. reflexivity. Qed.

Example doctor_command_correct_witness :
  let h := mkSurroundings "/data" (inl "/data") false "go1.24.1" (λ _, None) (λ _ _, None) (λ _, 0) in
  let c := base_config 1 "8h" [] in
  [4;3;2;1;0]%nat ≡ₚ seq 0 (length (Default h c)) ∧
  doctor_command (command_registry h None (Some c)) [4;3;2;1;0]%nat = None.
Proof.
  cbv zeta. assert (Ho : [4;3;2;1;0]%nat ≡ₚ seq 0 5) by (apply (reverse_Permutation [0;1;2;3;4]%nat)).
  split; [exact Ho|].
  eapply (proj1 (doctor_command_correct _ (base_config 1 "8h" []) [4;3;2;1;0]%nat Ho)).
  split_and!; [by eexists|by right|done|by constructor].
Defined.

(** [usersExistCheck] reads the store only, and without a failure warns exactly
    when there is no user. *)
Theorem usersExistCheck_correct (d : db user_table) :
  let '(o, d') := usersExistCheck d in
  tables d' = tables d ∧
  ∃ r, o = Returns r ∧ dName r = "auth-users-exist" ∧
  (faults d = [] → dStatus r = if decide (rows (tables d) = []) then StatusWarn else StatusPass).
Proof.
  unfold usersExistCheck, Count, query. destruct d as [t [|[f|] fs]]; cbn.
  - split; [done|]. destruct t as [[|x l] n]; eexists; by split_and!.
  - split; [done|]. by eexists.
  - split; [done|]. cbn. destruct (Z.of_nat (length (rows t)) =? 0); eexists; by split_and!.
Qed.
