(* ===== verification/Auth.v ===== *)
(** * [internal/auth]: tokens, middleware and token transport

    The JWT library is not part of the repository: class [JWT] gives signing
    and parsing with the laws the code relies on. *)

From S2P Require Import Prelude GoString GoTime GoError UserStore Http.

(** ** JWT *)

(** [SignedString] with HS256 under a secret; [ParseWithClaims] at a time, with
    the key function applied to whether the method is HMAC; [NewNumericDate].
    The parse result is the claims with [token.Valid], or an error that may be
    [jwt.ErrTokenExpired]. *)
Class JWT := {
  SignedString : string → Claims → string + foreign;
  ParseWithClaims : time → (bool → string + error) → string → (Claims * bool) + (bool * foreign);
  NewNumericDate : time → time;
  numeric_date_law : ∀ t, NewNumericDate t ≤ t < NewNumericDate t + Second;
  parse_signed : ∀ now kf secret c tok,
    SignedString secret c = inl tok → kf true = inl secret → now < cExpiresAt c →
    ParseWithClaims now kf tok = inl (c, true);
  parse_expired : ∀ now kf secret c tok,
    SignedString secret c = inl tok → kf true = inl secret → cExpiresAt c ≤ now →
    ∃ f, ParseWithClaims now kf tok = inr (true, f);
}.

Record TokenService := mkTokenService { ts_secret : string; ts_ttl : Z }.

Section tokens.
Context {Jw : JWT}.

Definition Issue (ts : TokenService) (now : time) (userID : Z) (username role : string)
    : result string :=
  let claims := mkClaims userID username role
                  (NewNumericDate now) (NewNumericDate (now + ts_ttl ts)) in
  foreign_result (SignedString (ts_secret ts) claims).

(** The key function of [Validate]. *)
Definition key_func (ts : TokenService) (is_hmac : bool) : string + error :=
  if negb is_hmac then inr (Sentinel ErrTokenInvalid) else inl (ts_secret ts).

Definition Validate (ts : TokenService) (now : time) (tokenStr : string) : result Claims :=
  match ParseWithClaims now (key_func ts) tokenStr with
  | inr (expired, _) =>
      if (expired : bool) then inr (Sentinel ErrTokenExpired) else inr (Sentinel ErrTokenInvalid)
  | inl (claims, valid) => if negb valid then inr (Sentinel ErrTokenInvalid) else inl claims
  end.

(** ** Token transport *)

Definition BearerToken {B} (r : request B) : string :=
  if has_prefix "Bearer " (r_authorization r) then str_from 7 (r_authorization r) else "".

Definition CookieToken {B} (r : request B) : string :=
  match r_cookie r "lgb_session" with None => "" | Some v => v end.

Definition ExtractToken {B} (r : request B) : string :=
  let t := BearerToken r in
  if negb (String.eqb t "") then t else CookieToken r.

(** ** Middleware *)

Definition ClaimsFromContext {B} (r : request B) : option Claims := r_claims r.

(** [http.Error] with a JSON text. *)
Definition http_error (code : Z) (message : string) : response :=
  mkResponse code (Some (VObj [("error", VString message)])) [].

Definition Middleware {S B} (ts : TokenService) (now : time) (next : handler S B) : handler S B :=
  λ r,
    let token := ExtractToken r in
    if String.eqb token ""
    then mret (http_error StatusUnauthorized "missing authorization token")
    else match Validate ts now token with
         | inr _ => mret (http_error StatusUnauthorized "invalid or expired token")
         | inl claims => next (with_claims claims r)
         end.

Definition RequireRole {S B} (roles : list string) (next : handler S B) : handler S B :=
  λ r,
    match ClaimsFromContext r with
    | None => mret (http_error StatusUnauthorized "unauthorized")
    | Some claims =>
        if negb (bool_decide (cRole claims ∈ roles))
        then mret (http_error StatusForbidden "forbidden")
        else next r
    end.

(** [withMiddleware(h, mws...)]: the first is the outermost. *)
Definition withMiddleware {S B} (h : handler S B) (mws : list (handler S B → handler S B))
    : handler S B :=
  foldr (λ mw h, mw h) h mws.

(** ** Lemmas *)

Lemma Issue_Validate ts now now' uid name role tok :
  Issue ts now uid name role = inl tok → now' < NewNumericDate (now + ts_ttl ts) →
  Validate ts now' tok =
  inl (mkClaims uid name role (NewNumericDate now) (NewNumericDate (now + ts_ttl ts))).
Proof.
  unfold Issue, Validate. intros H Hlt. destruct (SignedString _ _) as [t|f] eqn:E; simplify_eq/=.
  by rewrite (parse_signed _ (key_func ts) _ _ _ E).
Qed.

(** Claims of an own token that validated are those it was issued for. *)
Lemma Issue_Validated ts now now' uid name role tok c :
  Issue ts now uid name role = inl tok → Validate ts now' tok = inl c →
  c = mkClaims uid name role (NewNumericDate now) (NewNumericDate (now + ts_ttl ts)).
Proof.
  intros H Hv. destruct (Z.lt_ge_cases now' (NewNumericDate (now + ts_ttl ts))) as [Hlt|Hge].
  - rewrite (Issue_Validate ts now now' uid name role tok H Hlt) in Hv. by simplify_eq.
  - unfold Issue, Validate in *. destruct (SignedString _ _) as [t|f] eqn:E; simplify_eq/=.
    destruct (parse_expired now' (key_func ts) _ _ _ E eq_refl Hge) as [f Hf].
    by rewrite Hf in Hv.
Qed.

Lemma Issue_Validate_time ts now now' uid name role tok :
  Issue ts now uid name role = inl tok →
  Validate ts now' tok =
  if now' <? NewNumericDate (now + ts_ttl ts)
  then inl (mkClaims uid name role (NewNumericDate now) (NewNumericDate (now + ts_ttl ts)))
  else inr (Sentinel ErrTokenExpired).
Proof.
  intros H. destruct (Z.ltb_spec now' (NewNumericDate (now + ts_ttl ts))) as [Hlt|Hge]; [by apply Issue_Validate|].
  unfold Issue, Validate in *. destruct (SignedString _ _) as [t|f] eqn:E; simplify_eq/=.
  by destruct (parse_expired now' (key_func ts) _ _ _ E eq_refl Hge) as [f ->].
Qed.

(** A token is accepted until the second its expiry falls in, with the
    claims it was issued for, and refused as expired from then on. *)
Theorem Issue_Validate_expiry (ts : TokenService) (now now' : time) (uid : Z)
    (name role tok : string) :
  Issue ts now uid name role = inl tok →
  let exp := NewNumericDate (now + ts_ttl ts) in
  exp ≤ now + ts_ttl ts < exp + Second ∧
  Validate ts now' tok =
  if now' <? exp then inl (mkClaims uid name role (NewNumericDate now) exp)
  else inr (Sentinel ErrTokenExpired).
Proof.
  intros H exp. split; [apply numeric_date_law|]. by apply Issue_Validate_time.
Qed.

(** The Authorization header wins over the session cookie, which is used
    only when the header carries no bearer token; a query parameter never
    carries one. *)
Theorem ExtractToken_correct {B} (r : request B) :
  (∀ t, t ≠ "" → r_authorization r = "Bearer " +:+ t → ExtractToken r = t) ∧
  (BearerToken r = "" → ExtractToken r = default "" (r_cookie r "lgb_session")) ∧
  (∀ q, ExtractToken (mkRequest (r_method r) (r_authorization r) (r_cookie r) q (r_path r)
          (r_remote r) (r_body r) (r_claims r)) = ExtractToken r).
Proof.
  unfold ExtractToken, BearerToken, CookieToken. split_and!.
  - intros t Hne ->. rewrite has_prefix_app. change 7%nat with (String.length "Bearer "). rewrite str_from_app.
    by rewrite (proj2 (String.eqb_neq t "")).
  - intros ->. simpl. by destruct (r_cookie r "lgb_session").
  - done.
Qed.

(** Behind [Middleware] and [RequireRole] a handler runs only for a request
    whose token validates, with that token's claims, and whose role is listed;
    any other request gets 401 or 403 and the state is unchanged. *)
Theorem guarded_handler {S B} (ts : TokenService) (now : time) (roles : list string)
    (h : handler S B) (r : request B) (s : S) :
  withMiddleware h [Middleware ts now; RequireRole roles] r s =
  if String.eqb (ExtractToken r) "" then (http_error StatusUnauthorized "missing authorization token", s)
  else match Validate ts now (ExtractToken r) with
       | inr _ => (http_error StatusUnauthorized "invalid or expired token", s)
       | inl c =>
           if bool_decide (cRole c ∈ roles) then h (with_claims c r) s
           else (http_error StatusForbidden "forbidden", s)
       end.
Proof.
  unfold withMiddleware, Middleware, RequireRole. simpl.
  destruct (String.eqb _ ""); [done|]. destruct (Validate ts now _) as [c|]; [|done].
  simpl. by destruct (bool_decide _).
Qed.

End tokens.

(** ** A concrete token format

    The secret and the claims written out as bits: enough of a JWT to run the
    examples. *)

Fixpoint bits (p : positive) : string :=
  match p with xH => "" | xO p => String "0" (bits p) | xI p => String "1" (bits p) end.

Fixpoint unbits (s : string) : positive :=
  match s with
  | EmptyString => xH
  | String c s => if Ascii.eqb c "0" then xO (unbits s) else xI (unbits s)
  end.

Lemma unbits_bits p : unbits (bits p) = p.
Proof. induction p as [p IH|p IH|]; simpl; by rewrite ?IH. Qed.

Abbreviation token_parts := (string * (Z * string * string * Z * Z))%type.

Definition claim_parts (c : Claims) := (cUserID c, cUsername c, cRole c, cIssuedAt c, cExpiresAt c).
Definition claims_of (p : Z * string * string * Z * Z) : Claims :=
  let '(id, name, role, iat, exp) := p in mkClaims id name role iat exp.

Definition plain_parse (now : time) (kf : bool → string + error) (tok : string)
    : (Claims * bool) + (bool * foreign) :=
  match decode (unbits tok) : option token_parts with
  | None => inr (false, plain_error "token is malformed")
  | Some (secret, p) =>
      match kf true with
      | inr _ => inr (false, plain_error "token is unverifiable")
      | inl key =>
          if negb (String.eqb key secret) then inr (false, plain_error "signature is invalid")
          else if now <? cExpiresAt (claims_of p) then inl (claims_of p, true)
          else inr (true, plain_error "token is expired")
      end
  end.

#[export] Instance plain_jwt : JWT.
Proof.
  refine {| SignedString := λ secret c, inl (bits (encode (secret, claim_parts c)));
            ParseWithClaims := plain_parse;
            NewNumericDate := λ t, t - t mod Second |}.
  - intros t. pose proof (Z.mod_pos_bound t Second ltac:(done)). lia.
  - intros now kf secret c tok [= <-] Hkf Hnow. unfold plain_parse.
    rewrite unbits_bits, decode_encode, Hkf, String.eqb_refl. simpl. destruct c. simpl in *.
    by rewrite (proj2 (Z.ltb_lt _ _) Hnow).
  - intros now kf secret c tok [= <-] Hkf Hnow. unfold plain_parse.
    rewrite unbits_bits, decode_encode, Hkf, String.eqb_refl. simpl. destruct c. simpl in *.
    rewrite (proj2 (Z.ltb_ge _ _) Hnow). eauto.
Defined.

(** A token for one hour, used half an hour later and an hour later. *)
Definition sample_tokens : TokenService := mkTokenService "0123456789abcdef0123456789abcdef" Hour.

Theorem Issue_Validate_expiry_witness :
  ∃ tok, Issue sample_tokens (5 * Second) 7 "ana" "viewer" = inl tok ∧
  Validate sample_tokens (1800 * Second) tok =
    inl (mkClaims 7 "ana" "viewer" (5 * Second) (3605 * Second)) ∧
  Validate sample_tokens (3605 * Second) tok = inr (Sentinel ErrTokenExpired).
Proof.
  assert (H : ∃ tok, Issue sample_tokens (5 * Second) 7 "ana" "viewer" = inl tok)
    by (eexists; reflexivity).
  destruct H as [tok H]. exists tok. split_and!; [done|..].
  - exact (proj2 (Issue_Validate_expiry _ _ (1800 * Second) _ _ _ _ H)).
  - exact (proj2 (Issue_Validate_expiry _ _ (3605 * Second) _ _ _ _ H)).
Defined.
