(* ===== verification/AuditLog.v ===== *)
(** * [internal/auth]: the audit log

    An append-only file of JSON lines.  Encoding may fail; the failures come
    from the same kind of script as those of the databases. *)

From S2P Require Import Prelude GoString GoTime GoError Sql.

Record AuditEvent := mkAuditEvent {
  evTimestamp : time; evAction : string; evUsername : string; evTargetID : Z;
  evDetail : text; evIP : string;
}.

(** The events written, and what goes wrong with the next writes. *)
Abbreviation audit_log := (db (list AuditEvent)).

(** [AuditLogger.Log]: a zero timestamp becomes the current time. *)
Definition Log (now : time) (event : AuditEvent) : State audit_log (option error) :=
  let event :=
    if is_zero (evTimestamp event)
    then mkAuditEvent now (evAction event) (evUsername event) (evTargetID event)
           (evDetail event) (evIP event)
    else event in
  res ← exec (λ l, inl (tt, l ++ [event]));
  mret (match res with inl _ => None | inr f => Some (EForeign f) end).

(** Writing adds the event or nothing. *)
Lemma Log_adds now e l :
  (∃ e', tables (Log now e l).2 = tables l ++ [e'] ∧ evAction e' = evAction e ∧
         evUsername e' = evUsername e ∧ evDetail e' = evDetail e ∧ evIP e' = evIP e) ∨
  tables (Log now e l).2 = tables l ∧ is_Some (Log now e l).1.
Proof.
  unfold Log, exec, next_fault. unfold_state. destruct l as [l [|[f|] fs]]; simpl; [left|right|left].
  - eexists. split; [reflexivity|]. by destruct (is_zero _).
  - eauto.
  - eexists. split; [reflexivity|]. by destruct (is_zero _).
Qed.

(** It adds nothing only when the log is down. *)
Lemma Log_down now e l : is_Some (Log now e l).1 → ∃ f fs, faults l = Some f :: fs.
Proof.
  unfold Log, exec, next_fault. unfold_state.
  destruct l as [l [|[f|] fs]]; simpl; [by intros []|eauto|by intros []].
Qed.

(** ** Opening and closing it *)

(** The directory and the file: their permissions once they exist, and the
    handles on the file that are open. *)
Record audit_file := mkAuditFile { af_dir : option Z; af_file : option Z; af_handles : Z }.

(** What the system answers to the calls, in the order they are made. *)
Record open_answers := mkOpenAnswers {
  oa_mkdir : option foreign; oa_chmod_dir : option foreign;
  oa_open : option foreign; oa_chmod_file : option foreign;
}.

(** [os.Chmod] sets the permissions, or fails and leaves them. *)
Definition chmod (answer : option foreign) (mode : Z) (old : option Z) : option Z :=
  match answer with None => Some mode | Some _ => old end.

(** [OpenAuditLogger]: creating keeps the permissions of what is there already,
    and a [chmod] that fails is only logged.  The process's umask leaves the
    owner's bits. *)
Definition OpenAuditLogger (dir : string) (a : open_answers) : State audit_file (result unit) := λ s,
  match oa_mkdir a with
  | Some f => (inr (Errorf "audit: mkdir %s: %w" [FStr dir; FWrap (EForeign f)]), s)
  | None =>
      let d := chmod (oa_chmod_dir a) 448 (Some (default 448 (af_dir s))) in
      match oa_open a with
      | Some f => (inr (Errorf "audit: open %s: %w" [FStr (dir +:+ "/events.jsonl"); FWrap (EForeign f)]),
                   mkAuditFile d (af_file s) (af_handles s))
      | None => (inl tt, mkAuditFile d (chmod (oa_chmod_file a) 384 (Some (default 384 (af_file s)))) (af_handles s + 1))
      end
  end.

(** [AuditLogger.Close] of a logger that was opened or not. *)
Definition CloseAudit (opened : bool) (answer : option foreign) : State audit_file (option error) := λ s,
  if opened then (EForeign <$> answer, mkAuditFile (af_dir s) (af_file s) (af_handles s - 1)) else (None, s).

(** No group or world bit: 0o700 and 0o600 are private. *)
Definition private (mode : option Z) : Prop := ∀ m, mode = Some m → Z.land m 63 = 0.

(** Opening fails exactly when the directory or the file cannot be made, leaks no
    handle then, and never depends on the permissions being tightened; they are
    tightened when the system allows it, and what it creates is private anyway. *)
Theorem OpenAuditLogger_correct (dir : string) (a : open_answers) (s : audit_file) :
  let '(r, s') := OpenAuditLogger dir a s in
  ((∃ u, r = inl u) ↔ oa_mkdir a = None ∧ oa_open a = None) ∧
  af_handles (CloseAudit (if r then true else false) None s').2 = af_handles s ∧
  (private (af_dir s) ∨ oa_chmod_dir a = None ∧ oa_mkdir a = None → private (af_dir s')) ∧
  (private (af_file s) ∨ oa_chmod_file a = None ∧ (∃ u, r = inl u) → private (af_file s')).
Proof.
  assert (P1 : private (Some 448)) by (by intros ? [= <-]). assert (P2 : private (Some 384)) by (by intros ? [= <-]).
  unfold OpenAuditLogger. destruct (oa_mkdir a) as [f|]; [split_and!; naive_solver|].
  assert (Hd : private (af_dir s) ∨ oa_chmod_dir a = None → private (chmod (oa_chmod_dir a) 448 (Some (default 448 (af_dir s))))).
  { destruct (oa_chmod_dir a); simpl; [|done]. intros [H|]; [|done]. by destruct (af_dir s). }
  destruct (oa_open a) as [f|]; simpl.
  { split_and!; [naive_solver|done|naive_solver|naive_solver]. }
  split_and!; [naive_solver|lia|naive_solver|].
  destruct (oa_chmod_file a); simpl; [|done]. intros [H|[? ?]]; [|done]. by destruct (af_file s).
Qed.
