(* ===== verification/ApiAuth.v ===== *)
(** * [internal/server]: login, refresh, logout and the session cookie

    The handlers of [/api/auth] over the user store and the audit log. *)

From S2P Require Import Prelude GoString GoTime GoError Sql UserStore Http Auth AuditLog.

(** ** The session cookie *)

Definition sessionCookieName : string := "lgb_session".
Definition defaultSessionCookiePath : string := "/api".

Record sessionCookieConfig := mkCookieConfig { ccSecure : bool; ccSameSite : string }.

(** [cfg.Server.TLSEnabled]. *)
Definition resolveSessionCookieConfig (tls : bool) : sessionCookieConfig := mkCookieConfig tls "Strict".

Definition setSessionCookie (token : string) (expires : time) (cfg : sessionCookieConfig) : cookie :=
  mkCookie sessionCookieName token defaultSessionCookiePath (Some expires) 0 true
    (ccSecure cfg) (ccSameSite cfg).

Definition clearSessionCookie (cfg : sessionCookieConfig) : cookie :=
  mkCookie sessionCookieName "" defaultSessionCookiePath None (-1) true
    (ccSecure cfg) (ccSameSite cfg).

(** ** The handlers *)

Record loginRequest := mkLogin { lgUsername : string; lgPassword : string }.

Definition tokenResponse (token : string) (expires : time) : value :=
  VObj [("token", VString token); ("expires_at", VTime expires)].

Definition authUserView (id : Z) (username role : string) : value :=
  VObj [("id", VInt64 id); ("username", VString username); ("role", VString role)].

Record auth_state := mkAuthState { au_users : db user_table; au_audit : audit_log }.

Definition on_users {A} : State (db user_table) A → State auth_state A :=
  zoom au_users (λ x s, mkAuthState x (au_audit s)).
Definition on_log {A} : State audit_log A → State auth_state A :=
  zoom au_audit (λ x s, mkAuthState (au_users s) x).

(** Which optional parts are wired: [userStore], [authTokens], [auditLog]. *)
Record auth_deps := AuthDeps {
  ad_users : bool; ad_tokens : option TokenService; ad_audit : bool; ad_tls : bool;
}.

Definition unauthorized (message : string) : response :=
  writeAPIError StatusUnauthorized "unauthorized" message.

(** A response that carries a fresh token, in the body and as a cookie. *)
Definition session_response (deps : auth_deps) (token : string) (expires : time) : response :=
  mkResponse StatusOK (Some (tokenResponse token expires))
    [setSessionCookie token expires (resolveSessionCookieConfig (ad_tls deps))].

Section handlers.
Context {Bc : Bcrypt} {Jw : JWT} (deps : auth_deps).
(** The times at which a token is issued and at which it is then validated, and
    that of the validation of the caller's token in [handleRefresh]. *)
Context (issued checked presented : time).

Definition audit_login (action username remote : string) : State auth_state unit :=
  if negb (ad_audit deps) then mret tt
  else _ ← on_log (Log checked (mkAuditEvent zero_time action username 0 (Lit "") remote)); mret tt.

Definition handleLogin : handler auth_state loginRequest := λ r,
  match ad_users deps, ad_tokens deps with
  | true, Some ts =>
      match r_body r with
      | None => mret (writeAPIError StatusBadRequest "bad_request" "username and password are required")
      | Some req =>
          if String.eqb (lgUsername req) "" || String.eqb (lgPassword req) ""
          then mret (writeAPIError StatusBadRequest "bad_request" "username and password are required")
          else
            user ← on_users (Authenticate (lgUsername req) (lgPassword req));
            match user with
            | inr _ => mret (unauthorized "invalid credentials")
            | inl user =>
                match Issue ts issued (uID user) (uUsername user) (uRole user) with
                | inr _ => mret (internal_error "could not issue token")
                | inl token =>
                    match Validate ts checked token with
                    | inr _ => mret (internal_error "could not validate token")
                    | inl claims =>
                        _ ← audit_login "login" (uUsername user) (r_remote r);
                        mret (session_response deps token (cExpiresAt claims))
                    end
                end
            end
      end
  | _, _ => mret (writeAPIError StatusServiceUnavailable "unavailable" "auth not configured")
  end.

(** The user name and role the new token is issued for: those of the store, or
    those of the old token when there is no store. *)
Definition revalidate (claims : Claims) : State auth_state (string * string + response) :=
  if ad_users deps then
    user ← on_users (GetByID (cUserID claims));
    mret (match user with
          | inl user => inl (uUsername user, uRole user)
          | inr err => inr (if is_error ErrUserNotFound err then unauthorized "user no longer exists"
                            else internal_error "could not revalidate user")
          end)
  else mret (inl (cUsername claims, cRole claims)).

Definition handleRefresh : handler auth_state unit := λ r,
  match ad_tokens deps with
  | None => mret (writeAPIError StatusServiceUnavailable "unavailable" "auth not configured")
  | Some ts =>
      let rawToken := ExtractToken r in
      if String.eqb rawToken "" then mret (unauthorized "missing authorization token")
      else match Validate ts presented rawToken with
           | inr _ => mret (unauthorized "invalid or expired token")
           | inl claims =>
               who ← revalidate claims;
               mret (match who with
                     | inr resp => resp
                     | inl (username, role) =>
                         match Issue ts issued (cUserID claims) username role with
                         | inr _ => internal_error "could not issue token"
                         | inl token =>
                             match Validate ts checked token with
                             | inr _ => internal_error "could not validate token"
                             | inl new => session_response deps token (cExpiresAt new)
                             end
                         end
                     end)
           end
  end.

Definition handleLogout : handler auth_state unit := λ r,
  let username := match ClaimsFromContext r with Some c => cUsername c | None => "" end in
  _ ← audit_login "logout" username (r_remote r);
  mret (mkResponse StatusNoContent None
          [clearSessionCookie (resolveSessionCookieConfig (ad_tls deps))]).

Definition handleMe : handler auth_state unit := λ r,
  mret (match ClaimsFromContext r with
        | None => unauthorized "missing claims"
        | Some claims =>
            writeJSON StatusOK
              (VObj [("user", authUserView (cUserID claims) (cUsername claims) (cRole claims));
                     ("expires_at", VTime (cExpiresAt claims))])
        end).

(** ** Sessions *)

(** The session a response opens: the token of its one cookie, which page
    scripts cannot read and only this origin sends back, and the same token in
    its body. *)
Definition opens (resp : response) (token : string) : Prop :=
  ∃ ck, set_cookies resp = [ck] ∧ ck_name ck = sessionCookieName ∧ ck_value ck = token ∧
  ck_http_only ck = true ∧ ck_same_site ck = "Strict" ∧ ck_secure ck = ad_tls deps ∧
  ck_path ck = "/api" ∧
  body resp = Some (tokenResponse token (default 0 (ck_expires ck))).

Lemma session_opens token expires : opens (session_response deps token expires) token.
Proof. eexists. by split_and!. Qed.

Lemma scanOne_reads p (d : db user_table) :
  tables (scanOne p d).2 = tables d ∧
  match (scanOne p d).1 with
  | inl u => ∃ x, x ∈ rows (tables d) ∧ p x = true ∧ u = scanUser x
  | inr _ => True
  end.
Proof.
  unfold scanOne. rewrite bind_run. unfold query, exec, next_fault. unfold_state.
  destruct d as [t [|[f|] fs]]; simpl; [|done|]; destruct (select_one p t) as [x|] eqn:E; simpl; try done;
    (split; [done|]); exists x; apply select_one_Some in E as []; by split_and!.
Qed.

Lemma Authenticate_reads name pw (d : db user_table) :
  tables (Authenticate name pw d).2 = tables d ∧
  match (Authenticate name pw d).1 with
  | inl u => ∃ i r, (i, r) ∈ rows (tables d) ∧ user_name r = name ∧ u = scanUser (i, r) ∧
             CompareHashAndPassword (user_hash r) pw = None
  | inr _ => True
  end.
Proof.
  unfold Authenticate, GetByUsername. rewrite bind_run.
  destruct (scanOne_reads (with_username name) d) as [Ht H].
  destruct (scanOne _ d) as [[u|e] d']; simpl in *; [|done]. split; [done|].
  destruct H as ([i r] & Hin & Hn%String.eqb_eq & ->). simpl.
  destruct (CompareHashAndPassword _ pw) eqn:Ec; [done|]. exists i, r. by split_and!.
Qed.

Lemma audit_login_users action username remote s :
  au_users (audit_login action username remote s).2 = au_users s.
Proof.
  unfold audit_login. destruct (ad_audit deps); [|done]. simpl. rewrite bind_run.
  unfold on_log, zoom. by destruct (Log _ _ _).
Qed.

Lemma Validate_session ts who tok c :
  Issue ts issued who.1.1 who.1.2 who.2 = inl tok → Validate ts checked tok = inl c →
  cUserID c = who.1.1 ∧ cUsername c = who.1.2 ∧ cRole c = who.2 ∧
  cExpiresAt c = NewNumericDate (issued + ts_ttl ts).
Proof. intros Hi Hv. by rewrite (Issue_Validated _ _ _ _ _ _ _ _ Hi Hv). Qed.

Lemma login_spec (r : request loginRequest) (s : auth_state) :
  let '(resp, s') := handleLogin r s in
  tables (au_users s') = tables (au_users s) ∧
  if status resp =? 200 then
    ∃ req ts i row token c,
      r_body r = Some req ∧ ad_tokens deps = Some ts ∧ (i, row) ∈ rows (tables (au_users s)) ∧
      user_name row = lgUsername req ∧
      CompareHashAndPassword (user_hash row) (lgPassword req) = None ∧
      opens resp token ∧ Issue ts issued i (user_name row) (user_role row) = inl token ∧
      Validate ts checked token = inl c ∧
      cUserID c = i ∧ cUsername c = user_name row ∧ cRole c = user_role row ∧
      cExpiresAt c = NewNumericDate (issued + ts_ttl ts)
  else set_cookies resp = [] ∧
       (status resp = 401 → resp = unauthorized "invalid credentials").
Proof.
  unfold handleLogin. destruct (ad_users deps); [|done].
  destruct (ad_tokens deps) as [ts|] eqn:Ets; [|done].
  destruct (r_body r) as [req|]; [|done]. destruct (_ || _); [done|].
  rewrite bind_run. unfold on_users, zoom.
  destruct (Authenticate_reads (lgUsername req) (lgPassword req) (au_users s)) as [Ht Hu].
  destruct (Authenticate _ _ _) as [[u|e] d]; simpl in Ht, Hu |- *; [|by split_and!].
  destruct Hu as (i & row & Hin & Hn & -> & Hp). unfold scanUser. cbn [uID uUsername uRole fst snd].
  destruct (Issue ts issued i (user_name row) (user_role row)) as [tok|] eqn:Ei; [|by repeat split].
  destruct (Validate ts checked tok) as [c|] eqn:Ev; [|by repeat split].
  rewrite bind_run. pose proof (audit_login_users "login" (user_name row) (r_remote r)
    (mkAuthState d (au_audit s))) as Ha.
  destruct (audit_login _ _ _ _) as [[] s']. simpl in Ha |- *. rewrite Ha. split; [done|].
  exists req, ts, i, row, tok, c. 
  destruct (Validate_session ts (i, user_name row, user_role row) tok c Ei Ev) as (H1 & H2 & H3 & H4).
  split_and!; try done. apply session_opens.
Qed.


(** C32 A refresh replaces a valid token by one for the same user with the name and
    the role the store has now; for a user who is gone it opens no session. *)
Theorem handleRefresh_correct (r : request unit) (s : auth_state) :
  ad_users deps = true →
  let '(resp, s') := handleRefresh r s in
  tables (au_users s') = tables (au_users s) ∧ au_audit s' = au_audit s ∧
  if status resp =? 200 then
    ∃ ts old row token c,
      ad_tokens deps = Some ts ∧ Validate ts presented (ExtractToken r) = inl old ∧
      (cUserID old, row) ∈ rows (tables (au_users s)) ∧
      opens resp token ∧ Validate ts checked token = inl c ∧
      cUserID c = cUserID old ∧ cUsername c = user_name row ∧ cRole c = user_role row ∧
      cExpiresAt c = NewNumericDate (issued + ts_ttl ts)
  else set_cookies resp = [].
Proof.
  intros Hu. unfold handleRefresh. destruct (ad_tokens deps) as [ts|] eqn:Ets; [|done].
  destruct (String.eqb _ ""); [done|].
  destruct (Validate ts presented (ExtractToken r)) as [old|] eqn:Eo; [|done].
  rewrite bind_run. unfold revalidate. rewrite Hu, bind_run. unfold on_users, zoom.
  destruct (scanOne_reads (by_id (cUserID old)) (au_users s)) as [Ht Hs].
  unfold GetByID. destruct (scanOne _ _) as [[u|e] d]; simpl in Ht, Hs |- *.
  2: { destruct (is_error _ e); simpl; by split_and!. }
  destruct Hs as (x & Hin & Hid & ->). apply by_id_eq in Hid. destruct x as [i row]. simpl in Hid. subst i.
  unfold scanUser. cbn [uUsername uRole fst snd]. split; [done|]. split; [done|].
  destruct (Issue ts issued (cUserID old) (user_name row) (user_role row)) as [tok|] eqn:Ei; [|done].
  destruct (Validate ts checked tok) as [c|] eqn:Ev; [|done]. simpl.
  exists ts, old, row, tok, c. 
  destruct (Validate_session ts (cUserID old, user_name row, user_role row) tok c Ei Ev) as (H1 & H2 & H3 & H4).
  split_and!; try done. apply session_opens.
Qed.
End handlers.

(** ** A concrete refresh

    The role of the user changed after the token was issued. *)

Definition sample_users : auth_state :=
  mkAuthState (Db (Table [(7, UserRow "ana" "$correct horse" "operator" 0)] 7) []) (Db [] []).

Definition old_token : string :=
  match Issue sample_tokens 0 7 "ana" "viewer" with inl t => t | inr _ => "" end.

Definition refresh_request : request unit :=
  mkRequest "POST" ("Bearer " +:+ old_token) (λ _, None) (λ _, "") (λ _, "") "127.0.0.1:9" None None.

Definition sample_auth : auth_deps := AuthDeps true (Some sample_tokens) true true.

Theorem handleRefresh_correct_witness :
  let '(resp, s') := handleRefresh sample_auth (60 * Second) (60 * Second) (60 * Second)
                       refresh_request sample_users in
  status resp = 200 ∧
  ∃ token c, opens sample_auth resp token ∧ Validate sample_tokens (60 * Second) token = inl c ∧
             cRole c = "operator".
Proof.
  pose proof (handleRefresh_correct sample_auth (60 * Second) (60 * Second) (60 * Second)
                refresh_request sample_users eq_refl) as H.
  assert (Hs : status (handleRefresh sample_auth (60 * Second) (60 * Second) (60 * Second)
                 refresh_request sample_users).1 = 200) by (vm_compute; reflexivity).
  destruct (handleRefresh _ _ _ _ _ _) as [resp s']. simpl in Hs. destruct H as (_ & _ & H).
  rewrite Hs in H. split; [done|]. simpl in H.
  destruct H as (ts & old & row & token & c & [= <-] & _ & Hin & Ho & Hv & _ & _ & Hr & _).
  exists token, c. split_and!; [done..|]. rewrite Hr.
  apply elem_of_cons in Hin as [[= _ ->]|Hin]; [done|by apply not_elem_of_nil in Hin].
Defined.
