(* ===== verification/ApiUsers.v ===== *)
(** * [internal/server]: the user administration API

    The handlers of [/api/users] over the user store, and the guard that keeps
    the last administrator. *)

From S2P Require Import Prelude GoString GoTime GoError Sql UserStore Http.

(** ** Request bodies *)

Record create_user_req := CreateUserReq { cu_username : string; cu_password : string; cu_role : string }.

(** ** Responses *)

Definition userToResponse (u : User) : value :=
  VObj [("id", VInt64 (uID u)); ("username", VString (uUsername u)); ("role", VString (uRole u));
        ("created_at", VTime (time_of_sec (unix_sec (uCreatedAt u))))].

Definition user_not_found : response :=
  writeAPIError StatusNotFound "user_not_found" "user not found".

Definition parseUserID {B} (r : request B) : Z + response :=
  match parse_int64 (r_path r "id") with
  | Some id =>
      if id <=? 0 then inr (writeAPIError StatusBadRequest "bad_request" "id must be a positive integer")
      else inl id
  | None => inr (writeAPIError StatusBadRequest "bad_request" "id must be a positive integer")
  end.

(** [err.Error()] of the two password errors. *)
Definition weak_password (err : error) : response :=
  writeAPIError StatusBadRequest "weak_password"
    (if is_error ErrPasswordTooShort err then "password must be at least 12 characters"
     else "password must be at most 72 bytes").

Section handlers.
Context {Eng : Engine} {Bc : Bcrypt}.

Definition handleListUsers : handler (db user_table) unit := λ r,
  match parsePagination r with
  | inr resp => mret resp
  | inl (limit, offset) =>
      users ← List;
      mret (match users with
            | inr _ => internal_error "could not list users"
            | inl users =>
                match page limit offset users with
                | None => panic
                | Some us =>
                    writeJSON StatusOK (data_page (userToResponse <$> us) limit offset
                                          (Z.of_nat (List.length users)))
                end
            end)
  end.

Definition handleCreateUser (now : time) (salt : Z) : handler (db user_table) create_user_req := λ r,
  match r_body r with
  | None => mret (writeAPIError StatusBadRequest "bad_request"
                    "username, password, and role are required")
  | Some req =>
      if String.eqb (cu_username req) "" || String.eqb (cu_password req) ""
      then mret (writeAPIError StatusBadRequest "bad_request"
                   "username, password, and role are required")
      else if negb (Valid (cu_role req))
      then mret (writeAPIError StatusBadRequest "invalid_role"
                   "role must be admin, operator, or viewer")
      else match ValidatePassword (cu_password req) with
      | Some err => mret (weak_password err)
      | None =>
          user ← Create now salt (cu_username req) (cu_password req) (cu_role req);
          mret (match user with
                | inr err =>
                    if is_error ErrUserAlreadyExists err
                    then writeAPIError StatusConflict "duplicate_username"
                           "a user with that username already exists"
                    else internal_error "could not create user"
                | inl user => writeJSON StatusCreated (data (userToResponse user))
                end)
      end
  end.

(** The response to a failed lookup or write by identifier. *)
Definition user_error (message : string) (err : error) : response :=
  if is_error ErrUserNotFound err then user_not_found else internal_error message.

Definition handleGetUser : handler (db user_table) unit := λ r,
  match parseUserID r with
  | inr resp => mret resp
  | inl id =>
      user ← GetByID id;
      mret (match user with
            | inr err => user_error "could not get user" err
            | inl user => writeJSON StatusOK (data (userToResponse user))
            end)
  end.

(** The body is the role. *)
Definition handleUpdateUserRole : handler (db user_table) string := λ r,
  match parseUserID r with
  | inr resp => mret resp
  | inl id =>
      match r_body r with
      | None => mret (writeAPIError StatusBadRequest "bad_request" "invalid request body")
      | Some role =>
          if negb (Valid role)
          then mret (writeAPIError StatusBadRequest "invalid_role"
                       "role must be admin, operator, or viewer")
          else
            err ← UpdateRole id role;
            match err with
            | Some err => mret (user_error "could not update role" err)
            | None =>
                user ← GetByID id;
                mret (match user with
                      | inr _ => internal_error "could not retrieve updated user"
                      | inl user => writeJSON StatusOK (data (userToResponse user))
                      end)
            end
      end
  end.

(** The body is the password. *)
Definition handleUpdateUserPassword (salt : Z) : handler (db user_table) string := λ r,
  match parseUserID r with
  | inr resp => mret resp
  | inl id =>
      match r_body r with
      | None => mret (writeAPIError StatusBadRequest "bad_request" "password is required")
      | Some password =>
          if String.eqb password ""
          then mret (writeAPIError StatusBadRequest "bad_request" "password is required")
          else match ValidatePassword password with
          | Some err => mret (weak_password err)
          | None =>
              err ← UpdatePassword salt id password;
              mret (match err with
                    | Some err => user_error "could not update password" err
                    | None => no_content
                    end)
          end
      end
  end.

(** The guard on the last administrator: an error response, or leave. *)
Definition last_admin_guard (user : User) : State (db user_table) (option response) :=
  if String.eqb (uRole user) RoleAdmin then
    count ← CountByRole RoleAdmin;
    mret (match count with
          | inr _ => Some (internal_error "could not count admins")
          | inl n =>
              if n <=? 1
              then Some (writeAPIError StatusConflict "last_admin" "cannot delete the last admin user")
              else None
          end)
  else mret None.

Definition handleDeleteUser : handler (db user_table) unit := λ r,
  match parseUserID r with
  | inr resp => mret resp
  | inl id =>
      if match r_claims r with Some c => cUserID c =? id | None => false end
      then mret (writeAPIError StatusConflict "self_delete" "cannot delete your own account")
      else
        user ← GetByID id;
        match user with
        | inr err => mret (user_error "could not get user" err)
        | inl user =>
            refused ← last_admin_guard user;
            match refused with
            | Some resp => mret resp
            | None =>
                err ← Delete id;
                mret (match err with
                      | Some err => user_error "could not delete user" err
                      | None => no_content
                      end)
            end
        end
  end.

(** ** The last administrator *)

Lemma admins_delete id t : table_ok t →
  admins (delete_where (by_id id) t) =
  admins t - match abs t !! id with
             | Some r => if String.eqb (user_role r) RoleAdmin then 1 else 0
             | None => 0
             end.
Proof. intros Hok. unfold admins. by rewrite affected_delete. Qed.

Lemma GetByID_cases id d :
  tables (GetByID id d).2 = tables d ∧
  ∀ u, (GetByID id d).1 = inl u → ∃ r, (id, r) ∈ rows (tables d) ∧ u = scanUser (id, r).
Proof.
  unfold GetByID, scanOne, query, exec, next_fault. unfold_state.
  destruct d as [t [|[f|] fs]]; simpl; (split; [done|]); intros u Hu; simplify_eq;
    destruct (select_one (by_id id) t) as [[i r]|] eqn:E; simplify_eq;
    apply select_one_Some in E as [Hin Hi%by_id_eq]; simpl in Hi; subst; eauto.
Qed.

Lemma CountByRole_cases role d :
  tables (CountByRole role d).2 = tables d ∧
  ∀ n, (CountByRole role d).1 = inl n → n = affected (with_role role) (tables d).
Proof.
  unfold CountByRole, query, exec, next_fault. unfold_state.
  destruct d as [t [|[f|] fs]]; simpl; (split; [done|]); intros n Hn; by simplify_eq.
Qed.

Lemma Delete_cases id d :
  tables (Delete id d).2 = tables d ∨ tables (Delete id d).2 = delete_where (by_id id) (tables d).
Proof.
  unfold Delete, exec, next_fault. unfold_state.
  destruct d as [t [|[f|] fs]]; simpl; auto.
Qed.

(** [DELETE /api/users/{id}] never removes the last administrator, and never
    the caller: whatever the database does, an administrator is left, and
    every user but the one named is as before. *)
Theorem handleDeleteUser_keeps_admin (r : request unit) (d : db user_table) :
  user_ok (tables d) → 1 ≤ admins (tables d) →
  let t' := tables (handleDeleteUser r d).2 in
  1 ≤ admins t' ∧
  (t' = tables d ∨ ∃ id, parseUserID r = inl id ∧ t' = delete_where (by_id id) (tables d) ∧
                         ∀ c, r_claims r = Some c → cUserID c ≠ id).
Proof.
  intros [Hok _] Ha. unfold handleDeleteUser. destruct (parseUserID r) as [id|]; [|simpl; auto].
  destruct (match r_claims r with Some c => cUserID c =? id | None => false end) eqn:Hself;
    [simpl; auto|].
  rewrite bind_run. pose proof (GetByID_cases id d) as [Ht Hu].
  destruct (GetByID id d) as [[u|err] d1]; simpl in Ht, Hu; [|simpl; rewrite Ht; auto].
  destruct (Hu u eq_refl) as (row & Hin & ->). unfold last_admin_guard. rewrite bind_run.
  destruct (String.eqb (uRole (scanUser (id, row))) RoleAdmin) eqn:Hrole; simpl in Hrole.
  - rewrite bind_run. pose proof (CountByRole_cases RoleAdmin d1) as [Ht2 Hc].
    destruct (CountByRole RoleAdmin d1) as [[n|err] d2]; simpl in Ht2, Hc;
      [|simpl; rewrite Ht2, Ht; auto].
    specialize (Hc n eq_refl). simpl. destruct (Z.leb_spec n 1); [simpl; rewrite Ht2, Ht; auto|].
    rewrite bind_run. pose proof (Delete_cases id d2) as [H2|H2];
      destruct (Delete id d2) as [err d3]; simpl in *; rewrite H2, Ht2, Ht; [auto|].
    rewrite admins_delete by done. rewrite (proj2 (abs_lookup _ _ _ Hok) Hin), Hrole.
    rewrite Ht in Hc. fold (admins (tables d)) in Hc. split; [lia|]. right. exists id.
    split_and!; try done. intros c Hcl. rewrite Hcl in Hself. by apply Z.eqb_neq.
  - simpl. rewrite bind_run. pose proof (Delete_cases id d1) as [H2|H2];
      destruct (Delete id d1) as [err d3]; simpl in *; rewrite H2, Ht; [auto|].
    rewrite admins_delete by done. rewrite (proj2 (abs_lookup _ _ _ Hok) Hin), Hrole.
    split; [lia|]. right. exists id.
    split_and!; try done. intros c Hcl. rewrite Hcl in Hself. by apply Z.eqb_neq.
Qed.

(** [PUT /api/users/{id}/role] has no such guard: it demotes the last
    administrator. *)
Theorem handleUpdateUserRole_can_demote_last_admin (r : request string) (t : user_table)
    (id : Z) (row : user_row) :
  user_ok t → (id, row) ∈ rows t → user_role row = RoleAdmin → admins t = 1 →
  parseUserID r = inl id → r_body r = Some RoleViewer →
  let '(resp, d') := handleUpdateUserRole r (Db t []) in
  status resp = StatusOK ∧ admins (tables d') = 0.
Proof.
  intros (Hok & _ & _) Hin Hrole Ha Hid Hb. unfold handleUpdateUserRole. rewrite Hid, Hb.
  cbn [negb Valid String.eqb Ascii.eqb Bool.eqb orb].
  unfold UpdateRole. simpl (negb _). cbn iota. rewrite !bind_run, exec_ok. unfold update_user.
  pose proof (proj2 (abs_lookup t id row Hok) Hin) as Hl.
  assert (Hn : affected (by_id id) t ≠ 0) by (rewrite affected_by_id by done; by rewrite Hl).
  unfold found. rewrite (proj2 (Z.eqb_neq _ _) Hn). cbn iota. unfold mret, state_ret.
  rewrite bind_run.
  pose proof (table_ok_update (by_id id) (set_role RoleViewer) t Hok) as Hok'.
  pose proof (select_one_by_id id _ Hok') as Hsel. rewrite abs_update in Hsel by done.
  rewrite lookup_alter_eq, Hl in Hsel. unfold GetByID, scanOne. rewrite bind_run, query_ok.
  destruct (select_one (by_id id) _) as [x|]; [|done]. simpl. split; [done|].
  unfold admins in *. rewrite affected_update, Hl, Ha by done. unfold with_role. simpl.
  by rewrite Hrole.
Qed.

(** [GET /api/users] answers any page request: the users from [offset] on, at
    most [limit] of them, and never a run-time panic. *)
Theorem handleListUsers_correct (r : request unit) (t : user_table) :
  Z.of_nat (List.length (rows t)) < 2 ^ 62 →
  (handleListUsers r (Db t [])).1 =
  match parsePagination r with
  | inr resp => resp
  | inl (limit, offset) =>
      writeJSON StatusOK
        (data_page (userToResponse ∘ scanUser <$>
                      take (Z.to_nat limit) (drop (Z.to_nat offset) (rows t)))
           limit offset (Z.of_nat (List.length (rows t))))
  end.
Proof.
  intros Hn. unfold handleListUsers. destruct (parsePagination r) as [[limit offset]|] eqn:E; [|done].
  apply parsePagination_ok in E as [Hl Ho]. unfold List. rewrite !bind_run, query_ok. simpl.
  rewrite length_fmap, page_total by (try rewrite length_fmap; lia).
  by rewrite <- fmap_drop, <- fmap_take, <- list_fmap_compose.
Qed.

End handlers.

(** ** Witnesses *)

Definition two_users : user_table :=
  Table [(1, UserRow "root" "$h1" "admin" 1700000000);
         (2, UserRow "eve" "$h2" "viewer" 1700000001)] 2.

Lemma two_users_ok : user_ok two_users.
Proof.
  split_and!.
  - split; repeat constructor; simpl; lia.
  - apply (bool_decide_unpack _). vm_compute. exact I.
  - repeat constructor.
Qed.

(** A request for [/api/users/{id}] by the user with identifier [caller]. *)
Definition user_request {B} (id : string) (caller : Z) (b : B) : request B :=
  mkRequest "PUT" "" (λ _, None) (λ _, "") (λ _, id) "10.0.0.9:1234" (Some b)
    (Some (mkClaims caller "root" "admin" 0 0)).

Lemma handleDeleteUser_keeps_admin_witness :
  user_ok two_users ∧ 1 ≤ admins two_users ∧
  1 ≤ admins (tables (handleDeleteUser (user_request "1" 3 tt) (Db two_users [])).2).
Proof.
  split; [exact two_users_ok|]. split; [vm_compute; discriminate|].
  apply (handleDeleteUser_keeps_admin (user_request "1" 3 tt) (Db two_users []) two_users_ok).
  vm_compute. discriminate.
Defined.

Lemma handleUpdateUserRole_can_demote_last_admin_witness :
  let '(resp, d') := handleUpdateUserRole (user_request "1" 1 "viewer") (Db two_users []) in
  status resp = StatusOK ∧ admins (tables d') = 0.
Proof.
  apply (handleUpdateUserRole_can_demote_last_admin (user_request "1" 1 "viewer") two_users 1
           (UserRow "root" "$h1" "admin" 1700000000) two_users_ok); try reflexivity.
  apply list_elem_of_In. left. reflexivity.
Defined.

Lemma handleListUsers_correct_witness :
  (handleListUsers (user_request "" 1 tt) (Db two_users [])).1 =
  writeJSON StatusOK (data_page (userToResponse ∘ scanUser <$> rows two_users) 100 0 2).
Proof.
  etransitivity; [apply (handleListUsers_correct (user_request "" 1 tt) two_users); vm_compute; reflexivity|].
  reflexivity.
Defined.
