(* ===== verification/WriteGuard.v ===== *)
(** * [internal/writeguard]: who may write a tag

    The two gates in front of every PLC write, against the interfaces the Go
    package declares.  An interface is a class of operations on a state [S];
    [WriteSurface] collects what the gates and their callers rely on from the
    implementations: lookups are read-only, a write reaches the PLC at most
    once, and an audit call only adds to the log. *)

From S2P Require Import Prelude GoString GoTime GoError Config Sql AuditLog.

(** [TagMeta], with the receiver's name: the record of safety switches. *)
Record tag_meta := TagMetaOf { Writable : bool; DCMDEnabled : bool }.

Record Actor := mkActor { actorUsername : string; actorRole : string }.

Record Decision := mkDecision { Allowed : bool; Reason : text }.

(** ** The interfaces *)

Class TagReadable (S : Type) := TagMeta : string → string → State S (option tag_meta).
Class ACLReader (S : Type) := CanWrite : string → string → string → State S (result bool).
Class TagWriter (S : Type) := WriteTag : string → string → value → State S (option error).
Class AuditSink (S : Type) := Audit : AuditEvent → State S (option error).

Section gates.
Context {S : Type} `{!TagReadable S, !ACLReader S}.

Definition deny (reason : string) : Decision := mkDecision false (Lit reason).
Definition allow : Decision := mkDecision true (Lit "").

Definition AuthorizeHTTP (actor : Actor) (plcName tagName : string) (val : value)
    : State S Decision :=
  meta ← TagMeta plcName tagName;
  match meta with
  | None => mret (deny "tag not writable")
  | Some meta =>
      if negb (Writable meta) then mret (deny "tag not writable")
      else
        allowed ← CanWrite (actorRole actor) plcName tagName;
        mret (match allowed with
              | inl true => allow
              | _ => deny "acl deny"
              end)
  end.

Definition AuthorizeDCMD (plcName tagName : string) : State S Decision :=
  meta ← TagMeta plcName tagName;
  mret (match meta with
        | None => deny "tag not writable"
        | Some meta =>
            if negb (Writable meta) then deny "tag not writable"
            else if negb (DCMDEnabled meta) then deny "dcmd not enabled"
            else allow
        end).

End gates.

(** ** What an implementation promises

    What can be observed of a state: [writes], the writes handed to a PLC
    driver so far, [audited], the audit log, [audit_down], whether the log may
    refuse the next event, and what the lookups answer when they answer. *)

Record observation := Observation {
  writes : list (string * string * value);
  audited : list AuditEvent;
  audit_down : bool;
  meta_of : string → string → option tag_meta;
  granted : string → string → string → Prop;
}.

Class WriteSurface (S : Type) `{!TagReadable S, !ACLReader S, !TagWriter S, !AuditSink S} := {
  observe : S → observation;
  (* lookups change nothing, and answer what is stored *)
  TagMeta_frame : ∀ plc tag s, observe (TagMeta plc tag s).2 = observe s;
  TagMeta_sound : ∀ plc tag s m, (TagMeta plc tag s).1 = Some m → meta_of (observe s) plc tag = Some m;
  CanWrite_frame : ∀ role plc tag s, observe (CanWrite role plc tag s).2 = observe s;
  CanWrite_sound : ∀ role plc tag s,
    (CanWrite role plc tag s).1 = inl true → granted (observe s) role plc tag;
  (* a write is one write, or none when there is no such PLC *)
  WriteTag_writes : ∀ plc tag v s,
    let o := observe s in let o' := observe (WriteTag plc tag v s).2 in
    audited o' = audited o ∧ audit_down o' = audit_down o ∧
    (writes o' = writes o ++ [(plc, tag, v)] ∨
     writes o' = writes o ∧ is_Some (WriteTag plc tag v s).1);
  (* an audit call adds the event; it may add nothing when the log is down *)
  Audit_adds : ∀ e s, let o := observe s in let o' := observe (Audit e s).2 in
    writes o' = writes o ∧
    ((∃ e', audited o' = audited o ++ [e'] ∧ evAction e' = evAction e ∧
            evUsername e' = evUsername e ∧ evDetail e' = evDetail e) ∨
     audited o' = audited o ∧ audit_down o = true);
}.

(** What the two gates require. *)
Definition http_permitted (o : observation) (role plc tag : string) : Prop :=
  (∃ m, meta_of o plc tag = Some m ∧ Writable m = true) ∧ granted o role plc tag.

Definition dcmd_permitted (o : observation) (plc tag : string) : Prop :=
  ∃ m, meta_of o plc tag = Some m ∧ Writable m = true ∧ DCMDEnabled m = true.

Section gate_lemmas.
Context {S : Type} `{WriteSurface S}.

Lemma AuthorizeHTTP_frame actor plc tag v s :
  observe (AuthorizeHTTP actor plc tag v s).2 = observe s.
Proof.
  unfold AuthorizeHTTP. rewrite bind_run. pose proof (TagMeta_frame plc tag s) as H1.
  destruct (TagMeta plc tag s) as [[m|] s1]; simpl in *; [|done].
  destruct (Writable m); simpl; [|done]. rewrite bind_run.
  pose proof (CanWrite_frame (actorRole actor) plc tag s1) as H2.
  destruct (CanWrite (actorRole actor) plc tag s1) as [r s2]. simpl in *. congruence.
Qed.

Lemma AuthorizeHTTP_allowed actor plc tag v s :
  Allowed (AuthorizeHTTP actor plc tag v s).1 = true →
  http_permitted (observe s) (actorRole actor) plc tag.
Proof.
  unfold AuthorizeHTTP. rewrite bind_run. pose proof (TagMeta_frame plc tag s) as H1.
  pose proof (TagMeta_sound plc tag s) as Hs.
  destruct (TagMeta plc tag s) as [[m|] s1]; simpl in *; [|done].
  specialize (Hs m eq_refl). destruct (Writable m) eqn:Hw; simpl; [|done]. rewrite bind_run.
  pose proof (CanWrite_sound (actorRole actor) plc tag s1) as Hc.
  destruct (CanWrite (actorRole actor) plc tag s1) as [[[]|e] s2]; simpl in *; try done.
  intros _. split; [by exists m|]. rewrite <- H1. by apply Hc.
Qed.

Lemma AuthorizeDCMD_frame plc tag s : observe (AuthorizeDCMD plc tag s).2 = observe s.
Proof.
  unfold AuthorizeDCMD. rewrite bind_run. pose proof (TagMeta_frame plc tag s) as H1.
  by destruct (TagMeta plc tag s).
Qed.

Lemma AuthorizeDCMD_allowed plc tag s :
  Allowed (AuthorizeDCMD plc tag s).1 = true → dcmd_permitted (observe s) plc tag.
Proof.
  unfold AuthorizeDCMD. rewrite bind_run. pose proof (TagMeta_sound plc tag s) as Hs.
  destruct (TagMeta plc tag s) as [[m|] s1]; simpl in *; [|done].
  destruct (Writable m) eqn:Hw, (DCMDEnabled m) eqn:Hd; try done. intros _. exists m. auto.
Qed.

End gate_lemmas.
