(* ===== verification/ApiWrite.v ===== *)
(** * [internal/server]: the two write surfaces

    [POST /api/plcs/{plc}/tags/{tag}/write] and the Sparkplug command handler,
    over the gates of [WriteGuard] and the interfaces of the state they change. *)

From S2P Require Import Prelude GoString GoTime GoError Config Sql Http Auth AuditLog WriteGuard.

(** [plcstore.Store.Get], as the handlers use it. *)
Class PLCGetter (S : Type) := GetPLC : string → State S (result PLC).

(** [plcstoreTagReader.TagMeta]. *)
Definition plcstoreTagReader {S : Type} `{!PLCGetter S} (plcName tagName : string)
    : State S (option tag_meta) :=
  p ← GetPLC plcName;
  mret (match p with
        | inr _ => None
        | inl p =>
            t ← List.find (λ t, String.eqb (tName t) tagName) (elems (pTags p));
            Some (TagMetaOf (tWritable t) (tDCMDEnabled t))
        end).

(** Which optional parts of the server are wired. *)
Record write_deps := WriteDeps { has_manager : bool; has_audit : bool; has_guard : bool }.

Section handlers.
Context {S : Type} `{!PLCGetter S, !TagReadable S, !ACLReader S, !TagWriter S, !AuditSink S}.
Context (deps : write_deps).

(** [emitWriteAuditDetail]. *)
Definition emitWriteAuditDetail (plcName tagName : string) (v : value) (outcome : string)
    (reason : text) (source username : string) : State S unit :=
  if negb (has_audit deps) then mret tt
  else
    let detail := Fmt "plc=%s tag=%s value=%v outcome=%s source=%s"
                    [FStr plcName; FStr tagName; FVal v; FStr outcome; FStr source] in
    let detail := match reason with
                  | Lit "" => detail
                  | _ => Cat detail (Cat (Lit " reason=") reason)
                  end in
    _ ← Audit (mkAuditEvent zero_time "tag.write" username 0 detail "");
    mret tt.

Definition emitWriteAudit (plcName tagName : string) (v : value) (outcome : string)
    (reason : text) (source username : string) : State S unit :=
  emitWriteAuditDetail plcName tagName v outcome reason source username.

Definition write_error (err : error) : text := Cat (Lit "write error: ") (ErrText err).

(** The body is [writeTagRequest.Value]. *)
Definition handleWriteTag : handler S value := λ r,
  let plcName := r_path r "plc" in
  let tagName := r_path r "tag" in
  match r_body r with
  | None => mret (writeAPIError StatusBadRequest "bad_request" "invalid request body")
  | Some v =>
      plc ← GetPLC plcName;
      match plc with
      | inr err =>
          if is_error ErrPLCNotFound err
          then mret (writeAPIError StatusNotFound "tag_not_found" "PLC or tag not found")
          else mret (writeAPIError StatusInternalServerError "internal_error" "could not look up PLC")
      | inl plc =>
          if negb (existsb (λ t, String.eqb (tName t) tagName) (elems (pTags plc)))
          then mret (writeAPIError StatusNotFound "tag_not_found" "tag not found")
          else
            let actor := match ClaimsFromContext r with
                         | Some c => mkActor (cUsername c) (cRole c)
                         | None => mkActor "" ""
                         end in
            decision ← AuthorizeHTTP actor plcName tagName v;
            if negb (Allowed decision) then
              _ ← emitWriteAudit plcName tagName v "deny" (Reason decision) "http"
                    (actorUsername actor);
              mret (writeAPIError StatusForbidden "write_denied" "write not permitted")
            else
              err ← (if has_manager deps then WriteTag plcName tagName v else mret None);
              match err with
              | Some err =>
                  _ ← emitWriteAudit plcName tagName v "deny" (write_error err) "http"
                        (actorUsername actor);
                  mret (writeAPIError StatusInternalServerError "write_error" "write failed")
              | None =>
                  _ ← emitWriteAudit plcName tagName v "allow" (Lit "") "http"
                        (actorUsername actor);
                  mret (mkResponse StatusOK None [])
              end
      end
  end.

(** [SparkplugCommandHandler]: [None] when the guard or the manager is absent. *)
Definition SparkplugCommandHandler : option (string → string → value → State S unit) :=
  if negb (has_guard deps) || negb (has_manager deps) then None
  else Some (λ deviceID tag v,
    let plcName := deviceID in
    decision ← AuthorizeDCMD plcName tag;
    if negb (Allowed decision)
    then emitWriteAuditDetail plcName tag v "deny" (Reason decision) "dcmd" ""
    else
      err ← WriteTag plcName tag v;
      match err with
      | Some err => emitWriteAuditDetail plcName tag v "deny" (write_error err) "dcmd" ""
      | None => emitWriteAuditDetail plcName tag v "allow" (Lit "") "dcmd" ""
      end).

End handlers.

(** ** What the write surfaces do, for every implementation of the interfaces *)

(** The lookup of a PLC is read-only too. *)
Class PLCReads (S : Type) `{!PLCGetter S} `{WriteSurface S} :=
  GetPLC_frame : ∀ name s, observe (GetPLC name s).2 = observe s.

(** The outcome an event records. *)
Definition outcome_of (e : AuditEvent) : option string :=
  match evDetail e with
  | Fmt _ [_; _; _; FStr o; _] => Some o
  | Cat (Fmt _ [_; _; _; FStr o; _]) _ => Some o
  | _ => None
  end.

Section surfaces.
Context {S : Type} `{PLCReads S} (deps : write_deps).

(** One event with the outcome was added, for the user; none only when there is
    no audit log or it is down. *)
Definition logged (o o' : observation) (outcome user : string) : Prop :=
  (∃ e, audited o' = audited o ++ [e] ∧ evAction e = "tag.write" ∧ evUsername e = user ∧
        outcome_of e = Some outcome) ∨
  audited o' = audited o ∧ (has_audit deps = false ∨ audit_down o = true).

Lemma emit_spec plc tag v outcome reason source user s :
  let s' := (emitWriteAuditDetail deps plc tag v outcome reason source user s).2 in
  writes (observe s') = writes (observe s) ∧ logged (observe s) (observe s') outcome user.
Proof.
  unfold emitWriteAuditDetail, logged. destruct (has_audit deps); simpl; [|naive_solver].
  rewrite bind_run. set (e := mkAuditEvent _ _ _ _ _ _).
  pose proof (Audit_adds e s) as (Hw & He). destruct (Audit e s) as [r s'] eqn:E. simpl in *.
  split; [done|]. destruct He as [(e' & Ha & Hact & Hu & Hd)|[Ha Hdown]]; [|by auto].
  left. exists e'. split_and!; [done..|]. unfold outcome_of. rewrite Hd. simpl.
  destruct reason as [[|c r0]| | |]; reflexivity.
Qed.

(** A write attempt on [(plc, tag)] behind a gate. *)
Definition written (o o' : observation) (plc tag : string) (v : value) : Prop :=
  writes o' = writes o ++ [(plc, tag, v)].

Definition caller (c : option Claims) : string * string :=
  match c with Some c => (cUsername c, cRole c) | None => ("", "") end.

Lemma logged_frame o1 o2 o' outcome user :
  audited o1 = audited o2 → audit_down o1 = audit_down o2 →
  logged o1 o' outcome user → logged o2 o' outcome user.
Proof. unfold logged. by intros -> ->. Qed.

(** The write and the audit event after a gate that allowed it. *)
Lemma write_then_emit plc tag v source user s err s1 :
  (if has_manager deps then WriteTag plc tag v else mret None) s = (err, s1) →
  let o := observe s in
  match err with
  | None =>
      let o' := observe (emitWriteAuditDetail deps plc tag v "allow" (Lit "") source user s1).2 in
      logged o o' "allow" user ∧
      if has_manager deps then written o o' plc tag v else writes o' = writes o
  | Some err =>
      let o' := observe (emitWriteAuditDetail deps plc tag v "deny" (write_error err) source user s1).2 in
      logged o o' "deny" user ∧ (written o o' plc tag v ∨ writes o' = writes o)
  end.
Proof.
  intros E. assert (Hw : audited (observe s1) = audited (observe s) ∧
    audit_down (observe s1) = audit_down (observe s) ∧
    (if has_manager deps then written (observe s) (observe s1) plc tag v
     else writes (observe s1) = writes (observe s)) ∨
    audited (observe s1) = audited (observe s) ∧ audit_down (observe s1) = audit_down (observe s) ∧
    writes (observe s1) = writes (observe s) ∧ is_Some err).
  { destruct (has_manager deps); [|left; by inversion E].
    pose proof (WriteTag_writes plc tag v s) as Hw. rewrite E in Hw. unfold written. naive_solver. }
  unfold written in *. destruct err as [err|]; simpl.
  - pose proof (emit_spec plc tag v "deny" (write_error err) source user s1) as (He & Hl).
    cbv zeta in *. split; [apply (logged_frame (observe s1)); naive_solver|]. rewrite He.
    destruct (has_manager deps); naive_solver.
  - pose proof (emit_spec plc tag v "allow" (Lit "") source user s1) as (He & Hl).
    cbv zeta in *. split; [apply (logged_frame (observe s1)); naive_solver|]. rewrite He.
    destruct Hw as [(_ & _ & Hw)|(_ & _ & _ & [])]; done.
Qed.

(** C4 Over HTTP a value reaches a PLC only if the tag is writable and a rule
    grants the caller's role the write: at most one write per request, 200 exactly
    when it succeeded, 403 and a denial in the audit log when the gate refused,
    and one audit event for every attempt that reached the gate. *)
Theorem handleWriteTag_correct (r : request value) (s : S) :
  let '(resp, s') := handleWriteTag deps r s in
  let o := observe s in let o' := observe s' in
  let plc := r_path r "plc" in let tag := r_path r "tag" in
  let '(user, role) := caller (r_claims r) in
  match status resp with
  | 200 => http_permitted o role plc tag ∧ logged o o' "allow" user ∧
           ∃ v, r_body r = Some v ∧
                if has_manager deps then written o o' plc tag v else writes o' = writes o
  | 403 => writes o' = writes o ∧ logged o o' "deny" user ∧
           ∃ v s1, observe s1 = o ∧ Allowed (AuthorizeHTTP (mkActor user role) plc tag v s1).1 = false
  | 500 => o' = o ∨
           http_permitted o role plc tag ∧ logged o o' "deny" user ∧
           ∃ v, r_body r = Some v ∧ (written o o' plc tag v ∨ writes o' = writes o)
  | 400 | 404 => o' = o
  | _ => False
  end.
Proof.
  unfold handleWriteTag. set (plc := r_path r "plc"). set (tag := r_path r "tag").
  destruct (caller (r_claims r)) as [user role] eqn:Ec.
  assert (Ea : match ClaimsFromContext r with
               | Some c => mkActor (cUsername c) (cRole c) | None => mkActor "" "" end =
               mkActor user role).
  { unfold ClaimsFromContext, caller in *. by destruct (r_claims r); simplify_eq. }
  rewrite Ea. destruct (r_body r) as [v|]; [|simpl; done].
  rewrite bind_run. pose proof (GetPLC_frame plc s) as H1.
  destruct (GetPLC plc s) as [[p|err] s1]; simpl in H1; [|destruct (is_error _ err); simpl; auto].
  destruct (existsb _ _); cbn [negb]; [|simpl; by rewrite H1].
  rewrite bind_run. pose proof (AuthorizeHTTP_frame (mkActor user role) plc tag v s1) as H2.
  pose proof (AuthorizeHTTP_allowed (mkActor user role) plc tag v s1) as Hp.
  destruct (AuthorizeHTTP (mkActor user role) plc tag v s1) as [dec s2] eqn:Eg. simpl in H2, Hp.
  rewrite H1 in Hp. assert (H3 : observe s2 = observe s) by congruence.
  destruct (Allowed dec) eqn:Edec; cbn [negb].
  - specialize (Hp eq_refl).
    rewrite bind_run. destruct ((if has_manager deps then WriteTag plc tag v else mret None) s2) as [err s3] eqn:Ew.
    pose proof (write_then_emit plc tag v "http" user s2 err s3 Ew) as Hw. rewrite H3 in Hw.
    unfold emitWriteAudit. simpl actorUsername.
    destruct err as [err|]; cbv zeta in Hw; rewrite bind_run;
      destruct (emitWriteAuditDetail _ _ _ _ _ _ _ _ s3) as [u s4]; simpl in *; [|naive_solver].
    right. destruct Hw. split_and!; [done..|]. eauto.
  - rewrite bind_run. unfold emitWriteAudit. simpl actorUsername.
    pose proof (emit_spec plc tag v "deny" (Reason dec) "http" user s2) as (Hw & Hl).
    destruct (emitWriteAuditDetail _ _ _ _ _ _ _ _ s2) as [u s3]. simpl in *. rewrite H3 in *.
    split_and!; [done..|]. exists v, s1. by rewrite Eg.
Qed.

(** Over Sparkplug a value reaches a PLC only if the tag is writable and
    enabled for device commands; no ACL rule is consulted, at most one write
    happens per command, and every command is audited once. *)
Theorem SparkplugCommandHandler_correct (device tag : string) (v : value) (s : S) :
  match SparkplugCommandHandler deps with
  | None => has_guard deps = false ∨ has_manager deps = false
  | Some h =>
      let o := observe s in let o' := observe (h device tag v s).2 in
      let '(decision, s1) := AuthorizeDCMD device tag s in
      if Allowed decision then
        dcmd_permitted o device tag ∧
        match (WriteTag device tag v s1).1 with
        | None => written o o' device tag v ∧ logged o o' "allow" ""
        | Some _ => (written o o' device tag v ∨ writes o' = writes o) ∧ logged o o' "deny" ""
        end
      else writes o' = writes o ∧ logged o o' "deny" ""
  end.
Proof.
  unfold SparkplugCommandHandler. destruct (has_guard deps); simpl; [|auto].
  destruct (has_manager deps) eqn:Em; simpl; [|auto].
  rewrite bind_run. pose proof (AuthorizeDCMD_frame device tag s) as H1.
  pose proof (AuthorizeDCMD_allowed device tag s) as Hp.
  destruct (AuthorizeDCMD device tag s) as [dec s1]. simpl in *. rewrite <- H1 in *.
  destruct (Allowed dec); cbn [negb].
  - split; [by apply Hp|]. rewrite bind_run.
    destruct (WriteTag device tag v s1) as [err s2] eqn:Ew.
    pose proof (write_then_emit device tag v "dcmd" "" s1 err s2) as Hw. rewrite Em in Hw.
    specialize (Hw Ew). destruct err; cbv zeta in Hw; simpl in *; naive_solver.
  - pose proof (emit_spec device tag v "deny" (Reason dec) "dcmd" "" s1) as (Hw & Hl). auto.
Qed.

End surfaces.
