(* ===== verification/Retry.v ===== *)
(** * [internal/retry]: retrying with exponential backoff

    [Do] over an environment: the operation, the polls of the context, the
    random numbers and the waits are state transformers, so that a theorem
    covers every behaviour of the operation and every moment of cancellation. *)

From S2P Require Import Prelude GoString GoTime GoError.

(** [oSleep] tells whether a timer factory is injected. *)
Record Options := mkOptions {
  Initial : Z; Max : Z; MaxAttempts : Z; Jitter : f64; oSleep : bool;
}.

Definition f64_is_zero (x : f64) : bool := f64_eqb x (f64_of_Z 0).

Definition applyDefaults (o : Options) : Options :=
  let initial := if Initial o <=? 0 then 100 * Millisecond else Initial o in
  let max := if Max o <=? 0 then 30 * Second else Max o in
  let jitter := if negb (oSleep o) && f64_is_zero (Jitter o) then f64_quarter else Jitter o in
  let jitter := if f64_ltb (f64_of_Z 1) jitter then f64_of_Z 1 else jitter in
  mkOptions initial max (MaxAttempts o) jitter (oSleep o).

(** The loop that doubles the delay, [n] doublings at most. *)
Fixpoint grow (n : nat) (max delay : Z) : Z :=
  match n with
  | O => delay
  | S n =>
      let delay := int64 (delay * 2) in
      if max <? delay then max else grow n max delay
  end.

(** The delay after an attempt, before jitter. *)
Definition delay_after (o : Options) (attempt : nat) : Z := grow (attempt - 1) (Max o) (Initial o).

(** [delay] times a factor drawn from [1-jitter, 1+jitter]; [r] is
    [rand.Float64()]. *)
Definition jittered (o : Options) (r : f64) (delay : Z) : Z :=
  if f64_ltb (f64_of_Z 0) (Jitter o) then
    let factor := f64_add (f64_of_Z 1)
                    (f64_mul (Jitter o) (f64_sub (f64_mul (f64_of_Z 2) r) (f64_of_Z 1))) in
    f64_to_int64 (f64_mul (f64_of_Z delay) factor)
  else delay.

Definition exhausted (last : option error) : error :=
  Errorf "retry: %w: %w"
    [FWrap (Sentinel ErrMaxAttempts); match last with Some e => FWrap e | None => FVal VNil end].

Section retry.
Context {S : Type}.
(** [ctx_err] polls the context; [sleep d] waits for [d] and returns [None], or
    for the cancellation of the context and returns its error. *)
Context (ctx_err : State S (option error)) (rand : State S f64)
        (sleep : Z → State S (option error)) (fn : State S (option error)).

(** The loop of [Do]; [None] is running out of fuel. *)
Fixpoint attempts (fuel : nat) (o : Options) (attempt : nat) (last : option error)
    : State S (option (option error)) :=
  match fuel with
  | O => mret None
  | Datatypes.S fuel =>
      if (0 <? MaxAttempts o) && (MaxAttempts o <? Z.of_nat attempt)
      then mret (Some (Some (exhausted last)))
      else
        err ← ctx_err;
        match err with
        | Some err => mret (Some (Some err))
        | None =>
            last ← fn;
            match last with
            | None => mret (Some None)
            | Some _ =>
                if (0 <? MaxAttempts o) && (MaxAttempts o <=? Z.of_nat attempt)
                then mret (Some (Some (exhausted last)))
                else
                  r ← rand;
                  err ← sleep (jittered o r (delay_after o attempt));
                  match err with
                  | Some err => mret (Some (Some err))
                  | None => attempts fuel o (Datatypes.S attempt) last
                  end
            end
        end
  end.

Definition Do (fuel : nat) (o : Options) : State S (option (option error)) :=
  attempts fuel (applyDefaults o) 1 None.

(** With a bound on the attempts, that many calls always suffice. *)
Lemma attempts_bounded o n attempt last s (calls : S → Z) :
  (∀ s, calls (ctx_err s).2 = calls s) → (∀ s, calls (rand s).2 = calls s) →
  (∀ d s, calls (sleep d s).2 = calls s) → (∀ s, calls (fn s).2 = calls s + 1) →
  (1 ≤ attempt)%nat → Z.of_nat attempt + Z.of_nat n = MaxAttempts o + 1 → (1 ≤ n)%nat →
  ∃ r s', attempts n o attempt last s = (Some r, s') ∧ calls s' ≤ calls s + Z.of_nat n.
Proof.
  intros Hc Hr Hs Hf. revert attempt last s.
  induction n as [|n IH]; intros attempt last s Ha Hn Hpos; [lia|]. cbn [attempts].
  destruct (Z.ltb_spec 0 (MaxAttempts o)); [|lia].
  destruct (Z.ltb_spec (MaxAttempts o) (Z.of_nat attempt)); [lia|]. cbn [andb].
  rewrite bind_run. specialize (Hc s). destruct (ctx_err s) as [[e|] s1]; simpl in Hc.
  { eexists _, _. split; [done|]. lia. }
  rewrite bind_run. specialize (Hf s1). destruct (fn s1) as [[e|] s2]; simpl in Hf.
  2: { eexists _, _. split; [done|]. lia. }
  destruct (Z.leb_spec (MaxAttempts o) (Z.of_nat attempt)).
  { eexists _, _. split; [done|]. lia. }
  rewrite bind_run. specialize (Hr s2). destruct (rand s2) as [r s3]; simpl in Hr.
  rewrite bind_run. set (d := jittered _ _ _). specialize (Hs d s3).
  destruct (sleep d s3) as [[e'|] s4]; simpl in Hs.
  { eexists _, _. split; [done|]. lia. }
  destruct (IH (Datatypes.S attempt) (Some e) s4) as (r' & s' & E & Hle); [lia..|].
  exists r', s'. split; [done|]. lia.
Qed.

(** With [MaxAttempts > 0], [Do] returns, after at most that many calls of
    the operation, whatever the operation and the context do. *)
Theorem Do_terminates (o : Options) (s : S) (calls : S → Z) :
  0 < MaxAttempts o →
  (∀ s, calls (ctx_err s).2 = calls s) → (∀ s, calls (rand s).2 = calls s) →
  (∀ d s, calls (sleep d s).2 = calls s) → (∀ s, calls (fn s).2 = calls s + 1) →
  ∃ r s', Do (Z.to_nat (MaxAttempts o)) o s = (Some r, s') ∧ calls s' ≤ calls s + MaxAttempts o.
Proof.
  intros Hm Hc Hr Hs Hf. unfold Do.
  destruct (attempts_bounded (applyDefaults o) (Z.to_nat (MaxAttempts o)) 1 None s calls
              Hc Hr Hs Hf) as (r & s' & E & Hle); simpl; [lia..|].
  exists r, s'. split; [done|]. lia.
Qed.

(** More fuel does not change a result. *)
Lemma attempts_mono n m o attempt last s r s' :
  (n ≤ m)%nat → attempts n o attempt last s = (Some r, s') →
  attempts m o attempt last s = (Some r, s').
Proof.
  revert m attempt last s. induction n as [|n IH]; intros m attempt last s Hle; [done|].
  destruct m as [|m]; [lia|]. cbn [attempts]. destruct (_ && _)%bool; [done|].
  rewrite !bind_run. destruct (ctx_err s) as [[e|] s1]; [done|].
  rewrite !bind_run. destruct (fn s1) as [[e|] s2]; [|done].
  destruct (_ && _)%bool; [done|]. rewrite !bind_run. destruct (rand s2) as [x s3].
  rewrite !bind_run. destruct (sleep _ s3) as [[e'|] s4]; [done|]. apply IH. lia.
Qed.

(** What [Do] returned says how it ended: success means the operation's last
    call succeeded; an error is the context's, or wraps [ErrMaxAttempts] and
    the operation's last error. *)
Definition do_result (o : Options) (r : option error) : Prop :=
  match r with
  | None => ∃ s, (fn s).1 = None
  | Some e =>
      (∃ s, (ctx_err s).1 = Some e) ∨ (∃ d s, (sleep d s).1 = Some e) ∨
      (0 < MaxAttempts o ∧ ∃ s last, (fn s).1 = Some last ∧ e = exhausted (Some last))
  end.

Lemma attempts_result n o attempt last s r s' :
  (1 ≤ attempt)%nat → (0 < MaxAttempts o → Z.of_nat attempt ≤ MaxAttempts o) →
  attempts n o attempt last s = (Some r, s') → do_result o r.
Proof.
  revert attempt last s. induction n as [|n IH]; intros attempt last s Ha Hm; [done|].
  cbn [attempts]. destruct ((0 <? MaxAttempts o) && (MaxAttempts o <? Z.of_nat attempt))%bool eqn:E1.
  { bool_to_prop. lia. }
  rewrite bind_run. destruct (ctx_err s) as [[e|] s1] eqn:Ec.
  { intros [= <- <-]. left. exists s. by rewrite Ec. }
  rewrite bind_run. destruct (fn s1) as [[e|] s2] eqn:Ef.
  2: { intros [= <- <-]. exists s1. by rewrite Ef. }
  destruct ((0 <? MaxAttempts o) && (MaxAttempts o <=? Z.of_nat attempt))%bool eqn:E2.
  { intros [= <- <-]. bool_to_prop. right. right. split; [done|]. exists s1, e. by rewrite Ef. }
  rewrite bind_run. destruct (rand s2) as [x s3]. rewrite bind_run. set (d := jittered _ _ _).
  destruct (sleep d s3) as [[e'|] s4] eqn:Es.
  { intros [= <- <-]. right. left. exists d, s3. by rewrite Es. }
  apply IH; [lia|]. intros Hpos. apply andb_false_iff in E2 as [E2|E2]; bool_to_prop; lia.
Qed.

(** After a success the state is what the operation's last call left. *)
Lemma attempts_success n o attempt last s s' :
  attempts n o attempt last s = (Some None, s') → ∃ s0, fn s0 = (None, s').
Proof.
  revert attempt last s. induction n as [|n IH]; intros attempt last s; [done|].
  cbn [attempts]. destruct (_ && _)%bool; [done|].
  rewrite bind_run. destruct (ctx_err s) as [[e|] s1]; [done|].
  rewrite bind_run. destruct (fn s1) as [[e|] s2] eqn:Ef; [|intros [= <-]; by exists s1].
  destruct (_ && _)%bool; [done|]. rewrite bind_run. destruct (rand s2) as [x s3].
  rewrite bind_run. destruct (sleep _ s3) as [[e'|] s4]; [done|]. apply IH.
Qed.

(** The result of [Do] tells how it ended, for any fuel that was enough. *)
Theorem Do_result (fuel : nat) (o : Options) (s s' : S) (r : option error) :
  Do fuel o s = (Some r, s') → do_result o r.
Proof.
  intros H. apply (attempts_result fuel (applyDefaults o) 1 None s r s') in H; [exact H|lia|].
  simpl. lia.
Qed.

End retry.

(** ** The delay *)

Lemma grow_spec n max delay :
  0 < delay ≤ max → max < 2 ^ 62 → grow n max delay = Z.min (delay * 2 ^ Z.of_nat n) max.
Proof.
  revert delay. induction n as [|n IH]; intros delay Hd Hm; cbn [grow].
  - rewrite Z.mul_1_r. lia.
  - assert (E : int64 (delay * 2) = delay * 2) by (apply wrap_s_small; unfold in_s; lia).
    rewrite E. rewrite Nat2Z.inj_succ, Z.pow_succ_r by lia.
    pose proof (Z.pow_pos_nonneg 2 (Z.of_nat n) ltac:(lia) ltac:(lia)).
    destruct (Z.ltb_spec max (delay * 2)); [nia|]. rewrite IH by lia. f_equal. lia.
Qed.

(** The delay after the n-th attempt is [min(Initial * 2^(n-1), Max)] when
    [Initial <= Max]; when [Initial > Max] the first delay is [Initial], which
    no cap applies to, and the following ones are [Max]. *)
Theorem delay_after_correct (o : Options) (attempt : nat) :
  0 < Initial o < 2 ^ 62 → 0 < Max o < 2 ^ 62 → (1 ≤ attempt)%nat →
  delay_after o attempt =
  if Initial o <=? Max o then Z.min (Initial o * 2 ^ (Z.of_nat attempt - 1)) (Max o)
  else if (attempt =? 1)%nat then Initial o else Max o.
Proof.
  intros Hi Hm Ha. unfold delay_after. destruct (Z.leb_spec (Initial o) (Max o)).
  - rewrite grow_spec by lia. do 2 f_equal. f_equal. lia.
  - destruct (Nat.eqb_spec attempt 1) as [->|Hne]; [done|].
    destruct attempt as [|[|n]]; [lia..|]. cbn [Nat.sub grow].
    assert (E : int64 (Initial o * 2) = Initial o * 2) by (apply wrap_s_small; unfold in_s; lia).
    rewrite E. by destruct (Z.ltb_spec (Max o) (Initial o * 2)); [|lia].
Qed.

(** ** Witnesses *)

(** An operation that counts its calls and fails each time, under a context
    that is never cancelled. *)
Definition count_and_fail : State Z (option error) := λ n, (Some (EForeign (plain_error "refused")), n + 1).
Definition never {A : Type} : State A (option error) := λ s, (None, s).
Definition half : State Z f64 := λ s, (f64_div (f64_of_Z 1) (f64_of_Z 2), s).
Definition three_attempts : Options := mkOptions Second (30 * Second) 3 (f64_of_Z 0) false.

Lemma Do_terminates_witness :
  ∃ r s', Do never half (λ _, never) count_and_fail 3 three_attempts 0 = (Some r, s') ∧ s' ≤ 0 + 3.
Proof.
  apply (Do_terminates never half (λ _, never) count_and_fail three_attempts 0 (λ z, z));
    try reflexivity.
Defined.

Lemma Do_result_witness :
  do_result never (λ _, never) count_and_fail three_attempts
    (Some (exhausted (Some (EForeign (plain_error "refused"))))).
Proof.
  apply (Do_result never half (λ _, never) count_and_fail 3 three_attempts 0 3). vm_compute. reflexivity.
Defined.

Lemma delay_after_correct_witness :
  delay_after (mkOptions (2 * Minute) (30 * Second) 0 (f64_of_Z 0) true) 1 = 2 * Minute.
Proof.
  etransitivity; [apply delay_after_correct; vm_compute; repeat split; lia || discriminate|].
  reflexivity.
Defined.
