(* ===== verification/PlcDriver.v ===== *)
(** * [internal/plc]: the CIP driver

    [gologixDriver] over the five calls of the gologix client it uses (class
    [GologixClient]), its options, and the translation of the client's errors
    into the project's sentinels. *)

From S2P Require Import Prelude GoString GoTime GoError Config Retry.

(** ** Errors *)

Definition plc_error (op tag : string) (s : sentinel) (err : foreign) : error :=
  Errorf "plc: %s %q: %w: %w" [FStr op; FStr tag; FWrap (Sentinel s); FWrap (EForeign err)].

Definition translateError (err : option foreign) (op tag : string) : option error :=
  match err with
  | None => None
  | Some err =>
      Some (
        if match f_net err with Some timeout => timeout | None => false end
        then plc_error op tag ErrPLCTimeout err
        else if f_cip err then
          if String.eqb op "write" then plc_error "write" tag ErrPLCWrite err
          else plc_error "read" tag ErrPLCRead err
        else if f_op err then plc_error op tag ErrPLCConnect err
        else if is_error IoEOF (EForeign err) then plc_error op tag ErrPLCConnect err
        else if contains (f_text err) "not connected" then plc_error op tag ErrPLCConnect err
        else plc_error op tag ErrPLCRead err)
  end.

(** The sentinel an error is translated to. *)
Definition classify (err : foreign) (op : string) : sentinel :=
  if match f_net err with Some timeout => timeout | None => false end then ErrPLCTimeout
  else if f_cip err then (if String.eqb op "write" then ErrPLCWrite else ErrPLCRead)
  else if f_op err || is_error IoEOF (EForeign err) || contains (f_text err) "not connected"
  then ErrPLCConnect
  else ErrPLCRead.

(** A translated error is recognised as exactly one PLC sentinel, chosen by
    [classify], besides the sentinels of the client's own error, which stays in
    the chain; nil stays nil. *)
Theorem translateError_correct (err : option foreign) (op tag : string) :
  match err, translateError err op tag with
  | None, None => True
  | Some f, Some e =>
      ∀ t, is_error t e = bool_decide (classify f op = t) || is_error t (EForeign f)
  | _, _ => False
  end.
Proof.
  destruct err as [f|]; [|done]. simpl. intros t. unfold classify.
  assert (H : ∀ o s, is_error t (plc_error o tag s f) = bool_decide (s = t) || is_error t (EForeign f)).
  { intros o s. simpl. by rewrite orb_false_r. }
  destruct (match f_net f with Some b => b | None => false end); [apply H|].
  destruct (f_cip f); [destruct (String.eqb op "write"); apply H|].
  destruct (f_op f); [apply H|]. simpl (false || _)%bool.
  destruct (existsb _ (f_is f)) eqn:E; [apply H|]. simpl. destruct (contains _ _); apply H.
Qed.

(** ** Options *)

Record options := mkDriverOptions { RetryInitial : Z; RetryMax : Z; dMaxAttempts : Z }.

Definition Option : Type := options → options.

Definition WithRetryInitial (d : Z) : Option := λ o, mkDriverOptions d (RetryMax o) (dMaxAttempts o).
Definition WithRetryMax (d : Z) : Option := λ o, mkDriverOptions (RetryInitial o) d (dMaxAttempts o).
Definition WithMaxAttempts (n : Z) : Option := λ o, mkDriverOptions (RetryInitial o) (RetryMax o) n.

Definition driver_defaults (o : options) : options :=
  mkDriverOptions (if RetryInitial o <=? 0 then Second else RetryInitial o)
    (if RetryMax o <=? 0 then 30 * Second else RetryMax o) (dMaxAttempts o).

Definition resolve_options (fns : list Option) : options :=
  driver_defaults (fold_left (λ o f, f o) fns (mkDriverOptions 0 0 0)).

(** ** The client's configuration *)

(** What [buildClient] sets on the client it creates: [parse_path] is
    [gologix.ParsePath], which may fail; [None] leaves the client's default. *)
Record client_config (P : Type) := ClientConfig {
  cc_address : string; cc_auto_connect : bool; cc_socket_timeout : option Z; cc_path : option P;
}.
Arguments ClientConfig {P} _ _ _ _.
Arguments cc_path {P} _.

Definition slot_text (slot : Z) : string :=
  (* [fmt.Sprintf] of "1,%d" with a slot from 0 to 15 *)
  let d := λ n, String (ascii_of_N (Z.to_N (48 + n))) "" in
  if slot <? 10 then "1," +:+ d slot else "1,1" +:+ d (slot - 10).

Definition buildClient {P : Type} (parse_path : string → option P) (cfg : PLC) : client_config P :=
  let timeout :=
    if String.eqb (pSocketTimeout cfg) "" then None
    else match parse_duration (pSocketTimeout cfg) with
         | Some d => if 0 <? d then Some d else None
         | None => None
         end in
  let path :=
    if negb (String.eqb (pPath cfg) "") then parse_path (pPath cfg)
    else parse_path (slot_text (if (pSlot cfg <? 0) || (15 <? pSlot cfg) then 0 else pSlot cfg)) in
  ClientConfig (pAddress cfg) false timeout path.

(** ** The driver *)

(** The five calls on the client, over its state. *)
Class GologixClient (C : Type) := {
  client_Connect : State C (option foreign);
  client_Disconnect : State C (option foreign);
  client_Read : string → value → State C (value + foreign);
  client_Write : string → value → State C (option foreign);
}.

Record gologixDriver (C : Type) := mkDriver {
  client : C; d_cfg : PLC; d_opts : options; connected : bool;
}.
Arguments mkDriver {C} _ _ _ _.
Arguments client {C} _.
Arguments d_cfg {C} _.
Arguments d_opts {C} _.
Arguments connected {C} _.

Section driver.
Context {C : Type} `{!GologixClient C}.

Definition on_client {A : Type} (m : State C A) : State (gologixDriver C) A :=
  zoom client (λ c d, mkDriver c (d_cfg d) (d_opts d) (connected d)) m.

Definition set_connected (b : bool) : State (gologixDriver C) unit :=
  modify (λ d, mkDriver (client d) (d_cfg d) (d_opts d) b).

(** The environment of a connect: polls of the context, random numbers, waits. *)
Context (ctx_err : State (gologixDriver C) (option error)) (rand : State (gologixDriver C) f64)
        (sleep : Z → State (gologixDriver C) (option error)).

(** The operation [Connect] retries. *)
Definition connect_once : State (gologixDriver C) (option error) :=
  err ← ctx_err;
  match err with
  | Some err => mret (Some err)
  | None => f ← on_client client_Connect; mret (EForeign <$> f)
  end.

(** [None] is running out of fuel. *)
Definition Connect (fuel : nat) : State (gologixDriver C) (option (option error)) :=
  err ← ctx_err;
  match err with
  | Some err => mret (Some (Some err))
  | None =>
      d ← get_state;
      let o := mkOptions (RetryInitial (d_opts d)) (RetryMax (d_opts d)) (dMaxAttempts (d_opts d))
                 (f64_of_Z 0) false in
      r ← Do ctx_err rand sleep connect_once fuel o;
      match r with
      | None => mret None
      | Some (Some err) => _ ← set_connected false; mret (Some (Some err))
      | Some None => _ ← set_connected true; mret (Some None)
      end
  end.

Definition Close : State (gologixDriver C) (option error) :=
  d ← get_state;
  if negb (connected d) then mret None
  else
    _ ← on_client client_Disconnect;
    _ ← set_connected false;
    mret None.

(** [dest] is the destination: its content before, and after a successful
    read.  A slice of [bool] is a [VList] of [VBool]s. *)
Definition is_bool_slice (dest : value) : option Z :=
  match dest with
  | VList vs =>
      if forallb (λ v, match v with VBool _ => true | _ => false end) vs
      then Some (Z.of_nat (List.length vs)) else None
  | _ => None
  end.

Definition ReadTag (tag : string) (dest : value) : State (gologixDriver C) (result value) :=
  match is_bool_slice dest with
  | Some n =>
      if negb (n mod 32 =? 0)
      then mret (inr (Errorf "plc: read %q: []bool length must be a multiple of 32, got %d: %w"
                        [FStr tag; FInt n; FWrap (Sentinel ErrPLCRead)]))
      else r ← on_client (client_Read tag dest);
           mret (match r with
                 | inl v => inl v
                 | inr f => match translateError (Some f) "read" tag with
                            | Some e => inr e | None => inl dest end
                 end)
  | None => r ← on_client (client_Read tag dest);
            mret (match r with
                  | inl v => inl v
                  | inr f => match translateError (Some f) "read" tag with
                             | Some e => inr e | None => inl dest end
                  end)
  end.

Definition WriteTag (tag : string) (val : value) : State (gologixDriver C) (option error) :=
  err ← on_client (client_Write tag val);
  mret (translateError err "write" tag).

(** The loop of [ReadMulti]: the destinations read so far, and the error. *)
Fixpoint read_tags (i : nat) (tags : list string) (dests : list value)
    : State (gologixDriver C) (list value * option error) :=
  match tags, dests with
  | tag :: tags', dest :: dests' =>
      r ← ReadTag tag dest;
      match r with
      | inr err => mret (dests, Some (Errorf "plc: ReadMulti tag[%d] %q: %w"
                                        [FInt (Z.of_nat i); FStr tag; FWrap err]))
      | inl v => '(vs, err) ← read_tags (S i) tags' dests'; mret (v :: vs, err)
      end
  | _, _ => mret (dests, None)
  end.

Definition ReadMulti (tags : list string) (dests : list value)
    : State (gologixDriver C) (list value * option error) :=
  if negb (List.length tags =? List.length dests)%nat
  then mret (dests, Some (Errorf "plc: ReadMulti: len(tags)=%d != len(dests)=%d: %w"
               [FInt (Z.of_nat (List.length tags)); FInt (Z.of_nat (List.length dests));
                FWrap (Sentinel ErrPLCRead)]))
  else read_tags 0 tags dests.

Definition Connected : State (gologixDriver C) bool := d ← get_state; mret (connected d).

(** [Close] always leaves the driver disconnected and reports no error; a
    second [Close] does not touch the client. *)
Theorem Close_idempotent (d : gologixDriver C) :
  let '(err, d1) := Close d in
  err = None ∧ connected d1 = false ∧ Close d1 = (None, d1).
Proof.
  unfold Close, on_client, set_connected. unfold_state. destruct (connected d) eqn:E; simpl.
  - by destruct (client_Disconnect (client d)).
  - by rewrite E.
Qed.

(** [Connect] marks the driver connected exactly when it returns nil, for
    any fuel that was enough. *)
Theorem Connect_correct (fuel : nat) (d d' : gologixDriver C) (r : option error) :
  Connect fuel d = (Some r, d') → (ctx_err d).1 = None →
  connected d' = match r with None => true | Some _ => false end.
Proof.
  unfold Connect. rewrite bind_run. destruct (ctx_err d) as [[e|] d1]; [done|].
  rewrite bind_run. unfold get_state. rewrite bind_run.
  destruct (Do _ _ _ _ _ _ d1) as [[[e|]|] d2]; intros H _; try done;
    unfold set_connected in H; unfold_state; by simplify_eq/=.
Qed.

(** ** New drivers *)

Definition NewDriverWithClient (cfg : PLC) (cl : C) (fns : list Option) : gologixDriver C :=
  mkDriver cl cfg (resolve_options fns) false.

(** [new_client] makes a client of the library from its configuration. *)
Definition NewDriver {P : Type} (new_client : client_config P → C) (parse_path : string → option P)
    (cfg : PLC) (fns : list Option) : gologixDriver C :=
  NewDriverWithClient cfg (new_client (buildClient parse_path cfg)) fns.

(** Whatever the options, a new driver is not connected, so that [Close] leaves the
    client alone, and it waits between its attempts. *)
Theorem NewDriver_ready {P : Type} (new_client : client_config P → C) (parse_path : string → option P)
    (cfg : PLC) (fns : list Option) :
  let d := NewDriver new_client parse_path cfg fns in
  connected d = false ∧ Close d = (None, d) ∧ 0 < RetryInitial (d_opts d) ∧ 0 < RetryMax (d_opts d).
Proof.
  cbv zeta. unfold NewDriver, NewDriverWithClient, resolve_options, driver_defaults. simpl.
  split_and!; [done|done|destruct (Z.leb_spec (RetryInitial (fold_left (λ o f, f o) fns (mkDriverOptions 0 0 0))) 0)|
    destruct (Z.leb_spec (RetryMax (fold_left (λ o f, f o) fns (mkDriverOptions 0 0 0))) 0)]; unfold Second in *; lia.
Qed.

End driver.

(** ** Witness *)

(** A client whose connection is always refused. *)
#[refine] Instance refusing_client : GologixClient unit := {|
  client_Connect := λ c, (Some (plain_error "dial tcp: connection refused"), c);
  client_Disconnect := λ c, (None, c);
  client_Read _ _ := λ c, (inr (plain_error "not connected and AutoConnect not enabled"), c);
  client_Write _ _ := λ c, (Some (plain_error "not connected and AutoConnect not enabled"), c);
|}.
Defined.

Definition idle_driver : gologixDriver unit :=
  mkDriver tt (mkPLC "plc1" "10.0.0.5" 0 "" "" false "" None) (mkDriverOptions Second Second 2) true.

Lemma Connect_correct_witness :
  connected (Connect never (λ d, (f64_quarter, d)) (λ _, never) 2 idle_driver).2 = false.
Proof.
  apply (Connect_correct never (λ d, (f64_quarter, d)) (λ _, never) 2 idle_driver _
           (Some (exhausted (Some (EForeign (plain_error "dial tcp: connection refused"))))));
    vm_compute; reflexivity.
Defined.
