(* ===== verification/PlcManager.v ===== *)
(** * [internal/plc]: the manager of the PLC workers

    [Manager] as a step relation: its locked sections are atomic steps, and
    between them run the scan goroutines, a concurrent [Reload] or [Stop] and
    the cancellation of contexts.  The scan of one tick is a function of what
    the driver answers; the writers of the tag store are [storeTag] and the
    drain of [Reload]. *)

From S2P Require Import Prelude GoString GoTime GoError Config.

(** ** Tag updates *)

Record TagUpdate := mkTagUpdate {
  uPLCName : string; uTag : string; uValue : value; uTimestamp : time; uQuality : string;
}.

Record TagValue := mkTagValue { vValue : value; vTimestamp : time; vQuality : string }.

(** [m.current]. *)
Abbreviation tag_store := (gmap string (gmap string TagValue)).

Definition storeTag (u : TagUpdate) (current : tag_store) : tag_store :=
  let tags := default ∅ (current !! uPLCName u) in
  let q := if String.eqb (uQuality u) "" then "good" else uQuality u in
  <[uPLCName u := <[uTag u := mkTagValue (uValue u) (uTimestamp u) q]> tags]> current.

(** ** Destinations of a read *)

(** The type of the pointer [allocDest] returns. *)
Inductive dest_type :=
| DBool | DInt8 | DInt16 | DInt32 | DInt64 | DUint8 | DUint16 | DUint32 | DUint64
| DFloat32 | DFloat64 | DString | DAny.

Definition allocDest (typeName : string) : dest_type * value :=
  if String.eqb typeName "Boolean" then (DBool, VBool false)
  else if String.eqb typeName "Int8" then (DInt8, VInt8 0)
  else if String.eqb typeName "Int16" then (DInt16, VInt16 0)
  else if String.eqb typeName "Int32" then (DInt32, VInt32 0)
  else if String.eqb typeName "Int64" then (DInt64, VInt64 0)
  else if String.eqb typeName "UInt8" then (DUint8, VUint8 0)
  else if String.eqb typeName "UInt16" then (DUint16, VUint16 0)
  else if String.eqb typeName "UInt32" then (DUint32, VUint32 0)
  else if String.eqb typeName "UInt64" then (DUint64, VUint64 0)
  else if String.eqb typeName "Float" then (DFloat32, VFloat32 0)
  else if String.eqb typeName "Double" then (DFloat64, VFloat64 0)
  else if String.eqb typeName "String" then (DString, VString "")
  else (DAny, VNil).

(** [deref(ptr)] of a pointer of the type with the content: the pointer itself
    when it is a pointer to [any]. *)
Definition deref (ty : dest_type) (content : value) : value :=
  match ty with DAny => VPtr content | _ => content end.

(** ** One scan tick *)

(** [lastQuality] of the goroutine, the tag store, and the updates handed to the
    callbacks, in order. *)
Record scan := mkScan {
  lastQuality : gmap string string; sc_current : tag_store; emitted : list TagUpdate;
}.

Definition emitTagUpdate (u : TagUpdate) : State scan unit :=
  modify (λ s, mkScan (lastQuality s) (storeTag u (sc_current s)) (emitted s ++ [u])).

Definition set_quality (tag q : string) : State scan unit :=
  modify (λ s, mkScan (<[tag := q]> (lastQuality s)) (sc_current s) (emitted s)).

(** The body of the loop over the tags; [res] is what [ReadTag] left in the
    destination, or its error. *)
Definition scan_tag (name : string) (now : time) (tag : TagDef) (res : value + error)
    : State scan unit :=
  s ← get_state;
  let prev := default "" (lastQuality s !! tName tag) in
  match res with
  | inr _ =>
      if negb (String.eqb prev "bad") then
        _ ← emitTagUpdate (mkTagUpdate name (tName tag) VNil now "bad");
        set_quality (tName tag) "bad"
      else mret tt
  | inl content =>
      let v := deref (allocDest (tType tag)).1 content in
      let quality := "good" in
      if String.eqb prev "bad" || String.eqb prev "" then
        _ ← emitTagUpdate (mkTagUpdate name (tName tag) v now quality);
        set_quality (tName tag) quality
      else
        _ ← emitTagUpdate (mkTagUpdate name (tName tag) v now quality);
        set_quality (tName tag) quality
  end.

(** The tags of a tick, with what each read gave and when. *)
Definition scan_tags (name : string) (reads : list (TagDef * time * (value + error)))
    : State scan unit :=
  for_each reads (λ '(tag, now, res), scan_tag name now tag res).

(** [runWorker]'s scan rate. *)
Definition scan_rate (cfg : PLC) : Z :=
  if String.eqb (pScanRate cfg) "" then Second
  else match parse_duration (pScanRate cfg) with
       | Some d => if 0 <? d then d else Second
       | None => Second
       end.

(** ** The manager *)

(** A context is the path of its cancellations, innermost first; it is done
    when it or one of its ancestors was cancelled. *)
Abbreviation ctx := (list nat).
Definition ctx_done (cancelled : list nat) (c : ctx) : bool :=
  existsb (λ i, bool_decide (i ∈ cancelled)) c.

(** A worker: its driver, its configuration, its context ([None] before
    [Start]), and its done channel. *)
Record plcWorker := mkWorker {
  w_driver : nat; w_cfg : PLC; w_ctx : option ctx; w_done : nat;
}.

(** A running scan goroutine. *)
Record goroutine := mkGoroutine {
  g_name : string; g_driver : nat; g_cfg : PLC; g_ctx : ctx; g_done : nat;
  g_last : gmap string string;
}.

(** A [Reload] between its two locked sections: the context and configuration it
    was called with, and the drivers and done channels it drained. *)
Record reload := mkReload {
  rl_ctx : ctx; rl_cfg : list PLC; rl_drivers : list nat; rl_done : list nat;
}.

(** [fresh] numbers drivers, channels and contexts; [running] are the goroutines
    that have not returned; [closed_drivers] the drivers [Close] was called on;
    [calls] the updates delivered to the callbacks. *)
Record manager := mkManager {
  workers : gmap string plcWorker;
  current : tag_store;
  stopped : bool;
  started : bool;
  reloading : option reload;
  running : list goroutine;
  closed_chans : list nat;
  closed_drivers : list nat;
  cancelled : list nat;
  fresh : nat;
  calls : list TagUpdate;
}.

(** [NewManager]: a driver and a worker per entry; a later entry of the same
    name replaces an earlier one. *)
Definition new_worker (m : manager) (cfg : PLC) : manager :=
  let w := mkWorker (fresh m) cfg None (S (fresh m)) in
  mkManager (<[pName cfg := w]> (workers m)) (current m) (stopped m) (started m) (reloading m)
    (running m) (closed_chans m) (closed_drivers m) (cancelled m) (S (S (fresh m))) (calls m).

Definition empty_manager : manager := mkManager ∅ ∅ false false None [] [] [] [] 0 [].

Definition NewManager (cfgs : list PLC) : manager := fold_left new_worker cfgs empty_manager.

(** *** [Start] *)

(** The body of [Start]'s loop over the workers. *)
Definition start_worker (c : ctx) (m : manager) (x : string * plcWorker) : manager :=
  let '(name, w) := x in
  let plcCtx := fresh m :: c in
  let ch := S (fresh m) in
  let w' := mkWorker (w_driver w) (w_cfg w) (Some plcCtx) ch in
  mkManager (<[name := w']> (workers m)) (current m) (stopped m) (started m) (reloading m)
    (mkGoroutine name (w_driver w) (w_cfg w) plcCtx ch ∅ :: running m) (closed_chans m)
    (closed_drivers m) (cancelled m) (S (S (fresh m))) (calls m).

Definition Start (c : ctx) (m : manager) : manager :=
  let m' := fold_left (start_worker c) (map_to_list (workers m)) m in
  mkManager (workers m') (current m') (stopped m') true (reloading m') (running m')
    (closed_chans m') (closed_drivers m') (cancelled m') (fresh m') (calls m').

(** *** [Reload] *)

(** [newCfgByName]: the last entry of a name. *)
Definition newCfgByName (cfgs : list PLC) : gmap string PLC :=
  fold_left (λ m c, <[pName c := c]> m) cfgs ∅.

(** [reflect.DeepEqual(w.cfg, newCfg)]. *)
Definition deep_equal (a b : PLC) : bool := bool_decide (a = b).

(** A worker is drained when its name is gone or its configuration changed. *)
Definition drains (cfgs : list PLC) (x : string * plcWorker) : bool :=
  match newCfgByName cfgs !! x.1 with
  | None => true
  | Some c => negb (deep_equal (w_cfg x.2) c)
  end.

Definition toDrain (cfgs : list PLC) (m : manager) : list (string * plcWorker) :=
  List.filter (drains cfgs) (map_to_list (workers m)).

(** The first locked section: cancel the drained workers and forget them. *)
Definition reload_drain (c : ctx) (cfgs : list PLC) (m : manager) : manager :=
  let dr := toDrain cfgs m in
  let names := fst <$> dr in
  mkManager (filter (λ x, x.1 ∉ names) (workers m)) (filter (λ x, x.1 ∉ names) (current m))
    (stopped m) (started m)
    (Some (mkReload c cfgs (w_driver ∘ snd <$> dr) (w_done ∘ snd <$> dr)))
    (running m) (closed_chans m) (closed_drivers m)
    (omap (λ x, match w_ctx x.2 with Some (i :: _) => Some i | _ => None end) dr ++ cancelled m)
    (fresh m) (calls m).

(** The body of the loop of the second locked section. *)
Definition add_worker (c : ctx) (m : manager) (cfg : PLC) : manager :=
  match workers m !! pName cfg with
  | Some _ => m
  | None =>
      let d := fresh m in
      let plcCtx := S (fresh m) :: c in
      let ch := S (S (fresh m)) in
      mkManager (<[pName cfg := mkWorker d cfg (Some plcCtx) ch]> (workers m)) (current m)
        (stopped m) (started m) (reloading m)
        (mkGoroutine (pName cfg) d cfg plcCtx ch ∅ :: running m) (closed_chans m)
        (closed_drivers m) (cancelled m) (S (S (S (fresh m)))) (calls m)
  end.

(** Once the drained goroutines have returned: close their drivers, add the new
    and the changed PLCs. *)
Definition reload_finish (r : reload) (m : manager) : manager :=
  let m' := fold_left (add_worker (rl_ctx r)) (rl_cfg r) m in
  mkManager (workers m') (current m') (stopped m') (started m') None (running m')
    (closed_chans m') (rl_drivers r ++ closed_drivers m') (cancelled m') (fresh m') (calls m').

(** *** [Stop] *)

Definition worker_cancel (w : plcWorker) : option nat :=
  match w_ctx w with Some (i :: _) => Some i | _ => None end.

(** The first locked section of [Stop]. *)
Definition stop_begin (m : manager) : manager :=
  mkManager (workers m) (current m) true (started m) (reloading m) (running m) (closed_chans m)
    (closed_drivers m) (omap worker_cancel (snd <$> map_to_list (workers m)) ++ cancelled m)
    (fresh m) (calls m).

(** After [m.wg.Wait()]: close every driver. *)
Definition stop_finish (m : manager) : manager :=
  mkManager (workers m) (current m) (stopped m) (started m) (reloading m) (running m)
    (closed_chans m) ((w_driver ∘ snd <$> map_to_list (workers m)) ++ closed_drivers m)
    (cancelled m) (fresh m) (calls m).

(** *** Goroutines *)

(** [runWorker] returns only when it sees its context done: [retry.Do] is called
    without a bound on the attempts. *)
Definition go_exit (g : goroutine) (rest : list goroutine) (m : manager) : manager :=
  mkManager (workers m) (current m) (stopped m) (started m) (reloading m) rest
    (g_done g :: closed_chans m) (closed_drivers m) (cancelled m) (fresh m) (calls m).

(** One read of a tick: its update reaches the store and the callbacks. *)
Definition go_scan (g : goroutine) (g' : list goroutine → list goroutine)
    (now : time) (tag : TagDef) (res : value + error) (m : manager) : manager :=
  let '(_, s) := scan_tag (g_name g) now tag res (mkScan (g_last g) (current m) []) in
  let g1 := mkGoroutine (g_name g) (g_driver g) (g_cfg g) (g_ctx g) (g_done g) (lastQuality s) in
  mkManager (workers m) (sc_current s) (stopped m) (started m) (reloading m) (g' [g1])
    (closed_chans m) (closed_drivers m) (cancelled m) (fresh m) (calls m ++ emitted s).

Definition cancel_ctx (i : nat) (m : manager) : manager :=
  mkManager (workers m) (current m) (stopped m) (started m) (reloading m) (running m)
    (closed_chans m) (closed_drivers m) (i :: cancelled m) (fresh m) (calls m).

(** *** Reads *)

Definition Driver (name : string) (m : manager) : option nat := w_driver <$> workers m !! name.
Definition tag_lookup (plcName tag : string) (current : tag_store) : option TagValue :=
  tags ← current !! plcName; tags !! tag.
Definition CurrentTag (plcName tag : string) (m : manager) : option TagValue :=
  tag_lookup plcName tag (current m).
Definition CurrentSnapshot (m : manager) : tag_store := current m.

(** [WriteTag]: the driver the value goes to, or [ErrPLCNotFound]. *)
Definition WriteTag (plcName : string) (m : manager) : nat + error :=
  match workers m !! plcName with
  | None => inr (Sentinel ErrManagerPLCNotFound)
  | Some w => inl (w_driver w)
  end.

(** *** The steps

    The gateway starts the manager once, before any [Reload]; [reloadMu] lets
    one [Reload] run at a time. *)
Inductive step : manager → manager → Prop :=
| step_start c m : started m = false → reloading m = None → stopped m = false →
    step m (Start c m)
| step_reload_noop m : reloading m = None → stopped m = true → step m m
| step_reload c cfgs m : started m = true → reloading m = None → stopped m = false →
    step m (reload_drain c cfgs m)
| step_reload_finish r m : reloading m = Some r →
    (∀ ch, ch ∈ rl_done r → ch ∈ closed_chans m) → step m (reload_finish r m)
| step_stop m : step m (stop_begin m)
| step_stop_finish m : stopped m = true → running m = [] → step m (stop_finish m)
| step_exit gs1 g gs2 m : running m = gs1 ++ g :: gs2 → ctx_done (cancelled m) (g_ctx g) = true →
    step m (go_exit g (gs1 ++ gs2) m)
| step_scan gs1 g gs2 now tag res m : running m = gs1 ++ g :: gs2 → tag ∈ elems (pTags (g_cfg g)) →
    step m (go_scan g (λ l, gs1 ++ l ++ gs2) now tag res m)
| step_cancel i m : step m (cancel_ctx i m).

Definition reachable (cfgs : list PLC) (m : manager) : Prop := rtc step (NewManager cfgs) m.

(** ** The invariant: at most one goroutine scans a PLC *)

Record manager_ok (m : manager) : Prop := {
  ok_idle : started m = false → running m = [] ∧ reloading m = None;
  ok_done : ∀ g, g ∈ running m → g_done g ∉ closed_chans m ∧ (g_done g < fresh m)%nat;
  ok_closed : ∀ ch, ch ∈ closed_chans m → (ch < fresh m)%nat;
  ok_chans : NoDup (g_done <$> running m);
  ok_names : NoDup (g_name <$> running m);
  ok_owner : ∀ g, g ∈ running m →
    (∃ w, workers m !! g_name g = Some w ∧ w_done w = g_done g) ∨
    (∃ r, reloading m = Some r ∧ g_done g ∈ rl_done r);
}.

Lemma new_worker_ok cfgs m :
  running m = [] → closed_chans m = [] → reloading m = None →
  manager_ok (fold_left new_worker cfgs m).
Proof.
  revert m. induction cfgs as [|c cfgs IH]; intros m H1 H2 H3; simpl.
  - split; rewrite ?H1, ?H2; simpl; try set_solver; try constructor; done.
  - by apply IH.
Qed.

(** Adding a goroutine under a name no goroutine has, with the fresh channel of
    its new worker. *)
Lemma goroutine_added m m' g w :
  manager_ok m → (∀ g', g' ∈ running m → g_name g' ≠ g_name g) →
  (fresh m ≤ g_done g < fresh m')%nat → running m' = g :: running m →
  workers m' = <[g_name g := w]> (workers m) → w_done w = g_done g →
  closed_chans m' = closed_chans m → reloading m' = reloading m → started m' = true →
  manager_ok m'.
Proof.
  intros [H1 H2 H3 H4 H5 H6] Hname Hd Hr Hw Hwd Hc Hrl Hst.
  split; rewrite ?Hr, ?Hc, ?Hrl, ?Hw, ?Hst; simpl; try done.
  - intros g' [->|Hg]%elem_of_cons.
    + split; [|lia]. intros ?%H3. lia.
    + destruct (H2 g' Hg). split; [done|lia].
  - intros ch ?%H3. lia.
  - constructor; [|done]. intros (g' & E & Hg)%list_elem_of_fmap. destruct (H2 g' Hg). lia.
  - constructor; [|done]. intros (g' & E & Hg)%list_elem_of_fmap. by apply (Hname g').
  - intros g' [->|Hg]%elem_of_cons.
    + left. exists w. by rewrite lookup_insert_eq.
    + rewrite lookup_insert_ne by (intros E; by apply (Hname g' Hg)). by apply H6.
Qed.

(** *** [Start] *)

Lemma start_workers_ok c xs m :
  manager_ok m → started m = true →
  NoDup (fst <$> xs) → (∀ g x, g ∈ running m → x ∈ xs → g_name g ≠ x.1) →
  manager_ok (fold_left (start_worker c) xs m).
Proof.
  revert m. induction xs as [|[n w] xs IH]; intros m Hok Hst Hnd Hnew; [done|].
  simpl in Hnd. apply NoDup_cons in Hnd as [Hn Hnd]. cbn [fold_left]. apply IH; try done.
  - eapply (goroutine_added m); try done; simpl; [|lia].
    intros g Hg. apply (Hnew g (n, w)); set_solver.
  - simpl. intros g x [->|Hg]%elem_of_cons Hx; [|apply (Hnew g x); set_solver].
    simpl. intros ->. apply Hn, list_elem_of_fmap. by exists x.
Qed.

Lemma start_worker_started c xs m (b : bool) :
  fold_left (start_worker c) xs
    (mkManager (workers m) (current m) (stopped m) b (reloading m) (running m) (closed_chans m)
       (closed_drivers m) (cancelled m) (fresh m) (calls m)) =
  let m' := fold_left (start_worker c) xs m in
  mkManager (workers m') (current m') (stopped m') b (reloading m') (running m') (closed_chans m')
    (closed_drivers m') (cancelled m') (fresh m') (calls m').
Proof. revert m. induction xs as [|[n w] xs IH]; intros m; [done|]. cbn [fold_left]. by rewrite <- IH. Qed.

Lemma Start_ok c m : manager_ok m → started m = false → manager_ok (Start c m).
Proof.
  intros Hok Hst. unfold Start. rewrite <- start_worker_started.
  destruct Hok as [H1 H2 H3 H4 H5 H6]. destruct (H1 Hst) as [Hr Hrl].
  apply start_workers_ok; simpl; [|done|apply NoDup_fst_map_to_list|rewrite Hr; set_solver].
  split; simpl; try done; rewrite ?Hr; set_solver.
Qed.

(** *** [Reload] *)

Lemma elem_of_toDrain cfgs m x :
  x ∈ toDrain cfgs m ↔ workers m !! x.1 = Some x.2 ∧ drains cfgs x = true.
Proof.
  unfold toDrain. rewrite list_elem_of_In, filter_In, <- list_elem_of_In.
  destruct x as [n w]. by rewrite elem_of_map_to_list.
Qed.

Lemma reload_drain_ok c cfgs m :
  manager_ok m → started m = true → reloading m = None → manager_ok (reload_drain c cfgs m).
Proof.
  intros [H1 H2 H3 H4 H5 H6] Hst Hrl.
  split; simpl; [by rewrite Hst|exact H2|exact H3|exact H4|exact H5|].
  intros g Hg. destruct (H6 g Hg) as [(w & Hw & Hd)|(r & Hr & _)]; [|congruence].
  destruct (drains cfgs (g_name g, w)) eqn:E.
  - right. eexists. split; [done|]. simpl. apply list_elem_of_fmap. exists (g_name g, w).
    split; [done|]. by apply elem_of_toDrain.
  - left. exists w. split; [|done]. apply map_lookup_filter_Some. split; [done|].
    simpl. intros ([n w'] & En & Hx)%list_elem_of_fmap. simpl in En. subst n.
    apply elem_of_toDrain in Hx as [Hw' Hdr]. simpl in Hw'. congruence.
Qed.

Lemma add_workers_ok c cfgs m :
  manager_ok m → started m = true →
  (∀ g, g ∈ running m → is_Some (workers m !! g_name g)) →
  manager_ok (fold_left (add_worker c) cfgs m).
Proof.
  revert m. induction cfgs as [|cfg cfgs IH]; intros m Hok Hst Hrun; [done|].
  cbn [fold_left]. unfold add_worker at 2. destruct (workers m !! pName cfg) eqn:E; [by apply IH|].
  apply IH; simpl; [|done|].
  - eapply (goroutine_added m); try done; simpl; [|lia].
    intros g Hg En. destruct (Hrun g Hg) as [w Hw]. congruence.
  - intros g [->|Hg]%elem_of_cons; simpl; [by rewrite lookup_insert_eq|].
    destruct (decide (g_name g = pName cfg)) as [->|]; [by rewrite lookup_insert_eq|].
    rewrite lookup_insert_ne by done. auto.
Qed.

Lemma add_worker_reloading c cfgs m :
  reloading (fold_left (add_worker c) cfgs m) = reloading m ∧
  started (fold_left (add_worker c) cfgs m) = started m ∧
  closed_chans (fold_left (add_worker c) cfgs m) = closed_chans m.
Proof.
  revert m. induction cfgs as [|cfg cfgs IH]; intros m; [done|].
  cbn [fold_left]. destruct (IH (add_worker c m cfg)) as (-> & -> & ->).
  unfold add_worker. by destruct (workers m !! pName cfg).
Qed.

Lemma reload_finish_ok r m :
  manager_ok m → reloading m = Some r → (∀ ch, ch ∈ rl_done r → ch ∈ closed_chans m) →
  manager_ok (reload_finish r m).
Proof.
  intros Hok Hrl Hclosed. unfold reload_finish.
  assert (Hst : started m = true).
  { destruct (started m) eqn:E; [done|]. destruct (ok_idle m Hok E). congruence. }
  assert (Hrun : ∀ g, g ∈ running m → ∃ w, workers m !! g_name g = Some w ∧ w_done w = g_done g).
  { intros g Hg. destruct (ok_owner m Hok g Hg) as [?|(r' & Hr' & Hd)]; [done|].
    destruct (ok_done m Hok g Hg) as [[] _]. apply Hclosed. congruence. }
  set (m0 := mkManager (workers m) (current m) (stopped m) (started m) None (running m)
    (closed_chans m) (closed_drivers m) (cancelled m) (fresh m) (calls m)).
  assert (Hok0 : manager_ok m0).
  { destruct Hok as [H1 H2 H3 H4 H5 H6]. split; simpl; try done; [by rewrite Hst|]. auto. }
  assert (Hfold : ∀ cfgs m, let f := λ rl m, mkManager (workers m) (current m) (stopped m) (started m)
      rl (running m) (closed_chans m) (closed_drivers m) (cancelled m) (fresh m) (calls m) in
    f None (fold_left (add_worker (rl_ctx r)) cfgs m) = fold_left (add_worker (rl_ctx r)) cfgs (f None m)).
  { intros cfgs. induction cfgs as [|cfg cfgs IH]; intros m1; [done|]. cbn [fold_left].
    cbv zeta in IH |- *. rewrite IH. f_equal. unfold add_worker. simpl.
    by destruct (workers m1 !! pName cfg). }
  specialize (Hfold (rl_cfg r) m). cbv beta zeta in Hfold.
  pose proof (add_workers_ok (rl_ctx r) (rl_cfg r) m0 Hok0 Hst) as Hadd.
  unfold m0 in Hadd. rewrite <- Hfold in Hadd. destruct Hadd as [H1 H2 H3 H4 H5 H6].
  { intros g Hg. simpl in *. destruct (Hrun g Hg) as (w & -> & _). eauto. }
  split; simpl in *; done.
Qed.

(** *** Goroutines and [Stop] *)

Lemma go_exit_ok gs1 g gs2 m :
  manager_ok m → running m = gs1 ++ g :: gs2 → manager_ok (go_exit g (gs1 ++ gs2) m).
Proof.
  intros [H1 H2 H3 H4 H5 H6] Hr. rewrite Hr in *.
  assert (Hsub : ∀ x, x ∈ gs1 ++ gs2 → x ∈ gs1 ++ g :: gs2) by set_solver.
  split; simpl; try done.
  - intros Hst. destruct (H1 Hst) as [E _]. by destruct gs1.
  - intros g' Hg. destruct (H2 g' (Hsub g' Hg)) as [Hc Hf]. split; [|done].
    intros [E|?]%elem_of_cons; [|done]. rewrite fmap_app, fmap_cons in H4.
    apply NoDup_app in H4 as (_ & Hd & [Hn _]%NoDup_cons).
    apply elem_of_app in Hg as [Hg|Hg].
    + apply (Hd (g_done g')); [by apply list_elem_of_fmap_2|]. rewrite E. set_solver.
    + apply Hn. rewrite <- E. by apply list_elem_of_fmap_2.
  - intros ch [->|?]%elem_of_cons; [|auto]. apply H2. set_solver.
  - eapply sublist_NoDup; [exact H4|]. apply fmap_sublist, sublist_app; [done|]. by constructor.
  - eapply sublist_NoDup; [exact H5|]. apply fmap_sublist, sublist_app; [done|]. by constructor.
  - auto.
Qed.

Lemma go_scan_ok gs1 g gs2 now tag res m :
  manager_ok m → running m = gs1 ++ g :: gs2 →
  manager_ok (go_scan g (λ l, gs1 ++ l ++ gs2) now tag res m).
Proof.
  intros [H1 H2 H3 H4 H5 H6] Hr. unfold go_scan. destruct (scan_tag _ _ _ _ _) as [u s].
  rewrite Hr in *. set (g1 := mkGoroutine _ _ _ _ _ _).
  assert (Hin : ∀ x, x ∈ gs1 ++ [g1] ++ gs2 → ∃ y, y ∈ gs1 ++ g :: gs2 ∧ g_done x = g_done y ∧ g_name x = g_name y).
  { intros x Hx. apply elem_of_app in Hx as [Hx|[->%list_elem_of_singleton|Hx]%elem_of_app].
    - exists x. set_solver.
    - exists g. set_solver.
    - exists x. set_solver. }
  split; simpl in *.
  - intros Hst. destruct (H1 Hst) as [E _]. by destruct gs1.
  - intros x Hx. destruct (Hin x Hx) as (y & Hy & -> & _). by apply H2.
  - done.
  - rewrite fmap_app in *. exact H4.
  - rewrite fmap_app in *. exact H5.
  - intros x Hx. destruct (Hin x Hx) as (y & Hy & -> & ->). by apply H6.
Qed.

Lemma step_ok m m' : step m m' → manager_ok m → manager_ok m'.
Proof.
  intros Hs Hok. destruct Hs.
  - by apply Start_ok.
  - done.
  - by apply reload_drain_ok.
  - by apply reload_finish_ok.
  - by destruct Hok.
  - by destruct Hok.
  - by apply go_exit_ok.
  - by apply go_scan_ok.
  - by destruct Hok.
Qed.

(** C11 However [Reload], [Stop], ticks and cancellations interleave, no two scan
    goroutines ever run for one PLC: [Reload] adds a worker only after the
    goroutine it replaces has returned. *)
Theorem one_goroutine_per_plc (cfgs : list PLC) (m : manager) :
  reachable cfgs m → NoDup (g_name <$> running m).
Proof.
  intros Hr. apply (ok_names m). unfold reachable in Hr.
  assert (Hok : manager_ok (NewManager cfgs)) by by apply new_worker_ok.
  induction Hr; [done|]. eauto using step_ok.
Qed.

(** ** What [Reload] leaves *)

Lemma newCfgByName_lookup cfgs (m0 : gmap string PLC) n :
  NoDup (pName <$> cfgs) →
  fold_left (λ m c, <[pName c := c]> m) cfgs m0 !! n =
  match List.find (λ c, String.eqb (pName c) n) cfgs with Some c => Some c | None => m0 !! n end.
Proof.
  revert m0. induction cfgs as [|c cfgs IH]; intros m0 Hnd; [done|].
  simpl in *. apply NoDup_cons in Hnd as [Hc Hnd]. rewrite IH by done.
  destruct (String.eqb_spec (pName c) n) as [<-|Hne].
  - destruct (List.find _ cfgs) as [c'|] eqn:E; [|by rewrite lookup_insert_eq].
    apply List.find_some in E as [Hin E%String.eqb_eq]. destruct Hc.
    apply list_elem_of_fmap. exists c'. split; [done|]. by apply list_elem_of_In.
  - by rewrite lookup_insert_ne.
Qed.

Lemma add_workers_lookup c cfgs m n :
  match workers m !! n with
  | Some w => workers (fold_left (add_worker c) cfgs m) !! n = Some w
  | None =>
      match List.find (λ c, String.eqb (pName c) n) cfgs with
      | None => workers (fold_left (add_worker c) cfgs m) !! n = None
      | Some cfg => ∃ d ch, workers (fold_left (add_worker c) cfgs m) !! n =
                              Some (mkWorker d cfg (Some (S d :: c)) ch) ∧ (fresh m ≤ d)%nat
      end
  end.
Proof.
  revert m. induction cfgs as [|cfg cfgs IH]; intros m; [simpl; by destruct (workers m !! n)|].
  cbn [fold_left List.find]. specialize (IH (add_worker c m cfg)).
  destruct (workers m !! pName cfg) as [w0|] eqn:E.
  - assert (Em : add_worker c m cfg = m) by (unfold add_worker; by rewrite E).
    rewrite Em in *. destruct (workers m !! n) as [w|] eqn:En; [exact IH|].
    destruct (String.eqb_spec (pName cfg) n); [congruence|]. exact IH.
  - assert (Ew : workers (add_worker c m cfg) =
      <[pName cfg := mkWorker (fresh m) cfg (Some (S (fresh m) :: c)) (S (S (fresh m)))]> (workers m) ∧
      fresh (add_worker c m cfg) = S (S (S (fresh m)))) by (unfold add_worker; by rewrite E).
    destruct Ew as [Ew Ef]. rewrite Ew, Ef in IH.
    destruct (String.eqb_spec (pName cfg) n) as [<-|Hne].
    + rewrite E. rewrite lookup_insert_eq in IH. eauto.
    + rewrite lookup_insert_ne in IH by done. destruct (workers m !! n); [done|].
      destruct (List.find _ cfgs); [|done]. destruct IH as (d & ch & H & Hd). exists d, ch.
      split; [done|]. lia.
Qed.

Lemma reload_drain_lookup c cfgs m n :
  workers (reload_drain c cfgs m) !! n =
  match workers m !! n with
  | Some w => if drains cfgs (n, w) then None else Some w
  | None => None
  end.
Proof.
  simpl. apply option_eq. intros w. rewrite map_lookup_filter_Some. simpl. split.
  - intros [Hw Hn]. rewrite Hw. destruct (drains cfgs (n, w)) eqn:E; [|done].
    destruct Hn. apply list_elem_of_fmap. exists (n, w). split; [done|]. by apply elem_of_toDrain.
  - destruct (workers m !! n) as [w'|] eqn:E; [|done].
    destruct (drains cfgs (n, w')) eqn:Ed; [done|]. intros [= ->]. split; [done|].
    intros ([n' w''] & En & Hx)%list_elem_of_fmap. simpl in En. subst n'.
    apply elem_of_toDrain in Hx as [Hw Hd]. simpl in Hw. congruence.
Qed.

(** The worker of a name after a reload; [m1] is the manager between the two
    locked sections. *)
Lemma reload_lookup c cfgs m m1 n :
  NoDup (pName <$> cfgs) → workers m1 = workers (reload_drain c cfgs m) →
  match List.find (λ p, String.eqb (pName p) n) cfgs, workers m !! n with
  | None, _ => workers (fold_left (add_worker c) cfgs m1) !! n = None
  | Some p, Some w =>
      if deep_equal (w_cfg w) p then workers (fold_left (add_worker c) cfgs m1) !! n = Some w
      else ∃ d ch, workers (fold_left (add_worker c) cfgs m1) !! n =
                   Some (mkWorker d p (Some (S d :: c)) ch) ∧ (fresh m1 ≤ d)%nat
  | Some p, None =>
      ∃ d ch, workers (fold_left (add_worker c) cfgs m1) !! n =
              Some (mkWorker d p (Some (S d :: c)) ch) ∧ (fresh m1 ≤ d)%nat
  end.
Proof.
  intros Hnd H1. pose proof (add_workers_lookup c cfgs m1 n) as H.
  rewrite H1, reload_drain_lookup in H. unfold drains, newCfgByName in H. simpl in H.
  rewrite newCfgByName_lookup, lookup_empty in H by done.
  destruct (workers m !! n) as [w|]; destruct (List.find _ cfgs) as [p|]; try done.
  destruct (deep_equal (w_cfg w) p); exact H.
Qed.

(** A [Reload] that is not interrupted leaves exactly the configured PLCs: a
    worker whose entry is unchanged is untouched, any other gets a new driver,
    and the drivers it drained are closed. *)
Theorem Reload_correct (c : ctx) (cfgs : list PLC) (m : manager) :
  NoDup (pName <$> cfgs) →
  let m1 := reload_drain c cfgs m in
  match reloading m1 with
  | None => False
  | Some r =>
      let m2 := reload_finish r m1 in
      (∀ n, match List.find (λ p, String.eqb (pName p) n) cfgs, workers m !! n with
            | None, _ => workers m2 !! n = None
            | Some p, Some w =>
                if deep_equal (w_cfg w) p then workers m2 !! n = Some w
                else ∃ d ch, workers m2 !! n = Some (mkWorker d p (Some (S d :: c)) ch) ∧
                             (fresh m ≤ d)%nat
            | Some p, None =>
                ∃ d ch, workers m2 !! n = Some (mkWorker d p (Some (S d :: c)) ch) ∧
                        (fresh m ≤ d)%nat
            end) ∧
      (∀ x, x ∈ toDrain cfgs m → w_driver x.2 ∈ closed_drivers m2 ∧ w_done x.2 ∈ rl_done r)
  end.
Proof.
  intros Hnd. cbn zeta. cbn [reloading reload_drain]. split.
  - intros n. exact (reload_lookup c cfgs m (reload_drain c cfgs m) n Hnd eq_refl).
  - intros x Hx. split.
    + apply elem_of_app. left. apply list_elem_of_fmap. by exists x.
    + apply list_elem_of_fmap. by exists x.
Qed.

(** ** What a scan emits *)

Definition of_tag (tag : string) (us : list TagUpdate) : list TagUpdate :=
  List.filter (λ u, String.eqb (uTag u) tag) us.

(** The values successfully read for a tag, in order. *)
Definition good_reads (tag : string) (reads : list (TagDef * time * (value + error))) : list value :=
  omap (λ x, match x with
             | (t, _, inl content) =>
                 if String.eqb (tName t) tag then Some (deref (allocDest (tType t)).1 content) else None
             | _ => None
             end) reads.

(** No bad update directly follows a bad one. *)
Fixpoint bad_once (qs : list string) : bool :=
  match qs with
  | q :: (q' :: _) as qs' => negb (String.eqb q "bad" && String.eqb q' "bad") && bad_once qs'
  | _ => true
  end.

(** What holds of a goroutine's scan, for one tag, since it started. *)
Record scan_ok (name tag : string) (reads : list (TagDef * time * (value + error))) (s : scan) : Prop := {
  so_last : lastQuality s !! tag = uQuality <$> last (of_tag tag (emitted s));
  so_good : uValue <$> List.filter (λ u, String.eqb (uQuality u) "good") (of_tag tag (emitted s)) =
            good_reads tag reads;
  so_bad : bad_once (uQuality <$> of_tag tag (emitted s)) = true;
  so_quality : Forall (λ u, uQuality u = "good" ∨ uQuality u = "bad") (emitted s);
  so_store : ∀ u, last (of_tag tag (emitted s)) = Some u →
             tag_lookup name tag (sc_current s) =
             Some (mkTagValue (uValue u) (uTimestamp u) (uQuality u));
}.

Lemma bad_once_snoc qs q :
  bad_once (qs ++ [q]) = bad_once qs && negb (String.eqb (default "" (last qs)) "bad" && String.eqb q "bad").
Proof.
  induction qs as [|a [|b qs] IH]; [done| |].
  - simpl. by rewrite andb_true_r.
  - change (bad_once ((a :: b :: qs) ++ [q])) with
      (negb (String.eqb a "bad" && String.eqb b "bad") && bad_once ((b :: qs) ++ [q]))%bool.
    rewrite IH. change (last (a :: b :: qs)) with (last (b :: qs)).
    by rewrite andb_assoc.
Qed.

Lemma of_tag_snoc tag us u :
  of_tag tag (us ++ [u]) = of_tag tag us ++ (if String.eqb (uTag u) tag then [u] else []).
Proof. unfold of_tag. rewrite List.filter_app. simpl. by destruct (String.eqb _ _). Qed.

(** Emitting an update: what the scan invariant says afterwards. *)
Lemma scan_ok_emit name tag reads reads' s u t :
  scan_ok name tag reads s → uPLCName u = name → uTag u = t →
  (uQuality u = "good" ∨ uQuality u = "bad") →
  (t = tag → uQuality u = "bad" → lastQuality s !! tag ≠ Some "bad") →
  good_reads tag reads' = good_reads tag reads ++
    (if String.eqb t tag && String.eqb (uQuality u) "good" then [uValue u] else []) →
  scan_ok name tag reads' (set_quality t (uQuality u) (emitTagUpdate u s).2).2.
Proof.
  intros [H1 H2 H3 H4 H5] Hn Ht Hq Hbad Hgood.
  unfold set_quality, emitTagUpdate, modify. cbn [snd].
  assert (Hst : storeTag u (sc_current s) =
    <[name := <[t := mkTagValue (uValue u) (uTimestamp u) (uQuality u)]>
        (default ∅ (sc_current s !! name))]> (sc_current s)).
  { unfold storeTag. rewrite Hn, Ht. by destruct Hq as [-> | ->]. }
  split; cbn [lastQuality sc_current emitted]; rewrite ?of_tag_snoc, ?Ht.
  - destruct (String.eqb_spec t tag) as [->|Hne].
    + by rewrite lookup_insert_eq, last_snoc.
    + by rewrite lookup_insert_ne, app_nil_r.
  - rewrite Hgood, <- H2, List.filter_app, fmap_app. f_equal.
    destruct (String.eqb t tag); simpl; [|done]. by destruct (String.eqb (uQuality u) "good").
  - rewrite fmap_app. destruct (String.eqb_spec t tag) as [->|Hne]; simpl; [|by rewrite app_nil_r].
    rewrite bad_once_snoc, H3. simpl. rewrite fmap_last, <- H1.
    destruct Hq as [Hq|Hq]; rewrite Hq; [by rewrite andb_false_r|].
    specialize (Hbad eq_refl Hq). destruct (lastQuality s !! tag) as [q|]; [|done]. simpl.
    destruct (String.eqb_spec q "bad") as [->|]; [done|reflexivity].
  - apply Forall_app_2; [done|]. by constructor.
  - intros u' Hu'. rewrite Hst. unfold tag_lookup. rewrite lookup_insert_eq. simpl.
    destruct (String.eqb_spec t tag) as [->|Hne].
    + rewrite last_snoc in Hu'. simplify_eq. by rewrite lookup_insert_eq.
    + rewrite app_nil_r in Hu'. rewrite lookup_insert_ne by done. specialize (H5 u' Hu').
      unfold tag_lookup in H5. by destruct (sc_current s !! name).
Qed.

Lemma scan_tag_ok name tag reads s now t res :
  scan_ok name tag reads s → scan_ok name tag (reads ++ [(t, now, res)]) (scan_tag name now t res s).2.
Proof.
  intros Hok. unfold scan_tag. rewrite bind_run. unfold get_state.
  assert (Hg : good_reads tag (reads ++ [(t, now, res)]) = good_reads tag reads ++
    good_reads tag [(t, now, res)]) by (unfold good_reads; apply omap_app).
  destruct res as [content|err].
  - assert (E : ∀ A, (if (A : bool) then _ ← emitTagUpdate (mkTagUpdate name (tName t)
        (deref (allocDest (tType t)).1 content) now "good"); set_quality (tName t) "good"
      else _ ← emitTagUpdate (mkTagUpdate name (tName t)
        (deref (allocDest (tType t)).1 content) now "good"); set_quality (tName t) "good") s =
      set_quality (tName t) "good" (emitTagUpdate (mkTagUpdate name (tName t)
        (deref (allocDest (tType t)).1 content) now "good") s).2) by by intros [].
    cbv zeta. rewrite E.
    apply (scan_ok_emit name tag reads _ s (mkTagUpdate name (tName t) _ now "good")); simpl; auto.
    rewrite Hg. simpl. by destruct (String.eqb _ _).
  - assert (Hn : good_reads tag (reads ++ [(t, now, inr err)]) = good_reads tag reads)
      by by rewrite Hg, app_nil_r.
    destruct (String.eqb_spec (default "" (lastQuality s !! tName t)) "bad") as [Eb|Eb]; simpl.
    + destruct Hok as [H1 H2 H3 H4 H5]. by split; rewrite ?Hn.
    + apply (scan_ok_emit name tag reads _ s (mkTagUpdate name (tName t) VNil now "bad")); simpl; auto.
      * intros <- _ E. by rewrite E in Eb.
      * by rewrite Hn, andb_false_r, app_nil_r.
Qed.

Lemma scan_tags_ok name tag reads current0 :
  scan_ok name tag reads (scan_tags name reads (mkScan ∅ current0 [])).2.
Proof.
  unfold scan_tags. induction reads as [|[[t now] res] reads IH] using rev_ind.
  - split; simpl; try done.
  - rewrite for_each_app. simpl. rewrite bind_run.
    set (s := (for_each reads _ _).2) in *. pose proof (scan_tag_ok name tag reads s now t res IH) as H.
    by destruct (scan_tag name now t res s) as [[] s'].
Qed.

(** From the start of a goroutine, whatever the driver answers: every
    successful read of a tag is published once, as good, in order; a failing tag
    is published as bad once per transition; and the tag store holds the last
    update published for the tag. *)
Theorem scan_tags_correct (name tag : string) (reads : list (TagDef * time * (value + error)))
    (current0 : tag_store) :
  let s := (scan_tags name reads (mkScan ∅ current0 [])).2 in
  let us := of_tag tag (emitted s) in
  uValue <$> List.filter (λ u, String.eqb (uQuality u) "good") us = good_reads tag reads ∧
  Forall (λ u, uQuality u = "good" ∨ uQuality u = "bad") us ∧
  bad_once (uQuality <$> us) = true ∧
  ∀ u, last us = Some u → tag_lookup name tag (sc_current s) =
                          Some (mkTagValue (uValue u) (uTimestamp u) (uQuality u)).
Proof.
  pose proof (scan_tags_ok name tag reads current0) as H.
  destruct H as [H1 H2 H3 H4 H5]. split_and!; try done.
  apply Forall_forall. intros u Hu. rewrite Forall_forall in H4. apply H4. unfold of_tag in Hu.
  rewrite list_elem_of_In, filter_In, <- list_elem_of_In in Hu. apply Hu.
Qed.

(** ** What the interleavings allow *)

Definition plc1 : PLC := mkPLC "plc1" "10.0.0.5" 0 "" "" false "" (Some [mkTagDef "Speed" "Float" false false]).
Definition plc2 : PLC := mkPLC "plc2" "10.0.0.6" 0 "" "" false "" None.

(** A tick under way while [Reload] drains its worker brings the removed PLC
    back into the tag store: no PLC is configured, none is running, and the
    store still has a value. *)
Theorem removed_plc_can_reappear :
  ∃ m, reachable [plc1] m ∧ reloading m = None ∧ running m = [] ∧ workers m = ∅ ∧
       CurrentTag "plc1" "Speed" m ≠ None.
Proof.
  set (tag := mkTagDef "Speed" "Float" false false).
  set (m1 := Start [] (NewManager [plc1])). set (m2 := reload_drain [] [] m1).
  set (g := mkGoroutine "plc1" 0 plc1 [2%nat] 3 ∅).
  set (m3 := go_scan g (λ l, [] ++ l ++ []) 0 tag (inl (VFloat32 0)) m2).
  set (g' := mkGoroutine "plc1" 0 plc1 [2%nat] 3 {["Speed" := "good"]}).
  set (m4 := go_exit g' [] m3). set (r := mkReload [] [] [0%nat] [3%nat]).
  exists (reload_finish r m4). split_and!; [|vm_compute; reflexivity..|].
  - eapply rtc_l; [by apply (step_start [])|].
    eapply rtc_l; [by apply (step_reload [] [])|].
    eapply rtc_l; [apply (step_scan [] g [] 0 tag (inl (VFloat32 0))); [reflexivity|set_solver]|].
    eapply rtc_l; [apply (step_exit [] g' []); vm_compute; reflexivity|].
    eapply rtc_l; [|apply rtc_refl].
    apply step_reload_finish; [vm_compute; reflexivity|].
    intros ch ->%list_elem_of_singleton. vm_compute. left.
  - vm_compute. discriminate.
Qed.

(** A [Reload] that drained its workers before [Stop] adds its new workers
    after [Stop] has waited and closed every driver: a goroutine is left
    running that nothing will cancel. *)
Theorem reload_can_outlive_stop :
  ∃ m, reachable [plc1] m ∧ stopped m = true ∧ reloading m = None ∧
       ∃ g, running m = [g] ∧ ctx_done (cancelled m) (g_ctx g) = false.
Proof.
  set (m1 := Start [] (NewManager [plc1])). set (m2 := reload_drain [] [plc2] m1).
  set (g := mkGoroutine "plc1" 0 plc1 [2%nat] 3 ∅).
  set (m3 := stop_begin m2). set (m4 := go_exit g [] m3). set (m5 := stop_finish m4).
  set (r := mkReload [] [plc2] [0%nat] [3%nat]).
  exists (reload_finish r m5). split_and!; [|vm_compute; reflexivity..|].
  - eapply rtc_l; [by apply (step_start [])|].
    eapply rtc_l; [by apply (step_reload [] [plc2])|].
    eapply rtc_l; [apply step_stop|].
    eapply rtc_l; [apply (step_exit [] g []); vm_compute; reflexivity|].
    eapply rtc_l; [apply step_stop_finish; vm_compute; reflexivity|].
    eapply rtc_l; [|apply rtc_refl].
    apply step_reload_finish; [vm_compute; reflexivity|].
    intros ch ->%list_elem_of_singleton. vm_compute. left.
  - eexists. split; vm_compute; reflexivity.
Qed.

(** The workers a [Reload] adds live under the context it was called with: when
    that context is the one of an HTTP request, the end of the request stops
    their goroutines, and a configured PLC is left without one although the
    manager was never stopped. *)
Theorem reload_under_request_context (req : ctx) (i : nat) :
  let m1 := reload_finish (mkReload (i :: req) [plc2] [] [])
              (reload_drain (i :: req) [plc2] (Start [] (NewManager []))) in
  ∃ m, rtc step m1 m ∧ stopped m = false ∧ is_Some (workers m !! "plc2") ∧ running m = [].
Proof.
  cbv zeta. set (m1 := reload_finish _ _).
  set (g := mkGoroutine "plc2" 0 plc2 (1%nat :: i :: req) 2 ∅).
  exists (go_exit g [] (cancel_ctx i m1)). split_and!.
  - eapply rtc_l; [apply (step_cancel i)|]. eapply rtc_l; [|apply rtc_refl].
    apply (step_exit [] g []); [reflexivity|]. unfold ctx_done. apply existsb_exists. exists i.
    split; [by right; left|]. apply bool_decide_eq_true_2. simpl. left.
  - reflexivity.
  - by eexists.
  - reflexivity.
Qed.

(** ** Witnesses *)

Lemma one_goroutine_per_plc_witness :
  reachable [plc1; plc2] (Start [] (NewManager [plc1; plc2])) ∧
  NoDup (g_name <$> running (Start [] (NewManager [plc1; plc2]))).
Proof.
  assert (H : reachable [plc1; plc2] (Start [] (NewManager [plc1; plc2]))).
  { eapply rtc_l; [by apply (step_start [])|apply rtc_refl]. }
  split; [exact H|]. exact (one_goroutine_per_plc [plc1; plc2] _ H).
Defined.

Lemma Reload_correct_witness :
  NoDup (pName <$> [plc2]) ∧
  let m1 := reload_drain [] [plc2] (Start [] (NewManager [plc1])) in
  match reloading m1 with
  | None => False
  | Some r => workers (reload_finish r m1) !! "plc1" = None
  end.
Proof.
  assert (H : NoDup (pName <$> [plc2])) by (apply (bool_decide_unpack _); vm_compute; exact I).
  split; [exact H|].
  pose proof (Reload_correct [] [plc2] (Start [] (NewManager [plc1])) H) as Hr.
  simpl in Hr |- *. exact (proj1 Hr "plc1").
Defined.
