(* ===== verification/Worker.v ===== *)
(** * [internal/plc/manager.go]: the body of a scan goroutine

    [runWorker] and [reconnect] over the interface [Driver], and what becomes of
    them with the gologix driver.  [PlcManager] has the goroutines' life and
    their interleavings; here one goroutine runs from its start to its end. *)

From S2P Require Import Prelude GoString GoTime GoError Config Retry PlcDriver PlcManager.

(** ** The interface *)

(** The methods of [Driver] a worker calls; a [Connect] of [None] has not
    returned. *)
Class Driver (D : Type) := {
  drv_Connect : State D (option (option error));
  drv_Close : State D (option error);
  drv_ReadTag : string → value → State D (result value);
  drv_Connected : D → bool;
}.

(** A driver that is told apart from its connection: reading does not change
    what [Connected] answers, and connecting makes it true. *)
Class ConnectedByConnect (D : Type) `{!Driver D} := {
  read_keeps_connected : ∀ tag dest d, drv_Connected (drv_ReadTag tag dest d).2 = drv_Connected d;
  connect_connects : ∀ d d', drv_Connect d = (Some None, d') → drv_Connected d' = true;
}.

(** ** [runWorker] *)

Record worker (D : Type) := mkWorkerState { wk_driver : D; wk_scan : scan }.
Arguments mkWorkerState {D} _ _.
Arguments wk_driver {D} _.
Arguments wk_scan {D} _.

Section worker.
Context {D : Type} {Dr : Driver D}.
(** The polls of the context, the random numbers and the waits of [retry.Do], the
    clock, and fuel for the attempts. *)
Context (ctx_err : State D (option error)) (rand : State D f64) (sleep : Z → State D (option error))
        (clock : D → time) (fuel : nat) (name : string) (cfg : PLC).

(** The operation [retry.Do] repeats.  The flag tells that it has not returned:
    then neither has [retry.Do]. *)
Definition beside {A : Type} (m : State D A) : State (D * bool) A := zoom fst (λ d s, (d, s.2)) m.

Definition connect_attempt : State (D * bool) (option error) := λ s,
  match drv_Connect s.1 with
  | (Some r, d) => (r, (d, s.2))
  | (None, d) => (None, (d, true))
  end.

Definition connect_options : Retry.Options := Retry.mkOptions Second (30 * Second) 0 (f64_of_Z 0) false.

Definition retry_connect : State D (option (option error)) := λ d,
  let '(r, (d, pending)) :=
    Do (beside ctx_err) (beside rand) (λ t, beside (sleep t)) connect_attempt fuel connect_options (d, false) in
  (if pending then None else r, d).

Definition reconnect : State D (option (option error)) :=
  _ ← drv_Close;
  retry_connect.

Definition on_driver {A : Type} : State D A → State (worker D) A :=
  zoom wk_driver (λ d w, mkWorkerState d (wk_scan w)).
Definition on_scan {A : Type} : State scan A → State (worker D) A :=
  zoom wk_scan (λ s w, mkWorkerState (wk_driver w) s).

(** The loop over the tags of a tick. *)
Definition scan_one (tag : TagDef) : State (worker D) unit :=
  res ← on_driver (drv_ReadTag (tName tag) (allocDest (tType tag)).2);
  w ← get_state;
  on_scan (scan_tag name (clock (wk_driver w)) tag res).

Definition scan_all : State (worker D) unit := for_each (elems (pTags cfg)) scan_one.

(** One tick: whether the loop goes on, or [None] while it reconnects. *)
Definition tick : State (worker D) (option bool) :=
  w ← get_state;
  r ← (if negb (drv_Connected (wk_driver w)) then on_driver reconnect else mret (Some None));
  match r with
  | None => mret None
  | Some (Some _) => mret (Some false)
  | Some None => _ ← scan_all; mret (Some true)
  end.

(** The loop, for a context that is done after [n] ticks; whether it returned. *)
Fixpoint scan_loop (n : nat) : State (worker D) bool :=
  match n with
  | O => mret true
  | S n =>
      r ← tick;
      match r with
      | None => mret false
      | Some false => mret true
      | Some true => scan_loop n
      end
  end.

Definition runWorker (n : nat) : State (worker D) bool :=
  r ← on_driver retry_connect;
  match r with
  | None => mret false
  | Some (Some _) => mret true
  | Some None => scan_loop n
  end.

(** ** What the interface gives *)

(** [n] ticks that only read. *)
Fixpoint scans (n : nat) : State (worker D) unit :=
  match n with O => mret tt | S n => _ ← scan_all; scans n end.

Lemma retry_connect_connects `{!ConnectedByConnect D} d d' :
  retry_connect d = (Some None, d') → drv_Connected d' = true.
Proof.
  unfold retry_connect. destruct (Do _ _ _ _ _ _ _) as [r [d1 pending]] eqn:E.
  destruct pending; [done|]. intros [= -> <-].
  apply attempts_success in E as [[d0 b] E]. unfold connect_attempt in E. simpl in E.
  destruct (drv_Connect d0) as [[r|] d2] eqn:Ec; simplify_eq. by apply (connect_connects d0).
Qed.

Lemma scan_all_connected `{!ConnectedByConnect D} w :
  drv_Connected (wk_driver (scan_all w).2) = drv_Connected (wk_driver w).
Proof.
  unfold scan_all. revert w. induction (elems (pTags cfg)) as [|tag tags IH]; intros w; [done|]. cbn [for_each].
  rewrite bind_run. destruct (scan_one tag w) as [[] w'] eqn:E. rewrite IH.
  unfold scan_one, on_driver, on_scan in E. unfold_state.
  pose proof (read_keeps_connected (tName tag) (allocDest (tType tag)).2 (wk_driver w)) as H.
  destruct (drv_ReadTag _ _ _) as [res d]. simpl in *. destruct (scan_tag _ _ _ _ _) as [u s].
  by simplify_eq/=.
Qed.

Lemma scan_loop_scans `{!ConnectedByConnect D} n w :
  drv_Connected (wk_driver w) = true → scan_loop n w = (true, (scans n w).2).
Proof.
  revert w. induction n as [|n IH]; intros w Hw; [done|]. cbn [scan_loop scans].
  rewrite !bind_run. unfold tick. rewrite bind_run. unfold get_state. rewrite Hw. cbn [negb].
  rewrite bind_run. cbn [mret state_ret]. rewrite bind_run.
  pose proof (scan_all_connected w) as Hs. destruct (scan_all w) as [[] w']. simpl in Hs.
  cbn [mret state_ret]. apply IH. congruence.
Qed.

Lemma runWorker_spec `{!ConnectedByConnect D} (n : nat) (w : worker D) :
  runWorker n w =
  match retry_connect (wk_driver w) with
  | (None, d) => (false, mkWorkerState d (wk_scan w))
  | (Some (Some _), d) => (true, mkWorkerState d (wk_scan w))
  | (Some None, d) => (true, (scans n (mkWorkerState d (wk_scan w))).2)
  end.
Proof.
  unfold runWorker, on_driver, zoom. rewrite bind_run. cbv beta zeta.
  destruct (retry_connect (wk_driver w)) as [[[e|]|] d] eqn:E; [done| |done].
  apply scan_loop_scans. by apply (retry_connect_connects (wk_driver w)).
Qed.

(** *** Reads that fail *)

(** A scan in which every read fails reports each tag whose quality was not bad,
    and leaves every tag bad. *)
Definition all_bad (w : worker D) : Prop :=
  ∀ tag, tag ∈ elems (pTags cfg) → lastQuality (wk_scan w) !! tName tag = Some "bad".

Lemma scan_tag_bad now tag e s :
  let s' := (scan_tag name now tag (inr e) s).2 in
  lastQuality s' !! tName tag = Some "bad" ∧
  (∀ k, lastQuality s !! k = Some "bad" → lastQuality s' !! k = Some "bad") ∧
  (lastQuality s !! tName tag = Some "bad" → s' = s).
Proof.
  cbv zeta. unfold scan_tag, emitTagUpdate, set_quality. unfold_state.
  destruct (String.eqb_spec (default "" (lastQuality s !! tName tag)) "bad") as [E|E]; simpl.
  - destruct (lastQuality s !! tName tag) as [q|]; [|done]. simpl in E. by subst q.
  - rewrite lookup_insert_eq. split_and!; [done| |by intros Hb; rewrite Hb in E].
    intros k Hk. destruct (decide (k = tName tag)) as [->|]; [by rewrite lookup_insert_eq|by rewrite lookup_insert_ne].
Qed.

(** The connection is lost: reads fail from now on. *)
Definition lost (dead : D → Prop) : Prop :=
  ∀ tag dest d, dead d → (∃ e, (drv_ReadTag tag dest d).1 = inr e) ∧ dead (drv_ReadTag tag dest d).2.

Lemma scan_one_lost dead tag w : lost dead → dead (wk_driver w) →
  let w' := (scan_one tag w).2 in
  dead (wk_driver w') ∧ lastQuality (wk_scan w') !! tName tag = Some "bad" ∧
  (∀ k, lastQuality (wk_scan w) !! k = Some "bad" → lastQuality (wk_scan w') !! k = Some "bad") ∧
  (lastQuality (wk_scan w) !! tName tag = Some "bad" → wk_scan w' = wk_scan w).
Proof.
  intros Hl Hd. destruct (Hl (tName tag) (allocDest (tType tag)).2 _ Hd) as [[e He] Hd'].
  cbv zeta. unfold scan_one, on_driver, on_scan. unfold_state.
  destruct (drv_ReadTag _ _ _) as [res d]. simpl in He, Hd'. subst res. simpl.
  pose proof (scan_tag_bad (clock d) tag e (wk_scan w)) as H. cbv zeta in H.
  destruct (scan_tag _ _ _ _ _) as [[] s]. done.
Qed.

Lemma scan_tags_lost dead tags w : lost dead → dead (wk_driver w) →
  let w' := (for_each tags scan_one w).2 in
  dead (wk_driver w') ∧ (∀ tag, tag ∈ tags → lastQuality (wk_scan w') !! tName tag = Some "bad") ∧
  (∀ k, lastQuality (wk_scan w) !! k = Some "bad" → lastQuality (wk_scan w') !! k = Some "bad") ∧
  ((∀ tag, tag ∈ tags → lastQuality (wk_scan w) !! tName tag = Some "bad") → wk_scan w' = wk_scan w).
Proof.
  intros Hl. revert w. induction tags as [|tag tags IH]; intros w Hd; cbv zeta; cbn [for_each].
  { split_and!; try done. by intros tag ?%not_elem_of_nil. }
  rewrite bind_run. destruct (scan_one_lost dead tag w Hl Hd) as (Hd1 & Hb1 & Hk1 & Hs1). cbv zeta in *.
  destruct (scan_one tag w) as [[] w1]. simpl in *. destruct (IH w1 Hd1) as (Hd2 & Hb2 & Hk2 & Hs2).
  split_and!; auto.
  - intros t [->|Ht]%elem_of_cons; auto.
  - intros Hall. rewrite <- Hs1 by (apply Hall; left). apply Hs2. intros t Ht. apply Hk1, Hall. by right.
Qed.

Lemma scans_lost dead n w : lost dead → dead (wk_driver w) →
  wk_scan (scans (S n) w).2 = wk_scan (scan_all w).2 ∧ all_bad (scan_all w).2.
Proof.
  intros Hl Hd. destruct (scan_tags_lost dead (elems (pTags cfg)) w Hl Hd) as (Hd1 & Hb1 & _).
  cbn [scans]. rewrite bind_run. unfold scan_all, all_bad in *. cbv zeta in *.
  destruct (for_each _ _ w) as [[] w1]. simpl in *. split; [|done]. clear Hd w. revert w1 Hd1 Hb1.
  induction n as [|n IH]; intros w1 Hd1 Hb1; [done|]. cbn [scans]. rewrite bind_run. unfold scan_all.
  destruct (scan_tags_lost dead (elems (pTags cfg)) w1 Hl Hd1) as (Hd2 & Hb2 & _ & Hs2). cbv zeta in *.
  destruct (for_each _ _ w1) as [[] w2]. simpl in *. rewrite (IH w2 Hd2 Hb2). auto.
Qed.

End worker.

(** ** A worker is a goroutine of the manager

    Whatever the driver does, what one worker does to the tag store, to the
    callbacks and to its own memory is a sequence of scan steps of
    [PlcManager.step] of its goroutine. *)

Section refinement.
Context {D : Type} {Dr : Driver D}.
Context (ctx_err : State D (option error)) (rand : State D f64) (sleep : Z → State D (option error))
        (clock : D → time) (fuel : nat) (name : string) (cfg : PLC).

(** The goroutine with another memory. *)
Definition remembering (q : gmap string string) (g : goroutine) : goroutine :=
  mkGoroutine (g_name g) (g_driver g) (g_cfg g) (g_ctx g) (g_done g) q.

(** The manager [m], in which the worker has the memory, the tag store and the
    emitted updates [s]. *)
Definition with_scan (gs1 : list goroutine) (g : goroutine) (gs2 : list goroutine) (m : manager) (s : scan) : manager :=
  mkManager (workers m) (sc_current s) (stopped m) (started m) (reloading m)
    (gs1 ++ remembering (lastQuality s) g :: gs2) (closed_chans m) (closed_drivers m) (cancelled m) (fresh m)
    (calls m ++ emitted s).

Lemma scan_tag_emits now tag res q c em :
  let s := (scan_tag name now tag res (mkScan q c [])).2 in
  (scan_tag name now tag res (mkScan q c em)).2 = mkScan (lastQuality s) (sc_current s) (em ++ emitted s).
Proof.
  cbv zeta. unfold scan_tag, emitTagUpdate, set_quality. unfold_state. destruct res as [v|e]; simpl.
  - destruct (String.eqb _ "bad" || String.eqb _ ""); reflexivity.
  - destruct (negb _); simpl; [reflexivity|by rewrite app_nil_r].
Qed.

(** The scan steps of one goroutine. *)
Definition scans_of (gs1 : list goroutine) (g : goroutine) (gs2 : list goroutine) (m : manager) (w w' : worker D) : Prop :=
  rtc step (with_scan gs1 g gs2 m (wk_scan w)) (with_scan gs1 g gs2 m (wk_scan w')).

Lemma scan_one_step gs1 g gs2 m tag w :
  g_name g = name → g_cfg g = cfg → tag ∈ elems (pTags cfg) →
  step (with_scan gs1 g gs2 m (wk_scan w)) (with_scan gs1 g gs2 m (wk_scan (scan_one clock name tag w).2)).
Proof.
  intros Hn Hc Htag. unfold scan_one, on_driver, on_scan. unfold_state.
  destruct (drv_ReadTag _ _ _) as [res d]. simpl.
  pose proof (step_scan gs1 (remembering (lastQuality (wk_scan w)) g) gs2 (clock d) tag res
    (with_scan gs1 g gs2 m (wk_scan w)) eq_refl) as H. simpl in H. rewrite Hc in H. specialize (H Htag).
  unfold go_scan in H. cbn [g_name g_last remembering with_scan current] in H. rewrite Hn in H.
  pose proof (scan_tag_emits (clock d) tag res (lastQuality (wk_scan w)) (sc_current (wk_scan w)) (emitted (wk_scan w))) as E.
  cbv zeta in E. destruct (wk_scan w) as [q c em]. simpl in *.
  destruct (scan_tag name (clock d) tag res (mkScan q c em)) as [[] s1]. simpl in E. subst s1.
  destruct (scan_tag name (clock d) tag res (mkScan q c [])) as [[] s2]. simpl in *.
  unfold with_scan, remembering in *. simpl in *. rewrite ?Hn in *. rewrite app_assoc. exact H.
Qed.

Lemma scan_tags_steps gs1 g gs2 m tags w :
  g_name g = name → g_cfg g = cfg → (∀ tag, tag ∈ tags → tag ∈ elems (pTags cfg)) →
  scans_of gs1 g gs2 m w (for_each tags (scan_one clock name) w).2.
Proof.
  intros Hn Hc. revert w. induction tags as [|tag tags IH]; intros w Hin; [constructor|]. cbn [for_each].
  rewrite bind_run. pose proof (scan_one_step gs1 g gs2 m tag w Hn Hc (Hin tag ltac:(left))) as H.
  destruct (scan_one clock name tag w) as [[] w1]. eapply rtc_l; [exact H|]. apply IH. intros t Ht. apply Hin. by right.
Qed.

(** A connection attempt leaves the tag store, the callbacks and the memory. *)
Lemma on_driver_scan {A} (x : State D A) (w : worker D) : wk_scan (on_driver x w).2 = wk_scan w.
Proof. unfold on_driver, zoom. by destruct (x _). Qed.

Lemma scan_loop_steps gs1 g gs2 m n w :
  g_name g = name → g_cfg g = cfg →
  scans_of gs1 g gs2 m w (scan_loop ctx_err rand sleep clock fuel name cfg n w).2.
Proof.
  intros Hn Hc. revert w. induction n as [|n IH]; intros w; [constructor|]. cbn [scan_loop]. rewrite bind_run.
  unfold tick. rewrite bind_run. unfold get_state. rewrite bind_run.
  set (rc := if negb _ then _ else _).
  assert (Hr : wk_scan (rc w).2 = wk_scan w) by (unfold rc; destruct (negb _); [apply on_driver_scan|done]).
  destruct (rc w) as [[[e|]|] w1]; cbn [snd] in Hr; unfold scans_of; try (by rewrite <- Hr; constructor).
  rewrite bind_run. pose proof (scan_tags_steps gs1 g gs2 m (elems (pTags cfg)) w1 Hn Hc (λ _ H, H)) as H.
  unfold scan_all. destruct (for_each _ _ w1) as [[] w2]. cbn [mret state_ret snd] in *.
  unfold scans_of in *. rewrite <- Hr. etransitivity; [exact H|]. apply IH.
Qed.

End refinement.

(** ** The gologix driver *)

Section gologix.
Context {C : Type} `{!GologixClient C}.
Context (ctx_err : State (gologixDriver C) (option error)) (rand : State (gologixDriver C) f64)
        (sleep : Z → State (gologixDriver C) (option error)) (clock : gologixDriver C → time).

#[export] Instance gologix_driver (fuel : nat) : Driver (gologixDriver C) := {|
  drv_Connect := PlcDriver.Connect ctx_err rand sleep fuel;
  drv_Close := PlcDriver.Close;
  drv_ReadTag := PlcDriver.ReadTag;
  drv_Connected := connected;
|}.

Lemma ReadTag_connected tag dest (d : gologixDriver C) : connected (PlcDriver.ReadTag tag dest d).2 = connected d.
Proof.
  unfold PlcDriver.ReadTag, on_client. unfold_state.
  destruct (is_bool_slice dest) as [n|]; [destruct (negb _); [done|]|]; by destruct (client_Read _ _ _).
Qed.

#[export] Instance gologix_connected (fuel : nat) : @ConnectedByConnect _ (gologix_driver fuel).
Proof.
  split; [apply ReadTag_connected|]. intros d d'. cbn [drv_Connect gologix_driver]. unfold PlcDriver.Connect.
  rewrite bind_run. destruct (ctx_err d) as [[e|] d1]; [done|].
  rewrite bind_run. unfold get_state. rewrite bind_run.
  destruct (Do _ _ _ _ _ _ d1) as [[[e|]|] d2]; try done. intros [= <-]. done.
Qed.

(** C16 The driver's connected flag does not follow the connection: only [Connect]
    and [Close] set it.  So a worker connects once: however its reads fail, every
    later tick only reads, [reconnect] is never reached, and the goroutine lives
    until its context is done. *)
Theorem worker_never_reconnects (fuel attempts n : nat) (name : string) (cfg : PLC) (w : worker (gologixDriver C)) :
  runWorker (Dr := gologix_driver fuel) ctx_err rand sleep clock attempts name cfg n w =
  match retry_connect (Dr := gologix_driver fuel) ctx_err rand sleep attempts (wk_driver w) with
  | (None, d) => (false, mkWorkerState d (wk_scan w))
  | (Some (Some _), d) => (true, mkWorkerState d (wk_scan w))
  | (Some None, d) => (true, (scans (Dr := gologix_driver fuel) clock name cfg n (mkWorkerState d (wk_scan w))).2)
  end.
Proof. apply runWorker_spec, gologix_connected. Qed.

(** After the connection is lost, each tag is reported bad once, and then nothing
    more, however long the worker runs and whatever a new connection would give. *)
Theorem lost_connection_is_final (fuel attempts n : nat) (name : string) (cfg : PLC) (dead : gologixDriver C → Prop)
    (w : worker (gologixDriver C)) :
  lost (Dr := gologix_driver fuel) dead → connected (wk_driver w) = true → dead (wk_driver w) →
  let run k := scan_loop (Dr := gologix_driver fuel) ctx_err rand sleep clock attempts name cfg k w in
  (run (S n)).1 = true ∧ wk_scan (run (S n)).2 = wk_scan (run 1%nat).2 ∧ all_bad cfg (run (S n)).2.
Proof.
  intros Hl Hc Hd. cbv beta zeta.
  pose proof (λ k, scan_loop_scans (Dr := gologix_driver fuel) ctx_err rand sleep clock attempts name cfg k w Hc) as E.
  rewrite !E. clear E.
  destruct (scans_lost (Dr := gologix_driver fuel) clock name cfg dead n w Hl Hd) as [H1 H2].
  destruct (scans_lost (Dr := gologix_driver fuel) clock name cfg dead 0 w Hl Hd) as [H3 _].
  cbn [fst snd]. split_and!; [done|by rewrite H1, H3|]. unfold all_bad in *. by rewrite H1.
Qed.

End gologix.

(** ** A connection that is lost *)

(** A PLC that answers the first [up] reads of a connection and then drops it;
    the connections made are counted. *)
Record flaky := mkFlaky { fl_up : nat; fl_connects : nat }.

#[refine] Instance flaky_client : GologixClient flaky := {|
  client_Connect := λ c, (None, mkFlaky 2 (S (fl_connects c)));
  client_Disconnect := λ c, (None, c);
  client_Read _ dest := λ c,
    match fl_up c with
    | O => (inr (plain_error "not connected and AutoConnect not enabled"), c)
    | S up => (inl dest, mkFlaky up (fl_connects c))
    end;
  client_Write _ _ := λ c, (None, c);
|}.
Defined.

Definition never_done : State (gologixDriver flaky) (option error) := λ d, (None, d).
Definition steady : State (gologixDriver flaky) f64 := λ d, (f64_quarter, d).

Definition flaky_driver (up : nat) (conn : bool) : gologixDriver flaky :=
  mkDriver (mkFlaky up 0) plc1 (mkDriverOptions Second Second 2) conn.

(** Five ticks: two good readings, one bad, silence, and one connection made. *)
Example worker_never_reconnects_run :
  let '(r, w) := runWorker (Dr := gologix_driver never_done steady (λ _, never_done) 3) never_done steady
    (λ _, never_done) (λ _, 0) 3 "plc1" plc1 5 (mkWorkerState (flaky_driver 0 false) (mkScan ∅ ∅ [])) in
  r = true ∧ uQuality <$> emitted (wk_scan w) = ["good"; "good"; "bad"] ∧ fl_connects (client (wk_driver w)) = 1%nat.
Proof. vm_compute. split_and!; reflexivity. Qed.

Example lost_connection_is_final_witness :
  let w := mkWorkerState (flaky_driver 0 true) (mkScan ∅ ∅ []) in
  connected (wk_driver w) = true ∧
  all_bad plc1 (scan_loop (Dr := gologix_driver never_done steady (λ _, never_done) 3) never_done steady
    (λ _, never_done) (λ _, 0) 3 "plc1" plc1 100 w).2.
Proof.
  cbv zeta. split; [reflexivity|].
  apply (lost_connection_is_final never_done steady (λ _, never_done) (λ _, 0) 3 3 99 "plc1" plc1
    (λ d, fl_up (client d) = 0%nat) (mkWorkerState (flaky_driver 0 true) (mkScan ∅ ∅ []))); [|reflexivity|reflexivity].
  intros tag dest d Hd. cbn [drv_ReadTag gologix_driver]. unfold PlcDriver.ReadTag, on_client. unfold_state.
  destruct (is_bool_slice dest) as [n|].
  - destruct (negb _); [split; [by eexists|done]|]. simpl. rewrite Hd. split; [by eexists|done].
  - simpl. rewrite Hd. split; [by eexists|done].
Defined.

(** The goroutine of a started manager, over the connection that is lost: the
    manager is left with the bad reading. *)
Definition started_plc1 : manager := Eval vm_compute in PlcManager.Start [] (NewManager [plc1]).

Definition goroutine_of (m : manager) : goroutine := default (mkGoroutine "" 0 plc1 [] 0 ∅) (head (running m)).

