(* ===== verification/Opcua.v ===== *)
(** * [internal/opcua]: the OPC UA server

    The security options taken from the configuration, the address space over
    the tags of the PLC manager, and the life of the server.  The library that
    speaks the protocol is outside; what it and the key files answer is data. *)

From S2P Require Import Prelude GoString GoTime GoError Config PlcManager.

(** ** Security *)

Inductive security_mode := ModeNone | ModeSign | ModeSignAndEncrypt.

(** A private key of a certificate: RSA, or of another kind. *)
Inductive private_key := RSA (key : string) | OtherKey.

Inductive server_option :=
| EndPoint (host : string) (port : Z)
| EnableAnonymous
| ServerName (name : string)
| EnableSecurity (policy : string) (mode : security_mode)
| Certificate (der : string)
| PrivateKey (key : string).

Section opcua.
(** [tls.LoadX509KeyPair]: the chain of certificates and the key. *)
Context (load_pair : string → string → (list string * private_key) + foreign).

Definition loadCertificate (certFile keyFile : string) : result (string * string) :=
  match load_pair certFile keyFile with
  | inr f => inr (Errorf "opcua: load certificate: %w" [FWrap (EForeign f)])
  | inl ([], _) => inr (Errorf "opcua: load certificate: no certificate data in %q" [FStr certFile])
  | inl (cert :: _, RSA key) => inl (cert, key)
  | inl (_ :: _, OtherKey) => inr (Errorf "opcua: private key must be RSA for Basic256Sha256" [])
  end.

Definition serverOptions (c : Config) (host : string) (port : Z) : result (list server_option) :=
  let opts := [EndPoint host port; EnableAnonymous; ServerName "LGB OPC UA Server"] in
  let mode := oSecurityMode (OPCUA c) in
  if String.eqb mode "None" then inl (opts ++ [EnableSecurity "None" ModeNone])
  else if String.eqb mode "Sign" || String.eqb mode "SignAndEncrypt" then
    match loadCertificate (oCertFile (OPCUA c)) (oKeyFile (OPCUA c)) with
    | inr err => inr err
    | inl (cert, key) =>
        let m := if String.eqb mode "SignAndEncrypt" then ModeSignAndEncrypt else ModeSign in
        inl (opts ++ [Certificate cert; PrivateKey key; EnableSecurity "Basic256Sha256" m])
    end
  else inr (Errorf "opcua: securityMode must be one of None, Sign, or SignAndEncrypt, got %q" [FStr mode]).

(** The options of [Start], with its defaults for the host and the port. *)
Definition start_options (c : Config) : result (list server_option) :=
  serverOptions c (if String.eqb (oHost (OPCUA c)) "" then "0.0.0.0" else oHost (OPCUA c))
    (if oPort (OPCUA c) <=? 0 then 4840 else oPort (OPCUA c)).

(** The mode of security the options offer. *)
Definition offered (opts : list server_option) : list (string * security_mode) :=
  omap (λ o, match o with EnableSecurity p m => Some (p, m) | _ => None end) opts.

(** The server offers exactly the security that is configured: without it only
    for the mode "None", else with a certificate and its key; a mode it does not
    know or a key it cannot use is an error, never a server without security. *)
Theorem start_options_correct (c : Config) :
  match start_options c with
  | inl opts =>
      match oSecurityMode (OPCUA c) with
      | "None" => offered opts = [("None", ModeNone)]
      | "Sign" => offered opts = [("Basic256Sha256", ModeSign)]
      | "SignAndEncrypt" => offered opts = [("Basic256Sha256", ModeSignAndEncrypt)]
      | _ => False
      end ∧
      (oSecurityMode (OPCUA c) ≠ "None" →
       ∃ cert chain key, load_pair (oCertFile (OPCUA c)) (oKeyFile (OPCUA c)) = inl (cert :: chain, RSA key) ∧
                         Certificate cert ∈ opts ∧ PrivateKey key ∈ opts) ∧
      ∃ host port, EndPoint host port ∈ opts ∧ host ≠ "" ∧ 0 < port
  | inr _ =>
      oSecurityMode (OPCUA c) ≠ "None"
  end.
Proof.
  unfold start_options. set (host := if String.eqb _ "" then _ else _). set (port := if _ <=? 0 then _ else _).
  assert (Hhost : host ≠ "") by (unfold host; by destruct (String.eqb_spec (oHost (OPCUA c)) "")).
  assert (Hport : 0 < port) by (unfold port; destruct (Z.leb_spec (oPort (OPCUA c)) 0); lia).
  unfold serverOptions. cbv zeta.
  destruct (String.eqb_spec (oSecurityMode (OPCUA c)) "None") as [->|Hn].
  { split_and!; [done|done|]. exists host, port. split; [|done]. simpl. set_solver. }
  assert (Hload : match loadCertificate (oCertFile (OPCUA c)) (oKeyFile (OPCUA c)) with
    | inl (cert, key) => ∃ chain, load_pair (oCertFile (OPCUA c)) (oKeyFile (OPCUA c)) = inl (cert :: chain, RSA key)
    | inr _ => True end).
  { unfold loadCertificate. destruct (load_pair _ _) as [[[|cert chain] [key|]]|f]; try done. by exists chain. }
  destruct (String.eqb_spec (oSecurityMode (OPCUA c)) "Sign") as [->|Hs]; simpl.
  { destruct (loadCertificate _ _) as [[cert key]|e]; [|done]. destruct Hload as [chain Hl].
    split_and!; [done| |exists host, port; split; [set_solver|done]].
    intros _. exists cert, chain, key. split_and!; [done|set_solver|set_solver]. }
  destruct (String.eqb_spec (oSecurityMode (OPCUA c)) "SignAndEncrypt") as [->|He]; [|done].
  destruct (loadCertificate _ _) as [[cert key]|e]; [|done]. destruct Hload as [chain Hl].
  split_and!; [done| |exists host, port; split; [set_solver|done]].
  intros _. exists cert, chain, key. split_and!; [done|set_solver|set_solver].
Qed.
End opcua.

(** ** Values *)

(** What a client reads: the bad status, or a good value, [VNil] for none. *)
Inductive data_value := StatusBad | GoodValue (v : value).

Definition dataValueForTV (tv : TagValue) : data_value :=
  if String.eqb (vQuality tv) "bad" then StatusBad else GoodValue (vValue tv).

(** What the closure of a node answers when it is read. *)
Definition variable_node (plcName tagName : string) (m : manager) : data_value :=
  match CurrentTag plcName tagName m with
  | None => GoodValue VNil
  | Some tv => dataValueForTV tv
  end.

Definition DataValueForTag (plcName tag : string) (m : manager) : data_value :=
  match CurrentTag plcName tag m with
  | None => GoodValue VNil
  | Some tv => dataValueForTV tv
  end.

(** [s.namespaces]: per PLC the variables added to its namespace. *)
Abbreviation namespaces := (gmap string (list (string * (manager → data_value)))).

(** A PLC of the same name replaces the namespace. *)
Definition populateAddressSpace (c : Config) (ns : namespaces) : namespaces :=
  foldl (λ m p, <[pName p := (λ t, (tName t, variable_node (pName p) (tName t))) <$> elems (pTags p)]> m)
    ns (PLCs c).

(** Reading a node of the address space. *)
Definition read_node (ns : namespaces) (plcName tag : string) : option (manager → data_value) :=
  nodes ← ns !! plcName;
  snd <$> find (λ n, String.eqb n.1 tag) nodes.

Lemma populate_lookup (c : Config) (p : PLC) (ns : namespaces) :
  NoDup (pName <$> PLCs c) → p ∈ PLCs c →
  populateAddressSpace c ns !! pName p = Some ((λ t, (tName t, variable_node (pName p) (tName t))) <$> elems (pTags p)).
Proof.
  unfold populateAddressSpace. generalize (PLCs c) as ps. intros ps. revert ns.
  induction ps as [|q ps IH]; intros ns Hnd Hp; [by apply not_elem_of_nil in Hp|].
  apply NoDup_cons in Hnd as [Hq Hnd]. simpl. apply elem_of_cons in Hp as [->|Hp]; [|by apply IH].
  generalize (lookup_insert_eq ns (pName q) ((λ t, (tName t, variable_node (pName q) (tName t))) <$> elems (pTags q))).
  generalize (<[pName q := (λ t, (tName t, variable_node (pName q) (tName t))) <$> elems (pTags q)]> ns).
  clear IH Hnd. induction ps as [|r ps IH]; intros m Hm; [done|]. simpl.
  apply not_elem_of_cons in Hq as [Hne Hq]. apply IH; [done|]. by rewrite lookup_insert_ne.
Qed.

Lemma read_node_configured (c : Config) (p : PLC) (t : TagDef) (ns : namespaces) :
  NoDup (pName <$> PLCs c) → p ∈ PLCs c → t ∈ elems (pTags p) →
  read_node (populateAddressSpace c ns) (pName p) (tName t) = Some (variable_node (pName p) (tName t)).
Proof.
  intros Hnd Hp Ht. unfold read_node. rewrite (populate_lookup c p ns Hnd Hp). simpl.
  induction (elems (pTags p)) as [|q l IH]; [by apply not_elem_of_nil in Ht|]. simpl.
  destruct (String.eqb_spec (tName q) (tName t)) as [->|Hne]; [done|].
  apply elem_of_cons in Ht as [->|Ht]; [done|by apply IH].
Qed.

(** Every configured tag is a node of the address space, and what a client reads
    there is the tag's last reading: a value for a good one, the bad status as
    long as the reads fail, never an older value. *)
Theorem opcua_serves_last_reading (c : Config) (p : PLC) (t : TagDef) (reads : list (TagDef * time * (value + error)))
    (current0 : tag_store) (m : manager) (u : TagUpdate) :
  NoDup (pName <$> PLCs c) → p ∈ PLCs c → t ∈ elems (pTags p) →
  let s := (scan_tags (pName p) reads (mkScan ∅ current0 [])).2 in
  current m = sc_current s → last (of_tag (tName t) (emitted s)) = Some u →
  ∃ read, read_node (populateAddressSpace c ∅) (pName p) (tName t) = Some read ∧
          read m = (if String.eqb (uQuality u) "bad" then StatusBad else GoodValue (uValue u)) ∧
          read m = DataValueForTag (pName p) (tName t) m.
Proof.
  cbv zeta. intros Hnd Hp Ht Hm Hu. pose proof (scan_tags_ok (pName p) (tName t) reads current0) as [_ _ _ _ Hs].
  eexists. split; [by apply read_node_configured|]. split; [|done].
  unfold variable_node, CurrentTag. rewrite Hm, (Hs u Hu). done.
Qed.

(** ** Notifications *)

(** One tick of [refreshLoop]: the nodes [ChangeNotification] is called for,
    [order] being the order in which Go ranges over the namespaces. *)
Definition refresh_tick (c : Config) (order : list string) : list (string * string) :=
  plcName ← order;
  plcCfg ← filter (λ p, pName p = plcName) (PLCs c);
  (λ tag, (plcName, tName tag)) <$> elems (pTags plcCfg).

(** What the loop is woken by: the end of its context, or a tick. *)
Inductive refresh_event := CtxDone | Tick (order : list string).

Fixpoint refreshLoop (c : Config) (events : list refresh_event) : list (string * string) :=
  match events with
  | [] | CtxDone :: _ => []
  | Tick order :: events => refresh_tick c order ++ refreshLoop c events
  end.

Lemma populate_dom (c : Config) (name : string) :
  is_Some (populateAddressSpace c ∅ !! name) ↔ name ∈ pName <$> PLCs c.
Proof.
  unfold populateAddressSpace. rewrite <- elem_of_dom.
  transitivity (name ∈ dom (∅ : namespaces) ∨ name ∈ pName <$> PLCs c); [|rewrite dom_empty; set_solver].
  generalize (∅ : namespaces). induction (PLCs c) as [|p ps IH]; intros ns; simpl; [set_solver|].
  rewrite IH, dom_insert. set_solver.
Qed.

(** Every tick notifies the clients of every configured tag and of nothing else,
    in whatever order the namespaces come. *)
Theorem refresh_tick_correct (c : Config) (order : list string) (plcName tag : string) :
  (∀ name, name ∈ order ↔ is_Some (populateAddressSpace c ∅ !! name)) →
  (plcName, tag) ∈ refresh_tick c order ↔
  ∃ p t, p ∈ PLCs c ∧ t ∈ elems (pTags p) ∧ pName p = plcName ∧ tName t = tag.
Proof.
  intros Ho. unfold refresh_tick. setoid_rewrite list_elem_of_bind. setoid_rewrite list_elem_of_bind.
  setoid_rewrite list_elem_of_filter. setoid_rewrite list_elem_of_fmap. split.
  - intros (n & (p & (t & E & Ht) & Hn & Hp) & _). simplify_eq. eauto 10.
  - intros (p & t & Hp & Ht & <- & <-). exists (pName p). split; [eauto 10|].
    apply Ho, populate_dom. apply list_elem_of_fmap. eauto.
Qed.

(** The loop ends with its context, whatever was to come. *)
Lemma refreshLoop_ends (c : Config) (before after : list refresh_event) :
  CtxDone ∉ before → refreshLoop c (before ++ CtxDone :: after) = refreshLoop c before.
Proof.
  induction before as [|[|order] before IH]; intros H; [done| |]; apply not_elem_of_cons in H as [? H]; [done|].
  simpl. by rewrite IH.
Qed.

(** ** Life *)

(** [running], the servers of the library that listen, and the namespaces. *)
Record opcua := mkOpcua { running : bool; listening : bool; spaces : namespaces }.

(** [New]: nothing is served yet. *)
Definition New : opcua := mkOpcua false false ∅.

Section life.
Context (load_pair : string → string → (list string * private_key) + foreign) (c : Config).

(** [Start] up to the call of the library, and after it; [answer] is what that
    call returns, at once when the server listens. *)
Definition Start_begin : State opcua (option error) := λ s,
  if running s then (Some (Errorf "opcua: server already running" []), s)
  else match start_options load_pair c with
       | inr err => (Some err, s)
       | inl _ => (None, mkOpcua true (listening s) (populateAddressSpace c (spaces s)))
       end.

Definition Start_end (ctx_done : bool) (answer : option foreign) : State opcua (option error) := λ s,
  let s := mkOpcua false (match answer with None => true | Some _ => listening s end) (spaces s) in
  match answer with
  | Some f => if ctx_done then (None, s) else (Some (Errorf "opcua: start: %w" [FWrap (EForeign f)]), s)
  | None => (None, s)
  end.

Definition Start (ctx_done : bool) (answer : option foreign) : State opcua (option error) :=
  e ← Start_begin;
  match e with
  | Some err => mret (Some err)
  | None => Start_end ctx_done answer
  end.

Definition Stop : State opcua (option error) := λ s,
  if negb (running s) then (None, s) else (None, mkOpcua false false (spaces s)).

(** [Start] serves the configured security and every configured tag, or fails
    and serves nothing more than before. *)
Theorem Start_serves (ctx_done : bool) (answer : option foreign) (s : opcua) :
  NoDup (pName <$> PLCs c) → running s = false →
  let '(r, s') := Start ctx_done answer s in
  running s' = false ∧
  (answer = None → r = None →
   listening s' = true ∧ is_Some (match start_options load_pair c with inl o => Some o | inr _ => None end) ∧
   ∀ p t, p ∈ PLCs c → t ∈ elems (pTags p) → is_Some (read_node (spaces s') (pName p) (tName t))) ∧
  (is_Some r → listening s' = listening s).
Proof.
  intros Hnd Hr. unfold Start, Start_begin. rewrite bind_run, Hr.
  destruct (start_options load_pair c) as [o|e] eqn:Eo; [|split_and!; try done].
  unfold Start_end. destruct answer as [f|]; [destruct ctx_done; by split_and!|].
  split_and!; [done| |by intros []]. intros _ _. split_and!; [done|eauto|].
  intros p t Hp Ht. simpl. rewrite (read_node_configured c p t (spaces s) Hnd Hp Ht). eauto.
Qed.

(** [Stop] closes a server only while the library's [Start] has not returned: one
    that was started successfully goes on listening, and may be started again. *)
Theorem stop_after_start (ctx_done : bool) (s : opcua) :
  running s = false → (Start ctx_done None s).1 = None →
  let '(_, s1) := Start ctx_done None s in
  let '(r', s2) := Stop s1 in r' = None ∧ listening s2 = true ∧ (Start ctx_done None s2).1 = None.
Proof.
  intros Hr. unfold Start. rewrite bind_run. unfold Start_begin at 1 2. rewrite Hr.
  destruct (start_options load_pair c) eqn:E; [|done].
  intros _. simpl. split_and!; [done..|]. rewrite bind_run. unfold Start_begin. simpl. by rewrite E.
Qed.
End life.
