(* ===== verification/ServerState.v ===== *)
(** * [internal/server]: the state behind the handlers

    The stores, the audit log and the PLC manager of a running server as one
    state; the adapters that give the write gates of [WriteGuard] access to it;
    and the guarantees these implementations make to the gates. *)

From S2P Require Import Prelude GoString GoTime GoError Config Sql AclStore PlcStore Http Auth.
From S2P Require Import AuditLog WriteGuard ApiWrite PlcManager.

(** [sv_written] are the writes handed to a PLC driver, [sv_answers] what the
    drivers answer to the next ones; a script that has run out answers success. *)
Record server := mkServer {
  sv_plcs : db plc_tables;
  sv_acl : db acl_table;
  sv_audit : audit_log;
  sv_mgr : manager;
  sv_written : list (string * string * value);
  sv_answers : list (option error);
}.

Definition set_plcs x (s : server) : server :=
  mkServer x (sv_acl s) (sv_audit s) (sv_mgr s) (sv_written s) (sv_answers s).
Definition set_acl x (s : server) : server :=
  mkServer (sv_plcs s) x (sv_audit s) (sv_mgr s) (sv_written s) (sv_answers s).
Definition set_audit x (s : server) : server :=
  mkServer (sv_plcs s) (sv_acl s) x (sv_mgr s) (sv_written s) (sv_answers s).
Definition set_mgr x (s : server) : server :=
  mkServer (sv_plcs s) (sv_acl s) (sv_audit s) x (sv_written s) (sv_answers s).

Definition on_plcs {A : Type} : State (db plc_tables) A → State server A := zoom sv_plcs set_plcs.
Definition on_acl {A : Type} : State (db acl_table) A → State server A := zoom sv_acl set_acl.
Definition on_audit {A : Type} : State audit_log A → State server A := zoom sv_audit set_audit.

(** ** The adapters *)

Section adapters.
(** The time at which the handler runs. *)
Context (now : time).

#[export] Instance server_get_plc : PLCGetter server := λ name, on_plcs (PlcStore.Get name).
#[export] Instance server_tag_meta : TagReadable server := plcstoreTagReader.
#[export] Instance server_can_write : ACLReader server := λ role plc tag,
  on_acl (AclStore.CanWrite role plc tag).

(** [Manager.WriteTag]: the driver of the worker under that name, if any, is
    called once. *)
Definition managerWriteTag (plc tag : string) (v : value) : State server (option error) := λ s,
  match PlcManager.WriteTag plc (sv_mgr s) with
  | inr err => (Some err, s)
  | inl _ =>
      let '(answer, rest) :=
        match sv_answers s with [] => (None, []) | a :: rest => (a, rest) end in
      (answer, mkServer (sv_plcs s) (sv_acl s) (sv_audit s) (sv_mgr s)
                 (sv_written s ++ [(plc, tag, v)]) rest)
  end.

#[export] Instance server_write_tag : TagWriter server := managerWriteTag.

#[export] Instance server_audit : AuditSink server := λ e, on_audit (Log now e).

(** ** What the stores answer under faults *)

Lemma query_sound {T A : Type} (q : T → A) (d : db T) :
  tables (query q d).2 = tables d ∧
  (∀ a, (query q d).1 = inl a → a = q (tables d)) ∧
  (faults d = [] → query q d = (inl (q (tables d)), d)).
Proof.
  unfold query, exec, next_fault. unfold_state. destruct d as [t [|[f|] fs]]; simpl;
    split_and!; try done; by intros a [= ->].
Qed.

Lemma Get_sound name d :
  tables (PlcStore.Get name d).2 = tables d ∧
  ∀ p, (PlcStore.Get name d).1 = inl p → find (tables d) name = Some p.
Proof.
  unfold PlcStore.Get. rewrite bind_run.
  destruct (query_sound (select_plc name) d) as (H1 & H2 & _).
  destruct (query _ d) as [[[[id r]|]|f] d1]; simpl in *; [|done..].
  specialize (H2 _ eq_refl). unfold listTags. rewrite !bind_run.
  destruct (query_sound (λ t, select_where (of_plc id) (plc_tags t)) d1) as (H3 & H4 & _).
  destruct (query _ d1) as [[rs|f] d2]; simpl in *; (split; [congruence|]); [|done].
  intros p [= <-]. unfold find. rewrite <- H2. simpl. by rewrite (H4 _ eq_refl), H1.
Qed.

Lemma CanWrite_allows role plc tag d :
  tables (AclStore.CanWrite role plc tag d).2 = tables d ∧
  ((AclStore.CanWrite role plc tag d).1 = inl true → AclStore.granted (tables d) role plc tag).
Proof.
  unfold AclStore.CanWrite. rewrite bind_run.
  set (q := select_one _). destruct (query_sound q d) as (H1 & H2 & _).
  destruct (query q d) as [[[x|]|f] d1]; simpl in *; (split; [done|]); [|done..].
  intros [= Ha]. specialize (H2 _ eq_refl). symmetry in H2. unfold q in H2.
  apply select_one_Some in H2 as [Hin Hx]. destruct x as [i r]. simpl in *. bool_to_prop.
  exists i, r. split; [done|]. unfold acl_key. split; [|done].
  repeat match goal with E : String.eqb _ _ = true |- _ => apply String.eqb_eq in E end.
  by subst.
Qed.

(** ** The guarantee to the gates *)

(** The master switches of a stored tag: those of the first tag of that name. *)
Definition switches (t : plc_tables) (plc tag : string) : option tag_meta :=
  p ← find t plc;
  x ← List.find (λ t, String.eqb (tName t) tag) (elems (pTags p));
  Some (TagMetaOf (tWritable x) (tDCMDEnabled x)).

Definition server_observe (s : server) : observation :=
  Observation (sv_written s) (tables (sv_audit s))
    (match faults (sv_audit s) with Some _ :: _ => true | _ => false end)
    (switches (tables (sv_plcs s))) (AclStore.granted (tables (sv_acl s))).

#[export] Program Instance server_write_surface : WriteSurface server :=
  {| observe := server_observe |}.
Next Obligation.
  intros plc tag s. unfold TagMeta, server_tag_meta, plcstoreTagReader, GetPLC, server_get_plc,
    on_plcs, zoom. rewrite bind_run.
  destruct (Get_sound plc (sv_plcs s)) as [H _]. destruct (PlcStore.Get plc _) as [r d].
  unfold server_observe. simpl in *. by rewrite H.
Qed.
Next Obligation.
  intros plc tag s m. unfold TagMeta, server_tag_meta, plcstoreTagReader, GetPLC, server_get_plc,
    on_plcs, zoom. rewrite bind_run.
  destruct (Get_sound plc (sv_plcs s)) as [_ H]. destruct (PlcStore.Get plc _) as [[p|] d]; [|done].
  simpl in *. unfold switches. rewrite (H p eq_refl). done.
Qed.
Next Obligation.
  intros role plc tag s. unfold CanWrite, server_can_write, on_acl, zoom.
  destruct (CanWrite_allows role plc tag (sv_acl s)) as [H _].
  destruct (AclStore.CanWrite _ _ _ _) as [r d]. unfold server_observe. simpl in *. by rewrite H.
Qed.
Next Obligation.
  intros role plc tag s. unfold CanWrite, server_can_write, on_acl, zoom.
  destruct (CanWrite_allows role plc tag (sv_acl s)) as [_ H].
  by destruct (AclStore.CanWrite _ _ _ _) as [r d].
Qed.
Next Obligation.
  intros plc tag v s. unfold WriteGuard.WriteTag, server_write_tag, managerWriteTag.
  destruct (PlcManager.WriteTag plc (sv_mgr s)) as [d|err]; [|simpl; split_and!; eauto].
  destruct (sv_answers s) as [|a rest]; simpl; auto.
Qed.
Next Obligation.
  intros e s. unfold Audit, server_audit, on_audit, zoom.
  pose proof (Log_adds now e (sv_audit s)) as H.
  assert (Hd : is_Some (Log now e (sv_audit s)).1 →
    match faults (sv_audit s) with Some _ :: _ => true | _ => false end = true).
  { unfold Log, exec, next_fault. unfold_state.
    destruct (sv_audit s) as [l [|[f|] fs]]; simpl; [by intros []|done|by intros []]. }
  destruct (Log now e (sv_audit s)) as [r d]. simpl in *. split; [done|].
  destruct H as [(e' & H)|[H Hr]]; [left; exists e'; naive_solver|right; auto].
Qed.

#[export] Instance server_plc_reads : PLCReads server.
Proof.
  intros name s. unfold GetPLC, server_get_plc, on_plcs, zoom.
  destruct (Get_sound name (sv_plcs s)) as [H _]. destruct (PlcStore.Get name _) as [r d].
  simpl in *. unfold observe. simpl. unfold server_observe. simpl. by rewrite H.
Qed.

(** *** The gate of a server whose databases answer *)

Lemma tag_meta_run (s : server) t plc tag :
  sv_plcs s = Db t [] → TagMeta plc tag s = (switches t plc tag, s).
Proof.
  intros Ht. unfold TagMeta, server_tag_meta, plcstoreTagReader, GetPLC, server_get_plc, on_plcs, zoom.
  rewrite bind_run, Ht, Get_run. unfold switches. destruct s. simpl in *. subst.
  by destruct (find t plc).
Qed.

Lemma can_write_run (s : server) t role plc tag :
  sv_acl s = Db t [] → acl_ok t →
  ∃ b, WriteGuard.CanWrite role plc tag s = (inl b, s) ∧ (b = true ↔ AclStore.granted t role plc tag).
Proof.
  intros Ht Hok. destruct (CanWrite_run t role plc tag Hok) as (b & Hb & Hiff). exists b.
  split; [|done]. unfold WriteGuard.CanWrite, server_can_write, on_acl, zoom. rewrite Ht, Hb.
  destruct s. simpl in *. by subst.
Qed.

Lemma authorize_run (s : server) tp ta actor plc tag v :
  sv_plcs s = Db tp [] → sv_acl s = Db ta [] → acl_ok ta →
  ∃ d, AuthorizeHTTP actor plc tag v s = (d, s) ∧
       (Allowed d = true ↔ http_permitted (server_observe s) (actorRole actor) plc tag).
Proof.
  intros Hp Ha Hok. unfold AuthorizeHTTP, http_permitted, server_observe. simpl.
  rewrite bind_run, (tag_meta_run s tp) by done. rewrite Hp, Ha. simpl.
  destruct (switches tp plc tag) as [m|]; [|eexists; split; [done|naive_solver]].
  destruct (Writable m) eqn:Hw; simpl; [|eexists; split; [done|naive_solver]].
  rewrite bind_run. destruct (can_write_run s ta (actorRole actor) plc tag Ha Hok) as (b & -> & Hb).
  eexists. split; [done|]. rewrite <- Hb. destruct b; simpl; naive_solver.
Qed.

Lemma emit_written deps plc tag v outcome reason source user (s : server) :
  sv_written (emitWriteAuditDetail deps plc tag v outcome reason source user s).2 = sv_written s.
Proof. exact (proj1 (emit_spec deps plc tag v outcome reason source user s)). Qed.

Lemma no_switches_closed (s : server) tp role plc tag :
  sv_plcs s = Db tp [] → switches tp plc tag = None → ¬ http_permitted (server_observe s) role plc tag.
Proof.
  intros Hp Hsw [(m & Hm & _) _]. unfold server_observe in Hm. simpl in Hm. rewrite Hp in Hm. simpl in Hm. congruence.
Qed.

Lemma unlisted_tag_switches tp plc tag p :
  find tp plc = Some p → existsb (λ t, String.eqb (tName t) tag) (elems (pTags p)) = false →
  switches tp plc tag = None.
Proof.
  intros Ef Ee. unfold switches. rewrite Ef. simpl. destruct (List.find _ _) as [x|] eqn:E; [|done].
  apply List.find_some in E as [Hin Hx]. exfalso.
  assert (existsb (λ t, String.eqb (tName t) tag) (elems (pTags p)) = true); [|congruence].
  apply List.existsb_exists. eauto.
Qed.

Lemma write_gate_spec (deps : write_deps) (r : request value) (v : value) (c : Claims)
    (s : server) :
  faults (sv_plcs s) = [] → faults (sv_acl s) = [] → acl_ok (tables (sv_acl s)) →
  has_manager deps = true → r_body r = Some v → r_claims r = Some c →
  let '(resp, s') := handleWriteTag deps r s in
  let plc := r_path r "plc" in let tag := r_path r "tag" in
  let open := http_permitted (server_observe s) (cRole c) plc tag ∧
              is_Some (workers (sv_mgr s) !! plc) in
  (open → sv_written s' = sv_written s ++ [(plc, tag, v)]) ∧
  (¬ open → sv_written s' = sv_written s) ∧
  (status resp = 200 ↔ open ∧ default None (head (sv_answers s)) = None).
Proof.
  intros Hfp Hfa Hok Hm Hv Hc. destruct (sv_plcs s) as [tp fp] eqn:Hp. simpl in Hfp. subst fp.
  destruct (sv_acl s) as [ta fa] eqn:Ha. simpl in Hfa, Hok. subst fa.
  unfold handleWriteTag. set (plc := r_path r "plc"). set (tag := r_path r "tag").
  rewrite Hv, bind_run. unfold GetPLC, server_get_plc, on_plcs at 1, zoom at 1. rewrite Hp, Get_run.
  assert (Hs : set_plcs (Db tp []) s = s) by (destruct s; simpl in *; by subst).
  pose proof (no_switches_closed s tp (cRole c) plc tag Hp) as Hno.
  destruct (find tp plc) as [p|] eqn:Ef; rewrite Hs.
  2: { simpl. specialize (Hno ltac:(unfold switches; by rewrite Ef)). split_and!; naive_solver. }
  destruct (existsb _ _) eqn:Ee; cbn [negb].
  2: { specialize (Hno (unlisted_tag_switches tp plc tag p Ef Ee)). simpl. split_and!; naive_solver. }
  clear Hno.
  unfold ClaimsFromContext. rewrite Hc, bind_run.
  destruct (authorize_run s tp ta (mkActor (cUsername c) (cRole c)) plc tag v Hp Ha Hok)
    as (d & -> & Hd). simpl in Hd.
  destruct (Allowed d); cbn [negb].
  2: { rewrite bind_run. unfold emitWriteAudit.
       pose proof (emit_written deps plc tag v "deny" (Reason d) "http" (cUsername c) s) as Hw.
       simpl actorUsername. destruct (emitWriteAuditDetail _ _ _ _ _ _ _ _ s) as [u s']. simpl in *.
       assert (¬ http_permitted (server_observe s) (cRole c) plc tag) by naive_solver.
       split_and!; naive_solver. }
  assert (Hperm : http_permitted (server_observe s) (cRole c) plc tag) by naive_solver.
  rewrite Hm, bind_run. unfold WriteGuard.WriteTag, server_write_tag, managerWriteTag, PlcManager.WriteTag.
  destruct (workers (sv_mgr s) !! plc) as [w|] eqn:Ew.
  - destruct (sv_answers s) as [|a rest] eqn:Ean; simpl default.
    all: unfold emitWriteAudit; simpl actorUsername.
    all: try destruct a as [err|].
    all: rewrite bind_run;
      lazymatch goal with |- context [emitWriteAuditDetail ?a ?b ?c' ?d' ?e ?f ?g ?h ?st] =>
        pose proof (emit_written a b c' d' e f g h st) as Hw;
        destruct (emitWriteAuditDetail a b c' d' e f g h st) as [u s'] end;
      simpl in *; rewrite Hw; split_and!; naive_solver.
  - unfold emitWriteAudit. simpl actorUsername. rewrite bind_run.
    lazymatch goal with |- context [emitWriteAuditDetail ?a ?b ?c' ?d' ?e ?f ?g ?h ?st] =>
      pose proof (emit_written a b c' d' e f g h st) as Hw;
      destruct (emitWriteAuditDetail a b c' d' e f g h st) as [u s'] end.
    simpl in *. rewrite Hw. split_and!; [intros [_ [? [=]]]|done|].
    split; [done|]. by intros [[_ [? [=]]] _].
Qed.

(** C3 Over HTTP, with databases that answer, a value is handed to the PLC
    driver exactly when the tag is writable, a rule grants the caller's role the
    write and the manager runs the PLC; the request succeeds exactly when the
    driver then accepts the value. *)
Theorem write_gate_exact (deps : write_deps) (r : request value) (v : value) (c : Claims)
    (s : server) :
  faults (sv_plcs s) = [] → faults (sv_acl s) = [] → acl_ok (tables (sv_acl s)) →
  has_manager deps = true → r_body r = Some v → r_claims r = Some c →
  let '(resp, s') := handleWriteTag deps r s in
  let plc := r_path r "plc" in let tag := r_path r "tag" in
  let open := http_permitted (server_observe s) (cRole c) plc tag ∧
              is_Some (workers (sv_mgr s) !! plc) in
  (open → sv_written s' = sv_written s ++ [(plc, tag, v)]) ∧
  (¬ open → sv_written s' = sv_written s) ∧
  (status resp = 200 ↔ open ∧ default None (head (sv_answers s)) = None).
Proof. apply write_gate_spec. Qed.

End adapters.

(** ** A sample server *)

(** The rule of [sample_acl] for "A" does not cover the tag; one more does. *)
Definition gate_acl : acl_table :=
  Eval vm_compute in tables (AclStore.run_op (AclStore.OpCreate (mkACLRule 0 "operator" "plc1" "Speed" true))
                               (Db sample_acl [])).2.

Lemma gate_acl_ok : acl_ok gate_acl.
Proof.
  exact (acl_run_op_ok (AclStore.OpCreate (mkACLRule 0 "operator" "plc1" "Speed" true))
           (Db sample_acl []) sample_acl_ok).
Qed.

Definition sample_server : server :=
  mkServer (Db sample_plcs []) (Db gate_acl []) (Db [] [])
    (PlcManager.Start [] (NewManager [sample_plc])) [] [].

Definition write_request (role tag : string) (v : value) : request value :=
  mkRequest "POST" "" (λ _, None) (λ _, "") (λ k, if String.eqb k "plc" then "plc1" else tag)
    "127.0.0.1:9" (Some v) (Some (mkClaims 1 "ana" role 0 0)).

Definition all_deps : write_deps := WriteDeps true true true.

Theorem write_gate_exact_witness :
  let '(resp, s') := handleWriteTag (S := server) (AuditSink0 := server_audit 0) all_deps
                       (write_request "operator" "Speed" (VFloat64 0)) sample_server in
  let open := http_permitted (server_observe sample_server) "operator" "plc1" "Speed" ∧
              is_Some (workers (sv_mgr sample_server) !! "plc1") in
  status resp = 200 ∧ open ∧ sv_written s' = [("plc1", "Speed", VFloat64 0)].
Proof.
  pose proof (write_gate_exact 0 all_deps (write_request "operator" "Speed" (VFloat64 0))
                (VFloat64 0) (mkClaims 1 "ana" "operator" 0 0) sample_server
                eq_refl eq_refl gate_acl_ok eq_refl eq_refl eq_refl) as H.
  assert (Hs : status (handleWriteTag (S := server) (AuditSink0 := server_audit 0) all_deps
     (write_request "operator" "Speed" (VFloat64 0)) sample_server).1 = 200) by (vm_compute; reflexivity).
  destruct (handleWriteTag _ _ _) as [resp s']. cbn [fst] in Hs. cbv zeta in H.
  destruct H as (H1 & _ & H3). destruct (proj1 H3 Hs) as [Hopen _].
  split_and!; [done|apply Hopen..|by apply H1].
Defined.

#[local] Instance audit_at_0 : AuditSink server := server_audit 0.
#[local] Instance write_surface_at_0 : WriteSurface server := server_write_surface 0.
#[local] Instance plc_reads_at_0 : PLCReads server := server_plc_reads 0.

(** The write surfaces on the sample server: a granted write, and a command. *)
Theorem handleWriteTag_correct_witness :
  let r := write_request "operator" "Speed" (VFloat64 0) in
  let '(resp, s') := handleWriteTag (S := server) all_deps r sample_server in
  status resp = 200 ∧ written (observe sample_server) (observe s') "plc1" "Speed" (VFloat64 0) ∧
  logged all_deps (observe sample_server) (observe s') "allow" "ana".
Proof.
  cbv zeta. pose proof (handleWriteTag_correct (S := server) all_deps
                (write_request "operator" "Speed" (VFloat64 0)) sample_server) as H.
  assert (Hs : status (handleWriteTag (S := server) all_deps
     (write_request "operator" "Speed" (VFloat64 0)) sample_server).1 = 200) by (vm_compute; reflexivity).
  destruct (handleWriteTag _ _ _) as [resp s']. cbn [fst] in Hs. cbv zeta in *.
  cbn [caller r_claims write_request cUsername cRole] in H. rewrite Hs in H.
  destruct H as (_ & Hl & v & [= <-] & Hw).
  split; [exact Hs|split; [exact Hw|exact Hl]].
Defined.

Theorem SparkplugCommandHandler_correct_witness :
  match SparkplugCommandHandler (S := server) all_deps with
  | Some h =>
      let s' := (h "plc1" "Speed" (VFloat64 0) sample_server).2 in
      writes (observe s') = writes (observe sample_server) ∨
      written (observe sample_server) (observe s') "plc1" "Speed" (VFloat64 0)
  | None => False
  end.
Proof.
  pose proof (SparkplugCommandHandler_correct (S := server) all_deps
                "plc1" "Speed" (VFloat64 0) sample_server) as H.
  unfold SparkplugCommandHandler in *. cbn [all_deps has_guard has_manager negb orb] in *.
  cbv zeta in H. destruct (AuthorizeDCMD _ _ _) as [d s1]. destruct (Allowed d); [|by left; apply H].
  destruct H as [_ H]. destruct (fst _); naive_solver.
Defined.
