(* ===== verification/ApiPlcs.v ===== *)
(** * [internal/server]: the PLC administration API

    The handlers of [/api/plcs] over the state of the server: a change is
    validated, stored, audited, and handed to the PLC manager, so that after it
    the manager runs exactly the stored PLCs. *)

From S2P Require Import Prelude GoString GoTime GoError Config Sql PlcStore Http Auth AuditLog.
From S2P Require Import WriteGuard ApiWrite PlcManager ServerState.

(** ** Bodies *)

Record plcTagResponse := mkPlcTag {
  rtName : string; rtType : string; rtWritable : bool; rtDcmdEnabled : bool;
}.

(** The decoded body of a create or an update. *)
Record plc_req := mkPlcReq {
  rqName : string; rqAddress : string; rqSlot : Z; rqSocketTimeout : string; rqScanRate : string;
  rqKeepAlive : bool; rqPath : string; rqTags : list plcTagResponse;
}.

Definition plcToResponse (p : PLC) : value :=
  VObj [("name", VString (pName p)); ("address", VString (pAddress p)); ("slot", VInt64 (pSlot p));
        ("socket_timeout", VString (pSocketTimeout p)); ("scan_rate", VString (pScanRate p));
        ("keep_alive", VBool (pKeepAlive p)); ("path", VString (pPath p));
        ("tags", VList ((λ t, VObj [("name", VString (tName t)); ("type", VString (tType t));
                                    ("writable", VBool (tWritable t));
                                    ("dcmd_enabled", VBool (tDCMDEnabled t))])
                        <$> elems (pTags p)))].

Definition plc_of_req (rq : plc_req) : PLC :=
  mkPLC (rqName rq) (rqAddress rq) (rqSlot rq) (rqSocketTimeout rq) (rqScanRate rq)
    (rqKeepAlive rq) (rqPath rq)
    (Some ((λ t, mkTagDef (rtName t) (rtType t) (rtWritable t) (rtDcmdEnabled t)) <$> rqTags rq)).

(** [None] is the error of the decoder. *)
Definition decodePLCRequest (r : request plc_req) : option PLC := plc_of_req <$> r_body r.

Definition actorFromContext {B} (r : request B) : string :=
  match ClaimsFromContext r with Some claims => cUsername claims | None => "unknown" end.

(** ** [Manager.Reload], without other goroutines in between *)

(** The goroutines [Reload] waits for return. *)
Definition exit_drained (r : reload) (m : manager) : manager :=
  mkManager (workers m) (current m) (stopped m) (started m) (reloading m)
    (filter (λ g, g_done g ∉ rl_done r) (running m))
    ((g_done <$> filter (λ g, g_done g ∈ rl_done r) (running m)) ++ closed_chans m)
    (closed_drivers m) (cancelled m) (fresh m) (calls m).

Definition Reload (c : ctx) (cfgs : list PLC) (m : manager) : manager :=
  if stopped m then m
  else
    let m := reload_drain c cfgs m in
    match reloading m with
    | None => m
    | Some r => reload_finish r (exit_drained r m)
    end.

Definition plc_not_found : response := writeAPIError StatusNotFound "plc_not_found" "PLC not found".

Section handlers.
Context {Eng : Engine} (deps : write_deps) (now : time) (req_ctx : ctx).

Definition reloadPLCsFromStore : State server unit :=
  if negb (has_manager deps) then mret tt
  else
    plcs ← on_plcs List;
    match plcs with
    | inr _ => mret tt
    | inl plcs => modify (λ s, set_mgr (Reload req_ctx plcs (sv_mgr s)) s)
    end.

Definition audit_plc {B} (r : request B) (action detail : string) : State server unit :=
  if negb (has_audit deps) then mret tt
  else
    _ ← on_audit (Log now (mkAuditEvent zero_time action (actorFromContext r) 0 (Lit detail) ""));
    mret tt.

Definition handleListPLCs : handler server unit := λ _,
  plcs ← on_plcs List;
  mret (match plcs with
        | inr _ => internal_error "could not list PLCs"
        | inl plcs => writeJSON StatusOK (data (VList (plcToResponse <$> plcs)))
        end).

Definition handleGetPLC : handler server unit := λ r,
  p ← on_plcs (Get (r_path r "name"));
  mret (match p with
        | inr err => if is_error ErrPLCNotFound err then plc_not_found
                     else internal_error "could not get PLC"
        | inl p => writeJSON StatusOK (data (plcToResponse p))
        end).

(** What a create and an update have in common after the store has committed:
    the audit event, the reload, and the stored PLC or the one of the request. *)
Definition finish_write {B} (r : request B) (action detail : string) (code : Z) (p : PLC)
    : State server response :=
  _ ← audit_plc r action detail;
  _ ← reloadPLCsFromStore;
  stored ← on_plcs (Get (pName p));
  mret (writeJSON code (data (plcToResponse (match stored with inl p' => p' | inr _ => p end)))).

Definition handleCreatePLC : handler server plc_req := λ r,
  match decodePLCRequest r with
  | None => mret (writeAPIError StatusBadRequest "bad_request" "invalid request body")
  | Some p =>
      match ValidatePLC p with
      | Some err => mret (writeAPIError_of StatusBadRequest "invalid_plc" err)
      | None =>
          err ← on_plcs (Create (unix_sec now) p);
          match err with
          | Some err =>
              mret (if is_error ErrPLCAlreadyExists err
                    then writeAPIError StatusConflict "duplicate_plc"
                           "a PLC with that name already exists"
                    else internal_error "could not create PLC")
          | None => finish_write r "plc.create" (pName p) StatusCreated p
          end
      end
  end.

Definition handleUpdatePLC : handler server plc_req := λ r,
  let name := r_path r "name" in
  match decodePLCRequest r with
  | None => mret (writeAPIError StatusBadRequest "bad_request" "invalid request body")
  | Some p =>
      match ValidatePLC p with
      | Some err => mret (writeAPIError_of StatusBadRequest "invalid_plc" err)
      | None =>
          err ← on_plcs (Update (unix_sec now) name p);
          match err with
          | Some err =>
              mret (if is_error ErrPLCNotFound err then plc_not_found
                    else if is_error ErrPLCAlreadyExists err
                    then writeAPIError StatusConflict "duplicate_plc"
                           "another PLC already has that name"
                    else internal_error "could not update PLC")
          | None => finish_write r "plc.update" name StatusOK p
          end
      end
  end.

Definition handleDeletePLC : handler server unit := λ r,
  let name := r_path r "name" in
  err ← on_plcs (Delete name);
  match err with
  | Some err =>
      mret (if is_error ErrPLCNotFound err then plc_not_found
            else internal_error "could not delete PLC")
  | None =>
      _ ← audit_plc r "plc.delete" name;
      _ ← reloadPLCsFromStore;
      mret no_content
  end.
End handlers.

(** ** What the handlers leave *)

(** The manager runs exactly the stored PLCs, with their configurations. *)
Definition in_sync (s : server) : Prop :=
  ∀ n, w_cfg <$> workers (sv_mgr s) !! n = find (tables (sv_plcs s)) n.

(** A change asked for over HTTP. *)
Inductive change :=
| ChangeCreate (r : request plc_req)
| ChangeUpdate (r : request plc_req)
| ChangeDelete (r : request unit).

Section correctness.
Context {Eng : Engine} (deps : write_deps) (now : time) (req_ctx : ctx).

Definition run_change (q : change) : State server response :=
  match q with
  | ChangeCreate r => handleCreatePLC deps now req_ctx r
  | ChangeUpdate r => handleUpdatePLC deps now req_ctx r
  | ChangeDelete r => handleDeletePLC deps now req_ctx r
  end.

(** The store operation a change amounts to; [None] when it is refused. *)
Definition accepted (b : option plc_req) : option PLC :=
  rq ← b; if decide (ValidatePLC (plc_of_req rq) = None) then Some (plc_of_req rq) else None.

Definition op_of (q : change) : option plc_op :=
  match q with
  | ChangeCreate r => OpCreate (unix_sec now) <$> accepted (r_body r)
  | ChangeUpdate r => OpUpdate (unix_sec now) (r_path r "name") <$> accepted (r_body r)
  | ChangeDelete r => Some (OpDelete (r_path r "name"))
  end.

Definition success_code (q : change) : Z :=
  match q with ChangeCreate _ => 201 | ChangeUpdate _ => 200 | ChangeDelete _ => 204 end.

Definition failure_code (err : error) : Z :=
  if is_error ErrPLCNotFound err then 404 else if is_error ErrPLCAlreadyExists err then 409 else 500.

Definition change_event (q : change) : string * string * string :=
  match q with
  | ChangeCreate r => ("plc.create", actorFromContext r, match r_body r with Some rq => rqName rq | None => "" end)
  | ChangeUpdate r => ("plc.update", actorFromContext r, r_path r "name")
  | ChangeDelete r => ("plc.delete", actorFromContext r, r_path r "name")
  end.

(** The audit log has one more event, which names the actor and the PLC, unless
    the log is down. *)
Definition change_logged (q : change) (l l' : audit_log) : Prop :=
  (∃ e, tables l' = tables l ++ [e] ∧
        (evAction e, evUsername e, evDetail e) =
        ((change_event q).1.1, (change_event q).1.2, Lit (change_event q).2)) ∨
  tables l' = tables l ∧ ∃ f fs, faults l = Some f :: fs.

Lemma reload_sync (s : server) t :
  sv_plcs s = Db t [] → plc_ok t → has_manager deps = true → stopped (sv_mgr s) = false →
  let s' := (reloadPLCsFromStore deps req_ctx s).2 in
  in_sync s' ∧ sv_plcs s' = Db t [] ∧ sv_audit s' = sv_audit s ∧ sv_acl s' = sv_acl s ∧
  sv_written s' = sv_written s.
Proof.
  intros Ht Hok Hm Hst. cbv zeta. unfold reloadPLCsFromStore, on_plcs, zoom. rewrite Hm. simpl.
  rewrite bind_run, Ht. destruct (List_run t Hok) as (ps & -> & _ & Hnd & Hps). simpl.
  split_and!; [|done..]. intros n. simpl. unfold Reload. rewrite Hst.
  cbn [reloading reload_drain].
  pose proof (reload_lookup req_ctx ps (sv_mgr s)
    (exit_drained (mkReload req_ctx ps (w_driver ∘ snd <$> toDrain ps (sv_mgr s))
                     (w_done ∘ snd <$> toDrain ps (sv_mgr s))) (reload_drain req_ctx ps (sv_mgr s)))
    n Hnd eq_refl) as H.
  unfold reload_finish. cbn [workers rl_ctx rl_cfg] in H |- *.
  assert (Hf : List.find (λ p, String.eqb (pName p) n) ps = find t n).
  { destruct (List.find _ ps) as [p|] eqn:E.
    - apply List.find_some in E as [Hin Hn%String.eqb_eq]. subst n. symmetry. apply Hps.
      by apply list_elem_of_In.
    - symmetry. destruct (find t n) as [p|] eqn:Ef; [|done].
      assert (pName p = n) as <- by (by eapply find_name).
      apply Hps, list_elem_of_In in Ef. pose proof (List.find_none _ _ E _ Ef) as Hx.
      simpl in Hx. by rewrite String.eqb_refl in Hx. }
  rewrite Hf in H. destruct (find t n) as [p|]; [|by rewrite H].
  destruct (workers (sv_mgr s) !! n) as [w|].
  - destruct (deep_equal (w_cfg w) p) eqn:Ed.
    + rewrite H. simpl. unfold deep_equal in Ed. bool_to_prop. by subst.
    + by destruct H as (d & ch & -> & _).
  - by destruct H as (d & ch & -> & _).
Qed.

Lemma audit_plc_run {B} (r : request B) action detail (s : server) :
  has_audit deps = true →
  ∃ l, (audit_plc deps now r action detail s).2 = ServerState.set_audit l s ∧
  ((∃ e, tables l = tables (sv_audit s) ++ [e] ∧
         (evAction e, evUsername e, evDetail e) = (action, actorFromContext r, Lit detail)) ∨
   tables l = tables (sv_audit s) ∧ ∃ f fs, faults (sv_audit s) = Some f :: fs).
Proof.
  intros Ha. unfold audit_plc, on_audit, zoom. rewrite Ha. simpl. rewrite bind_run.
  set (e0 := mkAuditEvent _ _ _ _ _ _).
  pose proof (Log_adds now e0 (sv_audit s)) as H.
  pose proof (Log_down now e0 (sv_audit s)) as Hd.
  destruct (Log now e0 (sv_audit s)) as [o l]. simpl in *. exists l. split; [done|].
  destruct H as [(e & H & H1 & H2 & H3 & _)|[H Hr]]; [left; exists e; by rewrite H1, H2, H3|auto].
Qed.

(** The end of a change the store has committed. *)
Lemma finish_sync {B} (r : request B) action detail (s : server) t :
  sv_plcs s = Db t [] → plc_ok t → has_manager deps = true → has_audit deps = true →
  stopped (sv_mgr s) = false →
  let s' := (reloadPLCsFromStore deps req_ctx (audit_plc deps now r action detail s).2).2 in
  in_sync s' ∧ sv_plcs s' = Db t [] ∧ sv_written s' = sv_written s ∧ sv_acl s' = sv_acl s ∧
  ((∃ e, tables (sv_audit s') = tables (sv_audit s) ++ [e] ∧
         (evAction e, evUsername e, evDetail e) = (action, actorFromContext r, Lit detail)) ∨
   tables (sv_audit s') = tables (sv_audit s) ∧ ∃ f fs, faults (sv_audit s) = Some f :: fs).
Proof.
  intros Ht Hok Hm Ha Hst. cbv zeta.
  destruct (audit_plc_run r action detail s Ha) as (l & -> & Hl).
  destruct (reload_sync (ServerState.set_audit l s) t Ht Hok Hm Hst) as (H1 & H2 & H3 & H4 & H5).
  rewrite H3. by split_and!.
Qed.

Lemma finish_write_run {B} (r : request B) action detail code p (s : server) t :
  sv_plcs s = Db t [] → plc_ok t → has_manager deps = true → has_audit deps = true →
  stopped (sv_mgr s) = false → find t (pName p) = Some (stored p) →
  finish_write deps now req_ctx r action detail code p s =
  (writeJSON code (data (plcToResponse (stored p))),
   (reloadPLCsFromStore deps req_ctx (audit_plc deps now r action detail s).2).2).
Proof.
  intros Ht Hok Hm Ha Hst Hf.
  destruct (finish_sync r action detail s t Ht Hok Hm Ha Hst) as (_ & Hp & _).
  unfold finish_write. rewrite bind_run. destruct (audit_plc _ _ _ _ _ s) as [u s1]. simpl in *.
  rewrite bind_run. destruct (reloadPLCsFromStore _ _ s1) as [u' s2]. simpl in *.
  rewrite bind_run. unfold on_plcs, zoom. rewrite Hp, Get_run, Hf. simpl.
  destruct s2; simpl in *; by subst.
Qed.

(** What a change does to a server whose PLC database answers. *)
Definition change_spec (q : change) (s : server) (resp : response) (s' : server) : Prop :=
  sv_acl s' = sv_acl s ∧ sv_written s' = sv_written s ∧
  match op_of q with
  | None => status resp = 400 ∧ s' = s
  | Some op =>
      let '(res, m) := plc_spec op false (find (tables (sv_plcs s))) in
      plc_ok (tables (sv_plcs s')) ∧ (∀ n, find (tables (sv_plcs s')) n = m n) ∧
      match res with
      | Some err => status resp = failure_code err ∧ sv_mgr s' = sv_mgr s ∧ sv_audit s' = sv_audit s
      | None => status resp = success_code q ∧ in_sync s' ∧
                change_logged q (sv_audit s) (sv_audit s')
      end
  end.

Lemma on_plcs_run {A} (f : State (db plc_tables) A) (s : server) :
  on_plcs f s = ((f (sv_plcs s)).1, set_plcs (f (sv_plcs s)).2 s).
Proof. unfold on_plcs, zoom. by destruct (f _). Qed.

(** A change the store refuses, and one it commits. *)
Lemma change_refused q op (s : server) t err m resp :
  sv_plcs s = Db t [] → plc_ok t → op_of q = Some op →
  plc_spec op false (find t) = (Some err, m) → (∀ n, find t n = m n) →
  status resp = failure_code err → change_spec q s resp s.
Proof.
  intros Ht Hok Hop Hspec Hm Hr. unfold change_spec. rewrite Hop, Ht. cbn [tables].
  by rewrite Hspec.
Qed.

Lemma change_committed q op (s : server) t t' m {B} (r : request B) action detail resp :
  has_manager deps = true → has_audit deps = true → stopped (sv_mgr s) = false →
  sv_plcs s = Db t [] → plc_ok t' → op_of q = Some op →
  plc_spec op false (find t) = (None, m) → (∀ n, find t' n = m n) →
  change_event q = (action, actorFromContext r, detail) → status resp = success_code q →
  change_spec q s resp
    (reloadPLCsFromStore deps req_ctx
       (audit_plc deps now r action detail (set_plcs (Db t' []) s)).2).2.
Proof.
  intros Hm Ha Hst Ht Hok' Hop Hspec Hfind Hev Hr. unfold change_spec, change_logged.
  rewrite Hop, Ht. cbn [tables]. rewrite Hspec, Hev.
  destruct (finish_sync r action detail (set_plcs (Db t' []) s) t' eq_refl Hok' Hm Ha Hst)
    as (H1 & -> & H3 & H4 & H5).
  split_and!; done.
Qed.

Lemma set_plcs_same (s : server) d : sv_plcs s = d → set_plcs d s = s.
Proof. intros <-. by destruct s. Qed.

(** The errors of the store, and their codes. *)
Lemma plc_spec_error op m err m' :
  plc_spec op false m = (Some err, m') →
  err = Sentinel ErrPLCNotFound ∧ (∀ n p, op ≠ OpCreate n p) ∨ err = Sentinel ErrPLCAlreadyExists ∨
  err = duplicate_tag.
Proof.
  destruct op as [n p|n name p|name|n ps]; simpl; repeat split_match; intros; simplify_eq; auto;
    left; split; done.
Qed.

Lemma duplicate_tag_code :
  is_error ErrPLCNotFound duplicate_tag = false ∧ is_error ErrPLCAlreadyExists duplicate_tag = false.
Proof. simpl. by rewrite unique_error_foreign. Qed.

Lemma change_invalid q (s : server) resp :
  op_of q = None → status resp = 400 → change_spec q s resp s.
Proof. intros Hq Hr. unfold change_spec. by rewrite Hq. Qed.

Lemma accepted_None rq err : ValidatePLC (plc_of_req rq) = Some err → accepted (Some rq) = None.
Proof. intros Hv. unfold accepted. simpl. by rewrite decide_False by congruence. Qed.

Lemma accepted_Some rq : ValidatePLC (plc_of_req rq) = None → accepted (Some rq) = Some (plc_of_req rq).
Proof. intros Hv. unfold accepted. simpl. by rewrite decide_True. Qed.

(** The shape the three handlers share: the store operation, a response to its
    error, and what follows when it committed. *)
Lemma change_run q op (on_error : error → response) (k : State server response) (s : server) t
    {B} (r : request B) action detail :
  has_manager deps = true → has_audit deps = true → stopped (sv_mgr s) = false →
  sv_plcs s = Db t [] → plc_ok t → op_of q = Some op → (∀ now ps, op ≠ OpSeed now ps) →
  change_event q = (action, actorFromContext r, detail) →
  (∀ err m, plc_spec op false (find t) = (Some err, m) → status (on_error err) = failure_code err) →
  (∀ t' m, plc_spec op false (find t) = (None, m) → plc_ok t' → (∀ n, find t' n = m n) →
     ∃ resp, status resp = success_code q ∧
     k (set_plcs (Db t' []) s) =
       (resp, (reloadPLCsFromStore deps req_ctx
                 (audit_plc deps now r action detail (set_plcs (Db t' []) s)).2).2)) →
  let '(resp, s') := (err ← on_plcs (run_op op);
                      match err with Some err => mret (on_error err) | None => k end) s in
  change_spec q s resp s'.
Proof.
  intros Hm Ha Hst Ht Hok Hop Hseed Hev Herr Hk. rewrite bind_run, on_plcs_run, Ht.
  pose proof (run_op_spec op t Hok Hseed) as Hrun.
  destruct (plc_spec op false (find t)) as [res m] eqn:Hs.
  destruct Hrun as (t' & -> & Hok' & Hfind & Hsame). cbn [fst snd]. destruct res as [err|].
  - rewrite (Hsame ltac:(done)) in *. rewrite (set_plcs_same s (Db t [])) by done. simpl.
    eapply change_refused; [done..|]. by eapply Herr.
  - destruct (Hk t' m eq_refl Hok' Hfind) as (resp & Hr & ->). by eapply change_committed.
Qed.

Lemma find_stored p now' t t' m :
  plc_spec (OpCreate now' p) false (find t) = (None, m) ∨
  (∃ name, plc_spec (OpUpdate now' name p) false (find t) = (None, m)) →
  (∀ n, find t' n = m n) → find t' (pName p) = Some (stored p).
Proof.
  intros Hs Hfind. rewrite Hfind.
  assert (∃ m0, m = put p m0) as [m0 ->].
  { destruct Hs as [Hs|[name Hs]]; simpl in Hs; repeat split_match_in Hs; simplify_eq; eauto. }
  unfold put. by rewrite String.eqb_refl.
Qed.

End correctness.

(** ** A concrete change *)

Definition delete_request : request unit :=
  mkRequest "DELETE" "" (λ _, None) (λ _, "") (λ _, "plc1") "127.0.0.1:9" None
    (Some (mkClaims 1 "ana" "admin" 0 0)).

