(* ===== verification/ApiAcl.v ===== *)
(** * [internal/server]: the ACL administration API

    The handlers of [/api/acl/rules] over the state of the server. *)

From S2P Require Import Prelude GoString GoTime GoError Config Sql PlcStore AclStore Http Auth.
From S2P Require Import AuditLog WriteGuard ApiWrite PlcManager ServerState ApiPlcs.

(** [aclRuleRequest]: the decoded body of a create or an update. *)
Record aclRuleRequest := mkAclReq {
  aqRole : string; aqPLC : string; aqTag : string; aqAllowWrite : bool;
}.

Definition rule_of_req (id : Z) (rq : aclRuleRequest) : ACLRule :=
  mkACLRule id (aqRole rq) (aqPLC rq) (aqTag rq) (aqAllowWrite rq).

Definition aclRuleToResponse (r : ACLRule) : value :=
  VObj [("id", VInt64 (aclID r)); ("role", VString (aclRole r)); ("plc", VString (aclPLC r));
        ("tag", VString (aclTag r)); ("allow_write", VBool (aclAllowWrite r))].

Definition parseACLRuleID {B} (r : request B) : Z + response :=
  match parse_int64 (r_path r "id") with
  | Some id =>
      if id <=? 0 then inr (writeAPIError StatusBadRequest "bad_request" "id must be a positive integer")
      else inl id
  | None => inr (writeAPIError StatusBadRequest "bad_request" "id must be a positive integer")
  end.

(** The responses to the errors of the store. *)
Definition rule_not_found : response :=
  writeAPIError StatusNotFound "rule_not_found" "ACL rule not found".
Definition duplicate_rule : response :=
  writeAPIError StatusConflict "duplicate_rule" "a rule for this (role, plc, tag) already exists".
Definition invalid_rule : response :=
  writeAPIError StatusBadRequest "invalid_rule" "role must be admin, operator, or viewer".

Section handlers.
Context {Eng : Engine} (deps : write_deps) (now : time).

Definition audit_acl {B} (r : request B) (action : string) (detail : text) : State server unit :=
  if negb (has_audit deps) then mret tt
  else
    _ ← on_audit (Log now (mkAuditEvent zero_time action (actorFromContext r) 0 detail ""));
    mret tt.

Definition rule_json (r : ACLRule) : value := data (aclRuleToResponse r).

Definition handleListACLRules : handler server unit := λ _,
  rules ← on_acl ListRules;
  mret (match rules with
        | inr _ => internal_error "could not list ACL rules"
        | inl rules => writeJSON StatusOK (data (VList (aclRuleToResponse <$> elems rules)))
        end).

Definition same_triple (rule stored : ACLRule) : bool :=
  String.eqb (aclRole stored) (aclRole rule) && String.eqb (aclPLC stored) (aclPLC rule)
  && String.eqb (aclTag stored) (aclTag rule).

Definition handleCreateACLRule : handler server aclRuleRequest := λ r,
  match r_body r with
  | None => mret (writeAPIError StatusBadRequest "bad_request" "invalid request body")
  | Some req =>
      let rule := rule_of_req 0 req in
      err ← on_acl (CreateRule rule);
      match err with
      | Some err =>
          mret (if is_error ErrRuleAlreadyExists err then duplicate_rule
                else if is_error ErrInvalidRole err then invalid_rule
                else internal_error "could not create ACL rule")
      | None =>
          _ ← audit_acl r "acl.create"
                (Fmt "role=%s plc=%s tag=%s" [FStr (aqRole req); FStr (aqPLC req); FStr (aqTag req)]);
          rules ← on_acl ListRules;
          let stored :=
            match rules with
            | inl rules => List.find (same_triple rule) (elems rules)
            | inr _ => None
            end in
          mret (writeJSON StatusCreated (rule_json (default rule stored)))
      end
  end.

Definition handleGetACLRule : handler server unit := λ r,
  match parseACLRuleID r with
  | inr resp => mret resp
  | inl id =>
      rule ← on_acl (GetRule id);
      mret (match rule with
            | inr err => if is_error ErrRuleNotFound err then rule_not_found
                         else internal_error "could not get ACL rule"
            | inl rule => writeJSON StatusOK (rule_json rule)
            end)
  end.

Definition handleUpdateACLRule : handler server aclRuleRequest := λ r,
  match parseACLRuleID r with
  | inr resp => mret resp
  | inl id =>
      match r_body r with
      | None => mret (writeAPIError StatusBadRequest "bad_request" "invalid request body")
      | Some req =>
          let rule := rule_of_req 0 req in
          err ← on_acl (UpdateRule id rule);
          match err with
          | Some err =>
              mret (if is_error ErrRuleNotFound err then rule_not_found
                    else if is_error ErrRuleAlreadyExists err then duplicate_rule
                    else if is_error ErrInvalidRole err then invalid_rule
                    else internal_error "could not update ACL rule")
          | None =>
              _ ← audit_acl r "acl.update"
                    (Fmt "id=%d role=%s plc=%s tag=%s"
                       [FInt id; FStr (aqRole req); FStr (aqPLC req); FStr (aqTag req)]);
              stored ← on_acl (GetRule id);
              mret (writeJSON StatusOK
                      (rule_json (match stored with inl s => s | inr _ => rule_of_req id req end)))
          end
      end
  end.

Definition handleDeleteACLRule : handler server unit := λ r,
  match parseACLRuleID r with
  | inr resp => mret resp
  | inl id =>
      existing ← on_acl (GetRule id);
      err ← on_acl (DeleteRule id);
      match err with
      | Some err =>
          mret (if is_error ErrRuleNotFound err then rule_not_found
                else internal_error "could not delete ACL rule")
      | None =>
          _ ← audit_acl r "acl.delete"
                (match existing with
                 | inr _ => Fmt "id=%d" [FInt id]
                 | inl e => Fmt "id=%d role=%s plc=%s tag=%s"
                              [FInt id; FStr (aclRole e); FStr (aclPLC e); FStr (aclTag e)]
                 end);
          mret no_content
      end
  end.
End handlers.

(** ** What the handlers leave *)

Inductive acl_change :=
| RuleCreate (r : request aclRuleRequest)
| RuleUpdate (r : request aclRuleRequest)
| RuleDelete (r : request unit).

Section correctness.
Context {Eng : Engine} (deps : write_deps) (now : time).

Definition run_acl_change (q : acl_change) : State server response :=
  match q with
  | RuleCreate r => handleCreateACLRule deps now r
  | RuleUpdate r => handleUpdateACLRule deps now r
  | RuleDelete r => handleDeleteACLRule deps now r
  end.

Definition rule_id {B} (r : request B) : option Z :=
  match parseACLRuleID r with inl id => Some id | inr _ => None end.

(** The store operation of a change; [None] when the request is malformed. *)
Definition acl_op_of (q : acl_change) : option acl_op :=
  match q with
  | RuleCreate r => AclStore.OpCreate ∘ rule_of_req 0 <$> r_body r
  | RuleUpdate r => id ← rule_id r; AclStore.OpUpdate id ∘ rule_of_req 0 <$> r_body r
  | RuleDelete r => AclStore.OpDelete <$> rule_id r
  end.

Definition acl_success (q : acl_change) : Z :=
  match q with RuleCreate _ => 201 | RuleUpdate _ => 200 | RuleDelete _ => 204 end.

Definition acl_failure (err : error) : Z :=
  if is_error ErrRuleNotFound err then 404
  else if is_error ErrRuleAlreadyExists err then 409
  else if is_error ErrInvalidRole err then 400 else 500.

Definition acl_actor (q : acl_change) : string * string :=
  match q with
  | RuleCreate r => ("acl.create", actorFromContext r)
  | RuleUpdate r => ("acl.update", actorFromContext r)
  | RuleDelete r => ("acl.delete", actorFromContext r)
  end.

Definition acl_logged (q : acl_change) (l l' : audit_log) : Prop :=
  (∃ e, tables l' = tables l ++ [e] ∧ (evAction e, evUsername e) = acl_actor q) ∨
  tables l' = tables l ∧ ∃ f fs, faults l = Some f :: fs.

(** The rest of the state is as it was. *)
Definition acl_only (s s' : server) : Prop :=
  sv_plcs s' = sv_plcs s ∧ sv_mgr s' = sv_mgr s ∧ sv_written s' = sv_written s.

Definition acl_change_spec (q : acl_change) (s : server) (resp : response) (s' : server) : Prop :=
  acl_only s s' ∧
  match acl_op_of q with
  | None => status resp = 400 ∧ s' = s
  | Some op =>
      let t := tables (sv_acl s) in
      let '(res, m) := acl_spec op (last_id t + 1) (abs t) in
      acl_ok (tables (sv_acl s')) ∧ abs (tables (sv_acl s')) = m ∧
      match res with
      | Some err => status resp = acl_failure err ∧ sv_audit s' = sv_audit s
      | None => status resp = acl_success q ∧ acl_logged q (sv_audit s) (sv_audit s')
      end
  end.

Lemma on_acl_run {A} (f : State (db acl_table) A) (s : server) :
  on_acl f s = ((f (sv_acl s)).1, set_acl (f (sv_acl s)).2 s).
Proof. unfold on_acl, zoom. by destruct (f _). Qed.

Lemma audit_acl_run {B} (r : request B) action detail (s : server) :
  has_audit deps = true →
  ∃ l, audit_acl deps now r action detail s = (tt, ServerState.set_audit l s) ∧
  ((∃ e, tables l = tables (sv_audit s) ++ [e] ∧
         (evAction e, evUsername e) = (action, actorFromContext r)) ∨
   tables l = tables (sv_audit s) ∧ ∃ f fs, faults (sv_audit s) = Some f :: fs).
Proof.
  intros Ha. unfold audit_acl, on_audit, zoom. rewrite Ha. simpl. rewrite bind_run.
  set (e0 := mkAuditEvent _ _ _ _ _ _).
  pose proof (Log_adds now e0 (sv_audit s)) as H.
  pose proof (Log_down now e0 (sv_audit s)) as Hd.
  destruct (Log now e0 (sv_audit s)) as [o l]. simpl in *. exists l. split; [done|].
  destruct H as [(e & H & H1 & H2 & H3 & _)|[H Hr]]; [left; exists e; by rewrite H1, H2|auto].
Qed.

(** A refused and a committed change, given the state of the store after it. *)
Lemma acl_answered q op (s : server) t t' res m resp s' :
  sv_acl s = Db t [] → acl_op_of q = Some op →
  acl_spec op (last_id t + 1) (abs t) = (res, m) → acl_ok t' → abs t' = m →
  acl_only s s' → tables (sv_acl s') = t' →
  match res with
  | Some err => status resp = acl_failure err ∧ sv_audit s' = sv_audit s
  | None => status resp = acl_success q ∧ acl_logged q (sv_audit s) (sv_audit s')
  end → acl_change_spec q s resp s'.
Proof.
  intros Ht Hop Hs Hok Hm Hon Ht' Hr. unfold acl_change_spec. rewrite Hop, Ht. cbn [tables].
  cbv zeta. rewrite Hs, Ht'. by split_and!.
Qed.

Lemma acl_spec_error op n m err m' :
  acl_spec op n m = (Some err, m') → (∀ rules, op ≠ OpSeed rules) →
  match op with
  | OpCreate _ => err = Sentinel ErrInvalidRole ∨ err = Sentinel ErrRuleAlreadyExists
  | OpDelete _ => err = Sentinel ErrRuleNotFound
  | _ => err = Sentinel ErrInvalidRole ∨ err = Sentinel ErrRuleAlreadyExists ∨ err = Sentinel ErrRuleNotFound
  end.
Proof.
  intros H Hop. destruct op; simpl in H; [by destruct (Hop rules)|..];
    repeat split_match_in H; simplify_eq; auto.
Qed.

Lemma parseACLRuleID_400 {B} (r : request B) resp : parseACLRuleID r = inr resp → status resp = 400.
Proof. unfold parseACLRuleID. intros H. repeat split_match_in H; by simplify_eq. Qed.

(** Reads leave the database as it was. *)
Lemma GetRule_reads id t : (GetRule id (Db t [])).2 = Db t [].
Proof. unfold GetRule. rewrite bind_run, query_ok. by destruct (select_one _ _). Qed.

Lemma ListRules_reads t : (ListRules (Db t [])).2 = Db t [].
Proof. done. Qed.

(** The audit call of a committed change. *)
Ltac run_audit Ha Hl :=
  rewrite bind_run;
  match goal with
  | |- context [audit_acl deps now ?r ?a ?d ?s] =>
      destruct (audit_acl_run r a d s Ha) as (l & -> & Hl)
  end.

Lemma acl_create_run (r : request aclRuleRequest) (s : server) t :
  sv_acl s = Db t [] → acl_ok t → has_audit deps = true →
  let '(resp, s') := handleCreateACLRule deps now r s in acl_change_spec (RuleCreate r) s resp s'.
Proof.
  intros Ht Hok Ha. unfold handleCreateACLRule. destruct (r_body r) as [rq|] eqn:Hb.
  2: { unfold acl_change_spec. simpl. by rewrite Hb. }
  assert (Hop : acl_op_of (RuleCreate r) = Some (OpCreate (rule_of_req 0 rq))) by (simpl; by rewrite Hb).
  rewrite bind_run, on_acl_run, Ht. change (CreateRule ?x) with (AclStore.run_op (OpCreate x)).
  pose proof (acl_op_spec (OpCreate (rule_of_req 0 rq)) t Hok) as Hrun.
  destruct (acl_spec _ _ _) as [res m] eqn:Hs. destruct Hrun as (t' & -> & Hok' & Hm).
  cbn [fst snd]. destruct res as [err|].
  - eapply (acl_answered _ _ s t t'); [done..|]. split; [|done].
    destruct (acl_spec_error _ _ _ _ _ Hs ltac:(done)) as [->| ->]; done.
  - run_audit Ha Hl. rewrite bind_run, on_acl_run. eapply (acl_answered _ _ s t t'); done.
Qed.

Lemma acl_malformed {B} (r : request B) q resp (s : server) :
  parseACLRuleID r = inr resp → acl_op_of q = None → acl_change_spec q s resp s.
Proof.
  intros Hid Hop. unfold acl_change_spec. rewrite Hop. split; [done|].
  split; [by eapply parseACLRuleID_400|done].
Qed.

Lemma acl_update_run (r : request aclRuleRequest) (s : server) t :
  sv_acl s = Db t [] → acl_ok t → has_audit deps = true →
  let '(resp, s') := handleUpdateACLRule deps now r s in acl_change_spec (RuleUpdate r) s resp s'.
Proof.
  intros Ht Hok Ha. unfold handleUpdateACLRule. destruct (parseACLRuleID r) as [id|resp] eqn:Hid.
  2: { apply (acl_malformed r); [done|]. simpl. unfold rule_id. by rewrite Hid. }
  destruct (r_body r) as [rq|] eqn:Hb.
  2: { unfold acl_change_spec. simpl. unfold rule_id. by rewrite Hid, Hb. }
  assert (Hop : acl_op_of (RuleUpdate r) = Some (OpUpdate id (rule_of_req 0 rq))).
  { simpl. unfold rule_id. by rewrite Hid, Hb. }
  rewrite bind_run, on_acl_run, Ht. change (UpdateRule ?i ?x) with (AclStore.run_op (OpUpdate i x)).
  pose proof (acl_op_spec (OpUpdate id (rule_of_req 0 rq)) t Hok) as Hrun.
  destruct (acl_spec _ _ _) as [res m] eqn:Hs. destruct Hrun as (t' & -> & Hok' & Hm).
  cbn [fst snd]. destruct res as [err|].
  - eapply (acl_answered _ _ s t t'); [done..|]. split; [|done].
    destruct (acl_spec_error _ _ _ _ _ Hs ltac:(done)) as [->|[->| ->]]; done.
  - run_audit Ha Hl. rewrite bind_run, on_acl_run. cbn [sv_acl set_acl ServerState.set_audit].
    rewrite GetRule_reads. eapply (acl_answered _ _ s t t'); done.
Qed.

Lemma acl_delete_run (r : request unit) (s : server) t :
  sv_acl s = Db t [] → acl_ok t → has_audit deps = true →
  let '(resp, s') := handleDeleteACLRule deps now r s in acl_change_spec (RuleDelete r) s resp s'.
Proof.
  intros Ht Hok Ha. unfold handleDeleteACLRule. destruct (parseACLRuleID r) as [id|resp] eqn:Hid.
  2: { apply (acl_malformed r); [done|]. simpl. unfold rule_id. by rewrite Hid. }
  assert (Hop : acl_op_of (RuleDelete r) = Some (OpDelete id)) by (simpl; unfold rule_id; by rewrite Hid).
  rewrite bind_run, on_acl_run, Ht, GetRule_reads. cbn [fst snd].
  rewrite bind_run, on_acl_run. cbn [sv_acl set_acl].
  change (DeleteRule ?i) with (AclStore.run_op (OpDelete i)).
  pose proof (acl_op_spec (OpDelete id) t Hok) as Hrun.
  destruct (acl_spec _ _ _) as [res m] eqn:Hs. destruct Hrun as (t' & -> & Hok' & Hm).
  cbn [fst snd]. destruct res as [err|].
  - eapply (acl_answered _ _ s t t'); [done..|]. split; [|done].
    by rewrite (acl_spec_error _ _ _ _ _ Hs ltac:(done)).
  - run_audit Ha Hl. eapply (acl_answered _ _ s t t'); done.
Qed.

Lemma acl_change_run (q : acl_change) (s : server) :
  acl_ok (tables (sv_acl s)) → faults (sv_acl s) = [] → has_audit deps = true →
  let '(resp, s') := run_acl_change q s in acl_change_spec q s resp s'.
Proof.
  intros Hok Hf Ha. destruct (sv_acl s) as [t fs] eqn:Ht. simpl in Hok, Hf. subst fs.
  destruct q; [by apply (acl_create_run _ _ t)|by apply (acl_update_run _ _ t)|
               by apply (acl_delete_run _ _ t)].
Qed.

(** With an ACL database that answers, a change over HTTP does to the rules
    what the abstract operation says, answers with the code that tells, is
    audited with its actor when it is committed, and touches nothing else. *)
Theorem acl_change_correct (q : acl_change) (s : server) :
  acl_ok (tables (sv_acl s)) → faults (sv_acl s) = [] → has_audit deps = true →
  let '(resp, s') := run_acl_change q s in acl_change_spec q s resp s'.
Proof. apply acl_change_run. Qed.

(** ** Its effect on the write gate *)

Abbreviation key := (string * string * string)%type.

Definition granted_in (m : gmap Z acl_row) (k : key) : Prop :=
  ∃ i r, m !! i = Some r ∧ acl_key r = k ∧ row_allow_write r ≠ 0.

(** The triple whose rule goes, and the rule that comes. *)
Definition removed_key (op : acl_op) (m : gmap Z acl_row) : option key :=
  match op with OpUpdate id _ | OpDelete id => acl_key <$> m !! id | _ => None end.
Definition added_rule (op : acl_op) : option (key * bool) :=
  match op with OpCreate r | OpUpdate _ r => Some (acl_key (rule_row r), aclAllowWrite r) | _ => None end.

(** Who is granted a write after a committed change, from who was before. *)
Definition granted_after (op : acl_op) (m : gmap Z acl_row) (k : key) : Prop :=
  match added_rule op with
  | Some (k', allow) =>
      if decide (k = k') then allow = true else granted_in m k ∧ removed_key op m ≠ Some k
  | None => granted_in m k ∧ removed_key op m ≠ Some k
  end.

Lemma granted_abs t role plc tag : table_ok t →
  AclStore.granted t role plc tag ↔ granted_in (abs t) (role, plc, tag).
Proof. intros Hok. unfold AclStore.granted, granted_in. by setoid_rewrite abs_lookup. Qed.

Lemma abs_unique t i j r r' : acl_ok t →
  abs t !! i = Some r → abs t !! j = Some r' → acl_key r = acl_key r' → i = j.
Proof.
  intros [Hok Hu] Hi Hj Hk. rewrite abs_lookup in Hi, Hj by done.
  assert (E : (i, r) = (j, r')) by (by apply (unique_row acl_key t)). by simplify_eq.
Qed.

Lemma taken_false m k e : taken m k e = false → ∀ j r, m !! j = Some r → Some j ≠ e → acl_key r ≠ k.
Proof. intros H j r Hj Hne Hk. unfold taken in H. bool_to_prop. apply H. exists j, r. auto. Qed.

(** Writing the row [rule_row r] at [id] where no other row has its key. *)
Lemma granted_insert m id r k :
  (∀ i r', m !! i = Some r' → i ≠ id → acl_key r' ≠ acl_key (rule_row r)) →
  (∀ i j r1 r2, m !! i = Some r1 → m !! j = Some r2 → acl_key r1 = acl_key r2 → i = j) →
  granted_in (<[id := rule_row r]> m) k ↔
  if decide (k = acl_key (rule_row r)) then aclAllowWrite r = true
  else granted_in m k ∧ acl_key <$> m !! id ≠ Some k.
Proof.
  intros Hfree Hu. unfold granted_in.
  assert (Hw : row_allow_write (rule_row r) ≠ 0 ↔ aclAllowWrite r = true).
  { simpl. unfold boolToInt. by destruct (aclAllowWrite r). }
  destruct (decide _) as [->|Hk].
  - rewrite <- Hw. split; [|intros H; exists id, (rule_row r); by rewrite lookup_insert_eq].
    intros (i & r' & Hi & He & Ha). destruct (decide (i = id)) as [->|Hne].
    + rewrite lookup_insert_eq in Hi. by simplify_eq.
    + rewrite lookup_insert_ne in Hi by done. by destruct (Hfree i r' Hi Hne).
  - split.
    + intros (i & r' & Hi & He & Ha). destruct (decide (i = id)) as [->|Hne].
      { rewrite lookup_insert_eq in Hi. simplify_eq. }
      rewrite lookup_insert_ne in Hi by done. split; [eauto|].
      intros (r0 & H0 & Hr0)%fmap_Some. apply Hne. apply (Hu i id r' r0); congruence.
    + intros [(i & r' & Hi & He & Ha) Hrm]. exists i, r'.
      destruct (decide (i = id)) as [->|Hne]; [|by rewrite lookup_insert_ne].
      rewrite Hi in Hrm. simpl in Hrm. congruence.
Qed.

Lemma granted_spec op t m k : acl_ok t → (∀ rules, op ≠ OpSeed rules) →
  acl_spec op (last_id t + 1) (abs t) = (None, m) →
  granted_in m k ↔ granted_after op (abs t) k.
Proof.
  intros Hok Hop Hs. pose proof (λ i j r1 r2, abs_unique t i j r1 r2 Hok) as Hu.
  unfold granted_after. destruct op as [rules|r|id r|id]; [by destruct (Hop rules)|..];
    cbn [added_rule removed_key]; simpl in Hs; repeat split_match_in Hs; simplify_eq;
    bool_to_prop.
  - rewrite granted_insert; [|intros i r' Hi _; by eapply (taken_false _ _ None)|done].
    rewrite abs_next by apply Hok. done.
  - rewrite granted_insert; [|intros i r' Hi Hne; eapply (taken_false _ _ (Some id)); [done..|congruence]|done].
    by rewrite Heqo.
  - unfold granted_in. split.
    + intros (i & r' & [Hne Hi]%lookup_delete_Some & He & Ha). split; [eauto|].
      intros (r0 & H0 & Hr0)%fmap_Some. apply Hne. apply (Hu id i r0 r'); congruence.
    + intros [(i & r' & Hi & He & Ha) Hrm]. exists i, r'. split; [|done].
      apply lookup_delete_Some. split; [|done]. intros ->. simplify_eq/=.
Qed.

(** C7 A change that was answered with success has taken effect at the gate: the
    very next write is granted by the new rule, is no longer granted by the rule
    that was replaced or deleted, and is decided as before for everyone else. *)
Theorem acl_change_gate (q : acl_change) (op : acl_op) (s : server) :
  acl_ok (tables (sv_acl s)) → faults (sv_acl s) = [] → has_audit deps = true →
  acl_op_of q = Some op →
  let '(resp, s') := run_acl_change q s in
  status resp = acl_success q →
  ∀ role plc tag, AclStore.granted (tables (sv_acl s')) role plc tag ↔
                  granted_after op (abs (tables (sv_acl s))) (role, plc, tag).
Proof.
  intros Hok Hf Ha Hop. pose proof (acl_change_run q s Hok Hf Ha) as H.
  destruct (run_acl_change q s) as [resp s']. intros Hr role plc tag.
  destruct H as [_ H]. rewrite Hop in H. cbv zeta in H.
  assert (Hseed : ∀ rules, op ≠ OpSeed rules).
  { intros rules ->. destruct q; simpl in Hop; repeat split_match_in Hop;
      apply fmap_Some in Hop as (? & _ & Hop) || (apply bind_Some in Hop as (? & _ & Hop);
      apply fmap_Some in Hop as (? & _ & Hop)); done. }
  destruct (acl_spec op _ _) as [res m] eqn:Hs. destruct H as (Hok' & Hm & H).
  destruct res as [err|].
  - exfalso. destruct H as [H _]. rewrite Hr in H. unfold acl_failure in H.
    destruct q; simpl in H; repeat split_match_in H; done.
  - rewrite granted_abs, Hm by apply Hok'. by apply granted_spec.
Qed.
End correctness.

(** ** Concrete changes *)

Definition revoke_request : request unit :=
  mkRequest "DELETE" "" (λ _, None) (λ _, "") (λ _, "3") "127.0.0.1:9" None
    (Some (mkClaims 1 "ana" "admin" 0 0)).

Theorem acl_change_correct_witness :
  let '(resp, s') := run_acl_change all_deps 0 (RuleDelete revoke_request) sample_server in
  acl_ok (tables (sv_acl s')) ∧ abs (tables (sv_acl s')) = delete 3 (abs gate_acl) ∧ status resp = 204.
Proof.
  pose proof (acl_change_correct all_deps 0 (RuleDelete revoke_request) sample_server
                gate_acl_ok eq_refl eq_refl) as H.
  destruct (run_acl_change _ _ _ _) as [resp s']. destruct H as [_ H].
  change (acl_op_of (RuleDelete revoke_request)) with (Some (OpDelete 3)) in H.
  cbv beta iota zeta in H.
  assert (Hs : acl_spec (OpDelete 3) (last_id (tables (sv_acl sample_server)) + 1)
                 (abs (tables (sv_acl sample_server))) = (None, delete 3 (abs gate_acl)))
    by (vm_compute; reflexivity).
  rewrite Hs in H. destruct H as (H1 & H2 & H3 & _). by split_and!.
Defined.

Theorem acl_change_gate_witness :
  let '(resp, s') := run_acl_change all_deps 0 (RuleDelete revoke_request) sample_server in
  AclStore.granted gate_acl "operator" "plc1" "Speed" ∧
  ¬ AclStore.granted (tables (sv_acl s')) "operator" "plc1" "Speed".
Proof.
  pose proof (acl_change_gate all_deps 0 (RuleDelete revoke_request) (OpDelete 3) sample_server
                gate_acl_ok eq_refl eq_refl eq_refl) as H.
  assert (Hr : status (run_acl_change all_deps 0 (RuleDelete revoke_request) sample_server).1 = 204)
    by (vm_compute; reflexivity).
  destruct (run_acl_change _ _ _ _) as [resp s']. specialize (H Hr "operator" "plc1" "Speed").
  split.
  - exists 3, (AclRow "operator" "plc1" "Speed" 1). split_and!; [|done|done].
    do 2 right. left.
  - rewrite H. unfold granted_after. simpl. intros [_ Hne]. apply Hne. vm_compute. reflexivity.
Defined.
