(* ===== verification/ApiConfig.v ===== *)
(** * [internal/server/api_config.go] and the reload on a configuration change

    [GET /api/config/mappings], and the callback [runServerTo] gives to the
    configuration watcher: both take the PLCs from the store. *)

From S2P Require Import Prelude GoString GoTime GoError Config ConfigLoad Sql PlcStore Http Auth.
From S2P Require Import AuditLog WriteGuard ApiWrite PlcManager ServerState ApiPlcs.

(** ** The mappings *)

Definition mappingResponse (p : PLC) : value :=
  VObj [("plc", VString (pName p)); ("address", VString (pAddress p)); ("scan_rate", VString (pScanRate p));
        ("tags", VList ((λ t, VObj [("name", VString (tName t)); ("type", VString (tType t))]) <$> elems (pTags p)))].

Definition mappings (ps : list PLC) : response := writeJSON StatusOK (data (VList (mappingResponse <$> ps))).

(** [wired] tells whether the server has a PLC store; [cfg] is its configuration. *)
Definition handleConfigMappings (wired : bool) (cfg : option Config) : handler server unit := λ _,
  plcs ← (if wired then
            res ← on_plcs List;
            mret (match res with inl ps => ps | inr _ => [] end)
          else mret (match cfg with Some c => PLCs c | None => [] end));
  mret (mappings plcs).

(** The mappings are those of the stored PLCs, each once, ordered by name; a
    store that fails is answered with an empty list, and without a store the
    configuration is.  Nothing is changed. *)
Theorem handleConfigMappings_correct (cfg : option Config) (r : request unit) (s : server) (t : plc_tables) :
  sv_plcs s = Db t [] → plc_ok t →
  (∃ ps, handleConfigMappings true cfg r s = (mappings ps, s) ∧ Sorted str_le (pName <$> ps) ∧
         NoDup (pName <$> ps) ∧ ∀ p, p ∈ ps ↔ find t (pName p) = Some p) ∧
  (∀ f fs, (handleConfigMappings true cfg r (set_plcs (Db t (Some f :: fs)) s)).1 = mappings []) ∧
  handleConfigMappings false cfg r s = (mappings (default [] (PLCs <$> cfg)), s).
Proof.
  intros Hs Hok. split_and!.
  - destruct (List_run t Hok) as (ps & E & H). exists ps. split; [|exact H].
    unfold handleConfigMappings. rewrite !bind_run. unfold on_plcs, zoom. rewrite Hs, E. simpl.
    rewrite <- Hs. by destruct s.
  - done.
  - by destruct cfg.
Qed.

(** ** Hot reload *)

(** The callback of [config.Watch] in [runServerTo]; [run_ctx] is the context of
    the server. *)
Definition on_config_change (run_ctx : ctx) (newCfg : Config) : State server unit :=
  plcs ← on_plcs List;
  match plcs with
  | inr _ => mret tt
  | inl ps =>
      let merged := ConfigLoad.set_plcs (λ _, ps) newCfg in
      modify (λ s, set_mgr (Reload run_ctx (PLCs merged) (sv_mgr s)) s)
  end.

(** C27 Whatever a changed file says, the manager runs exactly the stored PLCs after
    it is read, and nothing else of the file has an effect: two files lead to the
    same state. *)
Theorem config_change_store_wins (run_ctx : ctx) (c1 c2 : Config) (s : server) (t : plc_tables) :
  sv_plcs s = Db t [] → plc_ok t → stopped (sv_mgr s) = false →
  let s' := (on_config_change run_ctx c1 s).2 in
  in_sync s' ∧ sv_plcs s' = Db t [] ∧ s' = (on_config_change run_ctx c2 s).2.
Proof.
  intros Hs Hok Hst. cbv zeta.
  assert (E : ∀ c, on_config_change run_ctx c s = reloadPLCsFromStore (WriteDeps true true true) run_ctx s).
  { done. }
  rewrite !E. destruct (reload_sync (WriteDeps true true true) run_ctx s t) as (H1 & H2 & _); done.
Qed.

Example config_change_store_wins_witness :
  let s' := (on_config_change [] (base_config 1 "8h" []) sample_server).2 in
  stopped (sv_mgr sample_server) = false ∧ in_sync s' ∧
  s' = (on_config_change [] (base_config 1 "8h" [sample_plc; sample_plc]) sample_server).2.
Proof.
  cbv zeta. split; [reflexivity|].
  destruct (config_change_store_wins [] (base_config 1 "8h" []) (base_config 1 "8h" [sample_plc; sample_plc])
    sample_server sample_plcs eq_refl sample_plcs_ok eq_refl) as (H1 & _ & H3).
  split; [exact H1|exact H3].
Defined.

Example handleConfigMappings_correct_witness :
  let r := mkRequest "GET" "" (λ _, None) (λ _, "") (λ _, "") "" None None in
  plc_ok sample_plcs ∧
  ∃ ps, handleConfigMappings true None r sample_server = (mappings ps, sample_server) ∧
        ∀ p, p ∈ ps ↔ find sample_plcs (pName p) = Some p.
Proof.
  cbv zeta. split; [exact sample_plcs_ok|].
  destruct (handleConfigMappings_correct None (mkRequest "GET" "" (λ _, None) (λ _, "") (λ _, "") "" None None)
    sample_server sample_plcs eq_refl sample_plcs_ok) as ((ps & H1 & _ & _ & H2) & _ & _).
  exists ps. split; [exact H1|exact H2].
Defined.
