(* ===== verification/Sparkplug.v ===== *)
(** * [internal/sparkplug]: metrics, payloads, sequence numbers, node states

    Metrics and payloads are the fields of the protobuf messages the package
    sets and reads; [proto.Marshal] and [proto.Unmarshal] are the class [Proto].
    Builders of numbered messages run in the state of the sequence tracker. *)

From S2P Require Import Prelude GoString GoTime GoError.

(** ** Metrics *)

(** The [value] oneof of [pb.Payload_Metric]; integers as unsigned fields,
    floats as their bits.  [OtherValue] stands for the four variants the package
    never sets and never reads (bytes, data set, template, extension). *)
Inductive metric_value :=
| IntValue (v : Z) | LongValue (v : Z)
| FloatValue (bits : Z) | DoubleValue (bits : Z)
| BooleanValue (b : bool) | StringValue (s : string)
| OtherValue (n : Z).

Record metric := mkMetric {
  Name : option string; Timestamp : option Z; Datatype : option Z; IsNull : option bool;
  Value : option metric_value;
}.

Record payload := mkPayload {
  plTimestamp : option Z; plSeq : option Z; Metrics : list metric;
}.

Definition dtInt8 : Z := 1.
Definition dtInt16 : Z := 2.
Definition dtInt32 : Z := 3.
Definition dtInt64 : Z := 4.
Definition dtUInt8 : Z := 5.
Definition dtUInt16 : Z := 6.
Definition dtUInt32 : Z := 7.
Definition dtUInt64 : Z := 8.
Definition dtFloat : Z := 9.
Definition dtDouble : Z := 10.
Definition dtBoolean : Z := 11.
Definition dtString : Z := 12.

Abbreviation uint32 := (wrap_u 32).

(** The switch of [EncodeMetric]: the data type and the field it sets. *)
Definition encode_value (v : value) : option (Z * metric_value) :=
  match v with
  | VBool b => Some (dtBoolean, BooleanValue b)
  | VInt8 z => Some (dtInt8, IntValue (uint32 z))
  | VInt16 z => Some (dtInt16, IntValue (uint32 z))
  | VInt32 z => Some (dtInt32, IntValue (uint32 z))
  | VInt64 z => Some (dtInt64, LongValue (uint64 z))
  | VUint8 z => Some (dtUInt8, IntValue (uint32 z))
  | VUint16 z => Some (dtUInt16, IntValue (uint32 z))
  | VUint32 z => Some (dtUInt32, IntValue z)
  | VUint64 z => Some (dtUInt64, LongValue z)
  | VFloat32 b => Some (dtFloat, FloatValue b)
  | VFloat64 b => Some (dtDouble, DoubleValue b)
  | VString s => Some (dtString, StringValue s)
  | _ => None
  end.

Definition EncodeMetric (name : string) (v : value) (ts : time) : result metric :=
  match encode_value v with
  | Some (dt, fv) => inl (mkMetric (Some name) (Some (uint64 (unix_milli ts))) (Some dt) None (Some fv))
  | None => inr (Errorf "sparkplug: unsupported type %T for metric %q: %w"
                   [FVal v; FStr name; FWrap (Sentinel ErrSparkplugEncode)])
  end.

(** [VNil] is the nil result. *)
Definition DecodeMetricValue (m : option metric) : value :=
  match m with
  | None => VNil
  | Some m =>
      match Datatype m with
      | None => VNil
      | Some dt =>
          if dt =? dtBoolean then
            match Value m with Some (BooleanValue b) => VBool b | _ => VNil end
          else if dt =? dtInt8 then
            match Value m with Some (IntValue v) => VInt8 (wrap_s 8 v) | _ => VNil end
          else if dt =? dtInt16 then
            match Value m with Some (IntValue v) => VInt16 (wrap_s 16 v) | _ => VNil end
          else if dt =? dtInt32 then
            match Value m with Some (IntValue v) => VInt32 (wrap_s 32 v) | _ => VNil end
          else if dt =? dtInt64 then
            match Value m with Some (LongValue v) => VInt64 (wrap_s 64 v) | _ => VNil end
          else if dt =? dtUInt8 then
            match Value m with Some (IntValue v) => VUint8 (wrap_u 8 v) | _ => VNil end
          else if dt =? dtUInt16 then
            match Value m with Some (IntValue v) => VUint16 (wrap_u 16 v) | _ => VNil end
          else if dt =? dtUInt32 then
            match Value m with Some (IntValue v) => VUint32 v | _ => VNil end
          else if dt =? dtUInt64 then
            match Value m with Some (LongValue v) => VUint64 v | _ => VNil end
          else if dt =? dtFloat then
            match Value m with Some (FloatValue b) => VFloat32 b | _ => VNil end
          else if dt =? dtDouble then
            match Value m with Some (DoubleValue b) => VFloat64 b | _ => VNil end
          else if dt =? dtString then
            match Value m with Some (StringValue s) => VString s | _ => VNil end
          else VNil
      end
  end.

(** The Go types a metric carries. *)
Definition scalar (v : value) : bool :=
  match v with VNil | VList _ | VObj _ | VPtr _ | VTime _ => false | _ => true end.

Lemma EncodeMetric_Decode_run (name : string) (v : value) (ts : time) :
  value_ok v →
  match EncodeMetric name v ts with
  | inl m => scalar v = true ∧ DecodeMetricValue (Some m) = v ∧ Name m = Some name ∧
             Timestamp m = Some (uint64 (unix_milli ts)) ∧ IsNull m = None
  | inr e => scalar v = false ∧ is_error ErrSparkplugEncode e = true
  end.
Proof.
  intros Hv. unfold EncodeMetric.
  destruct v; simpl in Hv |- *; try done;
    (split_and!; [done| |done..]); f_equal; rewrite ?wrap_s_wrap_u by (done || lia); try done;
    unfold wrap_u, in_u in *; rewrite (Z.mod_small z) by (simpl; lia); rewrite Z.mod_small; lia.
Qed.

(** C33 Every scalar of the range of its Go type is encoded, and decodes to
    itself; any other value is refused with [ErrSparkplugEncode]. *)
Theorem EncodeMetric_Decode (name : string) (v : value) (ts : time) :
  value_ok v →
  match EncodeMetric name v ts with
  | inl m => scalar v = true ∧ DecodeMetricValue (Some m) = v ∧ Name m = Some name
  | inr e => scalar v = false ∧ is_error ErrSparkplugEncode e = true
  end.
Proof.
  intros Hv. pose proof (EncodeMetric_Decode_run name v ts Hv) as H.
  destruct (EncodeMetric name v ts); naive_solver.
Qed.

Theorem EncodeMetric_Decode_witness :
  value_ok (VInt16 (-300)) ∧
  (∃ m, EncodeMetric "temp" (VInt16 (-300)) 0 = inl m ∧
        Value m = Some (IntValue 4294966996) ∧ DecodeMetricValue (Some m) = VInt16 (-300)).
Proof.
  assert (H : value_ok (VInt16 (-300))) by (vm_compute; split; done).
  split; [exact H|].
  pose proof (EncodeMetric_Decode "temp" (VInt16 (-300)) 0 H) as Ht.
  eexists. split; [reflexivity|]. split; [reflexivity|]. apply Ht.
Defined.

(** The fields of a message off the wire are in the range of their types. *)
Definition metric_value_ok (v : metric_value) : Prop :=
  match v with
  | IntValue z | FloatValue z => in_u 32 z
  | LongValue z | DoubleValue z => in_u 64 z
  | _ => True
  end.

(** What is decoded is a value of a Go scalar type, or nil: a metric whose
    value does not have the variant of its data type is nil. *)
Lemma DecodeMetricValue_ok (m : metric) :
  (∀ fv, Value m = Some fv → metric_value_ok fv) →
  let v := DecodeMetricValue (Some m) in value_ok v ∧ (v = VNil ∨ scalar v = true).
Proof.
  intros Hok. cbv zeta. destruct m as [nm ts [dt|] nl [fv|]]; simpl in *;
    [specialize (Hok fv eq_refl)|..]; repeat split_match; simpl in *; auto; split; auto;
    (apply wrap_s_range || apply wrap_u_range); lia.
Qed.

(** ** Sequence numbers *)

(** The state is the atomic [uint64] counter. *)
Definition Next : State Z Z := λ counter,
  let counter := uint64 (counter + 1) in
  let v := uint64 (counter - 1) in
  (v mod 256, counter).

Definition Reset : State Z unit := set_state 0.

(** [n] calls of [Next]. *)
Fixpoint nexts (n : nat) : State Z (list Z) :=
  match n with
  | O => mret []
  | S n => v ← Next; vs ← nexts n; mret (v :: vs)
  end.

Lemma uint64_mod_256 z : uint64 z mod 256 = z mod 256.
Proof.
  unfold wrap_u. change (2 ^ 64) with (256 * 2 ^ 56).
  rewrite (Z.rem_mul_r z 256 (2 ^ 56)) by lia.
  rewrite Z.mul_comm, Z.mod_add by lia. by rewrite Z.mod_mod by lia.
Qed.

Lemma Next_run c : Next c = (c mod 256, uint64 (c + 1)).
Proof.
  unfold Next. f_equal. rewrite uint64_mod_256, Zminus_mod, uint64_mod_256, <- Zminus_mod.
  f_equal. lia.
Qed.

(** The numbers run through 0..255 in order and wrap, also where the 64-bit
    counter itself wraps. *)
Theorem nexts_correct (n : nat) (c : Z) :
  nexts n c = ((λ i, (c + Z.of_nat i) mod 256) <$> seq 0 n,
               match n with O => c | _ => uint64 (c + Z.of_nat n) end).
Proof.
  revert c. induction n as [|n IH]; intros c; [done|].
  cbn [nexts]. rewrite bind_run, Next_run, bind_run, IH. unfold mret, state_ret.
  f_equal.
  - cbn [seq fmap list_fmap]. f_equal; [f_equal; lia|].
    rewrite <- fmap_S_seq, <- list_fmap_compose. apply list_fmap_ext. intros i x _. simpl.
    rewrite <- Z.add_mod_idemp_l, uint64_mod_256, Z.add_mod_idemp_l by lia. f_equal. lia.
  - destruct n; [done|]. unfold wrap_u. rewrite Z.add_mod_idemp_l by lia. f_equal. lia.
Qed.

(** ** The state of the node *)

Inductive sm_state := Offline | Connecting | Online.
Inductive sm_event :=
| EventConnectAttempt | EventConnectSuccess | EventConnectFail | EventDisconnect
| EventConnectionLost.

#[export] Instance sm_state_eq_dec : EqDecision sm_state.
Proof. solve_decision. Defined.

Definition sm_String (s : sm_state) : string :=
  match s with Offline => "OFFLINE" | Connecting => "CONNECTING" | Online => "ONLINE" end.

Definition transition (from : sm_state) (e : sm_event) : sm_state * bool :=
  match from, e with
  | Offline, EventConnectAttempt => (Connecting, true)
  | Connecting, EventConnectSuccess => (Online, true)
  | Connecting, EventConnectFail => (Offline, true)
  | Online, EventDisconnect => (Offline, true)
  | Online, EventConnectionLost => (Offline, true)
  | _, _ => (from, false)
  end.

(** What [Transition] does when no other goroutine interferes. *)
Definition sm_next (s : sm_state) (e : sm_event) : sm_state := (transition s e).1.

(** The compare-and-swap loop.  [others] is what other goroutines do to the
    state between the load and the swap of each round; [None] is running out of
    fuel. *)
Fixpoint Transition (fuel : nat) (others : nat → sm_state → sm_state) (e : sm_event)
    : State sm_state (option unit) :=
  match fuel with
  | O => mret None
  | S n =>
      current ← get_state;
      let '(next, ok) := transition current e in
      if negb ok then mret (Some tt)
      else
        _ ← modify (others n);
        seen ← get_state;
        if decide (seen = current) then _ ← set_state next; mret (Some tt)
        else Transition n others e
  end.

Lemma Transition_S n others e s :
  Transition (S n) others e s =
  if (transition s e).2 then
    if decide (others n s = s) then (Some tt, (transition s e).1)
    else Transition n others e (others n s)
  else (Some tt, s).
Proof.
  cbn [Transition]. rewrite bind_run. change (get_state s) with (s, s). cbv beta iota.
  destruct (transition s e) as [next []]; cbn [negb fst snd]; [|done].
  rewrite bind_run. change (modify (others n) s) with (tt, others n s). cbv beta iota.
  rewrite bind_run. change (get_state (others n s)) with (others n s, others n s). cbv beta iota.
  by destruct (decide _).
Qed.

(** When it returns, the event was applied, or found to be a no-op, to a
    state the node had at one instant; when it never does, another goroutine
    changed the state in every round. *)
Theorem Transition_linearizable (fuel : nat) (others : nat → sm_state → sm_state)
    (e : sm_event) (s : sm_state) :
  match Transition fuel others e s with
  | (None, _) => ∀ i, (i < fuel)%nat → ∃ t, others i t ≠ t
  | (Some _, s') => ∃ t, s' = sm_next t e ∧
                    (t = s ∨ ∃ i u, (i < fuel)%nat ∧ t = others i u)
  end.
Proof.
  unfold sm_next. revert s. induction fuel as [|n IH]; intros s; [simpl; lia|].
  rewrite Transition_S. destruct (transition s e).2 eqn:Et.
  2: { exists s. split; [|by left]. by destruct s, e. }
  destruct (decide (others n s = s)) as [|Hne]; [exists s; auto|].
  specialize (IH (others n s)). destruct (Transition n _ _ _) as [[u|] s'].
  - destruct IH as (t & Ht & [->|(i & u' & Hi & Hu)]); eexists; (split; [done|right]).
    + exists n, s. split; [lia|done].
    + exists i, u'. split; [lia|done].
  - intros i Hi. destruct (decide (i = n)) as [->|]; [by exists s|]. apply IH. lia.
Qed.

(** One round is enough when nobody interferes. *)
Lemma Transition_alone e s :
  Transition 1 (λ _ s, s) e s = (Some tt, sm_next s e).
Proof. by destruct s, e. Qed.

(** ** Payloads *)

(** [proto.Marshal] and [proto.Unmarshal] on [pb.Payload]; [B] is [[]byte]. *)
Class Proto (B : Type) := {
  Marshal : payload → B + foreign;
  Unmarshal : B → payload + foreign;
  Unmarshal_Marshal : ∀ p b, Marshal p = inl b → Unmarshal b = inl p;
}.

(** [sparkplug.TagDef]. *)
Record TagDef := mkTagDef { tdName : string; tdSparkplugType : string }.

(** [sparkplug.TagUpdate]. *)
Record TagUpdate := mkTagUpdate {
  suPLCName : string; suTag : string; suValue : value; suTimestamp : time; suQuality : string;
}.

Definition sparkplugTypeMap : gmap string Z := list_to_map
  [("Boolean", dtBoolean);
   ("Int8", dtInt8); ("Int16", dtInt16); ("Int32", dtInt32); ("Int64", dtInt64);
   ("UInt8", dtUInt8); ("UInt16", dtUInt16); ("UInt32", dtUInt32); ("UInt64", dtUInt64);
   ("Float", dtFloat); ("Double", dtDouble); ("String", dtString)].

Definition sparkplugTypeToDataType (typeName : string) : Z :=
  default 0 (sparkplugTypeMap !! typeName).

(** [uint64(time.Now().UnixMilli())]. *)
Definition millis (now : time) : Z := uint64 (unix_milli now).

Section payloads.
Context {B : Type} `{!Proto B}.

Definition marshal (p : payload) : result B := foreign_result (Marshal p).

Definition bdSeq_metric (ts : option Z) (bdSeq : Z) : metric :=
  mkMetric (Some "bdSeq") ts (Some dtUInt64) None (Some (LongValue bdSeq)).

Definition birth_metric (now : Z) (tag : TagDef) : metric :=
  mkMetric (Some (tdName tag)) (Some now) (Some (sparkplugTypeToDataType (tdSparkplugType tag)))
    None None.

Definition BuildNBIRTH (now : time) (tags : list TagDef) (bdSeqVal : Z) : State Z (result B) :=
  _ ← Reset;
  seqVal ← Next;
  let now := millis now in
  mret (marshal (mkPayload (Some now) (Some seqVal)
                   (bdSeq_metric (Some now) bdSeqVal :: (birth_metric now <$> tags)))).

Definition BuildNDEATH (now : time) (bdSeq : Z) : result B :=
  marshal (mkPayload (Some (millis now)) None [bdSeq_metric None bdSeq]).

(** The loop over [tagValues], whose entries are listed in the order the range
    visits them. *)
Fixpoint encode_all (ts : time) (tagValues : list (string * value)) : result (list metric) :=
  match tagValues with
  | [] => inl []
  | (name, v) :: rest =>
      match EncodeMetric name v ts with
      | inr e => inr e
      | inl m => map_result (cons m) (encode_all ts rest)
      end
  end.

(** [now] and [ts] are the two readings of the clock. *)
Definition BuildDBIRTH (now ts : time) (tagValues : list (string * value)) (seqVal : Z) : result B :=
  match encode_all ts tagValues with
  | inr e => inr e
  | inl ms => marshal (mkPayload (Some (millis now)) (Some seqVal) ms)
  end.

(** The body of the loop of [BuildDDATA]. *)
Definition ddata_metric (u : TagUpdate) : result metric :=
  let v := if value_is_nil (suValue u) then VFloat32 0 else suValue u in
  match EncodeMetric (suTag u) v (suTimestamp u) with
  | inr e => inr e
  | inl m =>
      inl (if String.eqb (suQuality u) "bad"
           then mkMetric (Name m) (Timestamp m) (Datatype m) (Some true) (Value m) else m)
  end.

Fixpoint ddata_metrics (updates : list TagUpdate) : result (list metric) :=
  match updates with
  | [] => inl []
  | u :: rest =>
      match ddata_metric u with
      | inr e => inr e
      | inl m => map_result (cons m) (ddata_metrics rest)
      end
  end.

Definition BuildDDATA (now : time) (updates : list TagUpdate) (seqVal : Z) : result B :=
  match ddata_metrics updates with
  | inr e => inr e
  | inl ms => marshal (mkPayload (Some (millis now)) (Some seqVal) ms)
  end.

Definition BuildDDEATH (now : time) (seqVal : Z) : result B :=
  marshal (mkPayload (Some (millis now)) (Some seqVal) []).

Lemma marshal_inv p b : marshal p = inl b → Unmarshal b = inl p.
Proof.
  unfold marshal, foreign_result. destruct (Marshal p) eqn:E; [|done].
  intros [= <-]. by apply Unmarshal_Marshal.
Qed.

(** The payloads a receiver decodes. *)
Lemma BuildNBIRTH_run now tags bd c :
  BuildNBIRTH now tags bd c =
  (marshal (mkPayload (Some (millis now)) (Some 0)
     (bdSeq_metric (Some (millis now)) bd :: (birth_metric (millis now) <$> tags))), 1).
Proof. done. Qed.

(** A value of an update the encoder takes. *)
Definition encodable (u : TagUpdate) : bool := value_is_nil (suValue u) || scalar (suValue u).

Lemma ddata_metric_ok u :
  value_ok (suValue u) →
  match ddata_metric u with
  | inl m => encodable u = true ∧ Name m = Some (suTag u) ∧
             Timestamp m = Some (millis (suTimestamp u)) ∧
             IsNull m = (if String.eqb (suQuality u) "bad" then Some true else None) ∧
             DecodeMetricValue (Some m) =
               (if value_is_nil (suValue u) then VFloat32 0 else suValue u)
  | inr e => encodable u = false ∧ is_error ErrSparkplugEncode e = true
  end.
Proof.
  intros Hv. unfold ddata_metric, encodable.
  set (v := if value_is_nil (suValue u) then VFloat32 0 else suValue u).
  assert (Hv' : value_ok v) by (unfold v; destruct (suValue u); simpl in *; auto; done).
  assert (Hs : scalar v = value_is_nil (suValue u) || scalar (suValue u)).
  { unfold v. by destruct (suValue u). }
  pose proof (EncodeMetric_Decode_run (suTag u) v (suTimestamp u) Hv') as He.
  destruct (EncodeMetric _ _ _) as [m|e]; [|by rewrite <- Hs].
  destruct He as (H1 & H2 & H3 & H4 & H5). rewrite <- Hs.
  destruct (String.eqb _ _); simpl; auto.
Qed.

End payloads.
