(* ===== verification/EdgeNode.v ===== *)
(** * [internal/sparkplug]: the edge node

    The handlers of [EdgeNode] over its fields and the outside: the MQTT client,
    the clock and the waits of the reconnect loop.  What the client answers
    comes from scripts carried in the state, so that a theorem about every state
    covers every behaviour of the broker; every call of the client is recorded
    with its result.  [handle] runs one handler to its end, [run] a sequence of
    them: handlers of different goroutines are serialised. *)

From S2P Require Import Prelude GoString GoTime GoError Retry Sparkplug.

Definition nodeTopic (group node verb : string) : string :=
  "spBv1.0/" +:+ group +:+ "/" +:+ verb +:+ "/" +:+ node.

Definition deviceTopic (group node device verb : string) : string :=
  "spBv1.0/" +:+ group +:+ "/" +:+ verb +:+ "/" +:+ node +:+ "/" +:+ device.

Definition dcmdFilter (group node : string) : string :=
  "spBv1.0/" +:+ group +:+ "/DCMD/" +:+ node +:+ "/+".

Record DeviceConfig := mkDevice { DeviceID : string; Tags : list TagDef }.

(** Calls of [mqtt.Client]. *)
Inductive call (B : Type) :=
| CConnect
| CPublish (topic : string) (qos : Z) (retained : bool) (data : B)
| CSubscribe (topic : string) (qos : Z)
| CUnsubscribe (topic : string)
| CDisconnect (quiesce : Z).
Arguments CConnect {B}.
Arguments CPublish {B} topic qos retained data.
Arguments CSubscribe {B} topic qos.
Arguments CUnsubscribe {B} topic.
Arguments CDisconnect {B} quiesce.

(** The outside: the calls made, and the scripts of what is to come.  A script
    that has run out answers success, the zero time and a factor of zero. *)
Record io (B : Type) := mkIo {
  calls : list (call B * option error);
  outcomes : list (option error);
  clock : list time;
  polls : list (option error);
  rands : list f64;
  sleeps : list (option error);
}.
Arguments mkIo {B} _ _ _ _ _ _.
Arguments calls {B} _.
Arguments outcomes {B} _.
Arguments clock {B} _.
Arguments polls {B} _.
Arguments rands {B} _.
Arguments sleeps {B} _.

(** The fields of [EdgeNode] that change.  [reconnectCh] is whether its one slot
    is taken, [publishing] and [reconnecting] whether the two goroutines run,
    [commands] the calls of [onCommand]. *)
Record node (B : Type) := mkNode {
  sm : sm_state; nseq : Z; bdSeq : Z;
  updates : list TagUpdate; reconnectCh : bool;
  publishing : bool; reconnecting : bool;
  commands : list (string * string * value);
  outside : io B;
}.
Arguments mkNode {B} _ _ _ _ _ _ _ _ _.
Arguments sm {B} _.
Arguments nseq {B} _.
Arguments bdSeq {B} _.
Arguments updates {B} _.
Arguments reconnectCh {B} _.
Arguments publishing {B} _.
Arguments reconnecting {B} _.
Arguments commands {B} _.
Arguments outside {B} _.

(** The capacity of [updates]. *)
Definition updates_cap : nat := 256.

Section edge_node.
Context {B : Type} `{!Proto B}.
(** The configuration: [groupID], [nodeID], [devices], whether [onCommand] is
    set, and [retryOptions]. *)
Context (groupID nodeID : string) (devices : list DeviceConfig) (onCommand : bool)
        (retryOptions : Options).

Definition NewEdgeNode (world : io B) : node B :=
  mkNode Offline 0 0 [] false false false [] world.

(** *** Fields *)

Definition set_sm x (s : node B) : node B := mkNode x (nseq s) (bdSeq s) (updates s) (reconnectCh s)
  (publishing s) (reconnecting s) (commands s) (outside s).
Definition set_seq x (s : node B) : node B := mkNode (sm s) x (bdSeq s) (updates s) (reconnectCh s)
  (publishing s) (reconnecting s) (commands s) (outside s).
Definition set_bdSeq x (s : node B) : node B := mkNode (sm s) (nseq s) x (updates s) (reconnectCh s)
  (publishing s) (reconnecting s) (commands s) (outside s).
Definition set_updates x (s : node B) : node B := mkNode (sm s) (nseq s) (bdSeq s) x (reconnectCh s)
  (publishing s) (reconnecting s) (commands s) (outside s).
Definition set_signal x (s : node B) : node B := mkNode (sm s) (nseq s) (bdSeq s) (updates s) x
  (publishing s) (reconnecting s) (commands s) (outside s).
Definition set_running p r (s : node B) : node B := mkNode (sm s) (nseq s) (bdSeq s) (updates s)
  (reconnectCh s) p r (commands s) (outside s).
Definition set_commands x (s : node B) : node B := mkNode (sm s) (nseq s) (bdSeq s) (updates s)
  (reconnectCh s) (publishing s) (reconnecting s) x (outside s).
Definition set_outside x (s : node B) : node B := mkNode (sm s) (nseq s) (bdSeq s) (updates s)
  (reconnectCh s) (publishing s) (reconnecting s) (commands s) x.

(** *** The outside *)

Definition pop {A : Type} (d : A) (l : list A) : A * list A :=
  match l with [] => (d, []) | x :: l => (x, l) end.

Definition call_client (c : call B) : State (node B) (option error) := λ s,
  let w := outside s in
  let '(r, rest) := pop None (outcomes w) in
  (r, set_outside (mkIo (calls w ++ [(c, r)]) rest (clock w) (polls w) (rands w) (sleeps w)) s).

Definition Now : State (node B) time := λ s,
  let w := outside s in
  let '(t, rest) := pop zero_time (clock w) in
  (t, set_outside (mkIo (calls w) (outcomes w) rest (polls w) (rands w) (sleeps w)) s).

Definition ctx_err : State (node B) (option error) := λ s,
  let w := outside s in
  let '(r, rest) := pop None (polls w) in
  (r, set_outside (mkIo (calls w) (outcomes w) (clock w) rest (rands w) (sleeps w)) s).

Definition rand : State (node B) f64 := λ s,
  let w := outside s in
  let '(r, rest) := pop (f64_of_Z 0) (rands w) in
  (r, set_outside (mkIo (calls w) (outcomes w) (clock w) (polls w) rest (sleeps w)) s).

Definition sleep (d : Z) : State (node B) (option error) := λ s,
  let w := outside s in
  let '(r, rest) := pop None (sleeps w) in
  (r, set_outside (mkIo (calls w) (outcomes w) (clock w) (polls w) (rands w) rest) s).

(** [e.sm.Transition(event)]. *)
Definition transit (e : sm_event) : State (node B) unit := modify (λ s, set_sm (sm_next (sm s) e) s).

(** [e.seq.Next()]. *)
Definition next_seq : State (node B) Z := zoom nseq set_seq Next.

(** [e.bdSeq.Add(1)]. *)
Definition add_bdSeq : State (node B) Z := λ s,
  let v := uint64 (bdSeq s + 1) in (v, set_bdSeq v s).

Definition publish (topic : string) (qos : Z) (data : B) : State (node B) (option error) :=
  call_client (CPublish topic qos false data).

(** *** The handlers *)

(** The body of the loop over the devices. *)
Definition publishDBIRTH (dev : DeviceConfig) : State (node B) unit :=
  dbirthSeq ← next_seq;
  now ← Now;
  ts ← Now;
  match BuildDBIRTH now ts [] dbirthSeq with
  | inr _ => mret tt
  | inl data => _ ← publish (deviceTopic groupID nodeID (DeviceID dev) "DBIRTH") 1 data; mret tt
  end.

Definition publishBirths : State (node B) unit :=
  bdSeqVal ← add_bdSeq;
  let allTags := dev ← devices; Tags dev in
  now ← Now;
  nbirth ← zoom nseq set_seq (BuildNBIRTH now allTags bdSeqVal);
  match nbirth with
  | inr _ => transit EventConnectFail
  | inl data =>
      err ← publish (nodeTopic groupID nodeID "NBIRTH") 1 data;
      match err with
      | Some _ => transit EventConnectFail
      | None => _ ← for_each devices publishDBIRTH; transit EventConnectSuccess
      end
  end.

Definition onConnect : State (node B) unit := publishBirths.

Definition subscribeCommands : State (node B) (option error) :=
  err ← call_client (CSubscribe (nodeTopic groupID nodeID "NCMD") 1);
  match err with
  | Some err => mret (Some err)
  | None => call_client (CSubscribe (dcmdFilter groupID nodeID) 1)
  end.

Definition resubscribeCommands : State (node B) unit :=
  _ ← call_client (CUnsubscribe (nodeTopic groupID nodeID "NCMD"));
  _ ← call_client (CUnsubscribe (dcmdFilter groupID nodeID));
  _ ← subscribeCommands;
  mret tt.

Definition Start : State (node B) (option error) :=
  _ ← modify (set_signal false);
  _ ← transit EventConnectAttempt;
  err ← call_client CConnect;
  match err with
  | Some err =>
      _ ← transit EventConnectFail;
      mret (Some (Errorf "sparkplug: start: %w" [FWrap err]))
  | None =>
      _ ← subscribeCommands;
      _ ← modify (set_running true true);
      mret None
  end.

Definition stop_device (dev : DeviceConfig) : State (node B) unit :=
  seqVal ← next_seq;
  now ← Now;
  match BuildDDEATH now seqVal with
  | inr _ => mret tt
  | inl data => _ ← publish (deviceTopic groupID nodeID (DeviceID dev) "DDEATH") 1 data; mret tt
  end.

(** [Stop]: it always returns nil.  The waits for the goroutines end because
    both loops select on [done]. *)
Definition Stop : State (node B) unit :=
  _ ← for_each devices stop_device;
  s ← get_state;
  now ← Now;
  _ ← (match BuildNDEATH now (bdSeq s) with
       | inr _ => mret None
       | inl data => publish (nodeTopic groupID nodeID "NDEATH") 1 data
       end);
  _ ← transit EventDisconnect;
  _ ← modify (set_running false false);
  _ ← call_client (CDisconnect 250);
  mret tt.

Definition HandleTagUpdate (u : TagUpdate) : State (node B) unit :=
  s ← get_state;
  if decide (sm s = Online) then
    if (length (updates s) <? updates_cap)%nat then set_state (set_updates (updates s ++ [u]) s)
    else mret tt
  else mret tt.

Definition onConnectionLost : State (node B) unit :=
  _ ← transit EventConnectionLost;
  modify (set_signal true).

(** One round of [reconnectLoop]; with no signal it waits.  When the fuel of
    [Do] runs out it is still retrying. *)
Definition reconnect_round (fuel : nat) : State (node B) unit :=
  s ← get_state;
  if reconnecting s && reconnectCh s then
    _ ← set_state (set_signal false s);
    r ← Do ctx_err rand sleep (call_client CConnect) fuel retryOptions;
    match r with
    | None => mret tt
    | Some (Some _) => modify (λ s, set_running (publishing s) false s)
    | Some None =>
        _ ← resubscribeCommands;
        _ ← publishBirths;
        modify (set_signal false)
    end
  else mret tt.

Definition is_rebirth (m : metric) : bool :=
  match Name m, Value m with
  | Some n, Some (BooleanValue true) => String.eqb n "Node Control/Rebirth"
  | _, _ => false
  end.

Definition handleNCMD (data : B) : State (node B) unit :=
  match Unmarshal data with
  | inr _ => mret tt
  | inl p => if existsb is_rebirth (Metrics p) then publishBirths else mret tt
  end.

(** The commands one metric of a DCMD amounts to. *)
Definition command_of (deviceID : string) (m : metric) : option (string * string * value) :=
  n ← Name m;
  let v := DecodeMetricValue (Some m) in
  if value_is_nil v then None else Some (deviceID, n, v).

Definition handleDCMD (topic : string) (data : B) : State (node B) unit :=
  if negb onCommand then mret tt
  else match split "/" topic !! 4%nat with
       | None => mret tt
       | Some deviceID =>
           match Unmarshal data with
           | inr _ => mret tt
           | inl p => for_each (Metrics p) (λ m,
               match command_of deviceID m with
               | None => mret tt
               | Some c => modify (λ s, set_commands (commands s ++ [c]) s)
               end)
           end
       end.

(** One update taken by [publishLoop]; with none it waits. *)
Definition publish_one : State (node B) unit :=
  s ← get_state;
  match updates s with
  | u :: rest =>
      if publishing s then
        _ ← set_state (set_updates rest s);
        if decide (sm s = Online) then
          seqVal ← next_seq;
          now ← Now;
          match BuildDDATA now [u] seqVal with
          | inr _ => mret tt
          | inl data => _ ← publish (deviceTopic groupID nodeID (suPLCName u) "DDATA") 0 data; mret tt
          end
        else mret tt
      else mret tt
  | [] => mret tt
  end.

(** *** Sequences of handlers *)

Inductive event :=
| TagUpdated (u : TagUpdate)
| PublishOne
| Connected
| ConnectionLost
| ReconnectRound (fuel : nat)
| GotNCMD (data : B)
| GotDCMD (topic : string) (data : B).

Definition handle (e : event) : State (node B) unit :=
  match e with
  | TagUpdated u => HandleTagUpdate u
  | PublishOne => publish_one
  | Connected => onConnect
  | ConnectionLost => onConnectionLost
  | ReconnectRound fuel => reconnect_round fuel
  | GotNCMD data => handleNCMD data
  | GotDCMD topic data => handleDCMD topic data
  end.

Definition run (evs : list event) : State (node B) unit := for_each evs handle.

(** ** What is on the wire

    [sent s] is every call made so far, in order. *)

Definition sent (s : node B) : list (call B * option error) := calls (outside s).

Definition nbirth_topic : string := nodeTopic groupID nodeID "NBIRTH".

(** A numbered message: whether it is an NBIRTH, and its number. *)
Definition numbered (c : call B * option error) : option (bool * Z) :=
  match c.1 with
  | CPublish topic _ _ data =>
      match Unmarshal data with
      | inl p => n ← plSeq p; Some (String.eqb topic nbirth_topic, n)
      | inr _ => None
      end
  | _ => None
  end.

(** The rule of the numbers: an NBIRTH is 0, every other message is one more
    than its predecessor, modulo 256.  The result is the number that is due. *)
Fixpoint numbering (due : Z) (ns : list (bool * Z)) : option Z :=
  match ns with
  | [] => Some due
  | (birth, n) :: ns =>
      if n =? (if birth then 0 else due) then numbering ((n + 1) mod 256) ns else None
  end.

(** The [bdSeq] an NBIRTH carries. *)
Definition birth_bdSeq (c : call B * option error) : option Z :=
  match c.1 with
  | CPublish topic _ _ data =>
      if String.eqb topic nbirth_topic then
        match Unmarshal data with
        | inl p => match Metrics p with
                   | m :: _ => match Value m with Some (LongValue v) => Some v | _ => None end
                   | [] => None
                   end
        | inr _ => None
        end
      else None
  | _ => None
  end.

(** An NBIRTH has been accepted by the broker. *)
Definition born (cs : list (call B * option error)) : Prop :=
  ∃ qos retained data, (CPublish nbirth_topic qos retained data, None) ∈ cs.

Definition ddata_topic (topic : string) : Prop := ∃ dev, topic = deviceTopic groupID nodeID dev "DDATA".

(** Data is published only after a birth was accepted. *)
Definition data_after_birth (cs : list (call B * option error)) : Prop :=
  ∀ i topic qos retained data r,
    cs !! i = Some (CPublish topic qos retained data, r) → ddata_topic topic → born (take i cs).

Record session_ok (s : node B) : Prop := {
  so_numbers : numbering 0 (omap numbered (sent s)) = Some (nseq s mod 256);
  so_online : sm s = Online → born (sent s);
  so_data : data_after_birth (sent s);
  so_births : ∃ n, omap birth_bdSeq (sent s) = ((λ i, uint64 (Z.of_nat i)) <$> seq 1 n) ∧
                   bdSeq s = uint64 (Z.of_nat n);
  so_queue : (length (updates s) ≤ updates_cap)%nat ∧ Forall encodable (updates s);
}.

(** *** Topics *)

Lemma deviceTopic_not_birth dev verb :
  verb = "DBIRTH" ∨ verb = "DDATA" ∨ verb = "DDEATH" →
  deviceTopic groupID nodeID dev verb ≠ nbirth_topic.
Proof.
  intros Hv H. unfold deviceTopic, nbirth_topic, nodeTopic in H.
  do 3 apply (inj (String.append _)) in H.
  destruct Hv as [->|[->| ->]]; simpl in H; discriminate.
Qed.

Lemma deviceTopic_not_data dev verb :
  verb = "DBIRTH" ∨ verb = "DDEATH" → ¬ ddata_topic (deviceTopic groupID nodeID dev verb).
Proof.
  intros Hv [dev' H]. unfold deviceTopic in H. do 3 apply (inj (String.append _)) in H.
  destruct Hv as [->| ->]; simpl in H; discriminate.
Qed.

Lemma nbirth_not_data : ¬ ddata_topic nbirth_topic.
Proof.
  intros [dev H]. unfold nbirth_topic, nodeTopic, deviceTopic in H.
  do 3 apply (inj (String.append _)) in H. simpl in H. discriminate.
Qed.

(** *** Growing the log *)

Lemma numbering_app due ns ns' :
  numbering due (ns ++ ns') = (d ← numbering due ns; numbering d ns').
Proof.
  revert due. induction ns as [|[[] n] ns IH]; intros due; [done|..]; simpl;
    (destruct (n =? _); [apply IH|done]).
Qed.

Lemma born_app cs cs' : born cs → born (cs ++ cs').
Proof. intros (q & r & d & Hin). exists q, r, d. apply elem_of_app. by left. Qed.

Lemma data_after_birth_snoc cs c r :
  data_after_birth cs →
  (∀ topic qos ret data, c = CPublish topic qos ret data → ddata_topic topic → born cs) →
  data_after_birth (cs ++ [(c, r)]).
Proof.
  intros Hd Hc i topic qos ret data r' Hi Ht.
  destruct (decide (i < length cs)%nat) as [Hlt|].
  - rewrite lookup_app_l in Hi by done. rewrite take_app_le by lia. eauto.
  - pose proof (lookup_lt_Some _ _ _ Hi) as Hlen. rewrite length_app in Hlen. simpl in Hlen.
    assert (i = length cs) as -> by lia. rewrite lookup_app_r, Nat.sub_diag in Hi by lia.
    simplify_eq/=. rewrite take_app_length. eauto.
Qed.

(** *** Effects of the primitives *)

Lemma call_client_run c (s : node B) :
  ∃ r w, call_client c s = (r, set_outside w s) ∧ calls w = sent s ++ [(c, r)].
Proof. unfold call_client, sent. destruct (pop _ _) as [r rest]. eauto. Qed.

Lemma Now_run (s : node B) : ∃ t w, Now s = (t, set_outside w s) ∧ calls w = sent s.
Proof. unfold Now, sent. destruct (pop _ _) as [t rest]. eauto. Qed.

Lemma next_seq_run (s : node B) :
  next_seq s = (nseq s mod 256, set_seq (uint64 (nseq s + 1)) s).
Proof. unfold next_seq, zoom. by rewrite Next_run. Qed.

(** A state in which only the outside changed, without a publish. *)
Definition is_publish (c : call B) : bool := match c with CPublish _ _ _ _ => true | _ => false end.

Lemma ok_quiet s w cs :
  session_ok s → calls w = sent s ++ cs → Forall (λ c, is_publish c.1 = false) cs →
  session_ok (set_outside w s).
Proof.
  intros [Hn Ho Hd Hb Hq] Hw Hcs. destruct s as [st sq bd ups sig pu rc cm out].
  unfold sent in *. simpl in *.
  assert (Hnil : omap numbered cs = [] ∧ omap birth_bdSeq cs = []).
  { clear Hw. induction Hcs as [|[c r] cs' Hc]; [done|]. destruct c; simpl in *; done. }
  destruct Hnil as [H1 H2]. split; unfold sent; simpl; rewrite ?Hw; try done.
  - by rewrite omap_app, H1, app_nil_r.
  - intros Hs. apply born_app; auto.
  - clear Hw H1 H2. revert Hcs. induction cs as [|[c r] cs' IH] using rev_ind; intros Hcs.
    { by rewrite app_nil_r. }
    apply Forall_app in Hcs as [Hcs Hc]. rewrite app_assoc. apply data_after_birth_snoc; [auto|].
    intros ? ? ? ? ->. by apply Forall_inv in Hc.
  - by rewrite omap_app, H2, app_nil_r.
Qed.

(** A numbered message other than an NBIRTH. *)
Definition publishes (s s' : node B) (topic : string) : Prop :=
  ∃ qos data p r w,
    s' = set_outside w (set_seq (uint64 (nseq s + 1)) s) ∧
    calls w = sent s ++ [(CPublish topic qos false data, r)] ∧
    Unmarshal data = inl p ∧ plSeq p = Some (nseq s mod 256).

Lemma uint64_succ_mod z : uint64 (z + 1) mod 256 = (z mod 256 + 1) mod 256.
Proof. by rewrite uint64_mod_256, Z.add_mod_idemp_l by lia. Qed.

Lemma ok_publishes s s' topic :
  session_ok s → publishes s s' topic → topic ≠ nbirth_topic →
  (ddata_topic topic → sm s = Online) → session_ok s'.
Proof.
  intros [Hn Ho Hd Hb Hq] (qos & data & p & r & w & -> & Hw & Hp & Hs) Ht Hdata.
  apply String.eqb_neq in Ht. split; unfold sent; simpl; rewrite ?Hw; try done.
  - rewrite omap_app, numbering_app, Hn. simpl. unfold numbered. simpl. rewrite Hp. simpl.
    rewrite Hs, Ht. simpl. rewrite Z.eqb_refl. simpl. by rewrite uint64_succ_mod.
  - intros Hon. by apply born_app, Ho.
  - apply data_after_birth_snoc; [done|]. intros ? ? ? ? [= <- <- <- <-] Hdt. by apply Ho, Hdata.
  - rewrite omap_app. unfold birth_bdSeq at 2. simpl. rewrite Ht, app_nil_r. done.
Qed.

Lemma ok_set_sm x s :
  session_ok s → (x = Online → born (sent s)) → session_ok (set_sm x s).
Proof. intros [Hn Ho Hd Hb Hq] Hx. by split. Qed.

Lemma ok_transit e s :
  session_ok s → (e = EventConnectSuccess → born (sent s)) → session_ok (transit e s).2.
Proof.
  intros Hok He. apply ok_set_sm; [done|]. intros Hon. destruct Hok as [_ Ho _ _ _].
  destruct (sm s) eqn:E, e; simpl in Hon; try done; auto.
Qed.

Lemma publishes_born s s' topic : publishes s s' topic → born (sent s) → born (sent s').
Proof. intros (q & d & p & r & w & -> & Hw & _) Hb. unfold sent. simpl. rewrite Hw. by apply born_app. Qed.

(** [proto.Marshal] fails on no message of this package: there is no required
    field, and proto2 strings are not validated. *)
Context (Marshal_total : ∀ p, ∃ b, Marshal p = inl b).

Lemma marshal_total p : ∃ b, marshal p = inl b ∧ Unmarshal b = inl p.
Proof.
  destruct (Marshal_total p) as [b Hb]. exists b. unfold marshal. rewrite Hb.
  split; [done|]. by apply Unmarshal_Marshal.
Qed.

Ltac case_marshal b Hb :=
  match goal with
  | |- context [marshal ?p] => destruct (marshal_total p) as (b & Hb & _); rewrite Hb
  end.

(** A message built from the next number and the clock, and published. *)
Lemma publish_numbered (p : payload) topic qos (s s0 : node B) b w0 :
  s0 = set_outside w0 (set_seq (uint64 (nseq s + 1)) s) → calls w0 = sent s →
  plSeq p = Some (nseq s mod 256) → marshal p = inl b →
  publishes s (publish topic qos b s0).2 topic.
Proof.
  intros -> Hw0 Hp Hb. unfold publish.
  destruct (call_client_run (CPublish topic qos false b)
              (set_outside w0 (set_seq (uint64 (nseq s + 1)) s))) as (r & w & -> & Hw).
  exists qos, b, p, r, w. unfold sent in Hw at 1. simpl in Hw. rewrite Hw0 in Hw.
  split_and!; [done..|by apply marshal_inv|done].
Qed.

Lemma bind_snd {S A C : Type} (m : State S A) (c : C) s : (m ≫= λ _, mret c) s = (c, (m s).2).
Proof. rewrite bind_run. by destruct (m s). Qed.

Lemma publishDBIRTH_publishes dev s :
  publishes s (publishDBIRTH dev s).2 (deviceTopic groupID nodeID (DeviceID dev) "DBIRTH").
Proof.
  unfold publishDBIRTH. rewrite bind_run, next_seq_run, bind_run.
  destruct (Now_run (set_seq (uint64 (nseq s + 1)) s)) as (now & w1 & -> & H1). rewrite bind_run.
  destruct (Now_run (set_outside w1 (set_seq (uint64 (nseq s + 1)) s))) as (ts & w2 & -> & H2).
  unfold BuildDBIRTH. cbn [encode_all].
  case_marshal b Hb. rewrite bind_snd.
  eapply publish_numbered; [done| | |exact Hb]; [by rewrite H2|done].
Qed.

Lemma stop_device_publishes dev s :
  publishes s (stop_device dev s).2 (deviceTopic groupID nodeID (DeviceID dev) "DDEATH").
Proof.
  unfold stop_device. rewrite bind_run, next_seq_run, bind_run.
  destruct (Now_run (set_seq (uint64 (nseq s + 1)) s)) as (now & w1 & -> & H1).
  unfold BuildDDEATH. case_marshal b Hb. rewrite bind_snd.
  eapply publish_numbered; [done| | |exact Hb]; [by rewrite H1|done].
Qed.

Lemma ok_devices s :
  session_ok s → born (sent s) →
  session_ok (for_each devices publishDBIRTH s).2 ∧ born (sent (for_each devices publishDBIRTH s).2).
Proof.
  intros Hs Hb. apply (for_each_inv (λ s, session_ok s ∧ born (sent s))); [|done].
  intros dev s' [Hs' Hb']. pose proof (publishDBIRTH_publishes dev s') as Hp. split.
  - eapply ok_publishes; [done|exact Hp| |].
    + apply deviceTopic_not_birth. auto.
    + intros []%deviceTopic_not_data. auto.
  - by eapply publishes_born.
Qed.

(** What a birth puts on the wire before the devices. *)
Lemma ok_NBIRTH s w bd data p r :
  session_ok s → bd = uint64 (bdSeq s + 1) →
  calls w = sent s ++ [(CPublish nbirth_topic 1 false data, r)] →
  Unmarshal data = inl p → plSeq p = Some 0 →
  (∃ ts ms, Metrics p = bdSeq_metric ts bd :: ms) →
  session_ok (set_outside w (set_seq 1 (set_bdSeq bd s))).
Proof.
  intros [Hn Ho Hd (n & Hb & Hbd) Hq] Hbdv Hw Hp Hs (ts & ms & Hm).
  split; unfold sent; simpl; rewrite ?Hw; try done.
  - rewrite omap_app, numbering_app, Hn. simpl. unfold numbered. simpl.
    by rewrite Hp; simpl; rewrite Hs, String.eqb_refl.
  - intros Hon. by apply born_app, Ho.
  - apply data_after_birth_snoc; [done|]. intros ? ? ? ? [= <- <- <- <-] Hdt.
    by destruct nbirth_not_data.
  - exists (S n). rewrite omap_app, Hb, seq_S, fmap_app. unfold birth_bdSeq. simpl.
    rewrite String.eqb_refl, Hp, Hm. simpl.
    assert (bd = uint64 (Z.of_nat (S n))) as ->.
    { rewrite Hbdv, Hbd. unfold wrap_u. rewrite Z.add_mod_idemp_l by lia. f_equal. lia. }
    done.
Qed.

Lemma ok_publishBirths s : session_ok s → session_ok (publishBirths s).2.
Proof.
  intros Hs. unfold publishBirths. rewrite bind_run. unfold add_bdSeq at 1.
  set (bd := uint64 (bdSeq s + 1)). cbv beta iota zeta.
  rewrite bind_run. destruct (Now_run (set_bdSeq bd s)) as (now & w & -> & Hw).
  rewrite bind_run. unfold zoom. rewrite BuildNBIRTH_run. cbv beta iota.
  case_marshal b Hb.
  pose proof (marshal_inv _ _ Hb) as Hu. rewrite bind_run. unfold publish.
  edestruct call_client_run as (r & w' & -> & Hw'). cbv beta iota.
  assert (Hok : session_ok (set_outside w' (set_seq 1 (set_outside w (set_bdSeq bd s))))).
  { change (session_ok (set_outside w' (set_seq 1 (set_bdSeq bd s)))). eapply ok_NBIRTH; [done|done| |exact Hu|done|by eexists _, _].
    rewrite Hw'. unfold sent in *. simpl in *. by rewrite Hw. }
  destruct r as [e|]; [by apply ok_transit|].
  rewrite bind_run. destruct (for_each _ _ _) as [[] s1] eqn:E.
  destruct (ok_devices _ Hok) as [H1 H2].
  { exists 1, false, b. unfold sent. simpl. rewrite Hw'. apply elem_of_app. right. by left. }
  rewrite E in H1, H2. by apply ok_transit.
Qed.

(** *** The other handlers *)

Abbreviation quiet := (keeps session_ok).

Lemma quiet_call c : is_publish c = false → quiet (call_client c).
Proof.
  intros Hc s Hs. destruct (call_client_run c s) as (r & w & -> & Hw).
  eapply ok_quiet; [done|exact Hw|]. by constructor.
Qed.

Lemma quiet_io {A : Type} (m : State (node B) A) :
  (∀ s, ∃ r w, m s = (r, set_outside w s) ∧ calls w = sent s) → quiet m.
Proof.
  intros Hm s Hs. destruct (Hm s) as (r & w & -> & Hw).
  eapply ok_quiet; [done|by rewrite Hw, app_nil_r|constructor].
Qed.

Lemma quiet_Now : quiet Now.
Proof. apply quiet_io. intros s. apply Now_run. Qed.
Lemma quiet_ctx_err : quiet ctx_err.
Proof. apply quiet_io. intros s. unfold ctx_err. destruct (pop _ _) as [r l]. by eexists r, _. Qed.
Lemma quiet_rand : quiet rand.
Proof. apply quiet_io. intros s. unfold rand. destruct (pop _ _) as [r l]. by eexists r, _. Qed.
Lemma quiet_sleep d : quiet (sleep d).
Proof. apply quiet_io. intros s. unfold sleep. destruct (pop _ _) as [r l]. by eexists r, _. Qed.
Lemma quiet_transit e : e ≠ EventConnectSuccess → quiet (transit e).
Proof. intros He s Hs. by apply ok_transit. Qed.
Lemma quiet_modify f :
  (∀ s, session_ok s → session_ok (f s)) → quiet (modify f).
Proof. intros Hf s Hs. by apply Hf. Qed.
Lemma quiet_births : quiet publishBirths.
Proof. intros s. apply ok_publishBirths. Qed.

(** Fields the invariant does not read. *)
Lemma ok_signal x s : session_ok s → session_ok (set_signal x s).
Proof. by intros []. Qed.
Lemma ok_running p r s : session_ok s → session_ok (set_running p r s).
Proof. by intros []. Qed.
Lemma ok_commands x s : session_ok s → session_ok (set_commands x s).
Proof. by intros []. Qed.

Ltac quiet_tac :=
  repeat match goal with
  | |- keeps _ (mret _) => apply keeps_ret
  | |- keeps _ (_ ≫= _) => apply keeps_bind; [|intros ?]
  | |- keeps _ (call_client _) => apply quiet_call; reflexivity
  | |- keeps _ Now => apply quiet_Now
  | |- keeps _ ctx_err => apply quiet_ctx_err
  | |- keeps _ rand => apply quiet_rand
  | |- keeps _ (sleep _) => apply quiet_sleep
  | |- keeps _ publishBirths => apply quiet_births
  | |- keeps _ (transit _) => apply quiet_transit; discriminate
  | |- keeps _ (modify _) =>
      apply quiet_modify; intros ? ?; auto using ok_signal, ok_running, ok_commands
  | |- keeps _ (match _ with _ => _ end) => split_match
  end.

Lemma quiet_subscribe : quiet subscribeCommands.
Proof. unfold subscribeCommands. quiet_tac. Qed.

Lemma quiet_resubscribe : quiet resubscribeCommands.
Proof. unfold resubscribeCommands. quiet_tac; apply quiet_subscribe. Qed.

Lemma quiet_Start : quiet Start.
Proof. unfold Start. quiet_tac; apply quiet_subscribe. Qed.

Lemma quiet_attempts fuel o attempt last :
  quiet (attempts ctx_err rand sleep (call_client CConnect) fuel o attempt last).
Proof.
  revert attempt last. induction fuel as [|n IH]; intros attempt last; cbn [attempts];
    [apply keeps_ret|]. quiet_tac. apply IH.
Qed.

Lemma ok_reconnect fuel : quiet (reconnect_round fuel).
Proof.
  intros s Hs. unfold reconnect_round. rewrite bind_run. unfold get_state at 1. cbv beta iota.
  destruct (_ && _); [|done]. rewrite bind_run. unfold set_state at 1. cbv beta iota.
  revert s Hs. enough (quiet (r ← Do ctx_err rand sleep (call_client CConnect) fuel retryOptions;
    match r with
    | None => mret tt
    | Some (Some _) => modify (λ s, set_running (publishing s) false s)
    | Some None => _ ← resubscribeCommands; _ ← publishBirths; modify (set_signal false)
    end)) as Hq by (intros s0 Hs0; by apply Hq, ok_signal).
  quiet_tac; [apply quiet_attempts|apply quiet_resubscribe].
Qed.

Lemma ok_NCMD data : quiet (handleNCMD data).
Proof. unfold handleNCMD. quiet_tac. Qed.

Lemma ok_DCMD topic data : quiet (handleDCMD topic data).
Proof.
  unfold handleDCMD. quiet_tac. intros st. apply for_each_inv. intros m st'.
  destruct (command_of _ m); [apply ok_commands|done].
Qed.

Lemma ok_HandleTagUpdate u : encodable u = true → quiet (HandleTagUpdate u).
Proof.
  intros Hu s Hs. unfold HandleTagUpdate. rewrite bind_run. unfold get_state at 1. cbv beta iota.
  destruct (decide _); [|done]. destruct (Nat.ltb_spec (length (updates s)) updates_cap); [|done].
  destruct Hs as [Hn Ho Hd Hb [Hq He]]. split; try done. simpl. rewrite length_app. simpl.
  split; [lia|]. apply Forall_app. split; [done|]. constructor; [by rewrite Hu|done].
Qed.

Lemma ddata_metrics_total u : encodable u = true → ∃ m, ddata_metrics [u] = inl [m].
Proof.
  intros Hu. cbn [ddata_metrics]. unfold ddata_metric, EncodeMetric, encodable in *.
  destruct (suValue u); simpl in *; try done; destruct (String.eqb _ _); eauto.
Qed.

Lemma ok_publish_one : quiet publish_one.
Proof.
  intros s Hs. unfold publish_one. rewrite bind_run. unfold get_state at 1. cbv beta iota.
  destruct (updates s) as [|u rest] eqn:Eu; [done|]. destruct (publishing s); [|done].
  rewrite bind_run. unfold set_state at 1. cbv beta iota.
  assert (Hs' : session_ok (set_updates rest s) ∧ encodable u = true).
  { destruct Hs as [Hn Ho Hd Hb [Hq He]]. rewrite Eu in *. simpl in Hq.
    apply Forall_cons in He as [Hu He]. split; [|by apply Is_true_true]. split; try done. simpl.
    split; [lia|done]. }
  destruct Hs' as [Hs' Hu]. destruct (decide (sm s = Online)) as [Hon|]; [|done].
  rewrite bind_run, next_seq_run, bind_run.
  edestruct Now_run as (now & w1 & -> & H1). unfold BuildDDATA.
  destruct (ddata_metrics_total u Hu) as [m ->]. case_marshal b Hb. rewrite bind_snd.
  eapply (ok_publishes (set_updates rest s) _ _ Hs').
  - eapply publish_numbered; [done| | |exact Hb]; [by rewrite H1|done].
  - apply deviceTopic_not_birth. auto.
  - done.
Qed.

(** Events of the world the theorem speaks about: updates carry scalars. *)
Definition event_ok (e : event) : bool :=
  match e with TagUpdated u => encodable u | _ => true end.

Lemma ok_handle e : event_ok e = true → quiet (handle e).
Proof.
  destruct e; simpl; intros He;
    eauto using ok_HandleTagUpdate, ok_publish_one, quiet_births, ok_reconnect, ok_NCMD, ok_DCMD.
  unfold onConnectionLost. quiet_tac.
Qed.

Lemma ok_run evs s : forallb event_ok evs = true → session_ok s → session_ok (run evs s).2.
Proof.
  unfold run. revert s. induction evs as [|e evs IH]; intros s Hevs Hs; [done|].
  cbn [for_each]. simpl in Hevs. bool_to_prop. rewrite bind_run.
  pose proof (ok_handle e ltac:(done) s Hs) as H'. destruct (handle e s) as [[] s']. auto.
Qed.

Lemma ok_new world : calls world = [] → session_ok (NewEdgeNode world).
Proof.
  intros Hw. split; unfold sent; simpl; rewrite ?Hw; try done.
  - by exists 0%nat.
  - split; [lia|constructor].
Qed.


(** *** After a loss of the connection *)

(** The node is offline, and since [base] no tag data went out. *)
Definition silent_since (base : list (call B * option error)) (s : node B) : Prop :=
  sm s = Offline ∧ ∃ more, sent s = base ++ more ∧
  ∀ topic qos retained data r,
    (CPublish topic qos retained data, r) ∈ more → ¬ ddata_topic topic.

Lemma silent_call base c :
  (∀ topic qos ret data, c = CPublish topic qos ret data → ¬ ddata_topic topic) →
  keeps (silent_since base) (call_client c).
Proof.
  intros Hc s (Hoff & more & Hm & Hd). destruct (call_client_run c s) as (r & w & -> & Hw).
  split; [done|]. exists (more ++ [(c, r)]). unfold sent. simpl. rewrite Hw, Hm, app_assoc.
  split; [done|]. intros topic qos ret data r' [Hin|Hin]%elem_of_app; [eauto|].
  apply list_elem_of_singleton in Hin. simplify_eq. eauto.
Qed.

Lemma silent_frame {A : Type} base (m : State (node B) A) :
  (∀ s, sm (m s).2 = sm s ∧ sent (m s).2 = sent s) → keeps (silent_since base) m.
Proof.
  intros Hm s (Hoff & Hmore). destruct (Hm s) as [H1 H2].
  split; [congruence|]. by rewrite H2.
Qed.

Lemma silent_transit base e : e ≠ EventConnectAttempt → keeps (silent_since base) (transit e).
Proof. intros He s (Hoff & Hm). split; [|done]. simpl. rewrite Hoff. by destruct e. Qed.

Ltac silent_tac :=
  repeat match goal with
  | |- keeps _ (mret _) => apply keeps_ret
  | |- keeps _ (_ ≫= _) => apply keeps_bind; [|intros ?]
  | |- keeps _ (publish _ _ _) => apply silent_call; intros ? ? ? ? [= <- _ _]
  | |- keeps _ (call_client _) => apply silent_call; discriminate
  | |- keeps _ (transit _) => apply silent_transit; discriminate
  | |- keeps _ (for_each _ _) => apply keeps_for_each; intros ?
  | |- keeps _ (match _ with _ => _ end) => split_match
  | |- keeps _ _ =>
      apply silent_frame; intros ?; unfold Now, ctx_err, rand, sleep; repeat split_match;
      simplify_eq/=; done
  end.

Lemma silent_births base : keeps (silent_since base) publishBirths.
Proof.
  unfold publishBirths, publishDBIRTH.
  silent_tac; [apply nbirth_not_data|apply deviceTopic_not_data; auto].
Qed.

Lemma silent_attempts base fuel o attempt last :
  keeps (silent_since base) (attempts ctx_err rand sleep (call_client CConnect) fuel o attempt last).
Proof.
  revert attempt last. induction fuel as [|n IH]; intros attempt last; cbn [attempts];
    [apply keeps_ret|]. silent_tac. apply IH.
Qed.

Lemma silent_get_set base {A : Type} (k : node B → State (node B) A) :
  (∀ s, silent_since base s → silent_since base (k s s).2) →
  keeps (silent_since base) (s ← get_state; k s).
Proof. intros Hk s Hs. rewrite bind_run. unfold get_state at 1. by apply Hk. Qed.

Lemma silent_handle base e : keeps (silent_since base) (handle e).
Proof.
  destruct e; cbn [handle].
  - apply silent_get_set. intros s Hs. destruct (decide _); [|done].
    destruct (_ <? _)%nat; [|done]. by destruct Hs.
  - apply silent_get_set. intros s Hs. destruct (updates s) as [|u rest]; [done|].
    destruct (publishing s); [|done]. rewrite bind_run. unfold set_state at 1. cbv beta iota.
    destruct (decide _) as [Hon|]; [destruct Hs; congruence|]. by destruct Hs.
  - apply silent_births.
  - unfold onConnectionLost. silent_tac.
  - apply silent_get_set. intros s Hs. destruct (_ && _); [|done].
    assert (Hs' : silent_since base (set_signal false s)) by (by destruct Hs).
    revert s Hs' Hs. cbv delta [silent_since]. fold (silent_since base).
    enough (keeps (silent_since base) (r ← Do ctx_err rand sleep (call_client CConnect) fuel retryOptions;
      match r with
      | None => mret tt
      | Some (Some _) => modify (λ s, set_running (publishing s) false s)
      | Some None => _ ← resubscribeCommands; _ ← publishBirths; modify (set_signal false)
      end)) as Hq by (intros s0 Hs0 _; rewrite bind_run; unfold set_state at 1; by apply Hq).
    unfold resubscribeCommands, subscribeCommands.
    apply keeps_bind; [apply silent_attempts|intros r]. destruct r as [[]|]; [silent_tac| |apply keeps_ret].
    silent_tac. apply silent_births.
  - unfold handleNCMD. silent_tac. apply silent_births.
  - unfold handleDCMD. silent_tac.
Qed.

(** C36 A node that loses its connection stays offline for good and sends no tag
    data again, although it reconnects and publishes its births. *)
Theorem connection_loss_is_final (s : node B) (evs : list event) :
  sm s = Online →
  let s0 := (handle ConnectionLost s).2 in
  silent_since (sent s0) (run evs s0).2.
Proof.
  intros Hon. cbv zeta. assert (Hinit : silent_since (sent (handle ConnectionLost s).2) (handle ConnectionLost s).2).
  { split; [simpl; by rewrite Hon|]. exists []. split; [by rewrite app_nil_r|].
    by intros ? ? ? ? ? ?%not_elem_of_nil. }
  revert Hinit. generalize (sent (handle ConnectionLost s).2) as base.
  generalize (handle ConnectionLost s).2. intros s1 base Hs1.
  apply (keeps_for_each (silent_since base)); [|done]. intros e. apply silent_handle.
Qed.

(** *** Commands *)

Lemma handleDCMD_run topic data s :
  commands (handleDCMD topic data s).2 =
  commands s ++ (if onCommand then
    match split "/" topic !! 4%nat, Unmarshal data with
    | Some dev, inl p => omap (command_of dev) (Metrics p)
    | _, _ => []
    end else []).
Proof.
  unfold handleDCMD. destruct onCommand; simpl; [|by rewrite app_nil_r].
  destruct (split "/" topic !! 4%nat) as [dev|]; [|by rewrite app_nil_r].
  destruct (Unmarshal data) as [p|]; [|by rewrite app_nil_r].
  generalize (Metrics p) as ms. intros ms. revert s.
  induction ms as [|m ms IH]; intros s; [by rewrite app_nil_r|].
  cbn [for_each]. rewrite bind_run. simpl. destruct (command_of dev m); simpl; [|apply IH].
  rewrite IH. simpl. by rewrite <- app_assoc.
Qed.

Lemma DCMD_calls (dev : string) (nvs : list (string * value)) (ts : time)
    (t : option Z) (n : option Z) (data : B) (ms : list metric) (s : node B) :
  onCommand = true →
  lacks "/" groupID = true → lacks "/" nodeID = true → lacks "/" dev = true →
  Forall (λ nv, value_ok nv.2) nvs →
  encode_all ts nvs = inl ms → Marshal (mkPayload t n ms) = inl data →
  commands (handleDCMD (deviceTopic groupID nodeID dev "DCMD") data s).2 =
  commands s ++ ((λ nv, (dev, nv.1, nv.2)) <$> nvs).
Proof.
  intros Hc Hg Hnode Hdev Hok Hms Hdata. rewrite handleDCMD_run, Hc.
  assert (Hsplit : split "/" (deviceTopic groupID nodeID dev "DCMD") =
                   ["spBv1.0"; groupID; "DCMD"; nodeID; dev]).
  { change (deviceTopic groupID nodeID dev "DCMD") with ("spBv1.0" +:+ String "/" (groupID +:+
      String "/" ("DCMD" +:+ String "/" (nodeID +:+ String "/" dev)))).
    by rewrite !split_app, split_last. }
  rewrite Hsplit. cbn [lookup list_lookup]. rewrite (Unmarshal_Marshal _ _ Hdata).
  f_equal. cbn [Metrics]. clear Hdata. revert ms Hms. induction Hok as [|[nm v] nvs Hv Hok IH]; intros ms Hms.
  { by simplify_eq/=. }
  cbn [encode_all] in Hms. pose proof (EncodeMetric_Decode_run nm v ts Hv) as Hd.
  destruct (EncodeMetric nm v ts) as [m|e]; [|done].
  destruct (encode_all ts nvs) as [ms'|e]; [|done]. simplify_eq/=.
  destruct Hd as (Hs & Hd & Hn & _). unfold command_of at 1. rewrite Hn. simpl. rewrite Hd.
  rewrite (IH _ eq_refl). by destruct v.
Qed.

(** A command message carries the named values to the handler: each metric
    of the message, in order, is one call with the device of the topic, the name
    and the value that was encoded, whatever scalar it is. *)
Theorem handleDCMD_roundtrip (dev : string) (nvs : list (string * value)) (ts : time)
    (t : option Z) (n : option Z) (data : B) (ms : list metric) (s : node B) :
  onCommand = true →
  lacks "/" groupID = true → lacks "/" nodeID = true → lacks "/" dev = true →
  Forall (λ nv, value_ok nv.2) nvs →
  encode_all ts nvs = inl ms → Marshal (mkPayload t n ms) = inl data →
  commands (handleDCMD (deviceTopic groupID nodeID dev "DCMD") data s).2 =
  commands s ++ ((λ nv, (dev, nv.1, nv.2)) <$> nvs).
Proof. apply DCMD_calls. Qed.

(** *** Shutdown *)

Lemma stop_devices ds s :
  ∃ cs, sent (for_each ds stop_device s).2 = sent s ++ cs ∧
  bdSeq (for_each ds stop_device s).2 = bdSeq s ∧
  Forall2 (λ dev c, ∃ qos data r,
    c = (CPublish (deviceTopic groupID nodeID (DeviceID dev) "DDEATH") qos false data, r)) ds cs.
Proof.
  revert s. induction ds as [|dev ds IH]; intros s.
  { exists []. rewrite app_nil_r. by split_and!. }
  destruct (stop_device_publishes dev s) as (qos & data & p & r & w & E & Hw & _).
  cbn [for_each]. rewrite bind_run. destruct (stop_device dev s) as [[] s1]. simpl in E.
  destruct (IH s1) as (cs & Hc & Hbd & Hf). rewrite Hc, Hbd. subst s1.
  eexists (_ :: cs). unfold sent at 1. simpl. rewrite Hw, <- app_assoc.
  split_and!; [done..|]. constructor; [|done]. by exists qos, data, r.
Qed.

(** After the devices: the NDEATH, the disconnect, and the end of the loops. *)
Lemma Stop_run s :
  let s1 := (for_each devices stop_device s).2 in
  ∃ now data r r' w,
    Stop s = (tt, set_outside w (set_running false false (set_sm (sm_next (sm s1) EventDisconnect) s1))) ∧
    calls w = sent s1 ++
      [(CPublish (nodeTopic groupID nodeID "NDEATH") 1 false data, r); (CDisconnect 250, r')] ∧
    Unmarshal data = inl (mkPayload (Some (millis now)) None [bdSeq_metric None (bdSeq s1)]).
Proof.
  cbv zeta. unfold Stop. rewrite bind_run.
  destruct (for_each devices stop_device s) as [[] s1]. cbn [snd].
  rewrite bind_run. unfold get_state at 1. cbv beta iota. rewrite bind_run.
  destruct (Now_run s1) as (now & w1 & -> & H1). rewrite bind_run. unfold BuildNDEATH.
  case_marshal b Hb. unfold publish. edestruct call_client_run as (r & w2 & -> & H2).
  rewrite bind_run. unfold transit, modify at 1. cbv beta iota. rewrite bind_run.
  unfold modify at 1. cbv beta iota. rewrite bind_run. edestruct call_client_run as (r' & w3 & -> & H3).
  exists now, b, r, r', w3. split; [done|]. split; [|by apply marshal_inv].
  unfold sent in *. simpl in *. by rewrite H3, H2, H1, <- app_assoc.
Qed.

(** Stop says goodbye in order: one DDEATH per device, then an NDEATH with the
    bdSeq of the current birth and no number, then the disconnect; whatever the
    broker answers it gets through, and the goroutines are stopped. *)
Theorem Stop_correct (s : node B) :
  let s' := (Stop s).2 in
  (∃ deaths data p r r', sent s' = sent s ++ deaths ++
     [(CPublish (nodeTopic groupID nodeID "NDEATH") 1 false data, r); (CDisconnect 250, r')] ∧
   Forall2 (λ dev c, ∃ qos data r,
     c = (CPublish (deviceTopic groupID nodeID (DeviceID dev) "DDEATH") qos false data, r)) devices deaths ∧
   Unmarshal data = inl p ∧ plSeq p = None ∧ Metrics p = [bdSeq_metric None (bdSeq s)]) ∧
  sm s' ≠ Online ∧ publishing s' = false ∧ reconnecting s' = false.
Proof.
  destruct (Stop_run s) as (now & data & r & r' & w & -> & Hw & Hp).
  destruct (stop_devices devices s) as (deaths & Hd & Hbd & Hf).
  destruct (for_each devices stop_device s) as [[] s1]. simpl in *.
  rewrite Hd, <- app_assoc in Hw. split_and!; [|by destruct (sm s1)|done..].
  exists deaths, data. eexists _, r, r'. split_and!; [done..|]. simpl. by rewrite Hbd.
Qed.
End edge_node.

(** ** Concrete runs *)

(** A wire on which a message is its own encoding. *)
#[export] Instance payload_proto : Proto payload.
Proof. refine {| Marshal := inl; Unmarshal := inl |}. by intros p b [= ->]. Defined.

Lemma payload_marshals (p : payload) : ∃ b : payload, Marshal p = inl b.
Proof. by exists p. Qed.

Definition ex_devices : list DeviceConfig := [mkDevice "press" [mkTagDef "speed" "Float"]].
Definition ex_world (os : list (option error)) : io payload := mkIo [] os [] [] [] [].
Definition ex_update (v : value) : TagUpdate := mkTagUpdate "press" "speed" v 0 "good".
Definition ex_options : Options := mkOptions Second (30 * Second) 0 (f64_of_Z 0) false.

Abbreviation ex_run := (run "plant" "line1" ex_devices true ex_options).
Abbreviation ex_started os := (Start "plant" "line1" (NewEdgeNode (ex_world os))).2.

(** Two updates, a lost connection that comes back, and one more update. *)
Definition ex_events : list (event (B := payload)) :=
  [Connected; TagUpdated (ex_update (VFloat32 0)); PublishOne;
   TagUpdated (ex_update (VInt16 7)); PublishOne; ConnectionLost; ReconnectRound 5].


Theorem connection_loss_is_final_witness :
  let s := (ex_run [Connected] (ex_started [])).2 in
  let s0 := (handle "plant" "line1" ex_devices true ex_options ConnectionLost s).2 in
  sm s = Online ∧ silent_since "plant" "line1" (sent s0) (ex_run ex_events s0).2.
Proof.
  split; [vm_compute; reflexivity|].
  apply (connection_loss_is_final "plant" "line1" ex_devices true ex_options). vm_compute. reflexivity.
Defined.

Theorem handleDCMD_roundtrip_witness :
  let nvs := [("speed", VFloat32 1065353216); ("mode", VInt8 (-2))] in
  ∃ ms, encode_all 0 nvs = inl ms ∧
  commands (handleDCMD true "spBv1.0/plant/DCMD/line1/press" (mkPayload None None ms)
              (NewEdgeNode (ex_world []))).2 =
  [("press", "speed", VFloat32 1065353216); ("press", "mode", VInt8 (-2))].
Proof.
  eexists. split; [reflexivity|].
  eapply (handleDCMD_roundtrip "plant" "line1" true "press"
           [("speed", VFloat32 1065353216); ("mode", VInt8 (-2))] 0 None None);
    try reflexivity.
  repeat constructor; vm_compute; done.
Defined.

Theorem Stop_correct_witness :
  let s' := (Stop "plant" "line1" ex_devices (ex_run [Connected] (ex_started [])).2).2 in
  sm s' ≠ Online ∧ publishing s' = false ∧ reconnecting s' = false ∧
  (∃ r, last (sent s') = Some (CDisconnect 250, r)).
Proof.
  pose proof (Stop_correct "plant" "line1" ex_devices payload_marshals
                (ex_run [Connected] (ex_started [])).2) as (H & H1 & H2 & H3).
  split_and!; [done..|]. destruct H as (ds & data & p & r & r' & -> & _).
  exists r'. by rewrite !last_app.
Defined.

(** An update whose value has no Sparkplug type takes a number that is never
    sent: the receiver sees a gap. *)
Theorem unsupported_value_leaves_gap :
  let s := (ex_run [Connected; TagUpdated (ex_update (VPtr VNil)); PublishOne;
                    TagUpdated (ex_update (VBool true)); PublishOne] (ex_started [])).2 in
  omap (numbered "plant" "line1") (sent s) = [(true, 0); (false, 1); (false, 3)].
Proof. vm_compute. reflexivity. Qed.

(** A rebirth that cannot be published leaves the node online with the number
    of a birth nobody received: the next data message is 1 again. *)
Theorem failed_rebirth_stays_online :
  let rebirth := mkPayload None None
    [mkMetric (Some "Node Control/Rebirth") None None None (Some (BooleanValue true))] in
  let s := (ex_run [Connected; GotNCMD rebirth; TagUpdated (ex_update (VBool true)); PublishOne]
              (ex_started [None; None; None; None; None; Some (Sentinel ErrMQTTPublish)])).2 in
  sm s = Online ∧
  omap (numbered "plant" "line1") (filter (λ c, ¬ is_Some c.2) (sent s)) =
    [(true, 0); (false, 1); (false, 1)].
Proof. vm_compute. auto. Qed.
