(* ===== verification/EdgeThreads.v ===== *)
(** * [internal/sparkplug]: the goroutines of the edge node

    [EdgeNode] runs one handler after the other.  The code has no lock around
    them: [publishLoop], [reconnectLoop], the callbacks of the MQTT client, the
    callers of [HandleTagUpdate] and [Stop] interleave at every atomic operation
    (the counters, the compare-and-swap of the state machine, the channels, the
    calls of the client).  Here a handler is a program of such operations; what
    holds of every schedule of them, and what does not. *)

From S2P Require Import Prelude GoString GoTime GoError Retry Sparkplug Threads EdgeNode.

Section threads.
Context {B : Type} `{!Proto B}.
Context (groupID nodeID : string) (devices : list DeviceConfig) (onCommand : bool).

(** ** The handlers *)

Definition nbirth_message (now : time) (bd seqVal : Z) : result B :=
  marshal (mkPayload (Some (millis now)) (Some seqVal)
    (bdSeq_metric (Some (millis now)) bd :: (birth_metric (millis now) <$> (dev ← devices; Tags dev)))).

Fixpoint dbirths (devs : list DeviceConfig) (k : prog (node B)) : prog (node B) :=
  match devs with
  | [] => k
  | dev :: devs =>
      act next_seq (λ dbirthSeq, act Now (λ now, act Now (λ ts,
        match BuildDBIRTH now ts [] dbirthSeq with
        | inr _ => dbirths devs k
        | inl data => act (publish (deviceTopic groupID nodeID (DeviceID dev) "DBIRTH") 1 data) (λ _, dbirths devs k)
        end)))
  end.

(** [publishBirths], then [k]; [BuildNBIRTH] is two operations on the sequence. *)
Definition births (k : prog (node B)) : prog (node B) :=
  act add_bdSeq (λ bdSeqVal,
  act (zoom nseq set_seq Reset) (λ _,
  act next_seq (λ seqVal,
  act Now (λ now,
  match nbirth_message now bdSeqVal seqVal with
  | inr _ => act (transit EventConnectFail) (λ _, k)
  | inl data =>
      act (publish (nodeTopic groupID nodeID "NBIRTH") 1 data) (λ err,
      match err with
      | Some _ => act (transit EventConnectFail) (λ _, k)
      | None => dbirths devices (act (transit EventConnectSuccess) (λ _, k))
      end)
  end)))).

(** The update [publishLoop] receives, if there is one. *)
Definition receive_update : State (node B) (option TagUpdate) := λ s,
  match updates s with
  | u :: rest => if publishing s then (Some u, set_updates rest s) else (None, s)
  | [] => (None, s)
  end.

Definition is_online : State (node B) bool := λ s, (bool_decide (sm s = Online), s).

(** One round of [publishLoop]. *)
Definition publish_round : prog (node B) :=
  act receive_update (λ got,
  match got with
  | None => Done
  | Some u =>
      act is_online (λ online,
      if online then
        act next_seq (λ seqVal, act Now (λ now,
        match BuildDDATA now [u] seqVal with
        | inr _ => Done
        | inl data => act (publish (deviceTopic groupID nodeID (suPLCName u) "DDATA") 0 data) (λ _, Done)
        end))
      else Done)
  end).

(** The non-blocking send of [HandleTagUpdate]. *)
Definition offer_update (u : TagUpdate) : State (node B) unit :=
  modify (λ s, if (length (updates s) <? updates_cap)%nat then set_updates (updates s ++ [u]) s else s).

Definition tag_updated (u : TagUpdate) : prog (node B) :=
  act is_online (λ online, if online then act (offer_update u) (λ _, Done) else Done).

Definition connection_lost : prog (node B) :=
  act (transit EventConnectionLost) (λ _, act (modify (set_signal true)) (λ _, Done)).

Definition subscriptions (k : prog (node B)) : prog (node B) :=
  act (call_client (CSubscribe (nodeTopic groupID nodeID "NCMD") 1)) (λ err,
  match err with
  | Some _ => k
  | None => act (call_client (CSubscribe (dcmdFilter groupID nodeID) 1)) (λ _, k)
  end).

(** The calls of [Connect] in [retry.Do]: up to [n] that fail before one that
    does not; [retry.Do] gives up otherwise. *)
Fixpoint connect_attempts (n : nat) (k : prog (node B)) : prog (node B) :=
  act (call_client CConnect) (λ err,
  match err with
  | None => k
  | Some _ => match n with
              | O => act (modify (λ s, set_running (publishing s) false s)) (λ _, Done)
              | S n => connect_attempts n k
              end
  end).

Definition receive_signal : State (node B) bool := λ s,
  if reconnecting s && reconnectCh s then (true, set_signal false s) else (false, s).

(** One round of [reconnectLoop]. *)
Definition reconnect (n : nat) : prog (node B) :=
  act receive_signal (λ lost,
  if lost then
    connect_attempts n (
    act (call_client (CUnsubscribe (nodeTopic groupID nodeID "NCMD"))) (λ _,
    act (call_client (CUnsubscribe (dcmdFilter groupID nodeID))) (λ _,
    subscriptions (births (act (modify (set_signal false)) (λ _, Done))))))
  else Done).

Definition start : prog (node B) :=
  act (modify (set_signal false)) (λ _,
  act (transit EventConnectAttempt) (λ _,
  act (call_client CConnect) (λ err,
  match err with
  | Some _ => act (transit EventConnectFail) (λ _, Done)
  | None => subscriptions (act (modify (set_running true true)) (λ _, Done))
  end))).

Fixpoint ddeaths (devs : list DeviceConfig) (k : prog (node B)) : prog (node B) :=
  match devs with
  | [] => k
  | dev :: devs =>
      act next_seq (λ seqVal, act Now (λ now,
      match BuildDDEATH now seqVal with
      | inr _ => ddeaths devs k
      | inl data => act (publish (deviceTopic groupID nodeID (DeviceID dev) "DDEATH") 1 data) (λ _, ddeaths devs k)
      end))
  end.

(** [Stop]; it also waits for the two loops before it disconnects, which leaves
    fewer schedules than there are here. *)
Definition stop : prog (node B) :=
  let rest :=
    act (transit EventDisconnect) (λ _,
    act (modify (set_running false false)) (λ _,
    act (call_client (CDisconnect 250)) (λ _, Done))) in
  ddeaths devices (
  act get_state (λ s, act Now (λ now,
  match BuildNDEATH now (bdSeq s) with
  | inr _ => rest
  | inl data => act (publish (nodeTopic groupID nodeID "NDEATH") 1 data) (λ _, rest)
  end))).

(** What a goroutine runs. *)
Inductive job :=
| JStart
| JStop
| JReconnect (n : nat)
| JEvent (e : event (B := B)).

Definition prog_of (j : job) : prog (node B) :=
  match j with
  | JStart => start
  | JStop => stop
  | JReconnect n => reconnect n
  | JEvent (TagUpdated u) => tag_updated u
  | JEvent PublishOne => publish_round
  | JEvent Connected => births Done
  | JEvent ConnectionLost => connection_lost
  | JEvent (ReconnectRound n) => reconnect n
  | JEvent (GotNCMD data) =>
      match Unmarshal data with
      | inr _ => Done
      | inl p => if existsb is_rebirth (Metrics p) then births Done else Done
      end
  | JEvent (GotDCMD topic data) => act (handleDCMD onCommand topic data) (λ _, Done)
  end.

(** ** Schedules *)

(** There is one goroutine of each loop, and [Start] and [Stop] do not overlap
    themselves. *)
Definition same_loop (j j' : job) : bool :=
  match j, j' with
  | JStart, JStart | JStop, JStop | JReconnect _, JReconnect _ | JEvent PublishOne, JEvent PublishOne => true
  | _, _ => false
  end.

Abbreviation schedule := (Threads.schedule prog_of same_loop).
Abbreviation sys_step := (Threads.sys_step prog_of same_loop).

(** ** What holds between any two operations

    [ks] are the birth numbers goroutines have drawn and not sent yet; like the
    tokens of a separation logic, each is in the hands of one goroutine. *)

Abbreviation birth_number := (λ k : nat, uint64 (Z.of_nat k)).

Record holds (s : node B) (ks : list nat) : Prop := {
  h_online : sm s = Online → born groupID nodeID (sent s);
  h_data : data_after_birth groupID nodeID (sent s);
  h_queue : (length (updates s) ≤ updates_cap)%nat;
  h_births : ∃ n used, omap (birth_bdSeq groupID nodeID) (sent s) = birth_number <$> used ∧
               NoDup (used ++ ks) ∧ Forall (λ k, (1 ≤ k ≤ n)%nat) (used ++ ks) ∧ bdSeq s = birth_number n;
}.

Lemma holds_perm s ks ks' : ks ≡ₚ ks' → holds s ks → holds s ks'.
Proof.
  intros E [H1 H2 H3 (n & used & H4 & H5 & H6 & H7)]. split; [done..|]. exists n, used. by rewrite <- E.
Qed.

(** Fields the invariant does not read. *)
Definition same_session (s s' : node B) : Prop :=
  sm s' = sm s ∧ updates s' = updates s ∧ bdSeq s' = bdSeq s ∧ sent s' = sent s.

Lemma holds_same s s' ks : same_session s s' → holds s ks → holds s' ks.
Proof. intros (E1 & E2 & E3 & E4) [H1 H2 H3 H4]. split; rewrite ?E1, ?E2, ?E3, ?E4; done. Qed.

(** A program that keeps the invariant whatever the others do meanwhile, who keep
    it too: it owns [ks], and knows of an accepted birth when [b] is true. *)
Fixpoint safe (p : prog (node B)) (ks : list nat) (b : bool) : Prop :=
  match p with
  | Done => True
  | Act f => ∀ s others,
      holds s (ks ++ others) → (b = true → born groupID nodeID (sent s)) →
      ∃ ks' b', holds (f s).1 (ks' ++ others) ∧ sent s `prefix_of` sent (f s).1 ∧
                (b' = true → born groupID nodeID (sent (f s).1)) ∧ safe (f s).2 ks' b'
  end.

Lemma safe_act {A : Type} (m : State (node B) A) k ks b :
  (∀ s others, holds s (ks ++ others) → (b = true → born groupID nodeID (sent s)) →
     let '(a, s') := m s in
     ∃ ks' b', holds s' (ks' ++ others) ∧ sent s `prefix_of` sent s' ∧
               (b' = true → born groupID nodeID (sent s')) ∧ safe (k a) ks' b') →
  safe (act m k) ks b.
Proof. intros H s others Hs Hb. specialize (H s others Hs Hb). by destruct (m s). Qed.

(** Owning more and knowing more do no harm. *)
Lemma safe_frame p ks extra b : safe p ks b → safe p (ks ++ extra) b.
Proof.
  revert ks b. induction p as [|f IH] using prog_nested_ind; intros ks b H; [done|].
  intros s others Hs Hb. rewrite <- app_assoc in Hs. destruct (H s _ Hs Hb) as (ks' & b' & H1 & H2 & H3 & H4).
  exists (ks' ++ extra), b'. rewrite <- app_assoc. split_and!; [done..|]. by apply IH.
Qed.

Lemma safe_knowing p ks b : safe p ks b → safe p ks true.
Proof. destruct p as [|f]; [done|]. intros H s others Hs Hb. apply H; [done|]. intros _. by apply Hb. Qed.

(** ** The operations *)

Definition silent {A : Type} (m : State (node B) A) : Prop := ∀ s, same_session s (m s).2.

Lemma safe_silent {A : Type} (m : State (node B) A) k ks b :
  silent m → (∀ a, safe (k a) ks b) → safe (act m k) ks b.
Proof.
  intros Hm Hk. apply safe_act. intros s others Hs Hb. specialize (Hm s). destruct (m s) as [a s'].
  exists ks, b. simpl in Hm. destruct (Hm) as (_ & _ & _ & E). rewrite E. split_and!; [by eapply holds_same|done|done|done].
Qed.

Lemma silent_next : silent next_seq.
Proof. intros s. by rewrite next_seq_run. Qed.

Lemma silent_Now : silent Now.
Proof. intros s. destruct (Now_run s) as (t & w & -> & Hw). by split_and!. Qed.

Lemma silent_modify f : (∀ s, same_session s (f s)) → silent (modify f).
Proof. done. Qed.

(** A call of the client other than the publication of an NBIRTH. *)
Lemma safe_call c k ks b :
  (∀ r, birth_bdSeq groupID nodeID (c, r) = None) →
  (∀ topic qos ret data, c = CPublish topic qos ret data → ddata_topic groupID nodeID topic → b = true) →
  (∀ r, safe (k r) ks b) → safe (act (call_client c) k) ks b.
Proof.
  intros Hc Hd Hk. apply safe_act. intros s others [H1 H2 H3 (n & used & H4 & H5)] Hb.
  destruct (call_client_run c s) as (r & w & -> & Hw). exists ks, b. unfold sent at 2 3. simpl. rewrite Hw.
  split_and!; [|by eexists|by intros; apply born_app, Hb|done].
  split; unfold sent; simpl; rewrite ?Hw; [by intros; apply born_app, H1| |done|].
  - apply data_after_birth_snoc; [done|]. eauto.
  - exists n, used. split; [|done]. rewrite omap_app, H4. simpl. by rewrite Hc, app_nil_r.
Qed.

(** A goroutine that owns a number publishes its NBIRTH, and knows then whether
    the broker accepted it. *)
Lemma safe_nbirth j qos ret data k ks b :
  (∀ r, birth_bdSeq groupID nodeID (CPublish (nbirth_topic groupID nodeID) qos ret data, r) = Some (birth_number j)) →
  (∀ e, safe (k (Some e)) ks b) → safe (k None) ks true →
  safe (act (call_client (CPublish (nbirth_topic groupID nodeID) qos ret data)) k) (j :: ks) b.
Proof.
  intros Hc Hk1 Hk2. apply safe_act. intros s others [H1 H2 H3 (n & used & H4 & H5 & H6 & H7)] Hb.
  destruct (call_client_run (CPublish (nbirth_topic groupID nodeID) qos ret data) s) as (r & w & -> & Hw).
  exists ks, (if r then b else true). unfold sent at 2 3. simpl. rewrite Hw.
  split_and!; [|by eexists| |by destruct r].
  - assert (E : (used ++ [j]) ++ (ks ++ others) = used ++ (j :: ks) ++ others) by (by rewrite <- app_assoc).
    split; unfold sent; simpl; rewrite ?Hw; [by intros; apply born_app, H1| |done|].
    + apply data_after_birth_snoc; [done|]. intros ? ? ? ? [= <- <- <- <-] []%nbirth_not_data.
    + exists n, (used ++ [j]). rewrite E, omap_app, H4, fmap_app. split_and!; [|done..].
      simpl. by rewrite Hc.
  - destruct r as [e|]; [by intros; apply born_app, Hb|]. intros _. exists qos, ret, data. apply elem_of_app. right. left.
Qed.

(** Drawing a number hands it to the goroutine alone. *)
Lemma safe_add_bdSeq k ks b : (∀ j, safe (k (birth_number j)) (j :: ks) b) → safe (act add_bdSeq k) ks b.
Proof.
  intros Hk. apply safe_act. intros s others [H1 H2 H3 (n & used & H4 & H5 & H6 & H7)] Hb. unfold add_bdSeq.
  assert (E : uint64 (bdSeq s + 1) = birth_number (S n)).
  { rewrite H7. unfold wrap_u. rewrite Z.add_mod_idemp_l by lia. f_equal. lia. }
  rewrite E. exists (S n :: ks), b. split_and!; [|done|done|done].
  split; [done..|]. exists (S n), used. split_and!; [done| | |done].
  - simpl. rewrite <- Permutation_middle. apply NoDup_cons. split; [|done]. intros Hin.
    rewrite Forall_forall in H6. specialize (H6 _ Hin). lia.
  - simpl. rewrite <- Permutation_middle. constructor; [lia|]. eapply Forall_impl; [done|]. simpl. lia.
Qed.

Lemma safe_transit e k ks b :
  (e = EventConnectSuccess → b = true) → safe (k tt) ks b → safe (act (transit e) k) ks b.
Proof.
  intros He Hk. apply safe_act. intros s others [H1 H2 H3 H4] Hb. unfold transit, modify. exists ks, b.
  split_and!; [|done|done|done]. split; [|done..]. unfold set_sm, sent. simpl. intros Hon.
  destruct (sm s) eqn:E, e; simpl in Hon; try done; auto.
Qed.

Lemma safe_is_online k ks b :
  safe (k true) ks true → safe (k false) ks b → safe (act is_online k) ks b.
Proof.
  intros Ht Hf. apply safe_act. intros s others Hs Hb. unfold is_online.
  destruct (bool_decide_reflect (sm s = Online)) as [Hon|]; [exists ks, true|exists ks, b]; split_and!; try done.
  intros _. by apply Hs.
Qed.

Lemma safe_receive k ks b : (∀ u, safe (k u) ks b) → safe (act receive_update k) ks b.
Proof.
  intros Hk. apply safe_act. intros s others Hs Hb. unfold receive_update.
  destruct (updates s) as [|u us] eqn:Eu; [by exists ks, b|]. destruct (publishing s); [|by exists ks, b].
  exists ks, b. split_and!; try done. destruct Hs as [H1 H2 H3 H4]. split; try done. rewrite Eu in H3. simpl in *. lia.
Qed.

Lemma safe_offer u k ks b : safe (k tt) ks b → safe (act (offer_update u) k) ks b.
Proof.
  intros Hk. apply safe_act. intros s others Hs Hb. unfold offer_update, modify. exists ks, b.
  destruct (Nat.ltb_spec (length (updates s)) updates_cap) as [Hlt|]; [|done].
  split_and!; try done. destruct Hs as [H1 H2 H3 H4]. split; try done. simpl. rewrite length_app. simpl. lia.
Qed.

(** ** The handlers are safe *)

Lemma birth_of_device dev verb qos data r :
  verb = "DBIRTH" ∨ verb = "DDATA" ∨ verb = "DDEATH" →
  birth_bdSeq groupID nodeID (CPublish (deviceTopic groupID nodeID dev verb) qos false data, r) = None.
Proof.
  intros Hv%(deviceTopic_not_birth groupID nodeID dev)%String.eqb_neq. unfold birth_bdSeq. cbn [fst].
  by rewrite Hv.
Qed.

(** A message of a device; tag data only after a birth. *)
Lemma safe_device dev verb qos data k ks b :
  verb = "DBIRTH" ∨ verb = "DDEATH" ∨ verb = "DDATA" ∧ b = true →
  (∀ r, safe (k r) ks b) → safe (act (publish (deviceTopic groupID nodeID dev verb) qos data) k) ks b.
Proof.
  intros Hv Hk. apply safe_call; [intros r; apply birth_of_device; naive_solver| |done].
  intros ? ? ? ? [= <- <- <- <-] Ht. destruct Hv as [Hv|[Hv|[_ Hb]]]; [| |done].
  all: destruct (deviceTopic_not_data groupID nodeID dev verb); auto.
Qed.

Lemma safe_quiet_call c k ks b :
  is_publish c = false → (∀ r, safe (k r) ks b) → safe (act (call_client c) k) ks b.
Proof. intros Hc Hk. apply safe_call; [by destruct c|by intros ? ? ? ? ->|done]. Qed.

Ltac step_silent := apply safe_silent; [first [apply silent_next|apply silent_Now|intros ?; by split_and!]|intros ?].

Lemma safe_dbirths devs k ks : safe k ks true → safe (dbirths devs k) ks true.
Proof.
  intros Hk. induction devs as [|dev devs IH]; [done|]. cbn [dbirths]. do 3 step_silent.
  destruct (BuildDBIRTH _ _ _ _) as [data|e]; [|done]. apply safe_device; auto.
Qed.

Lemma nbirth_carries now j seqVal data r :
  nbirth_message now (birth_number j) seqVal = inl data →
  birth_bdSeq groupID nodeID (CPublish (nbirth_topic groupID nodeID) 1 false data, r) = Some (birth_number j).
Proof. intros Hd%marshal_inv. unfold birth_bdSeq. simpl. rewrite String.eqb_refl, Hd. done. Qed.

Lemma safe_births k b : safe k [] b → safe (births k) [] b.
Proof.
  intros Hk. apply safe_add_bdSeq. intros j. do 3 step_silent.
  destruct (nbirth_message _ _ _) as [data|e] eqn:Ed.
  - apply (safe_nbirth j); [intros r; by eapply nbirth_carries|..].
    + intros e. by apply safe_transit.
    + apply safe_dbirths, safe_transit; [done|]. by apply safe_knowing in Hk.
  - apply safe_transit; [done|]. by apply (safe_frame k [] [j]).
Qed.

Lemma safe_subscriptions k ks b : safe k ks b → safe (subscriptions k) ks b.
Proof. intros Hk. apply safe_quiet_call; [done|]. intros [e|]; [done|]. by apply safe_quiet_call. Qed.

Lemma safe_connect n k ks b : safe k ks b → safe (connect_attempts n k) ks b.
Proof.
  intros Hk. induction n as [|n IH]; cbn [connect_attempts]; apply safe_quiet_call; try done; intros [e|]; try done.
  by step_silent.
Qed.

Lemma safe_reconnect n : safe (reconnect n) [] false.
Proof.
  apply safe_silent; [intros s; unfold receive_signal; by case_match|]. intros [|]; [|done].
  apply safe_connect. do 2 (apply safe_quiet_call; [done|]; intros ?).
  apply safe_subscriptions, safe_births. by step_silent.
Qed.

Lemma ndeath_not_birth : nodeTopic groupID nodeID "NDEATH" ≠ nbirth_topic groupID nodeID.
Proof. unfold nbirth_topic, nodeTopic. intros E. do 3 apply (inj (String.append _)) in E. discriminate. Qed.

Lemma safe_stop : safe (stop) [] false.
Proof.
  unfold stop. set (rest := act (transit EventDisconnect) _).
  assert (Hr : safe rest [] false).
  { apply safe_transit; [done|]. step_silent. by apply safe_quiet_call. }
  induction devices as [|dev devs IH]; cbn [ddeaths].
  - do 2 step_silent. destruct (BuildNDEATH _ _) as [data|e]; [|done].
    apply safe_call; [intros r|intros ? ? ? ? [= <- <- <- <-]|done].
    + unfold birth_bdSeq. cbn [fst]. by rewrite (proj2 (String.eqb_neq _ _) ndeath_not_birth).
    + intros [dev E]. unfold nodeTopic, deviceTopic in E. do 3 apply (inj (String.append _)) in E. simpl in E. discriminate.
  - do 2 step_silent. destruct (BuildDDEATH _ _) as [data|e]; [|done]. apply safe_device; auto.
Qed.

Lemma silent_commands topic data : silent (handleDCMD onCommand topic data).
Proof.
  intros s. unfold handleDCMD. destruct onCommand; [|done]. simpl. destruct (split "/" topic !! 4%nat); [|done].
  destruct (Unmarshal data) as [p|]; [|done]. apply (for_each_inv (λ s', same_session s s')); [|done].
  intros m s' H. by destruct (command_of _ m).
Qed.

(** Every job begins safe: without a number, and knowing nothing. *)
Lemma safe_job j : safe (prog_of j) [] false.
Proof.
  destruct j as [| |n|[u| | | |n|data|topic data]]; cbn [prog_of].
  - step_silent. apply safe_transit; [done|]. apply safe_quiet_call; [done|].
    intros [e|]; [by apply safe_transit|]. apply safe_subscriptions. by step_silent.
  - apply safe_stop.
  - apply safe_reconnect.
  - apply safe_is_online; [|done]. by apply safe_offer.
  - apply safe_receive. intros [u|]; [|done]. apply safe_is_online; [|done]. do 2 step_silent.
    destruct (BuildDDATA _ _ _) as [data|e]; [|done]. by apply safe_device; [auto|].
  - by apply safe_births.
  - apply safe_transit; [done|]. by step_silent.
  - apply safe_reconnect.
  - destruct (Unmarshal data) as [p|]; [|done]. destruct (existsb _ _); [|done]. by apply safe_births.
  - apply safe_silent; [apply silent_commands|done].
Qed.

(** ** Every schedule *)

Definition knows (s : node B) (b : bool) : Prop := b = true → born groupID nodeID (sent s).

(** What each goroutine owns and knows. *)
Definition pool_ok (σ : system (S := node B) (J := job)) : Prop :=
  ∃ gs : list (list nat * bool),
    Forall2 (λ t g, safe t.2 g.1 g.2 ∧ knows (sys_state σ) g.2) (sys_threads σ) gs ∧
    holds (sys_state σ) (concat gs.*1).

Lemma pool_step (c : choice (J := job)) σ : pool_ok σ → pool_ok (sys_step c σ).
Proof.
  intros (gs & Hgs & Hh). destruct c as [j|i]; simpl.
  - destruct (may_start same_loop j σ); [|by exists gs]. exists (gs ++ [([], false)]). split.
    + apply Forall2_app; [done|]. repeat constructor; [apply safe_job|done].
    + by rewrite fmap_app, concat_app, app_nil_r.
  - destruct (sys_threads σ !! i) as [[j [|f]]|] eqn:Ei; [by exists gs| |by exists gs].
    destruct (Forall2_lookup_l _ _ _ _ _ Hgs Ei) as ([ks b] & Eg & Hsafe & Hk). simpl in Hsafe, Hk.
    assert (Hi := lookup_lt_Some _ _ _ Ei).
    rewrite <- (take_drop_middle _ _ _ Eg), fmap_app, concat_app in Hh. cbn in Hh.
    destruct (Hsafe (sys_state σ) (concat (take i gs).*1 ++ concat (drop (S i) gs).*1)) as (ks' & b' & H1 & H2 & H3 & H4).
    { eapply holds_perm; [|exact Hh]. rewrite !app_assoc. apply Permutation_app_tail, Permutation_app_comm. }
    { done. }
    destruct (f (sys_state σ)) as [s' p']. cbn [fst snd] in *. exists (<[i := (ks', b')]> gs). split.
    + apply Forall2_insert; [|by split]. eapply Forall2_impl; [exact Hgs|]. intros t g [Ht Hkg]. split; [done|].
      unfold knows. cbn [sys_state]. intros Hb. destruct H2 as [more ->]. by apply born_app, Hkg.
    + rewrite (insert_take_drop gs i (ks', b')) by (rewrite <- (Forall2_length _ _ _ Hgs); done).
      rewrite fmap_app, concat_app. cbn. eapply holds_perm; [|exact H1].
      rewrite !app_assoc. apply Permutation_app_tail, Permutation_app_comm.
Qed.

Lemma pool_schedule cs σ : pool_ok σ → pool_ok (schedule cs σ).
Proof.
  unfold schedule. revert σ. induction cs as [|c cs IH]; intros σ H; [done|]. simpl. by apply IH, pool_step.
Qed.

(** A node nobody has started, with no goroutine. *)
Definition idle (world : io B) : system (S := node B) (J := job) := mkSystem (NewEdgeNode world) [].

(** C13 However the goroutines of the node interleave, whatever the broker answers:
    tag data is sent only after an NBIRTH the broker accepted, the node is online
    only then, no two NBIRTHs carry the same bdSeq (which wraps at 64 bits), and
    at most 256 updates wait. *)
Theorem every_schedule_safe (world : io B) (cs : list (choice (J := job))) :
  calls world = [] →
  let s := sys_state (schedule cs (idle world)) in
  data_after_birth groupID nodeID (sent s) ∧
  (sm s = Online → born groupID nodeID (sent s)) ∧
  (∃ used : list nat, NoDup used ∧ omap (birth_bdSeq groupID nodeID) (sent s) = birth_number <$> used ∧
                      (Forall (λ k, Z.of_nat k < 2 ^ 64) used → NoDup (omap (birth_bdSeq groupID nodeID) (sent s)))) ∧
  (length (updates s) ≤ updates_cap)%nat.
Proof.
  intros Hw. cbv zeta.
  assert (H0 : pool_ok (idle world)).
  { exists []. split; [constructor|]. split; simpl; [done| |lia|].
    - intros i ? ? ? ? ?. unfold sent. simpl. by rewrite Hw.
    - exists 0%nat, []. unfold sent. simpl. rewrite Hw. split_and!; [done|constructor|constructor|done]. }
  destruct (pool_schedule cs _ H0) as (gs & _ & [H1 H2 H3 (n & used & H4 & H5 & H6 & _)]).
  split_and!; [done..| |done]. apply NoDup_app in H5 as (H5 & _ & _). exists used. split_and!; [done..|].
  intros Hf. rewrite H4. clear H4 H6. induction H5 as [|k ks Hk _ IH]; [constructor|].
  inversion_clear Hf as [|? ? Hk2 Hks]. simpl. constructor; [|by apply IH].
  intros (k' & E & Hk')%list_elem_of_fmap. rewrite Forall_forall in Hks. specialize (Hks k' Hk').
  unfold wrap_u in E. rewrite !Z.mod_small in E by lia. apply Nat2Z.inj in E. congruence.
Qed.

(** ** The handlers one after the other

    A job that nobody comes between does what [EdgeNode] says: the serial runs of
    that file are schedules of this one. *)

Lemma alone_dbirths devs k s :
  alone (dbirths devs k) s = alone k (for_each devs (publishDBIRTH groupID nodeID) s).2.
Proof.
  revert s. induction devs as [|dev devs IH]; intros s; [done|]. cbn [dbirths for_each]. rewrite bind_run.
  unfold publishDBIRTH at 1. rewrite !alone_act, !bind_run. destruct (next_seq s) as [v s1].
  rewrite alone_act, bind_run. destruct (Now s1) as [now s2]. rewrite alone_act, bind_run. destruct (Now s2) as [ts s3].
  destruct (BuildDBIRTH now ts [] v) as [data|e]; [|apply IH].
  rewrite alone_act, bind_run. destruct (publish _ _ _ s3) as [r s4]. apply IH.
Qed.

Lemma Now_set_seq x (s : node B) : Now (set_seq x s) = let '(t, s') := Now s in (t, set_seq x s').
Proof. destruct s as [? ? ? ? ? ? ? ? [? ? [|] ? ? ?]]; reflexivity. Qed.

Lemma alone_births k s : alone (births k) s = alone k (publishBirths groupID nodeID devices s).2.
Proof.
  unfold births, publishBirths. rewrite alone_act, bind_run. destruct (add_bdSeq s) as [bd s1].
  rewrite bind_run, alone_act. change (zoom nseq set_seq Reset s1) with (tt, set_seq 0 s1). cbv beta iota.
  rewrite alone_act, next_seq_run. change (nseq (set_seq 0 s1) mod 256) with 0. cbv beta iota.
  change (set_seq (uint64 (nseq (set_seq 0 s1) + 1)) (set_seq 0 s1)) with (set_seq 1 s1).
  rewrite alone_act, Now_set_seq. destruct (Now s1) as [now s2]. rewrite bind_run.
  change (zoom nseq set_seq (BuildNBIRTH now (devices ≫= λ dev, Tags dev) bd) s2) with (nbirth_message now bd 0, set_seq 1 s2). cbv beta iota.
  destruct (nbirth_message now bd 0) as [data|e]; [|by rewrite alone_act].
  rewrite alone_act, bind_run. destruct (publish _ _ _ _) as [[e|] s3]; [by rewrite alone_act|].
  rewrite alone_dbirths, bind_run. destruct (for_each devices _ s3) as [[] s4]. by rewrite alone_act.
Qed.

Lemma alone_subscriptions k s : alone (subscriptions k) s = alone k (subscribeCommands groupID nodeID s).2.
Proof.
  unfold subscriptions, subscribeCommands. rewrite alone_act, bind_run. destruct (call_client _ s) as [[e|] s1]; [done|].
  rewrite alone_act. by destruct (call_client _ s1).
Qed.

Lemma alone_start s : alone start s = (EdgeNode.Start groupID nodeID s).2.
Proof.
  unfold start, EdgeNode.Start. rewrite alone_act, bind_run. destruct (modify (set_signal false) s) as [[] s0].
  rewrite alone_act, bind_run. destruct (transit EventConnectAttempt s0) as [[] s1].
  rewrite alone_act, bind_run. destruct (call_client CConnect s1) as [[e|] s2].
  - rewrite alone_act, bind_run. by destruct (transit _ s2).
  - rewrite alone_subscriptions, bind_run. destruct (subscribeCommands groupID nodeID s2) as [r s3]. by rewrite alone_act.
Qed.

Lemma alone_ddeaths devs k s : alone (ddeaths devs k) s = alone k (for_each devs (stop_device groupID nodeID) s).2.
Proof.
  revert s. induction devs as [|dev devs IH]; intros s; [done|]. cbn [ddeaths for_each]. rewrite bind_run.
  unfold stop_device at 1. rewrite alone_act, !bind_run. destruct (next_seq s) as [v s1].
  rewrite alone_act, bind_run. destruct (Now s1) as [now s2].
  destruct (BuildDDEATH now v) as [data|e]; [|apply IH].
  rewrite alone_act, bind_run. destruct (publish _ _ _ s2) as [r s3]. apply IH.
Qed.

Lemma alone_stop s : alone stop s = (EdgeNode.Stop groupID nodeID devices s).2.
Proof.
  unfold stop, EdgeNode.Stop. rewrite alone_ddeaths, bind_run. destruct (for_each devices _ s) as [[] s1]. cbn [snd].
  rewrite alone_act, bind_run. change (get_state s1) with (s1, s1). cbv beta iota.
  rewrite alone_act, bind_run. destruct (Now s1) as [now s2]. rewrite bind_run.
  assert (Hr : ∀ (r : option error) (s' : node B), alone (act (transit EventDisconnect) (λ _, act (modify (set_running false false)) (λ _,
      act (call_client (CDisconnect 250)) (λ _, Done)))) s' =
    (let '(_, s'0) := (r, s') in
     (transit EventDisconnect ≫= λ _, modify (set_running false false) ≫= λ _,
      call_client (CDisconnect 250) ≫= λ _, mret tt) s'0).2).
  { intros r s'. cbv beta iota. rewrite alone_act, bind_run. destruct (transit _ s') as [[] s4].
    rewrite alone_act, bind_run. destruct (modify _ s4) as [[] s5]. rewrite alone_act, bind_run.
    by destruct (call_client _ s5). }
  destruct (BuildNDEATH now (bdSeq s1)) as [data|e]; [|apply (Hr None)].
  rewrite alone_act. destruct (publish _ _ _ s2) as [r s3]. apply (Hr r).
Qed.

(** [reconnectLoop] waits in [retry.Do], which is not one operation. *)
Definition one_handler (e : event (B := B)) : bool := match e with ReconnectRound _ => false | _ => true end.

Lemma alone_event (o : Options) (e : event (B := B)) s : one_handler e = true →
  alone (prog_of (JEvent e)) s = (handle groupID nodeID devices onCommand o e s).2.
Proof.
  destruct e as [u| | | |n|data|topic data]; intros He; cbn [prog_of handle]; [..|].
  - unfold tag_updated, HandleTagUpdate. rewrite alone_act, bind_run. cbn [get_state is_online].
    destruct (decide (sm s = Online)) as [Ho|Ho]; [rewrite bool_decide_eq_true_2 by done|by rewrite bool_decide_eq_false_2].
    rewrite alone_act. unfold offer_update, modify. by destruct (length (updates s) <? updates_cap)%nat.
  - unfold publish_round, publish_one. rewrite alone_act, bind_run. cbn [get_state]. unfold receive_update.
    destruct (updates s) as [|u us]; [done|]. destruct (publishing s); [|done]. rewrite bind_run, alone_act. cbn [set_state is_online].
    change (sm (set_updates us s)) with (sm s).
    destruct (decide (sm s = Online)) as [Ho|Ho]; [rewrite bool_decide_eq_true_2 by done|by rewrite bool_decide_eq_false_2].
    rewrite alone_act, bind_run. destruct (next_seq _) as [v s1]. rewrite alone_act, bind_run. destruct (Now s1) as [now s2].
    destruct (BuildDDATA now [u] v) as [data|e]; [|done]. rewrite alone_act, bind_run. by destruct (publish _ _ _ s2).
  - apply alone_births.
  - unfold connection_lost, onConnectionLost. by rewrite !alone_act.
  - done.
  - unfold handleNCMD. destruct (Unmarshal data) as [p|]; [|done]. destruct (existsb _ _); [|done]. apply alone_births.
  - rewrite alone_act. by destruct (handleDCMD onCommand topic data s).
Qed.

(** Every serial run of the handlers is one of the schedules. *)
Theorem serial_runs_are_schedules (o : Options) (evs : list (event (B := B))) (s : node B) :
  forallb one_handler evs = true →
  ∃ cs, sys_state (schedule cs (mkSystem s [])) = (EdgeNode.run groupID nodeID devices onCommand o evs s).2.
Proof.
  intros He. destruct (serial_schedule prog_of same_loop (JEvent <$> evs) s) as [cs E]. exists cs. rewrite E. clear E cs.
  revert s He. induction evs as [|e evs IH]; intros s He; [done|]. simpl in He. apply andb_true_iff in He as [He Hevs].
  cbn [fmap list_fmap foldl]. rewrite (IH _ Hevs), (alone_event o) by done.
  unfold EdgeNode.run. cbn [for_each]. rewrite bind_run. by destruct (handle _ _ _ _ _ e s) as [[] s'].
Qed.
End threads.

(** ** Schedules that go wrong

    The broker accepts everything. *)

Abbreviation ex_schedule cs :=
  (Threads.schedule (prog_of "plant" "line1" ex_devices true) same_loop (concat cs) (idle (ex_world []))).

(** The node is started, connects and publishes its births; a tag is updated. *)
Definition ex_online : list (list (choice (J := job (B := payload)))) :=
  [begin JStart 0 6; begin (JEvent Connected) 1 10; begin (JEvent (TagUpdated (ex_update (VFloat32 0)))) 2 2].

Definition rebirth_message : payload :=
  mkPayload None None [mkMetric (Some "Node Control/Rebirth") None None None (Some (BooleanValue true))].

(** [publishLoop] draws the number 2 and is overtaken by a rebirth a host asked
    for: the message numbered 2 comes after the new NBIRTH, and the numbers after
    that birth run 0, 2, 1. *)
Theorem rebirth_overtakes_data :
  let s := sys_state (ex_schedule (ex_online ++
    [begin (JEvent PublishOne) 3 3; begin (JEvent (GotNCMD rebirth_message)) 4 5; go_on 3 2; go_on 4 5])) in
  omap (numbered "plant" "line1") (sent s) = [(true, 0); (false, 1); (true, 0); (false, 2); (false, 1)] ∧
  numbering 0 (omap (numbered "plant" "line1") (sent s)) = None ∧ forallb (λ c, bool_decide (c.2 = None)) (sent s) = true.
Proof. vm_compute. split_and!; reflexivity. Qed.

(** After a reconnect the births are published twice, by the callback of the
    client and by [reconnectLoop]; the later bdSeq can be sent first, and then the
    NDEATH of the node names a birth that is not the last one. *)
Theorem births_overtake :
  let s := sys_state (ex_schedule (ex_online ++
    [begin (JEvent ConnectionLost) 3 2; begin (JReconnect 0) 4 7; begin (JEvent Connected) 5 10; go_on 4 10])) in
  omap (birth_bdSeq "plant" "line1") (sent s) = [1; 3; 2] ∧ bdSeq s = 3.
Proof. vm_compute. split; reflexivity. Qed.

Definition topic_of (c : call payload * option error) : option string :=
  match c.1 with CPublish topic _ _ _ => Some topic | _ => None end.

(** [Stop] announces the death of the node before the loop has stopped: data of a
    dead node follows. *)
Theorem data_after_death :
  let s := sys_state (ex_schedule (ex_online ++ [begin (JEvent PublishOne) 3 2; begin JStop 4 6; go_on 3 3])) in
  drop 2 (omap topic_of (sent s)) =
    ["spBv1.0/plant/DDEATH/line1/press"; "spBv1.0/plant/NDEATH/line1"; "spBv1.0/plant/DDATA/line1/press"].
Proof. vm_compute. reflexivity. Qed.

(** A run of every job: two births, and the data after them. *)
Theorem every_schedule_safe_witness :
  let cs := concat (ex_online ++ [begin (JEvent PublishOne) 3 3; begin (JEvent (GotNCMD rebirth_message)) 4 5; go_on 3 2; go_on 4 5]) in
  let s := sys_state (Threads.schedule (prog_of "plant" "line1" ex_devices true) same_loop cs (idle (ex_world []))) in
  data_after_birth "plant" "line1" (sent s) ∧ sm s = Online ∧ born "plant" "line1" (sent s).
Proof.
  intros cs s. destruct (every_schedule_safe "plant" "line1" ex_devices true (ex_world []) cs eq_refl) as (H1 & H2 & _).
  assert (Ho : sm s = Online) by (vm_compute; reflexivity).
  split; [exact H1|]. split; [exact Ho|]. exact (H2 Ho).
Defined.
