(* ===== verification/Commands.v ===== *)
(** * Device commands, from the broker to the drivers

    [runServerTo] gives the edge node the handler [SparkplugCommandHandler] of
    the server: a DCMD message is decoded by [EdgeNode.handleDCMD], and every
    metric in it goes through the gate of [WriteGuard] over the stores of the
    server to the manager and the audit log. *)

From S2P Require Import Prelude GoString GoTime GoError Config Sql PlcStore AuditLog WriteGuard ApiWrite.
From S2P Require Import PlcManager ServerState Sparkplug EdgeNode.

Section commands.
Context {B : Type} `{!Proto B} (now : time) (deps : write_deps).

#[local] Instance audit_now : AuditSink server := server_audit now.
#[local] Instance surface_now : WriteSurface server := server_write_surface now.
#[local] Instance reads_now : PLCReads server := server_plc_reads now.

(** The handler [runServerTo] installs with [SetCommandHandler], if the server
    has one. *)
Definition installed : option (string → string → value → State server unit) := SparkplugCommandHandler deps.

(** [handleDCMD] of a node with that handler: it calls it for one command after
    the other. *)
Definition receive_DCMD (topic : string) (data : B) : State (node B * server) unit := λ '(n, s),
  let n' := (handleDCMD (bool_decide (is_Some installed)) topic data n).2 in
  let called := drop (length (commands n)) (commands n') in
  match installed with
  | None => (tt, (n', s))
  | Some h => (tt, (n', (for_each called (λ '(dev, tag, v), h dev tag v) s).2))
  end.

(** ** One command *)

(** The stored switches of the tag are both on, and the manager runs the PLC. *)
Definition opens (s : server) (c : string * string * value) : bool :=
  match switches (tables (sv_plcs s)) c.1.1 c.1.2 with
  | Some m => Writable m && DCMDEnabled m
  | None => false
  end && bool_decide (is_Some (workers (sv_mgr s) !! c.1.1)).

(** The event an attempt leaves in the log. *)
Definition audits (s : server) (c : string * string * value) (e : AuditEvent) : Prop :=
  evAction e = "tag.write" ∧ evUsername e = "" ∧
  (outcome_of e = Some "deny" ∨ outcome_of e = Some "allow" ∧ opens s c = true).

(** What a command leaves alone, and what it adds. *)
Record effect (cs : list (string * string * value)) (s s' : server) : Prop := {
  ef_plcs : sv_plcs s' = sv_plcs s;
  ef_acl : sv_acl s' = sv_acl s;
  ef_mgr : sv_mgr s' = sv_mgr s;
  ef_written : sv_written s' = sv_written s ++ List.filter (opens s) cs;
  ef_audit : has_audit deps = true → faults (sv_audit s) = [] →
    faults (sv_audit s') = [] ∧
    ∃ es, tables (sv_audit s') = tables (sv_audit s) ++ es ∧ Forall2 (audits s) cs es;
}.

Lemma opens_of_same s s' c : sv_plcs s' = sv_plcs s → sv_mgr s' = sv_mgr s → opens s' c = opens s c.
Proof. unfold opens. by intros -> ->. Qed.

Lemma audits_of_same s s' c e : sv_plcs s' = sv_plcs s → sv_mgr s' = sv_mgr s → audits s' c e → audits s c e.
Proof. unfold audits. intros H1 H2. by rewrite (opens_of_same s s' c H1 H2). Qed.

(** A state that differs from [s] at most in the writes and the driver's answers,
    and then the audit event. *)
Lemma emit_effect (c : string * string * value) outcome reason s w a :
  let plc := c.1.1 in let tag := c.1.2 in let v := c.2 in
  w = sv_written s ++ List.filter (opens s) [c] →
  outcome = "deny" ∨ outcome = "allow" ∧ opens s c = true →
  effect [c] s (emitWriteAuditDetail deps plc tag v outcome reason "dcmd" ""
    (mkServer (sv_plcs s) (sv_acl s) (sv_audit s) (sv_mgr s) w a)).2.
Proof.
  intros plc tag v -> Ho. unfold emitWriteAuditDetail. destruct (has_audit deps) eqn:Ea; cbn [negb].
  2: { split; try done. by rewrite Ea. }
  rewrite bind_run. unfold Audit, audit_now, server_audit, on_audit, zoom, Log, exec, next_fault. unfold_state.
  destruct s as [ps rs [l [|[f|] fs]] m w' a']; simpl in *; split; simpl; try done.
  intros _ _. split; [done|]. eexists. split; [reflexivity|]. constructor; [|done].
  unfold audits, outcome_of. simpl. destruct reason as [[|ch r0]| | |]; simpl; naive_solver.
Qed.

Lemma command_effect h (c : string * string * value) s :
  installed = Some h → faults (sv_plcs s) = [] → effect [c] s (h c.1.1 c.1.2 c.2 s).2.
Proof.
  unfold installed, SparkplugCommandHandler. intros Hh Hf.
  destruct (_ || _) eqn:E; [done|]. injection Hh as <-.
  destruct (sv_plcs s) as [tp fp] eqn:Hp. simpl in Hf. subst fp.
  rewrite bind_run. unfold AuthorizeDCMD. rewrite bind_run, (tag_meta_run s tp) by done.
  cbv beta iota zeta.
  assert (Hopens : opens s c =
    match switches tp c.1.1 c.1.2 with Some m => Writable m && DCMDEnabled m | None => false end
    && bool_decide (is_Some (workers (sv_mgr s) !! c.1.1))) by (unfold opens; by rewrite Hp).
  assert (Hs : s = mkServer (sv_plcs s) (sv_acl s) (sv_audit s) (sv_mgr s) (sv_written s) (sv_answers s))
    by by destruct s.
  assert (Hdeny : ∀ reason, opens s c = false →
    effect [c] s (emitWriteAuditDetail deps c.1.1 c.1.2 c.2 "deny" reason "dcmd" "" s).2).
  { intros reason Hno. rewrite Hs at 2. apply emit_effect; [|by left]. simpl. by rewrite Hno, app_nil_r. }
  destruct (switches tp c.1.1 c.1.2) as [m|]; cbn [mret state_ret]; [|by apply Hdeny].
  destruct (Writable m); cbn [negb]; [|by apply Hdeny]. destruct (DCMDEnabled m); cbn [negb]; [|by apply Hdeny].
  simpl in Hopens. cbn [Allowed allow negb]. rewrite bind_run.
  unfold WriteGuard.WriteTag, server_write_tag, managerWriteTag, PlcManager.WriteTag.
  destruct (workers (sv_mgr s) !! c.1.1) as [x|]; [|by apply Hdeny].
  rewrite bool_decide_eq_true_2 in Hopens by done. destruct c as [[dev tag] v]. simpl in *.
  destruct (match sv_answers s with [] => _ | _ => _ end) as [answer rest].
  destruct answer as [err|]; apply (emit_effect (dev, tag, v)); simpl; rewrite ?Hopens; auto.
Qed.

(** ** One message *)

Lemma effect_nil s : effect [] s s.
Proof. split; try done; [by rewrite app_nil_r|]. intros _ Hf. split; [done|]. exists []. by rewrite app_nil_r. Qed.

Lemma effect_app cs1 cs2 s s1 s2 : effect cs1 s s1 → effect cs2 s1 s2 → effect (cs1 ++ cs2) s s2.
Proof.
  intros [H1 H2 H3 H4 H5] [K1 K2 K3 K4 K5].
  assert (Ho : ∀ cs, List.filter (opens s1) cs = List.filter (opens s) cs).
  { intros cs. apply List.filter_ext. intros c. by apply opens_of_same. }
  split; [congruence..| |].
  - by rewrite K4, H4, Ho, List.filter_app, app_assoc.
  - intros Ha Hf. destruct (H5 Ha Hf) as (Hf1 & es1 & E1 & A1). destruct (K5 Ha Hf1) as (Hf2 & es2 & E2 & A2).
    split; [done|]. exists (es1 ++ es2). rewrite E2, E1, app_assoc. split; [done|]. apply Forall2_app; [done|].
    eapply Forall2_impl; [exact A2|]. intros c e. by apply audits_of_same.
Qed.

Lemma commands_effect h cs s : installed = Some h → faults (sv_plcs s) = [] →
  effect cs s (for_each cs (λ '(dev, tag, v), h dev tag v) s).2.
Proof.
  intros Hh. revert s. induction cs as [|c cs IH]; intros s Hf; [apply effect_nil|]. cbn [for_each]. rewrite bind_run.
  pose proof (command_effect h c s Hh Hf) as Hc. destruct c as [[dev tag] v]. cbn [fst snd] in Hc.
  destruct (h dev tag v s) as [[] s1]. cbn [snd] in Hc.
  apply (effect_app [_] cs s s1); [done|]. apply IH. by rewrite (ef_plcs _ _ _ Hc).
Qed.

(** The commands in a message to a topic, when the server has a handler. *)
Definition commands_in (topic : string) (data : B) : list (string * string * value) :=
  if bool_decide (is_Some installed) then
    match split "/" topic !! 4%nat, Unmarshal data with
    | Some dev, inl p => omap (command_of dev) (Metrics p)
    | _, _ => []
    end
  else [].

Lemma receive_run topic data n s : faults (sv_plcs s) = [] →
  commands (receive_DCMD topic data (n, s)).2.1 = commands n ++ commands_in topic data ∧
  effect (commands_in topic data) s (receive_DCMD topic data (n, s)).2.2.
Proof.
  intros Hf. unfold receive_DCMD. rewrite handleDCMD_run.
  change (if bool_decide _ then _ else []) with (commands_in topic data).
  rewrite drop_app_length. destruct installed as [h|] eqn:Eh; cbn [fst snd].
  - rewrite handleDCMD_run. split; [unfold commands_in; by rewrite Eh|]. by apply commands_effect.
  - rewrite handleDCMD_run. assert (E : commands_in topic data = []) by (unfold commands_in; by rewrite Eh).
    rewrite E. split; [done|apply effect_nil].
Qed.

(** C5 Whatever message arrives on whatever topic, the drivers are handed exactly
    the commands in it whose tag is writable and enabled for device commands in
    the store and whose PLC the manager runs, in order and with their values; the
    stores and the manager stay as they are, and with a log that answers there is
    one audit event per command, an allowed one only for a write. *)
Theorem dcmd_writes_exactly (topic : string) (data : B) (n : node B) (s : server) :
  faults (sv_plcs s) = [] →
  let '(n', s') := (receive_DCMD topic data (n, s)).2 in
  let cs := commands_in topic data in
  sv_written s' = sv_written s ++ List.filter (opens s) cs ∧
  sv_plcs s' = sv_plcs s ∧ sv_acl s' = sv_acl s ∧ sv_mgr s' = sv_mgr s ∧
  (has_audit deps = true → faults (sv_audit s) = [] →
   ∃ es, tables (sv_audit s') = tables (sv_audit s) ++ es ∧ Forall2 (audits s) cs es).
Proof.
  intros Hf. destruct (receive_run topic data n s Hf) as [_ [H1 H2 H3 H4 H5]].
  destruct (receive_DCMD topic data (n, s)) as [u [n' s']]. cbn [fst snd] in *. split_and!; try done.
  intros Ha Hl. by apply H5.
Qed.

(** C34 A host application that encodes writes to the tags of a device and publishes
    them on the device's command topic has exactly those handed to the driver, bit
    for bit and in order, that the gate lets through. *)
Theorem host_writes_arrive (group nodeID dev : string) (nvs : list (string * value)) (ts : time)
    (t k : option Z) (data : B) (ms : list metric) (n : node B) (s : server) :
  is_Some installed → faults (sv_plcs s) = [] →
  lacks "/" group = true → lacks "/" nodeID = true → lacks "/" dev = true →
  Forall (λ nv, value_ok nv.2) nvs →
  encode_all ts nvs = inl ms → Marshal (mkPayload t k ms) = inl data →
  let s' := (receive_DCMD (deviceTopic group nodeID dev "DCMD") data (n, s)).2.2 in
  sv_written s' = sv_written s ++ List.filter (opens s) ((λ nv, (dev, nv.1, nv.2)) <$> nvs).
Proof.
  intros Hi Hf Hg Hn Hd Hok Hms Hdata. cbv zeta.
  destruct (receive_run (deviceTopic group nodeID dev "DCMD") data n s Hf) as [Hc [_ _ _ Hw _]]. rewrite Hw. do 2 f_equal.
  assert (E := DCMD_calls group nodeID true dev nvs ts t k data ms n eq_refl Hg Hn Hd Hok Hms Hdata).
  rewrite handleDCMD_run in E. apply app_inv_head in E. unfold commands_in. by rewrite bool_decide_eq_true_2.
Qed.
End commands.

(** ** A press that takes commands

    "Speed" takes device commands, "Mode" is writable over HTTP only. *)

Definition press : PLC :=
  mkPLC "press" "10.0.0.7" 0 "" "" false ""
    (Some [Config.mkTagDef "Speed" "Float" true true; Config.mkTagDef "Mode" "Int8" true false]).

Definition press_server : server :=
  mkServer (Db (tables (PlcStore.run_op (PlcStore.OpCreate 1700000000 press) (Db empty_plcs [])).2) [])
    (Db empty_table []) (Db [] []) (PlcManager.Start [] (NewManager [press])) [] [].

Definition press_node : node payload := NewEdgeNode (ex_world []).
Definition press_topic : string := "spBv1.0/plant/DCMD/line1/press".
Definition press_writes : list (string * value) :=
  [("Speed", VFloat32 1065353216); ("Mode", VInt8 (-2)); ("Torque", VInt16 5)].
Definition press_data : payload :=
  mkPayload None None (match encode_all 0 press_writes with inl ms => ms | inr _ => [] end).

(** Of three commands the one to "Speed" is written; all three are audited. *)
Theorem dcmd_writes_exactly_witness :
  let '(n', s') := (receive_DCMD 0 all_deps press_topic press_data (press_node, press_server)).2 in
  sv_written s' = [("press", "Speed", VFloat32 1065353216)] ∧ length (tables (sv_audit s')) = 3%nat.
Proof.
  pose proof (dcmd_writes_exactly 0 all_deps press_topic press_data press_node press_server eq_refl) as H.
  destruct (receive_DCMD _ _ _ _ _) as [u [n' s']]. cbn [snd] in *. destruct H as (H1 & _ & _ & _ & H2). split.
  - rewrite H1. vm_compute. reflexivity.
  - destruct (H2 eq_refl eq_refl) as (es & -> & Hes). apply Forall2_length in Hes. simpl. rewrite <- Hes.
    vm_compute. reflexivity.
Defined.

Theorem host_writes_arrive_witness :
  sv_written (receive_DCMD 0 all_deps (deviceTopic "plant" "line1" "press" "DCMD") press_data
                (press_node, press_server)).2.2 = [("press", "Speed", VFloat32 1065353216)].
Proof.
  assert (E : ∃ ms, encode_all 0 press_writes = inl ms) by (eexists; vm_compute; reflexivity).
  destruct E as [ms E].
  rewrite (host_writes_arrive 0 all_deps "plant" "line1" "press" press_writes 0 None None press_data ms
             press_node press_server); try reflexivity; try exact E.
  - vm_compute. eauto.
  - repeat constructor; vm_compute; done.
  - unfold press_data. by rewrite E.
Defined.
