(* ===== verification/Mqtt.v ===== *)
(** * [internal/mqtt]: the client around paho

    The options [NewClient] gives to paho, the operations with their two
    selects, the callbacks, and the options [defaultSparkplugNodeFactory] takes
    from the configuration.  The answers of paho and of the context are data. *)

From S2P Require Import Prelude GoString GoTime GoError Config Sparkplug EdgeNode.

Section mqtt.
Context {B : Type} (is_empty : B → bool).

(** ** Options *)

(** [WillPayload] is [None] for the nil slice. *)
Record Options := mkOptions {
  BrokerURL : string; ClientID : string; Username : string; Password : string; QoS : Z;
  KeepAlive : Z; CleanSession : bool;
  WillTopic : string; WillPayload : option B; WillQoS : Z; WillRetain : bool;
}.

(** What is set on paho's options; [None] is what is left alone. *)
Record paho_options := mkPahoOptions {
  po_broker : string; po_client_id : string; po_order_matters : bool; po_auto_reconnect : bool;
  po_username : option string; po_password : option string; po_keep_alive : Z;
  po_clean_session : bool; po_will : option (string * B * Z * bool);
}.

Definition unless_empty (s : string) : option string := if String.eqb s "" then None else Some s.

Definition NewClient (opts : Options) : paho_options :=
  mkPahoOptions (BrokerURL opts) (ClientID opts) false false
    (unless_empty (Username opts)) (unless_empty (Password opts))
    (if KeepAlive opts <=? 0 then 30 * Second else KeepAlive opts)
    (CleanSession opts)
    (match WillPayload opts with
     | Some p =>
         if negb (String.eqb (WillTopic opts) "") && negb (is_empty p)
         then Some (WillTopic opts, p, WillQoS opts, WillRetain opts) else None
     | None => None
     end).

(** ** Operations *)

(** What the second [select] takes: the token that has completed, with its error,
    or the end of the context. *)
Inductive selected := TokenDone (err : option foreign) | CtxEnded (err : error).

(** The calls of paho. *)
Inductive paho_call :=
| PConnect | PDisconnect (quiesce : Z)
| PPublish (topic : string) (qos : Z) (retained : bool) (data : B)
| PSubscribe (topic : string) (qos : Z) | PUnsubscribe (topic : string).

Definition call (c : paho_call) : State (list paho_call) unit := modify (λ cs, cs ++ [c]).

(** The end of every operation: the sentinel wraps the cause. *)
Definition settle (format : string) (args : list (fmt_arg error)) (class : sentinel) (sel : selected) : option error :=
  match sel with
  | TokenDone None => None
  | TokenDone (Some f) => Some (Errorf format (args ++ [FWrap (Sentinel class); FWrap (EForeign f)]))
  | CtxEnded err => Some (Errorf format (args ++ [FWrap (Sentinel class); FWrap err]))
  end.

(** [ctx_err] is the error of a context that is done when [Connect] is called. *)
Definition Connect (ctx_err : option error) (sel : selected) : State (list paho_call) (option error) :=
  match ctx_err with
  | Some err => mret (settle "mqtt: connect: %w: %w" [] ErrMQTTConnect (CtxEnded err))
  | None => _ ← call PConnect; mret (settle "mqtt: connect: %w: %w" [] ErrMQTTConnect sel)
  end.

Definition Disconnect (quiesce : Z) : State (list paho_call) unit := call (PDisconnect quiesce).

Definition Publish (connected : bool) (topic : string) (qos : Z) (retained : bool) (data : B) (sel : selected)
    : State (list paho_call) (option error) :=
  if negb connected
  then mret (Some (Errorf "mqtt: publish: not connected: %w" [FWrap (Sentinel ErrMQTTConnect)]))
  else _ ← call (PPublish topic qos retained data);
       mret (settle "mqtt: publish %q: %w: %w" [FStr topic] ErrMQTTPublish sel).

Definition Subscribe (connected : bool) (topic : string) (qos : Z) (sel : selected)
    : State (list paho_call) (option error) :=
  if negb connected
  then mret (Some (Errorf "mqtt: subscribe: not connected: %w" [FWrap (Sentinel ErrMQTTSubscribe)]))
  else _ ← call (PSubscribe topic qos);
       mret (settle "mqtt: subscribe %q: %w: %w" [FStr topic] ErrMQTTSubscribe sel).

Definition Unsubscribe (topic : string) (sel : selected) : State (list paho_call) (option error) :=
  _ ← call (PUnsubscribe topic);
  mret (settle "mqtt: unsubscribe %q: %w: %w" [FStr topic] ErrMQTTSubscribe sel).

(** ** Callbacks *)

(** The functions registered with the client; [F] and [G] are what they do. *)
Record callbacks (F G : Type) := mkCallbacks { onConnectFn : option F; onConnLostFn : option G }.
Arguments mkCallbacks {F G} _ _.
Arguments onConnectFn {F G} _.
Arguments onConnLostFn {F G} _.

Definition SetOnConnect {F G : Type} (fn : option F) : State (callbacks F G) unit :=
  modify (λ c, mkCallbacks fn (onConnLostFn c)).
Definition SetConnectionLost {F G : Type} (fn : option G) : State (callbacks F G) unit :=
  modify (λ c, mkCallbacks (onConnectFn c) fn).

(** The handlers paho calls: they run what is registered at that moment. *)
Definition on_connect {S : Type} {G : Type} (c : callbacks (State S unit) G) : State S unit :=
  match onConnectFn c with Some fn => fn | None => mret tt end.
Definition on_connection_lost {S F : Type} (err : foreign) (c : callbacks F (foreign → State S unit)) : State S unit :=
  match onConnLostFn c with Some fn => fn err | None => mret tt end.

(** ** Errors *)

(** An operation that is not refused makes exactly its one call; it succeeds only
    when paho completes it without an error; and its errors carry the sentinel of
    its kind and the cause. *)
Theorem operations_correct (connected : bool) (topic : string) (qos : Z) (retained : bool) (data : B)
    (ctx_err : option error) (sel : selected) (cs : list paho_call) :
  let cause := match sel with TokenDone f => EForeign <$> f | CtxEnded err => Some err end in
  let classified class (e : option error) :=
    match e, cause with
    | None, None => True
    | Some e, Some c => is_error class e = true ∧ ∀ s, is_error s c = true → is_error s e = true
    | _, _ => False
    end in
  (let '(r, cs') := Connect ctx_err sel cs in
   match ctx_err with
   | Some err => cs' = cs ∧ ∃ e, r = Some e ∧ is_error ErrMQTTConnect e = true ∧
                                 ∀ s, is_error s err = true → is_error s e = true
   | None => cs' = cs ++ [PConnect] ∧ classified ErrMQTTConnect r
   end) ∧
  (let '(r, cs') := Publish connected topic qos retained data sel cs in
   if connected then cs' = cs ++ [PPublish topic qos retained data] ∧ classified ErrMQTTPublish r
   else cs' = cs ∧ ∃ e, r = Some e ∧ is_error ErrMQTTConnect e = true) ∧
  (let '(r, cs') := Subscribe connected topic qos sel cs in
   if connected then cs' = cs ++ [PSubscribe topic qos] ∧ classified ErrMQTTSubscribe r
   else cs' = cs ∧ ∃ e, r = Some e ∧ is_error ErrMQTTSubscribe e = true) ∧
  (let '(r, cs') := Unsubscribe topic sel cs in
   cs' = cs ++ [PUnsubscribe topic] ∧ classified ErrMQTTSubscribe r).
Proof.
  cbv zeta.
  assert (Hs : ∀ format args class,
    match settle format args class sel, match sel with TokenDone f => EForeign <$> f | CtxEnded err => Some err end with
    | None, None => True
    | Some e, Some c => is_error class e = true ∧ ∀ s, is_error s c = true → is_error s e = true
    | _, _ => False
    end).
  { intros format args class.
    assert (Hw : ∀ cause, let e := Errorf format (args ++ [FWrap (Sentinel class); FWrap cause]) in
      is_error class e = true ∧ ∀ s, is_error s cause = true → is_error s e = true).
    { intros cause. split; [apply (is_error_wrap _ _ _ (Sentinel class)); [set_solver|apply is_error_sentinel]|].
      intros s Hc. apply (is_error_wrap _ _ _ cause); [set_solver|exact Hc]. }
    destruct sel as [[f|]|err]; [apply (Hw (EForeign f))|done|apply (Hw err)]. }
  split_and!.
  - destruct ctx_err as [err|]; [|split; [done|apply Hs]]. split; [done|]. eexists. split; [done|].
    split; [apply (is_error_wrap _ _ _ (Sentinel ErrMQTTConnect)); [set_solver|apply is_error_sentinel]|].
    intros s Hc. apply (is_error_wrap _ _ _ err); [set_solver|exact Hc].
  - destruct connected; [split; [done|apply Hs]|]. split; [done|]. eexists. by split.
  - destruct connected; [split; [done|apply Hs]|]. split; [done|]. eexists. by split.
  - split; [done|apply Hs].
Qed.
End mqtt.

(** ** The options of the edge node *)

Section factory.
Context {B : Type} `{!Proto B} (is_empty : B → bool).

Definition node_keep_alive (c : Config) : Z :=
  match parse_duration (mKeepAlive (MQTT c)) with
  | Some d => if negb (String.eqb (mKeepAlive (MQTT c)) "") && (0 <? d) then d else 30 * Second
  | None => 30 * Second
  end.

(** The options in [defaultSparkplugNodeFactory]; an NDEATH that cannot be
    encoded leaves a nil payload. *)
Definition node_options (now : time) (c : Config) : Options (B := B) :=
  mkOptions (mBrokerURL (MQTT c)) (mClientID (MQTT c)) "" (mPassword (MQTT c)) (wrap_u 8 (mQoS (MQTT c)))
    (node_keep_alive c) (mCleanSession (MQTT c))
    (nodeTopic (mGroupID (MQTT c)) (mEdgeNodeID (MQTT c)) "NDEATH")
    (match BuildNDEATH now 0 with inl p => Some p | inr _ => None end) 1 false.

(** The client of the edge node never reconnects by itself, keeps the connection
    alive, and leaves the broker a last will: the NDEATH of the node, with the
    first birth/death number.  It has no user name, whatever the configuration
    says, also when there is a password. *)
Theorem node_client_correct (now : time) (c : Config) (ndeath : B) :
  BuildNDEATH now 0 = inl ndeath → is_empty ndeath = false →
  let po := NewClient is_empty (node_options now c) in
  po_auto_reconnect po = false ∧ po_order_matters po = false ∧ 0 < po_keep_alive po ∧
  po_will po = Some (nodeTopic (mGroupID (MQTT c)) (mEdgeNodeID (MQTT c)) "NDEATH", ndeath, 1, false) ∧
  po_username po = None ∧ po_password po = unless_empty (mPassword (MQTT c)).
Proof.
  intros Hn He. cbv zeta. unfold NewClient, node_options. rewrite Hn. cbn -[node_keep_alive].
  rewrite He. split_and!; try done. unfold node_keep_alive.
  destruct (parse_duration _) as [d|]; [|done].
  destruct (negb _); simpl; [|done]. destruct (Z.ltb_spec 0 d); [|done].
  destruct (Z.leb_spec d 0); lia.
Qed.
End factory.

Example node_client_correct_witness :
  let c := base_config 1 "8h" [] in
  ∃ ndeath : payload, BuildNDEATH 0 0 = inl ndeath ∧
  po_username (NewClient (λ _, false) (node_options 0 c)) = None ∧
  po_auto_reconnect (NewClient (λ _, false) (node_options 0 c)) = false.
Proof.
  cbv zeta. destruct (BuildNDEATH (B := payload) 0 0) as [ndeath|e] eqn:E; [|by vm_compute in E].
  exists ndeath. split; [done|].
  destruct (node_client_correct (B := payload) (λ _, false) 0 (base_config 1 "8h" []) ndeath E eq_refl)
    as (H1 & _ & _ & _ & H5 & _).
  split; [exact H5|exact H1].
Defined.
