(* ===== verification/Routes.v ===== *)
(** * [internal/server]: the route table and its guards

    Which endpoint is registered under which wiring, and behind which
    middleware.  Routes and guards are data; [serve] gives a guard its meaning
    with the middleware of [Auth]. *)

From S2P Require Import Prelude GoString GoTime GoError UserStore Http Auth.

(** The handlers of the API, by name. *)
Inductive endpoint :=
| CurrentTags | TagsWebSocket
| Login | RefreshToken | Logout | Me
| HistorianQuery | Doctor | ConfigMappings
| BackupTrigger | BackupStatus | BackupSnapshots
| ListUsers | CreateUser | GetUser | UpdateUserRole | UpdateUserPassword | DeleteUser
| WriteTagEndpoint
| ListACLRules | CreateACLRule | GetACLRule | UpdateACLRule | DeleteACLRule
| ListPLCs | GetPLCEndpoint | CreatePLC | UpdatePLC | DeletePLC.

#[export] Instance endpoint_eq_dec : EqDecision endpoint.
Proof. solve_decision. Defined.

(** The middleware in front of a handler, outermost first. *)
Inductive middleware := AuthMiddleware | Roles (roles : list string).

Record route := mkRoute { method : string; pattern : string; mws : list middleware; ep : endpoint }.

(** What decides which routes exist. *)
Record wiring := mkWiring {
  w_authTokens : bool; w_bkpMgr : bool; w_userStore : bool; w_plcStore : bool;
  w_writeGuard : bool; w_aclStore : bool;
}.

Definition adminMWs : list middleware := [AuthMiddleware; Roles [RoleAdmin]].
Definition viewerMWs : list middleware :=
  [AuthMiddleware; Roles [RoleViewer; RoleOperator; RoleAdmin]].

(** Behind the middleware when [authTokens] is set, bare otherwise. *)
Definition guarded (w : wiring) (ms : list middleware) (rs : list (string * string * endpoint))
    : list route :=
  (λ x, mkRoute x.1.1 x.1.2 (if w_authTokens w then ms else []) x.2) <$> rs.

Definition registerWriteRoutes (w : wiring) : list route :=
  if negb (w_plcStore w) || negb (w_writeGuard w) then []
  else guarded w viewerMWs [("POST", "/api/plcs/{plc}/tags/{tag}/write", WriteTagEndpoint)].

Definition registerACLRoutes (w : wiring) : list route :=
  if negb (w_aclStore w) then []
  else guarded w adminMWs
         [("GET", "/api/acl/rules", ListACLRules);
          ("POST", "/api/acl/rules", CreateACLRule);
          ("GET", "/api/acl/rules/{id}", GetACLRule);
          ("PUT", "/api/acl/rules/{id}", UpdateACLRule);
          ("DELETE", "/api/acl/rules/{id}", DeleteACLRule)].

Definition registerAPIRoutes (w : wiring) : list route :=
  guarded w [AuthMiddleware] [("GET", "/api/tags/current", CurrentTags)] ++
  [mkRoute "GET" "/api/ws/tags" [] TagsWebSocket; mkRoute "POST" "/api/auth/login" [] Login] ++
  guarded w [AuthMiddleware]
    [("POST", "/api/auth/refresh", RefreshToken);
     ("POST", "/api/auth/logout", Logout);
     ("GET", "/api/auth/me", Me);
     ("GET", "/api/historian/query", HistorianQuery);
     ("GET", "/api/doctor", Doctor);
     ("GET", "/api/config/mappings", ConfigMappings)] ++
  (if w_bkpMgr w then
     guarded w adminMWs
       [("POST", "/api/backup/trigger", BackupTrigger);
        ("GET", "/api/backup/status", BackupStatus);
        ("GET", "/api/backup/snapshots", BackupSnapshots)]
   else []) ++
  (if w_userStore w && w_authTokens w then
     guarded w adminMWs
       [("GET", "/api/users", ListUsers);
        ("POST", "/api/users", CreateUser);
        ("GET", "/api/users/{id}", GetUser);
        ("PUT", "/api/users/{id}/role", UpdateUserRole);
        ("PUT", "/api/users/{id}/password", UpdateUserPassword);
        ("DELETE", "/api/users/{id}", DeleteUser)]
   else []) ++
  registerWriteRoutes w ++
  registerACLRoutes w ++
  (if w_plcStore w && w_authTokens w then
     guarded w viewerMWs
       [("GET", "/api/plcs", ListPLCs); ("GET", "/api/plcs/{name}", GetPLCEndpoint)] ++
     guarded w adminMWs
       [("POST", "/api/plcs", CreatePLC); ("PUT", "/api/plcs/{name}", UpdatePLC);
        ("DELETE", "/api/plcs/{name}", DeletePLC)]
   else []).

(** ** The policy *)

(** The roles an endpoint is meant for; [None] for the two that anyone may
    reach: the login, and the tag stream, which authenticates by its first
    message. *)
Definition policy (e : endpoint) : option (list string) :=
  match e with
  | Login | TagsWebSocket => None
  | CurrentTags | RefreshToken | Logout | Me | HistorianQuery | Doctor | ConfigMappings
  | WriteTagEndpoint | ListPLCs | GetPLCEndpoint => Some [RoleViewer; RoleOperator; RoleAdmin]
  | _ => Some [RoleAdmin]
  end.

Section serving.
Context {Jw : JWT} {S B : Type} (ts : TokenService) (now : time).

Definition apply_mw (m : middleware) : handler S B → handler S B :=
  match m with AuthMiddleware => Middleware ts now | Roles rs => RequireRole rs end.

(** A request that the multiplexer hands to a route. *)
Definition serve (h : endpoint → handler S B) (rt : route) : handler S B :=
  withMiddleware (h (ep rt)) (apply_mw <$> mws rt).

(** The caller of a request: the claims of its token, if it validates. *)
Definition caller (r : request B) : option Claims :=
  let token := ExtractToken r in
  if String.eqb token "" then None
  else match Validate ts now token with inl c => Some c | inr _ => None end.

(** The three shapes a guard has. *)
Lemma guarded_mws w rt :
  w_authTokens w = true → rt ∈ registerAPIRoutes w →
  match policy (ep rt) with
  | None => mws rt = []
  | Some rs => mws rt = [AuthMiddleware; Roles rs] ∨
               mws rt = [AuthMiddleware] ∧ rs = [RoleViewer; RoleOperator; RoleAdmin]
  end.
Proof.
  intros Hw Hin. destruct w as [a b u p g c]. simpl in Hw. subst a.
  unfold registerAPIRoutes, registerWriteRoutes, registerACLRoutes, guarded in Hin.
  simpl in Hin. destruct b, u, p, g, c; simpl in Hin;
    repeat (apply elem_of_cons in Hin as [->|Hin]; [simpl; auto|]); by apply not_elem_of_nil in Hin.
Qed.

Lemma serve_policy (w : wiring) (rt : route) (h : endpoint → handler S B)
    (r : request B) (s : S) :
  w_authTokens w = true → rt ∈ registerAPIRoutes w →
  match policy (ep rt) with
  | None => serve h rt r s = h (ep rt) r s
  | Some roles =>
      match caller r with
      | None => ∃ msg, serve h rt r s = (http_error StatusUnauthorized msg, s)
      | Some c =>
          (cRole c ∈ roles → serve h rt r s = h (ep rt) (with_claims c r) s) ∧
          (Valid (cRole c) = true → cRole c ∉ roles →
           serve h rt r s = (http_error StatusForbidden "forbidden", s))
      end
  end.
Proof.
  intros Hw Hin. pose proof (guarded_mws w rt Hw Hin) as Hm. unfold serve, caller.
  destruct (policy (ep rt)) as [roles|]; [|by rewrite Hm].
  destruct Hm as [->|[-> ->]]; cbn [fmap list_fmap apply_mw];
    unfold withMiddleware; cbn [foldr]; unfold Middleware;
    destruct (String.eqb _ ""); eauto; destruct (Validate _ _ _) as [c|]; eauto.
  - unfold RequireRole. simpl. destruct (bool_decide _) eqn:E; bool_to_prop; simpl;
      (split; [done|]); done.
  - split; [done|]. intros Hv%Valid_iff Hn. set_solver.
Qed.

(** With authentication on, every registered route runs its handler only for a
    caller with a valid token whose role the policy lists, and hands it that
    caller's claims; anyone else is answered 401 or 403 and the server does not
    change.  The policy is enforced as it is for tokens that carry one of the
    three roles. *)
Theorem routes_enforce_policy (w : wiring) (rt : route) (h : endpoint → handler S B)
    (r : request B) (s : S) :
  w_authTokens w = true → rt ∈ registerAPIRoutes w →
  match policy (ep rt) with
  | None => serve h rt r s = h (ep rt) r s
  | Some roles =>
      match caller r with
      | None => ∃ msg, serve h rt r s = (http_error StatusUnauthorized msg, s)
      | Some c =>
          (cRole c ∈ roles → serve h rt r s = h (ep rt) (with_claims c r) s) ∧
          (Valid (cRole c) = true → cRole c ∉ roles →
           serve h rt r s = (http_error StatusForbidden "forbidden", s))
      end
  end.
Proof. apply serve_policy. Qed.
End serving.

(** No two routes have the same method and pattern, which would make the
    registration panic. *)
Theorem routes_distinct (w : wiring) :
  NoDup ((λ rt, (method rt, pattern rt)) <$> registerAPIRoutes w).
Proof.
  apply (bool_decide_unpack _). destruct w as [[] [] [] [] [] []]; vm_compute; exact I.
Qed.

(** ** A concrete request *)

Definition viewer_token : string :=
  match Issue sample_tokens 0 7 "ana" "viewer" with inl t => t | inr _ => "" end.

Definition viewer_request : request unit :=
  mkRequest "DELETE" ("Bearer " +:+ viewer_token) (λ _, None) (λ _, "") (λ _, "plc1") "127.0.0.1:9"
    None None.

Definition all_wired : wiring := mkWiring true true true true true true.
Definition delete_plc : route := mkRoute "DELETE" "/api/plcs/{name}" adminMWs DeletePLC.

(** A viewer may not delete a PLC. *)
Theorem routes_enforce_policy_witness :
  delete_plc ∈ registerAPIRoutes all_wired ∧
  ∀ h : endpoint → handler nat unit,
    serve sample_tokens (60 * Second) h delete_plc viewer_request 0%nat =
    (http_error StatusForbidden "forbidden", 0%nat).
Proof.
  assert (Hin : delete_plc ∈ registerAPIRoutes all_wired).
  { apply list_elem_of_In. vm_compute. repeat (right; try (left; reflexivity)). }
  split; [exact Hin|]. intros h.
  pose proof (routes_enforce_policy sample_tokens (60 * Second) all_wired delete_plc h
                viewer_request 0%nat eq_refl Hin) as H.
  cbn [policy ep delete_plc] in H.
  assert (Hc : caller sample_tokens (60 * Second) viewer_request =
               Some (mkClaims 7 "ana" "viewer" 0 (3600 * Second))) by (vm_compute; reflexivity).
  rewrite Hc in H. apply H; [reflexivity|]. apply (bool_decide_unpack _). vm_compute. exact I.
Defined.
