(* ===== verification/Lifecycle.v ===== *)
(** * [internal/server/server.go]: construction, start and shutdown of the server

    [New], [buildHTTPServer] and [Run].  The background parts are what [Run]
    starts and stops; what they, the listener and the HTTP server answer comes
    from [outside], and [Run] records what it does, in order. *)

From S2P Require Import Prelude GoString GoTime GoError Config UserStore Http Auth Routes.

(** ** Parts and wiring *)

Inductive part := SparkplugNode | HistorianWriter | PLCManager | OPCUAServer | BackupScheduler.

#[export] Instance part_eq_dec : EqDecision part.
Proof. solve_decision. Defined.

(** [Opts], each dependency by its presence; [o_hook] tells whether the manager
    implements [tagUpdateHook]. *)
Record Opts := mkOpts {
  o_parts : list part; o_hook : bool;
  o_authTokens : bool; o_userStore : bool; o_auditLog : bool; o_histStore : bool; o_bkpMgr : bool;
  o_plcStore : bool; o_aclStore : bool; o_writeGuard : bool; o_tlsConfig : bool;
}.

Definition wired (o : Opts) (p : part) : bool := bool_decide (p ∈ o_parts o).

(** The guard of [New]: the injected one, or one built from both stores. *)
Definition guard_of (o : Opts) : bool := o_writeGuard o || o_plcStore o && o_aclStore o.

(** What the server of [New] decides its routes by. *)
Definition New (o : Opts) : wiring :=
  mkWiring (o_authTokens o) (o_bkpMgr o) (o_userStore o) (o_plcStore o) (guard_of o) (o_aclStore o).

(** ** The HTTP server *)

Definition defaultReadHeaderTimeout : Z := 5 * Second.
Definition defaultReadTimeout : Z := 30 * Second.
Definition defaultWriteTimeout : Z := 60 * Second.
Definition defaultIdleTimeout : Z := 120 * Second.

Definition parseDur (val : string) (def : Z) : Z :=
  if String.eqb val "" then def
  else match parse_duration val with
       | Some d => if 0 <? d then d else def
       | None => def
       end.

Record http_server := mkHttpServer {
  ReadHeaderTimeout : Z; ReadTimeout : Z; WriteTimeout : Z; IdleTimeout : Z;
}.

Definition buildHTTPServer (c : ServerSection) : http_server :=
  mkHttpServer (parseDur (sReadHeaderTimeout c) defaultReadHeaderTimeout)
    (parseDur (sReadTimeout c) defaultReadTimeout)
    (parseDur (sWriteTimeout c) defaultWriteTimeout)
    (parseDur (sIdleTimeout c) defaultIdleTimeout).

(** [securityHeadersMiddleware], on the headers of a response. *)
Definition csp : string :=
  "default-src 'self'; script-src 'self'; style-src 'self'; img-src 'self' data:; connect-src 'self' ws: wss:; font-src 'self'; object-src 'none'; frame-ancestors 'none'".

Definition security_headers : list (string * string) :=
  [("X-Content-Type-Options", "nosniff"); ("X-Frame-Options", "DENY");
   ("Referrer-Policy", "strict-origin-when-cross-origin"); ("Content-Security-Policy", csp)].

Definition securityHeadersMiddleware {A : Type} (next : State (gmap string string) A)
    : State (gmap string string) A :=
  _ ← for_each security_headers (λ h, modify <[h.1 := h.2]>);
  next.

(** ** [Run] *)

(** The way [Run] serves the listener. *)
Inductive serving := TLSInMemory | TLSFiles (cert key : string) | Plaintext.

Inductive event :=
| EListen
| EWarnPlaintext
| EHook
| EStart (p : part)
| EWarnStart (p : part) (err : error)
| EServe (how : serving)
| EStop (p : part)
| EWarnStop (p : part) (err : error)
| EShutdown (deadline : Z).

(** How the final [select] of [Run] ends: the goroutine that serves returns an
    error, or the context of [Run] is done. *)
Inductive served := ServeReturned (err : foreign) | CtxEnded.

(** What the parts, the listener and the HTTP server answer. *)
Record outside := mkOutside {
  start_answer : part → option error;
  stop_answer : part → option error;
  listen_answer : option foreign;
  serve_answer : served;
  shutdown_answer : option foreign;
}.

Section run.
Context (c : ServerSection) (o : Opts) (w : outside).

Definition emit (e : event) : State (list event) unit := modify (λ es, es ++ [e]).

Definition serving_mode : serving :=
  if sTLSEnabled c && o_tlsConfig o then TLSInMemory
  else if sTLSEnabled c then TLSFiles (sTLSCertFile c) (sTLSKeyFile c)
  else Plaintext.

Definition shutdownTimeout : Z :=
  if String.eqb (sShutdownTimeout c) "" then 10 * Second
  else match parse_duration (sShutdownTimeout c) with Some d => d | None => 10 * Second end.

(** A start whose error is only logged.  [Start] of the writer and of the
    scheduler return none; the OPC UA server starts in a goroutine of its own,
    whose log line has no place in this order. *)
Definition start_part (p : part) : State (list event) unit :=
  if wired o p then
    _ ← emit (EStart p);
    match p, start_answer w p with
    | (SparkplugNode | PLCManager), Some err => emit (EWarnStart p err)
    | _, _ => mret tt
    end
  else mret tt.

Definition stop_part (p : part) : State (list event) unit :=
  if wired o p then
    _ ← emit (EStop p);
    match stop_answer w p with Some err => emit (EWarnStop p err) | None => mret tt end
  else mret tt.

Definition start_parts : State (list event) unit :=
  _ ← start_part SparkplugNode;
  _ ← start_part HistorianWriter;
  _ ← (if wired o PLCManager && o_hook o then emit EHook else mret tt);
  _ ← start_part PLCManager;
  _ ← start_part OPCUAServer;
  start_part BackupScheduler.

Definition stop_parts : State (list event) unit :=
  _ ← stop_part BackupScheduler;
  _ ← stop_part OPCUAServer;
  _ ← stop_part PLCManager;
  _ ← stop_part HistorianWriter;
  stop_part SparkplugNode.

Definition Run : State (list event) (option error) :=
  if sTLSEnabled c && negb (o_tlsConfig o)
     && (String.eqb (sTLSCertFile c) "" || String.eqb (sTLSKeyFile c) "")
  then mret (Some (Errorf "server: TLS is enabled but TLSCertFile or TLSKeyFile is not configured" []))
  else match listen_answer w with
  | Some f => mret (Some (Errorf "server: listen %q: %w" [FStr (sHTTPAddr c); FWrap (EForeign f)]))
  | None =>
      _ ← emit EListen;
      _ ← (if sTLSEnabled c then mret tt else emit EWarnPlaintext);
      _ ← start_parts;
      _ ← emit (EServe serving_mode);
      match serve_answer w with
      | ServeReturned f =>
          (* [http.ErrServerClosed] only closes the channel *)
          mret (if is_error ErrServerClosed (EForeign f) then None else Some (EForeign f))
      | CtxEnded =>
          _ ← stop_parts;
          _ ← emit (EShutdown shutdownTimeout);
          mret (match shutdown_answer w with
                | Some f => Some (Errorf "server: shutdown: %w" [FWrap (EForeign f)])
                | None => None
                end)
      end
  end.

(** ** Order of the parts *)

(** The events about the life of parts. *)
Definition life (es : list event) : list event :=
  List.filter (λ e, match e with
    | EWarnPlaintext | EStart _ | EStop _ | EServe _ | EShutdown _ => true | _ => false end) es.

Definition start_order : list part :=
  [SparkplugNode; HistorianWriter; PLCManager; OPCUAServer; BackupScheduler].
Definition stop_order : list part :=
  [BackupScheduler; OPCUAServer; PLCManager; HistorianWriter; SparkplugNode].

Definition present (ps : list part) : list part := List.filter (wired o) ps.

Lemma life_app es1 es2 : life (es1 ++ es2) = life es1 ++ life es2.
Proof. apply List.filter_app. Qed.

(** [m] adds [l] to the life of the parts. *)
Definition adds {A : Type} (m : State (list event) A) (l : list event) : Prop :=
  ∀ es, life (m es).2 = life es ++ l.

Lemma adds_ret {A : Type} (a : A) : adds (mret a) [].
Proof. intros es. by rewrite app_nil_r. Qed.

Lemma adds_bind {A B : Type} (m : State (list event) A) (k : A → State (list event) B) l1 l2 :
  adds m l1 → (∀ a, adds (k a) l2) → adds (m ≫= k) (l1 ++ l2).
Proof.
  intros Hm Hk es. rewrite bind_run. specialize (Hm es). destruct (m es) as [a es'].
  rewrite (Hk a es'). simpl in Hm. by rewrite Hm, app_assoc.
Qed.

Lemma adds_emit e : adds (emit e) (life [e]).
Proof. intros es. apply life_app. Qed.

Lemma adds_start p : adds (start_part p) (EStart <$> present [p]).
Proof.
  unfold start_part, present. cbn [List.filter]. destruct (wired o p); [|apply adds_ret].
  apply (adds_bind _ _ [EStart p] []); [apply adds_emit|]. intros _.
  destruct p; repeat split_match; solve [apply adds_emit | apply adds_ret].
Qed.

Lemma adds_stop p : adds (stop_part p) (EStop <$> present [p]).
Proof.
  unfold stop_part, present. cbn [List.filter]. destruct (wired o p); [|apply adds_ret].
  apply (adds_bind _ _ [EStop p] []); [apply adds_emit|]. intros _.
  destruct (stop_answer w p); solve [apply adds_emit | apply adds_ret].
Qed.

Lemma present_split p1 p2 p3 p4 p5 :
  present [p1; p2; p3; p4; p5] =
  present [p1] ++ present [p2] ++ present [p3] ++ present [p4] ++ present [p5].
Proof.
  unfold present. change [p1; p2; p3; p4; p5] with ([p1] ++ [p2] ++ [p3] ++ [p4] ++ [p5]).
  by rewrite !List.filter_app.
Qed.

Lemma adds_hook : adds (if wired o PLCManager && o_hook o then emit EHook else mret tt) [].
Proof. case_match; [apply (adds_emit EHook)|apply adds_ret]. Qed.

Lemma adds_starts : adds start_parts (EStart <$> present start_order).
Proof.
  unfold start_order. rewrite present_split, !fmap_app. unfold start_parts.
  apply adds_bind; [apply adds_start|intros _]. apply adds_bind; [apply adds_start|intros _].
  apply (adds_bind _ _ [] _ adds_hook). intros _.
  apply adds_bind; [apply adds_start|intros _]. apply adds_bind; [apply adds_start|intros _].
  apply adds_start.
Qed.

Lemma adds_stops : adds stop_parts (EStop <$> present stop_order).
Proof.
  unfold stop_order. rewrite present_split, !fmap_app.
  unfold stop_parts. repeat (apply adds_bind; [apply adds_stop|intros _]). apply adds_stop.
Qed.

Definition refuses_tls : bool :=
  sTLSEnabled c && negb (o_tlsConfig o)
  && (String.eqb (sTLSCertFile c) "" || String.eqb (sTLSKeyFile c) "").

Definition plaintext_warning : list event := if sTLSEnabled c then [] else [EWarnPlaintext].

(** The life of the parts under [Run]. *)
Definition run_life : list event :=
  if refuses_tls then []
  else match listen_answer w, serve_answer w with
       | Some _, _ => []
       | None, ServeReturned _ => plaintext_warning ++ (EStart <$> present start_order) ++ [EServe serving_mode]
       | None, CtxEnded =>
           plaintext_warning ++ (EStart <$> present start_order) ++ [EServe serving_mode] ++
           (EStop <$> present stop_order) ++ [EShutdown shutdownTimeout]
       end.

Lemma adds_run : adds Run run_life.
Proof.
  unfold Run, run_life. fold refuses_tls. destruct refuses_tls; [apply adds_ret|].
  destruct (listen_answer w); [apply adds_ret|].
  assert (Hw : ∀ A (k : State (list event) A) l, adds k l →
    adds (_ ← emit EListen; _ ← (if sTLSEnabled c then mret tt else emit EWarnPlaintext); k)
      (plaintext_warning ++ l)).
  { intros A k l Hk. apply (adds_bind _ _ [] _ (adds_emit EListen)). intros _.
    apply adds_bind; [|done]. unfold plaintext_warning.
    destruct (sTLSEnabled c); [apply adds_ret|apply (adds_emit EWarnPlaintext)]. }
  destruct (serve_answer w); apply Hw; (apply adds_bind; [apply adds_starts|intros _]).
  - apply (adds_bind _ _ [EServe serving_mode] []); [apply adds_emit|]. intros _. apply adds_ret.
  - apply (adds_bind _ _ [EServe serving_mode] _ (adds_emit (EServe serving_mode))). intros _.
    apply adds_bind; [apply adds_stops|]. intros _.
    apply (adds_bind _ _ [EShutdown shutdownTimeout] [] (adds_emit (EShutdown shutdownTimeout))). intros _. apply adds_ret.
Qed.

(** ** What the order is for *)

(** [feeds p q]: while [p] runs it hands data to [q], or reads it from [q] for
    the OPC UA server, whose clients read the manager's tags. *)
Definition feeds (p q : part) : Prop :=
  match p, q with
  | PLCManager, (SparkplugNode | HistorianWriter) | OPCUAServer, PLCManager => True
  | _, _ => False
  end.

Lemma in_life e es : e ∈ life es ↔
  e ∈ es ∧ match e with
    | EWarnPlaintext | EStart _ | EStop _ | EServe _ | EShutdown _ => True | _ => False end.
Proof.
  unfold life. rewrite !list_elem_of_In, List.filter_In. destruct e; naive_solver.
Qed.

Lemma life_sublist es : life es `sublist_of` es.
Proof.
  unfold life. induction es as [|e es IH]; simpl; [done|].
  case_match; [by apply sublist_skip|by apply sublist_cons].
Qed.

Lemma in_present p ps : p ∈ present ps ↔ wired o p = true ∧ p ∈ ps.
Proof. unfold present. rewrite !list_elem_of_In, List.filter_In. intuition. Qed.

Lemma in_starts e ps :
  e ∈ EStart <$> present ps ↔ match e with EStart p => wired o p = true ∧ p ∈ ps | _ => False end.
Proof.
  rewrite list_elem_of_fmap. setoid_rewrite in_present. destruct e; split; try naive_solver.
Qed.

Lemma in_stops e ps :
  e ∈ EStop <$> present ps ↔ match e with EStop p => wired o p = true ∧ p ∈ ps | _ => False end.
Proof.
  rewrite list_elem_of_fmap. setoid_rewrite in_present. destruct e; split; try naive_solver.
Qed.

Lemma start_order_all p : p ∈ start_order.
Proof. unfold start_order. rewrite !elem_of_cons. destruct p; auto 10. Qed.

Lemma stop_order_all p : p ∈ stop_order.
Proof. unfold stop_order. rewrite !elem_of_cons. destruct p; auto 10. Qed.

(** The life of a server that is told to stop. *)
Definition full_life : list event :=
  plaintext_warning ++ (EStart <$> present start_order) ++ [EServe serving_mode] ++
  (EStop <$> present stop_order) ++ [EShutdown shutdownTimeout].

Lemma full_life_order p q : feeds p q → wired o p = true → wired o q = true →
  [EStart q; EStart p; EServe serving_mode; EStop p; EStop q; EShutdown shutdownTimeout]
    `sublist_of` full_life.
Proof.
  intros Hf Hp Hq. unfold full_life, plaintext_warning, present, start_order, stop_order. cbn [List.filter].
  destruct p, q; try destruct Hf; rewrite Hp, Hq; repeat case_match; simpl;
    repeat first [apply sublist_skip | apply sublist_cons | apply sublist_nil].
Qed.

Lemma full_life_NoDup : NoDup full_life.
Proof.
  unfold full_life, plaintext_warning, present, start_order, stop_order. cbn [List.filter].
  repeat case_match; simpl; repeat (apply NoDup_cons; split;
    [intros H'; repeat (apply elem_of_cons in H' as [H'|H']; [discriminate H'|]);
     by apply elem_of_nil in H'|]); apply NoDup_nil_2.
Qed.

(** What [Run] returns. *)
Definition run_answer : option error :=
  if refuses_tls
  then Some (Errorf "server: TLS is enabled but TLSCertFile or TLSKeyFile is not configured" [])
  else match listen_answer w, serve_answer w with
       | Some f, _ => Some (Errorf "server: listen %q: %w" [FStr (sHTTPAddr c); FWrap (EForeign f)])
       | None, ServeReturned f =>
           if is_error ErrServerClosed (EForeign f) then None else Some (EForeign f)
       | None, CtxEnded =>
           (λ f, Errorf "server: shutdown: %w" [FWrap (EForeign f)]) <$> shutdown_answer w
       end.

Lemma Run_answer es : (Run es).1 = run_answer.
Proof.
  unfold Run, run_answer. fold refuses_tls. destruct refuses_tls; [done|].
  destruct (listen_answer w); [done|]. rewrite bind_run. unfold emit at 1. cbn [modify].
  rewrite bind_run. destruct ((if sTLSEnabled c then mret tt else emit EWarnPlaintext) (es ++ [EListen])) as [? es1].
  rewrite bind_run. destruct (start_parts es1) as [? es2]. rewrite bind_run.
  unfold emit at 1. cbn [modify]. destruct (serve_answer w); [done|].
  rewrite bind_run. destruct (stop_parts _) as [? es3]. rewrite bind_run.
  unfold emit. cbn [modify]. by destruct (shutdown_answer w).
Qed.

Lemma Run_unserved es : refuses_tls = true ∨ is_Some (listen_answer w) → Run es = (run_answer, es).
Proof.
  unfold Run, run_answer. fold refuses_tls. destruct refuses_tls; [done|].
  by intros [[=]|[f ->]].
Qed.

Lemma warned e : e ∈ plaintext_warning ↔ sTLSEnabled c = false ∧ e = EWarnPlaintext.
Proof. unfold plaintext_warning. destruct (sTLSEnabled c); set_solver. Qed.

Lemma serving_mode_ok : refuses_tls = false →
  match serving_mode with
  | Plaintext => sTLSEnabled c = false
  | TLSFiles cert key => sTLSEnabled c = true ∧ cert ≠ "" ∧ key ≠ ""
  | TLSInMemory => sTLSEnabled c = true ∧ o_tlsConfig o = true
  end.
Proof.
  intros Et. unfold serving_mode. unfold refuses_tls in Et. destruct (sTLSEnabled c), (o_tlsConfig o);
    simpl in *; auto. apply orb_false_iff in Et as [E1%String.eqb_neq E2%String.eqb_neq]. auto.
Qed.

(** What a run that got to serve contains. *)
Lemma in_run_life e : refuses_tls = false → listen_answer w = None →
  match e with
  | EStart p => e ∈ run_life ↔ wired o p = true
  | EStop p => e ∈ run_life ↔ serve_answer w = CtxEnded ∧ wired o p = true
  | EServe m => e ∈ run_life ↔ m = serving_mode
  | EWarnPlaintext => e ∈ run_life ↔ sTLSEnabled c = false
  | _ => True
  end.
Proof.
  intros Et Ew. unfold run_life. rewrite Et, Ew.
  assert (Hone : ∀ e x : event, e ∈ [x] ↔ e = x) by (intros; apply list_elem_of_singleton).
  pose proof start_order_all as Hall. pose proof stop_order_all as Hall'.
  destruct (serve_answer w), e; try exact I;
    rewrite !elem_of_app, warned, in_starts, ?in_stops, !Hone;
    try specialize (Hall p); try specialize (Hall' p); naive_solver.
Qed.

End run.

(** Whatever the configuration says, no timeout of the HTTP server is zero. *)
Theorem buildHTTPServer_positive (c : ServerSection) :
  let h := buildHTTPServer c in
  0 < ReadHeaderTimeout h ∧ 0 < ReadTimeout h ∧ 0 < WriteTimeout h ∧ 0 < IdleTimeout h.
Proof.
  assert (H : ∀ v d, 0 < d → 0 < parseDur v d).
  { intros v d Hd. unfold parseDur. repeat case_match; bool_to_prop; lia. }
  split_and!; by apply H.
Qed.

(** A response carries the security headers unless its handler sets them. *)
Theorem securityHeadersMiddleware_correct {A : Type} (next : State (gmap string string) A) h k v :
  (∀ h x, h !! k = Some x → (next h).2 !! k = Some x) → (k, v) ∈ security_headers →
  (securityHeadersMiddleware next h).2 !! k = Some v.
Proof.
  intros Hn Hk. unfold securityHeadersMiddleware. rewrite bind_run.
  unfold security_headers in *. cbn [for_each]. rewrite !bind_run. cbn [modify]. simpl.
  apply Hn. rewrite !elem_of_cons, elem_of_nil in Hk.
  destruct Hk as [[= -> ->]|[[= -> ->]|[[= -> ->]|[[= -> ->]|[]]]]];
    repeat (rewrite lookup_insert_ne by done); apply lookup_insert_eq.
Qed.

(** ** [Addr]

    Polls for the bound address every five milliseconds, for three seconds from
    [called] on: [now k] is the clock and [bound k] the field [addr] at the [k]-th
    poll. *)
Section addr.
Context (bound : nat → string) (called : time) (now : nat → time).

Definition addr_deadline : time := called + 3 * Second.

Fixpoint poll_addr (fuel k : nat) : option string :=
  match fuel with
  | O => None
  | S fuel =>
      if now k <? addr_deadline
      then if String.eqb (bound k) "" then poll_addr fuel (S k) else Some (bound k)
      else Some ""
  end.

(** Six hundred polls, and the look at the clock that ends them. *)
Definition Addr : option string := poll_addr 601 0.

(** Sleeping takes its time. *)
Hypothesis clock_runs : called ≤ now 0%nat ∧ ∀ k, now k + 5 * Millisecond ≤ now (S k).

Lemma poll_addr_returns n k : addr_deadline ≤ now k + 5 * Millisecond * Z.of_nat n → (∀ i, (i < k)%nat → bound i = "") →
  ∃ a, poll_addr (S n) k = Some a ∧
    ((a = "" ∧ ∃ e, addr_deadline ≤ now e ∧ ∀ i, (i < e)%nat → bound i = "") ∨
     (a ≠ "" ∧ ∃ i, bound i = a ∧ now i < addr_deadline ∧ ∀ j, (j < i)%nat → bound j = "")).
Proof.
  revert k. induction n as [|n IH]; intros k Hn Hb; cbn [poll_addr].
  all: destruct (Z.ltb_spec (now k) addr_deadline) as [Hlt|Hge]; [|exists ""; split; [done|]; left; split; [done|by exists k]].
  { lia. }
  destruct (String.eqb_spec (bound k) "") as [Hk|Hk].
  - apply IH; [destruct clock_runs as [_ Hc]; specialize (Hc k); lia|]. intros i Hi.
    destruct (decide (i = k)) as [->|]; [done|apply Hb; lia].
  - exists (bound k). split; [done|]. right. split; [done|]. by exists k.
Qed.

(** [Addr] returns: the first address it sees, or, when it has looked for three
    seconds without one, the empty string. *)
Theorem Addr_returns : ∃ a, Addr = Some a ∧
  ((a = "" ∧ ∃ e, addr_deadline ≤ now e ∧ ∀ i, (i < e)%nat → bound i = "") ∨
   (a ≠ "" ∧ ∃ i, bound i = a ∧ now i < addr_deadline ∧ ∀ j, (j < i)%nat → bound j = "")).
Proof.
  apply poll_addr_returns; [|lia]. destruct clock_runs as [Hc _]. unfold addr_deadline, Second, Millisecond. lia.
Qed.
End addr.
