(* ===== verification/Surface.v ===== *)
(** * The HTTP surface: what answers a request

    What [Run] registers with the multiplexer ([server/server.go]): the health,
    metrics and readiness answers, the API routes of [Routes], and the embedded
    web application ([server/spa.go]); all of it behind the security headers. *)

From S2P Require Import Prelude GoString GoTime GoError DataDir UserStore Http Auth Routes Lifecycle Mux.

(** ** Files *)

(** The file system [frontend/dist], by the names [fs.FS] knows them by; ["."]
    is its root. *)
Inductive asset := AssetDir | AssetFile (contents : string).
Abbreviation assets := (gmap string asset).

(** [fs.ValidPath]. *)
Definition ValidPath (name : string) : bool :=
  String.eqb name "." || forallb (λ c, negb (String.eqb c "" || String.eqb c "." || String.eqb c "..")) (split "/" name).

Definition Open (fs : assets) (name : string) : option asset :=
  if ValidPath name then fs !! name else None.

(** What is written to a client; [Json] is the response of an endpoint. *)
Inductive answer :=
| Json (resp : response)
| Text (code : Z) (text : string)
| Contents (text : string)
| Listing (name : string)
| LocalRedirect (to : string)
| MovedPermanently (to : string)
| Failure (code : Z).

(** *** [net/http]'s file server *)

(** [path.Base] of a rooted path. *)
Definition Base (url : string) : string :=
  match last (filter (λ c, c ≠ "") (split "/" url)) with Some c => c | None => "/" end.

(** [http.FS(fs).Open]. *)
Definition httpOpen (fs : assets) (name : string) : option asset :=
  Open fs (if String.eqb name "/" then "." else trim_prefix "/" name).

(** [FileServer(http.FS(fs)).ServeHTTP] at a path that starts with a slash. *)
Definition FileServer (fs : assets) (url : string) : answer :=
  let name := rooted (clean (split "/" url)) in
  if has_suffix "/index.html" url then LocalRedirect "./"
  else match httpOpen fs name with
  | None => Failure 404
  | Some AssetDir =>
      if negb (has_suffix "/" url) then LocalRedirect (Base url +:+ "/")
      else match httpOpen fs ((if String.eqb name "/" then "" else name) +:+ "/index.html") with
           | Some (AssetFile text) => Contents text
           | _ => Listing name
           end
  | Some (AssetFile text) =>
      if has_suffix "/" url
      then if String.eqb (Base url) "/" then Failure 500 else LocalRedirect ("../" +:+ Base url)
      else Contents text
  end.

(** ** [spa.go] *)

Definition serveSPA (fs : assets) (url : string) : answer :=
  let path := trim_prefix "/" url in
  let path := if String.eqb path "" then "index.html" else path in
  match Open fs path with
  | Some _ => FileServer fs url
  | None => FileServer fs "/"
  end.

(** ** What is registered *)

(** The handlers of the multiplexer. *)
Inductive target := Health | Metrics | Readyz | Api (rt : route) | Spa (fs : assets).

(** [health.Handler]. *)
Definition dq : string := String "034" "".
Definition status_ok : string :=
  "{" +:+ dq +:+ "status" +:+ dq +:+ ":" +:+ dq +:+ "ok" +:+ dq +:+ "}".

Definition health_Handler : answer := Text 200 status_ok.
Definition metrics_handler : answer := Text 200 ("# empty" +:+ String "010" "").
Definition readyz_handler : answer := Text 200 status_ok.

Definition NewMux : list (Pattern * target) := [].

(** [mountSPA], over what [fs.Sub] answers. *)
Definition mountSPA (sub : assets + foreign) : list (Pattern * target) :=
  match sub with
  | inr _ => []
  | inl fs => match Open fs "index.html" with
              | None => []
              | Some _ => [(parsePattern "" "/", Spa fs)]
              end
  end.

Definition api_entry (rt : route) : Pattern * target := (parsePattern (method rt) (pattern rt), Api rt).

(** The registrations of [Run], in order. *)
Definition registrations (w : wiring) (sub : assets + foreign) : list (Pattern * target) :=
  NewMux ++
  [(parsePattern "" "/health", Health); (parsePattern "" "/metrics", Metrics);
   (parsePattern "" "/readyz", Readyz)] ++
  (api_entry <$> registerAPIRoutes w) ++
  mountSPA sub.

(** ** A request *)

(** [in_path] is the escaped path of the URL. *)
Record incoming (B : Type) := mkIncoming { in_path : string; in_request : request B }.
Arguments mkIncoming {B} _ _.
Arguments in_path {B} _.
Arguments in_request {B} _.

Abbreviation headers := (gmap string string).

Fixpoint wild_names (p : list segment) : list string :=
  match p with
  | [] => []
  | Wild name :: p => name :: wild_names p
  | _ :: p => wild_names p
  end.

(** [r.PathValue]. *)
Definition PathValue (p : list segment) (ms : list string) (name : string) : string :=
  match List.find (λ x, String.eqb x.1 name) (zip (wild_names p) ms) with
  | Some x => x.2
  | None => ""
  end.

Definition with_path {B : Type} (f : string → string) (r : request B) : request B :=
  mkRequest (r_method r) (r_authorization r) (r_cookie r) (r_query r) f (r_remote r) (r_body r) (r_claims r).

Section surface.
Context {Jw : JWT} {S B : Type} (ts : TokenService) (now : time).
Context (w : wiring) (sub : assets + foreign) (h : endpoint → handler S B).

(** The request as the multiplexer hands it to the handler of an entry. *)
Definition with_values (e : Pattern * target) (ms : list string) (i : incoming B) : request B :=
  with_path (PathValue (pt_segments e.1) ms) (in_request i).

Definition find_target (i : incoming B) : found :=
  findHandler (registrations w sub) (r_method (in_request i)) (in_path i).

Definition set_header (k v : string) : State headers unit := modify <[k := v]>.

(** [mux.ServeHTTP]: the answer, the headers the multiplexer and its own
    handlers set, and what becomes of the server. *)
Definition mux_ServeHTTP (i : incoming B) (s : S) : State headers (answer * S) :=
  match find_target i with
  | Redirect to => _ ← set_header "Location" to; mret (MovedPermanently to, s)
  | NotFound => mret (Failure 404, s)
  | NotAllowed ms => _ ← set_header "Allow" (String.concat ", " ms); mret (Failure 405, s)
  | Found e ms =>
      match e.2 with
      | Health => _ ← set_header "Content-Type" "application/json"; mret (health_Handler, s)
      | Metrics =>
          _ ← set_header "Content-Type" "text/plain; version=0.0.4; charset=utf-8"; mret (metrics_handler, s)
      | Readyz => _ ← set_header "Content-Type" "application/json"; mret (readyz_handler, s)
      | Api rt => let '(resp, s') := serve ts now h rt (with_values e ms i) s in mret (Json resp, s')
      | Spa fs => mret (serveSPA fs (pathUnescape (in_path i)), s)
      end
  end.

(** The handler of [buildHTTPServer]. *)
Definition ServeHTTP (i : incoming B) (s : S) : (answer * S) * headers :=
  securityHeadersMiddleware (mux_ServeHTTP i s) ∅.

End surface.

(** ** The multiplexer of [Run] *)

Lemma matches_functional p path ms1 ms2 : matches p path ms1 → matches p path ms2 → ms1 = ms2.
Proof.
  intros H1. revert ms2. induction H1 as [|s p path ms _ IH|n p seg path ms _ _ IH|]; intros ms2 H2;
    inversion H2; subst; auto. by f_equal; auto.
Qed.

(** Entries of one method have no path in common. *)
Fixpoint separated {H : Type} (es : list (Pattern * H)) : bool :=
  match es with
  | [] => true
  | e :: es =>
      forallb (λ e', negb (String.eqb (pt_method e.1) (pt_method e'.1)) || String.eqb (pt_method e.1) ""
                     || match comparePaths (pt_segments e.1) (pt_segments e'.1) with Disjoint => true | _ => false end) es
      && separated es
  end.

Lemma separated_unique {H : Type} (es : list (Pattern * H)) e1 e2 path ms1 ms2 :
  separated es = true → e1 ∈ es → e2 ∈ es → pt_method e1.1 = pt_method e2.1 → pt_method e1.1 ≠ "" →
  matches (pt_segments e1.1) path ms1 → matches (pt_segments e2.1) path ms2 → e1 = e2.
Proof.
  assert (Hd : ∀ (e e' : Pattern * H) es ms ms', forallb (λ e', negb (String.eqb (pt_method e.1) (pt_method e'.1)) ||
      String.eqb (pt_method e.1) "" || match comparePaths (pt_segments e.1) (pt_segments e'.1) with Disjoint => true | _ => false end) es = true →
    e' ∈ es → pt_method e.1 = pt_method e'.1 → pt_method e.1 ≠ "" →
    matches (pt_segments e.1) path ms → matches (pt_segments e'.1) path ms' → False).
  { intros e e' es' ms ms' Hf Hin Hm Hne H1 H2. rewrite List.forallb_forall in Hf.
    specialize (Hf e' (proj1 (list_elem_of_In _ _) Hin)).
    rewrite Hm, String.eqb_refl in Hf. rewrite Hm in Hne. rewrite (proj2 (String.eqb_neq _ _) Hne) in Hf. simpl in Hf.
    destruct (comparePaths _ _) eqn:E; try done. by apply (comparePaths_disjoint _ _ _ _ _ E H1 H2). }
  induction es as [|e es IH]; simpl; intros Hs H1 H2 Hm Hne M1 M2; [by apply not_elem_of_nil in H1|].
  apply andb_true_iff in Hs as [Hf Hs].
  apply elem_of_cons in H1 as [->|H1]; apply elem_of_cons in H2 as [->|H2]; auto; exfalso; eapply Hd; eauto; congruence.
Qed.

Lemma mountSPA_cases sub : mountSPA sub = [] ∨ ∃ fs, mountSPA sub = [(parsePattern "" "/", Spa fs)].
Proof. unfold mountSPA. destruct sub as [fs|]; [|auto]. destruct (Open fs "index.html"); eauto. Qed.

Lemma registrations_separated w sub : separated (registrations w sub) = true.
Proof.
  unfold registrations. destruct (mountSPA_cases sub) as [->|[fs ->]]; destruct w as [[] [] [] [] [] []];
    vm_compute; reflexivity.
Qed.

(** No registration panics: whatever is wired and whether the web application is
    embedded, no two patterns conflict. *)
Theorem registration_never_panics (w : wiring) (sub : assets + foreign) :
  register_all (registrations w sub) [] = Some (registrations w sub).
Proof.
  unfold registrations. destruct (mountSPA_cases sub) as [->|[fs ->]]; destruct w as [[] [] [] [] [] []];
    vm_compute; reflexivity.
Qed.

Lemma elem_of_registrations w sub e : e ∈ registrations w sub → pt_method e.1 ≠ "" →
  ∃ rt, rt ∈ registerAPIRoutes w ∧ e = api_entry rt.
Proof.
  unfold registrations. rewrite !elem_of_app. intros [H|[H|[H|H]]] Hm.
  - by apply not_elem_of_nil in H.
  - repeat (apply elem_of_cons in H as [->|H]; [done|]). by apply not_elem_of_nil in H.
  - apply list_elem_of_fmap in H as (rt & -> & H). eauto.
  - destruct (mountSPA_cases sub) as [E|[fs E]]; rewrite E in H; [by apply not_elem_of_nil in H|].
    by apply list_elem_of_singleton in H as ->.
Qed.

Lemma api_route w sub e rt : e ∈ registrations w sub → e.2 = Api rt → rt ∈ registerAPIRoutes w ∧ e = api_entry rt.
Proof.
  unfold registrations. rewrite !elem_of_app. intros [H|[H|[H|H]]] Hm.
  - by apply not_elem_of_nil in H.
  - repeat (apply elem_of_cons in H as [->|H]; [done|]). by apply not_elem_of_nil in H.
  - apply list_elem_of_fmap in H as (rt' & -> & H). simpl in Hm. by simplify_eq.
  - destruct (mountSPA_cases sub) as [E|[fs E]]; rewrite E in H; [by apply not_elem_of_nil in H|].
    by apply list_elem_of_singleton in H as ->.
Qed.

Lemma api_pattern w rt : rt ∈ registerAPIRoutes w →
  pt_method (parsePattern (method rt) (pattern rt)) ≠ "" ∧ ends_in_multi (pt_segments (parsePattern (method rt) (pattern rt))) = false.
Proof.
  assert (H : forallb (λ rt, negb (String.eqb (method rt) "") && negb (ends_in_multi (pt_segments (parsePattern (method rt) (pattern rt)))))
    (registerAPIRoutes w) = true) by (destruct w as [[] [] [] [] [] []]; vm_compute; reflexivity).
  rewrite List.forallb_forall in H. intros Hin%list_elem_of_In. specialize (H _ Hin). bool_to_prop.
  split; [|done]. by apply String.eqb_neq.
Qed.

(** An endpoint answers at its path and method, with the values of its wildcards:
    no other pattern, and not the web application, takes the request. *)
Theorem endpoint_reached (w : wiring) (sub : assets + foreign) (rt : route) (path : string) (ms : list string) :
  rt ∈ registerAPIRoutes w → cleanPath path = path → method rt ≠ "CONNECT" →
  matches (pt_segments (parsePattern (method rt) (pattern rt))) (segments_of path) ms →
  findHandler (registrations w sub) (method rt) path = Found (api_entry rt) ms.
Proof.
  intros Hrt Hclean Hc Hm. destruct (api_pattern w rt Hrt) as [Hne Hmulti].
  assert (Hin : api_entry rt ∈ registrations w sub).
  { unfold registrations. rewrite !elem_of_app. right. right. left. by apply list_elem_of_fmap_2. }
  unfold findHandler. rewrite (proj2 (String.eqb_neq _ _) Hc), Hclean.
  destruct (matchMethodAndPath_method (registrations w sub) (method rt) (segments_of path) (api_entry rt) ms Hin eq_refl Hm)
    as (e & ms' & E & Hme). rewrite E.
  destruct (matchMethodAndPath_sound _ _ _ _ _ E) as (Hin' & _ & Hm').
  assert (e = api_entry rt) as ->.
  { symmetry. eapply (separated_unique (registrations w sub)); eauto using registrations_separated. }
  rewrite (matches_functional _ _ _ _ Hm' Hm). unfold exactMatch. cbn [api_entry fst]. rewrite Hmulti. cbn [negb andb].
  by rewrite String.eqb_refl.
Qed.

(** ** Every request *)

Section requests.
Context {Jw : JWT} {S B : Type} (ts : TokenService) (now : time).
Context (w : wiring) (sub : assets + foreign) (h : endpoint → handler S B).

(** The route a request is handed to, and the request its handler sees. *)
Definition route_of (i : incoming B) : option (route * request B) :=
  match find_target w sub i with
  | Found e ms => match e.2 with Api rt => Some (rt, with_values e ms i) | _ => None end
  | _ => None
  end.

Definition secured (hd : headers) : Prop := ∀ k v, (k, v) ∈ security_headers → hd !! k = Some v.

Lemma secured_insert k v hd : k ∉ security_headers.*1 → secured hd → secured (<[k := v]> hd).
Proof.
  intros Hk Hs k' v' Hin. rewrite lookup_insert_ne; [by apply Hs|]. intros ->. apply Hk.
  by apply (list_elem_of_fmap_2 fst) in Hin.
Qed.

(** A request an API pattern was found for. *)
Lemma ServeHTTP_api i s rt ms : find_target w sub i = Found (api_entry rt) ms →
  (ServeHTTP ts now w sub h i s).1 =
  let '(resp, s') := serve ts now h rt (with_values (api_entry rt) ms i) s in (Json resp, s').
Proof.
  intros E. unfold ServeHTTP, securityHeadersMiddleware. rewrite bind_run.
  destruct (for_each _ _ _) as [[] hd]. unfold mux_ServeHTTP. rewrite E. cbn [api_entry snd].
  by destruct (serve _ _ _ _ _ _).
Qed.

Ltac not_a_security_header := apply (bool_decide_unpack _); vm_compute; exact I.

Lemma mux_keeps_headers i s : keeps secured (mux_ServeHTTP ts now w sub h i s).
Proof.
  assert (Hset : ∀ k v (x : answer * S), k ∉ security_headers.*1 →
    keeps secured (_ ← set_header k v; mret x)).
  { intros k v x Hk hd Hd. simpl. by apply secured_insert. }
  unfold mux_ServeHTTP. destruct (find_target w sub i) as [[p [| | |rt|fs]] ms| | |];
    try (apply Hset; not_a_security_header); try apply keeps_ret.
  cbn [snd]. destruct (serve ts now h rt (with_values (p, Api rt) ms i) s) as [resp s1]. intros hd Hd. exact Hd.
Qed.

Lemma security_headers_set (hd : headers) : secured (for_each security_headers (λ h, modify <[h.1 := h.2]>) hd).2.
Proof.
  intros k v Hin. unfold security_headers in Hin.
  repeat (apply elem_of_cons in Hin as [[= -> ->]|Hin]; [by simplify_map_eq|]). by apply not_elem_of_nil in Hin.
Qed.

(** What every handler keeps, every request keeps. *)
Lemma serve_keeps (P : S → Prop) rt r : (∀ e r, keeps P (h e r)) → keeps P (serve ts now h rt r).
Proof.
  intros Hh. unfold serve, withMiddleware. generalize (Hh (ep rt)). generalize (h (ep rt)). intros k Hk.
  revert r. induction (mws rt) as [|m ms IH]; intros r; simpl; [apply Hk|].
  destruct m as [|rs]; simpl; unfold Middleware, RequireRole; repeat case_match; apply keeps_ret || apply IH.
Qed.

Lemma ServeHTTP_keeps (P : S → Prop) i s : (∀ e r, keeps P (h e r)) → P s → P (ServeHTTP ts now w sub h i s).1.2.
Proof.
  intros Hh Hs. unfold ServeHTTP, securityHeadersMiddleware. rewrite bind_run.
  destruct (for_each _ _ _) as [[] hd]. unfold mux_ServeHTTP. unfold_state.
  destruct (find_target w sub i) as [[p [| | |rt|fs]] ms| | |]; try done. cbn [snd].
  pose proof (serve_keeps P rt (with_values (p, Api rt) ms i) Hh s Hs) as H.
  by destruct (serve ts now h rt (with_values (p, Api rt) ms i) s).
Qed.


End requests.


(** ** The web application *)

Lemma join_split_aux s cur : join_path (split_aux "/" s cur) = "/" +:+ cur +:+ s.
Proof.
  revert cur. induction s as [|c s IH]; intros cur; cbn [split_aux join_path]; [done|].
  destruct (Ascii.eqb_spec c "/"%char) as [->|_].
  - cbn [join_path]. by rewrite IH.
  - rewrite IH. by rewrite string_app_assoc.
Qed.

Lemma split_aux_last_empty sep a cur : last (split_aux sep (a +:+ String sep "") cur) = Some "".
Proof.
  revert cur. induction a as [|c a IH]; intros cur.
  - simpl. by rewrite Ascii.eqb_refl.
  - rewrite string_app_cons. cbn [split_aux]. destruct (Ascii.eqb c sep); [|apply IH].
    rewrite last_cons. by rewrite IH.
Qed.

Lemma str_to_from n s : (n ≤ String.length s)%nat → str_to n s +:+ str_from n s = s.
Proof.
  revert n. induction s as [|c s IH]; intros [|n] Hn; try done; simpl in Hn.
  - unfold str_to, str_from. simpl. by rewrite substring_all.
  - change (str_to (S n) (String c s)) with (String c (str_to n s)).
    change (str_from (S n) (String c s)) with (str_from n s).
    rewrite string_app_cons, IH; [done|lia].
Qed.

Lemma has_suffix_app p s : has_suffix p s = true → ∃ a, s = a +:+ p.
Proof.
  unfold has_suffix. intros [Hl%Nat.leb_le He%String.eqb_eq]%andb_true_iff.
  exists (str_to (String.length s - String.length p) s). transitivity (str_to (String.length s - String.length p) s +:+ str_from (String.length s - String.length p) s); [by rewrite str_to_from by lia|by rewrite He].
Qed.

Lemma ValidPath_plain name : ValidPath name = true → name = "." ∨ Forall DataDir.plain (split "/" name).
Proof.
  unfold ValidPath. intros [?%String.eqb_eq|H]%orb_true_iff; [by left|]. right.
  rewrite List.forallb_forall in H. apply Forall_forall. intros c Hc%list_elem_of_In.
  specialize (H c Hc). unfold plain. bool_to_prop.
  repeat match goal with E : String.eqb _ _ = false |- _ => apply String.eqb_neq in E end. auto.
Qed.

Lemma split_aux_nonempty sep s cur : split_aux sep s cur ≠ [].
Proof. revert cur. induction s as [|c s IH]; intros cur; simpl; [done|]. by case_match. Qed.

(** A valid name other than the root: its URL is clean, has no trailing slash and
    names it. *)
Lemma valid_url name : Forall DataDir.plain (split "/" name) →
  rooted (clean (split "/" ("/" +:+ name))) = "/" +:+ name ∧ has_suffix "/" ("/" +:+ name) = false.
Proof.
  intros Hp.
  assert (Hs : split "/" ("/" +:+ name) = "" :: split "/" name) by (apply (split_app "/"%char ""); done).
  split.
  - rewrite Hs. unfold clean. cbn [foldl clean_step]. change (clean_step [] "") with (@nil string).
    rewrite (clean_id _ _ Hp), app_nil_r, reverse_involutive. unfold rooted.
    pose proof (join_split_aux name "") as Hj. pose proof (split_aux_nonempty "/" name "") as Hn.
    unfold split in *. destruct (split_aux "/" name ""); [done|]. exact Hj.
  - destruct (has_suffix _ _) eqn:E; [|done]. apply has_suffix_app in E as [a Ha]. exfalso.
    pose proof (split_aux_last_empty "/" a "") as Hl. rewrite <- Ha in Hl. fold (split "/" ("/" +:+ name)) in Hl.
    rewrite Hs, last_cons in Hl. destruct (last (split "/" name)) as [c|] eqn:El; [|].
    + injection Hl as ->. apply last_Some_elem_of in El. rewrite Forall_forall in Hp. by destruct (Hp "" El).
    + apply last_None in El. by apply (split_aux_nonempty "/" name "").
Qed.

(** With an index page, the web application answers every path: with the file it
    names, with a redirect where the file server wants another URL, and with the
    index page otherwise.  It never answers an error and never lists a
    directory. *)
Theorem serveSPA_correct (fs : assets) (url index : string) :
  fs !! "index.html" = Some (AssetFile index) → fs !! "." = Some AssetDir → has_prefix "/" url = true →
  match serveSPA fs url with
  | Contents text => text = index ∨ Open fs (trim_prefix "/" url) = Some (AssetFile text)
  | LocalRedirect to =>
      to = "./" ∧ has_suffix "/index.html" url = true ∨ to = Base url +:+ "/" ∧ Open fs (trim_prefix "/" url) = Some AssetDir
  | _ => False
  end ∧
  (Open fs (trim_prefix "/" url) = None → serveSPA fs url = Contents index).
Proof.
  intros Hi Hd Hu.
  assert (Hroot : FileServer fs "/" = Contents index).
  { assert (E1 : httpOpen fs "/" = Some AssetDir) by exact Hd.
    assert (E2 : httpOpen fs "/index.html" = Some (AssetFile index)) by exact Hi.
    unfold FileServer. change (rooted (clean (split "/" "/"))) with "/". rewrite E1.
    change (httpOpen fs (_ +:+ _)) with (httpOpen fs "/index.html"). by rewrite E2. }
  assert (exists name, url = "/" +:+ name) as [name ->].
  { destruct url as [|c url]; [done|]. exists url. unfold has_prefix in Hu. cbn [String.prefix] in Hu.
    destruct (ascii_dec "/" c) as [<-|]; done. }
  assert (trim_prefix "/" ("/" +:+ name) = name) as Ht.
  { unfold trim_prefix. rewrite has_prefix_app. apply (str_from_app "/"). }
  unfold serveSPA. rewrite Ht. destruct (String.eqb_spec name "") as [->|Hne].
  { change ("/" +:+ "") with "/". assert (E : Open fs "index.html" = Some (AssetFile index)) by exact Hi. rewrite E, Hroot. split; [by left|done]. }
  destruct (Open fs name) as [a|] eqn:Ea; [|rewrite Hroot; split; [by left|done]]. split; [|done].
  unfold FileServer. destruct (has_suffix "/index.html" ("/" +:+ name)) eqn:Es; [by left|].
  unfold Open in Ea. destruct (ValidPath name) eqn:Ev; [|done].
  destruct (ValidPath_plain _ Ev) as [->|Hp].
  - change (rooted (clean (split "/" ("/" +:+ ".")))) with "/".
    assert (E : httpOpen fs "/" = Some AssetDir) by exact Hd. rewrite E.
    right. split; [reflexivity|]. by rewrite <- Ea, Hd in *.
  - destruct (valid_url name Hp) as [-> ->]. unfold httpOpen.
    destruct (String.eqb_spec ("/" +:+ name) "/") as [E|_]; [by injection E|].
    unfold Open. rewrite Ht, Ev, Ea. destruct a as [|text]; simpl; auto.
Qed.

(** ** A concrete server *)

Definition sample_assets : assets :=
  {[ "." := AssetDir; "index.html" := AssetFile "<html>"; "assets" := AssetDir; "assets/app.js" := AssetFile "js" ]}.

Definition counting (e : endpoint) : handler nat unit := λ _ n, (no_content, S n).

Definition at_path (path : string) (r : request unit) : incoming unit := mkIncoming path r.


Theorem endpoint_reached_witness :
  findHandler (registrations all_wired (inl sample_assets)) "DELETE" "/api/plcs/press%2F1" =
  Found (api_entry delete_plc) ["press/1"].
Proof.
  apply (endpoint_reached all_wired (inl sample_assets) delete_plc "/api/plcs/press%2F1" ["press/1"]).
  - apply list_elem_of_In. vm_compute. repeat (right; try (left; reflexivity)).
  - vm_compute. reflexivity.
  - discriminate.
  - vm_compute. do 2 apply matches_lit. apply (matches_wild "name" [] "press/1" [] []); [discriminate|constructor].
Defined.

Theorem serveSPA_correct_witness :
  serveSPA sample_assets "/plcs/plc1" = Contents "<html>" ∧ serveSPA sample_assets "/assets/app.js" = Contents "js" ∧
  serveSPA sample_assets "/assets" = LocalRedirect "assets/".
Proof.
  split; [|split; reflexivity].
  apply (serveSPA_correct sample_assets "/plcs/plc1" "<html>"); reflexivity.
Defined.

(** A method an endpoint does not have is refused only by a server without the
    web application: with it, the request is answered with the index page. *)
Theorem wrong_method_gets_the_app :
  findHandler (registrations all_wired (inr (plain_error ""))) "DELETE" "/api/plcs" = NotAllowed ["GET"; "HEAD"; "POST"] ∧
  ∃ e, findHandler (registrations all_wired (inl sample_assets)) "DELETE" "/api/plcs" = Found e [] ∧ e.2 = Spa sample_assets ∧
  serveSPA sample_assets "/api/plcs" = Contents "<html>".
Proof. split; [vm_compute; reflexivity|]. eexists. split; [reflexivity|]. split; reflexivity. Qed.
