(* ===== verification/Startup.v ===== *)
(** * [cmd/lgb/cmd]: starting the server

    [runServerTo]: which stores it opens and defers to close, what it puts into
    them, and what it hands to the server it runs.  The data directory, the
    factories and [Run] answer from [world]; the PLC and user stores are those of
    [PlcStore] and [UserStore]. *)

From S2P Require Import Prelude GoString GoTime GoError Config Sql PlcStore UserStore.
From S2P Require Import Sparkplug EdgeNode Lifecycle.

(** ** Exit codes *)

Definition ExitCode (err : option error) : Z :=
  match err with
  | None => 0
  | Some err =>
      if is_error ErrConfigPermission err || is_error ErrDataDirPermission err then 77 else 1
  end.

(** ** What [runServerTo] opens and runs *)

Inductive resource := RHistorian | RPLCStore | RACLStore | RUserStore | RAuditLog.

#[export] Instance resource_eq_dec : EqDecision resource.
Proof. solve_decision. Defined.

(** What the server is run with: its options, the PLCs of its manager, the
    devices of its edge node and whether commands reach it, the lifetime of its
    tokens and the interval of its backups. *)
Record launch := mkLaunch {
  la_opts : Opts; la_manager : list PLC; la_devices : list DeviceConfig; la_command_handler : bool;
  la_ttl : Z; la_interval : Z; la_opcua : list PLC;
}.

Inductive boot_event :=
| Opened (r : resource)
| Closed (r : resource)
| RetentionLoop
| ConfigWatch
| Launched (l : launch).

Record boot := mkBoot {
  bt_plcs : db plc_tables; bt_users : db user_table; bt_events : list boot_event;
}.

Definition on_plcs {A : Type} : State (db plc_tables) A → State boot A :=
  zoom bt_plcs (λ d b, mkBoot d (bt_users b) (bt_events b)).
Definition on_users {A : Type} : State (db user_table) A → State boot A :=
  zoom bt_users (λ d b, mkBoot (bt_plcs b) d (bt_events b)).
Definition emit_boot (e : boot_event) : State boot unit :=
  modify (λ b, mkBoot (bt_plcs b) (bt_users b) (bt_events b ++ [e])).

(** [wd_users_injected]: a test supplies the user store and owns it. *)
Record world := mkWorld {
  wd_resolve : result string;
  wd_ensure : string → result string;
  wd_logger : option error;
  wd_open : resource → option error;
  wd_run : option error;
  wd_now : time; wd_salt : Z; wd_admin : string; wd_admin_password : string;
  wd_users_injected : bool; wd_config_path : string;
}.

Section startup.
Context {Eng : Engine} {Bc : Bcrypt} (w : world).

Definition open_error (r : resource) (err : error) : error :=
  Errorf (match r with
          | RHistorian => "server: open historian: %w"
          | RPLCStore => "server: open plc store: %w"
          | RACLStore => "server: open acl store: %w"
          | RUserStore => "server: open user store: %w"
          | RAuditLog => "server: open audit logger: %w"
          end) [FWrap err].

(** Opens [r], runs the rest of the function, and closes [r] when that returns,
    if [close]. *)
Definition deferring (close : bool) (r : resource) (rest : State boot (option error))
    : State boot (option error) :=
  match wd_open w r with
  | Some err => mret (Some (open_error r err))
  | None =>
      _ ← emit_boot (Opened r);
      err ← rest;
      _ ← (if close then emit_boot (Closed r) else mret tt);
      mret err
  end.

Definition with_historian (c : Config) (rest : State boot (option error)) : State boot (option error) :=
  if 0 <? hRetentionDays (Historian c)
  then deferring true RHistorian (_ ← emit_boot RetentionLoop; rest)
  else rest.

Definition has_node (c : Config) : bool := negb (String.eqb (mGroupID (MQTT c)) "").

Definition has_repos (c : Config) : bool :=
  match bRepos (Backup c) with [] => false | _ => true end.

(** The devices of [defaultSparkplugNodeFactory]. *)
Definition node_devices (c : Config) : list DeviceConfig :=
  (λ p, mkDevice (pName p)
          ((λ t, Sparkplug.mkTagDef (tName t) (tType t)) <$> elems (pTags p))) <$> PLCs c.

(** The parts of the server, and the rest of its options. *)
Definition server_opts (c : Config) : Opts :=
  mkOpts
    ((if has_node c then [SparkplugNode] else []) ++
     (if 0 <? hRetentionDays (Historian c) then [HistorianWriter] else []) ++
     [PLCManager] ++
     (if oEnabled (OPCUA c) then [OPCUAServer] else []) ++
     (if has_repos c then [BackupScheduler] else []))
    true true true true (0 <? hRetentionDays (Historian c)) (has_repos c) true true false false.

Definition session_ttl (c : Config) : result Z :=
  if String.eqb (aSessionTTL (Auth c)) "" then inl (8 * Hour)
  else match parse_duration (aSessionTTL (Auth c)) with
       | Some d => inl d
       | None => inr (Errorf "server: auth.sessionTTL: %w"
                        [FWrap (EForeign (plain_error "time: invalid duration"))])
       end.

Definition backup_interval (c : Config) : Z :=
  match parse_duration (bInterval (Backup c)) with
  | Some d => if d <=? 0 then 24 * Hour else d
  | None => 24 * Hour
  end.

Definition launch_of (c : Config) (plcs : list PLC) (ttl : Z) : launch :=
  let o := server_opts c in
  mkLaunch o plcs (if has_node c then node_devices c else [])
    (has_node c && guard_of o && wired o PLCManager) ttl (backup_interval c)
    (if oEnabled (OPCUA c) then PLCs c else []).

(** From the user store on. *)
Definition run_server (c : Config) (plcs : list PLC) (ttl : Z) : State boot (option error) :=
  deferring (negb (wd_users_injected w)) RUserStore (
    admin ← on_users (EnsureAdminExists (wd_now w) (wd_salt w) (wd_admin w) (wd_admin_password w));
    match admin.2 with
    | Some err => mret (Some (Errorf "server: admin bootstrap: %w" [FWrap err]))
    | None =>
        deferring true RAuditLog (
          _ ← (if String.eqb (wd_config_path w) "" then mret tt else emit_boot ConfigWatch);
          _ ← emit_boot (Launched (launch_of c plcs ttl));
          mret (wd_run w))
    end).

(** From the PLC store on. *)
Definition load_plcs (c : Config) : State boot (option error) :=
  empty ← on_plcs IsEmpty;
  match empty with
  | inr err => mret (Some (Errorf "server: plc store IsEmpty: %w" [FWrap err]))
  | inl empty =>
      err ← (if (empty : bool) then on_plcs (Seed (unix_sec (wd_now w)) (PLCs c)) else mret None);
      match err with
      | Some err => mret (Some (Errorf "server: plc store seed: %w" [FWrap err]))
      | None =>
          plcs ← on_plcs PlcStore.List;
          match plcs with
          | inr err => mret (Some (Errorf "server: plc store list: %w" [FWrap err]))
          | inl plcs =>
              match session_ttl c with
              | inr err => mret (Some err)
              | inl ttl => run_server c plcs ttl
              end
          end
      end
  end.

Definition runServerTo (cfg : option Config) : State boot (option error) :=
  match cfg with
  | None => mret (Some (Errorf "server: config not loaded" []))
  | Some c =>
      if String.eqb (aJwtSecret (Auth c)) ""
      then mret (Some (Errorf "server: auth.jwtSecret is required" []))
      else match wd_resolve w with
      | inr err => mret (Some (Errorf "server: resolve datadir: %w" [FWrap err]))
      | inl path =>
          match wd_ensure w path with
          | inr err => mret (Some (Errorf "server: ensure datadir: %w" [FWrap err]))
          | inl _ =>
              match wd_logger w with
              | Some err => mret (Some (Errorf "server: build logger: %w" [FWrap err]))
              | None =>
                  with_historian c (deferring true RPLCStore (deferring true RACLStore (load_plcs c)))
              end
          end
      end
  end.

(** ** Resources *)

(** What is opened, run and closed. *)
Definition marks (es : list boot_event) : list boot_event :=
  List.filter (λ e, match e with Opened _ | Closed _ | Launched _ => true | _ => false end) es.

Definition closes (r : resource) : bool :=
  negb (wd_users_injected w && bool_decide (r = RUserStore)).

Definition closing (rs : list resource) : list boot_event :=
  Closed <$> List.filter closes (reverse rs).

(** [m] opens some resources in order, runs the server at most once while all of
    them are open, and closes them in reverse order. *)
Definition brackets (rs_all : list resource) (m : State boot (option error)) : Prop :=
  ∀ b, let '(r, b') := m b in
  ∃ rs run, marks (bt_events b') = marks (bt_events b) ++ (Opened <$> rs) ++ run ++ closing rs ∧
            rs `prefix_of` rs_all ∧ (run = [] ∨ rs = rs_all ∧ r = wd_run w ∧ ∃ l, run = [Launched l]).

Lemma brackets_ret rs e : brackets rs (mret (Some e)).
Proof.
  intros b. simpl. exists [], []. rewrite app_nil_r. split_and!; [done| |by left]. apply prefix_nil.
Qed.

Lemma marks_app es1 es2 : marks (es1 ++ es2) = marks es1 ++ marks es2.
Proof. apply List.filter_app. Qed.

Lemma closing_cons r rs : closing (r :: rs) = closing rs ++ (if closes r then [Closed r] else []).
Proof.
  unfold closing. rewrite reverse_cons, List.filter_app, fmap_app. simpl. by destruct (closes r).
Qed.

Lemma brackets_deferring close r rs m :
  close = closes r → brackets rs m → brackets (r :: rs) (deferring close r m).
Proof.
  intros -> Hm b. unfold deferring. destruct (wd_open w r) as [err|]; [apply brackets_ret|].
  rewrite bind_run. unfold emit_boot at 1. cbn [modify]. rewrite bind_run.
  set (b1 := mkBoot _ _ _). specialize (Hm b1). destruct (m b1) as [res b2].
  destruct Hm as (rs' & run & Hmarks & Hpre & Hrun).
  assert (H1 : marks (bt_events b1) = marks (bt_events b) ++ [Opened r]) by apply marks_app.
  rewrite bind_run. assert (Hc : marks (bt_events ((if closes r then emit_boot (Closed r) else mret tt) b2).2) =
    marks (bt_events b) ++ (Opened <$> r :: rs') ++ run ++ closing (r :: rs')).
  { rewrite closing_cons. replace (marks (bt_events ((if closes r then emit_boot (Closed r) else mret tt) b2).2))
      with (marks (bt_events b2) ++ (if closes r then [Closed r] else [])).
    - rewrite Hmarks, H1. simpl. by rewrite <- !app_assoc.
    - destruct (closes r); [symmetry; apply marks_app|by rewrite app_nil_r]. }
  destruct ((if closes r then emit_boot (Closed r) else mret tt) b2) as [u b3]. simpl in Hc |- *.
  exists (r :: rs'), run. split_and!; [exact Hc|by apply prefix_cons|].
  destruct Hrun as [->|(-> & -> & Hl)]; auto.
Qed.

(** A step that neither opens, runs nor closes. *)
Lemma brackets_step {A : Type} rs (m : State boot A) (k : A → State boot (option error)) :
  (∀ b, marks (bt_events (m b).2) = marks (bt_events b)) → (∀ a, brackets rs (k a)) →
  brackets rs (m ≫= k).
Proof.
  intros Hm Hk b. rewrite bind_run. specialize (Hm b). destruct (m b) as [a b1].
  specialize (Hk a b1). destruct (k a b1) as [r b2]. simpl in Hm. by rewrite Hm in Hk.
Qed.

Lemma marks_on_plcs {A : Type} (m : State (db plc_tables) A) b :
  marks (bt_events (on_plcs m b).2) = marks (bt_events b).
Proof. unfold on_plcs, zoom. by destruct (m _). Qed.

Lemma marks_on_users {A : Type} (m : State (db user_table) A) b :
  marks (bt_events (on_users m b).2) = marks (bt_events b).
Proof. unfold on_users, zoom. by destruct (m _). Qed.

Lemma marks_emit e b : match e with Opened _ | Closed _ | Launched _ => False | _ => True end →
  marks (bt_events (emit_boot e b).2) = marks (bt_events b).
Proof. intros He. simpl. rewrite marks_app. destruct e; try done; by rewrite app_nil_r. Qed.

Lemma brackets_run_server c plcs ttl : brackets [RUserStore; RAuditLog] (run_server c plcs ttl).
Proof.
  unfold run_server. apply brackets_deferring.
  { unfold closes. rewrite bool_decide_eq_true_2 by done. by rewrite andb_true_r. }
  apply brackets_step; [apply marks_on_users|]. intros [created [err|]]; [apply brackets_ret|].
  apply brackets_deferring.
  { unfold closes. rewrite bool_decide_eq_false_2 by done. by rewrite andb_false_r. }
  apply brackets_step.
  { intros b. case_match; [done|by apply marks_emit]. }
  intros _ b. rewrite bind_run. unfold emit_boot at 1. cbn [modify]. cbn.
  exists [], [Launched (launch_of c plcs ttl)]. rewrite marks_app. simpl.
  split_and!; [done|apply prefix_nil|]. right. split_and!; eauto.
Qed.

Lemma brackets_load_plcs c : brackets [RUserStore; RAuditLog] (load_plcs c).
Proof.
  unfold load_plcs. apply brackets_step; [apply marks_on_plcs|]. intros [empty|]; [|apply brackets_ret].
  apply brackets_step; [intros b; destruct empty; [apply marks_on_plcs|done]|].
  intros [err|]; [apply brackets_ret|]. apply brackets_step; [apply marks_on_plcs|].
  intros [plcs|]; [|apply brackets_ret]. destruct (session_ttl c); [|apply brackets_ret].
  apply brackets_run_server.
Qed.

(** The resources a configuration needs, in the order they are opened. *)
Definition resources (c : Config) : list resource :=
  (if 0 <? hRetentionDays (Historian c) then [RHistorian] else []) ++
  [RPLCStore; RACLStore; RUserStore; RAuditLog].

(** However far the start gets, every store that was opened is closed again, in
    the reverse order, and the server only runs while everything it uses is open;
    only a user store supplied by a test is left open. *)
Theorem startup_brackets (cfg : option Config) (b : boot) :
  bt_events b = [] →
  let '(r, b') := runServerTo cfg b in
  ∃ rs run, marks (bt_events b') = (Opened <$> rs) ++ run ++ closing rs ∧
    match cfg with None => rs = [] | Some c => rs `prefix_of` resources c end ∧
    (run = [] ∨ ∃ c l, cfg = Some c ∧ rs = resources c ∧ r = wd_run w ∧ run = [Launched l]).
Proof.
  intros Hb. destruct cfg as [c|]; [|simpl; rewrite Hb; exists [], []; by split_and!; auto].
  assert (H : brackets (resources c) (runServerTo (Some c))).
  { unfold runServerTo. repeat ((case_match; [apply brackets_ret|]) || (case_match; [|apply brackets_ret])).
    all: try apply brackets_ret.
    assert (Ho : ∀ r, r ≠ RUserStore → true = closes r).
    { intros r Hr. unfold closes. rewrite bool_decide_eq_false_2 by done. by rewrite andb_false_r. }
    unfold with_historian, resources. destruct (0 <? _);
      repeat (apply brackets_deferring; [by apply Ho|]).
    - apply brackets_step; [intros; by apply marks_emit|]. intros _.
      repeat (apply brackets_deferring; [by apply Ho|]). apply brackets_load_plcs.
    - apply brackets_load_plcs. }
  specialize (H b). destruct (runServerTo (Some c) b) as [r b']. rewrite Hb in H.
  destruct H as (rs & run & H1 & H2 & H3). exists rs, run. split_and!; [done..|].
  destruct H3 as [->|(-> & -> & l & ->)]; [by left|]. right. by exists c, l.
Qed.

(** ** What the server is run with *)

(** The PLCs after the start: those of the store, or, when it has none, those of the
    YAML file; [None] when the YAML file cannot be stored. *)
Definition boot_map (c : Config) (t : plc_tables) : option (string → option PLC) :=
  if bool_decide (List.length (rows (plcs t)) = 0%nat) then seed_spec (PLCs c) (find t)
  else Some (find t).

(** [ps] are the PLCs of [t], in the order of their names. *)
Definition lists (t : plc_tables) (ps : list PLC) : Prop :=
  Sorted str_le (pName <$> ps) ∧ NoDup (pName <$> ps) ∧ ∀ p, p ∈ ps ↔ find t (pName p) = Some p.

Lemma boot_on_plcs_run {A : Type} (m : State (db plc_tables) A) d u ev a d' :
  m d = (a, d') → on_plcs m (mkBoot d u ev) = (a, mkBoot d' u ev).
Proof. intros E. unfold on_plcs, zoom. simpl. by rewrite E. Qed.

Lemma IsEmpty_run (t : plc_tables) :
  IsEmpty (Db t []) = (inl (bool_decide (List.length (rows (plcs t)) = 0%nat)), Db t []).
Proof.
  unfold IsEmpty. rewrite bind_run, query_ok. simpl. do 2 f_equal.
  case_bool_decide; [apply Z.eqb_eq|apply Z.eqb_neq]; lia.
Qed.

Lemma load_plcs_run c t u ev : plc_ok t →
  match boot_map c t with
  | None => ∃ e t', load_plcs c (mkBoot (Db t []) u ev) = (Some e, mkBoot (Db t' []) u ev)
  | Some m => ∃ t' ps, plc_ok t' ∧ (∀ n, find t' n = m n) ∧ lists t' ps ∧
      load_plcs c (mkBoot (Db t []) u ev) =
      match session_ttl c with
      | inl ttl => run_server c ps ttl (mkBoot (Db t' []) u ev)
      | inr e => (Some e, mkBoot (Db t' []) u ev)
      end
  end.
Proof.
  intros Hok. unfold load_plcs, boot_map.
  rewrite bind_run, (boot_on_plcs_run _ _ _ _ _ _ (IsEmpty_run t)).
  assert (Hlist : ∀ t', plc_ok t' → ∃ ps, lists t' ps ∧
    PlcStore.List (Db t' []) = (inl ps, Db t' [])).
  { intros t' Ht'. destruct (List_run t' Ht') as (ps & E & H). by exists ps. }
  destruct (bool_decide _) eqn:E; cbn iota; rewrite bind_run.
  - destruct (Seed_spec (unix_sec (wd_now w)) (PLCs c) t Hok) as (t' & Es & Hm).
    pose proof (plc_run_op_ok (OpSeed (unix_sec (wd_now w)) (PLCs c)) (Db t []) Hok) as Hok'.
    simpl run_op in Hok'. rewrite Es in Hok'. rewrite E in Es, Hm.
    rewrite (boot_on_plcs_run _ _ _ _ _ _ Es). simpl in Hm, Hok' |- *.
    destruct (seed_spec (PLCs c) (find t)) as [m|]; simpl; [|by eexists _, t'].
    destruct (Hlist t' Hok') as (ps & Hps & El). exists t', ps. split_and!; [done..|].
    rewrite bind_run, (boot_on_plcs_run _ _ _ _ _ _ El). by destruct (session_ttl c).
  - destruct (Hlist t Hok) as (ps & Hps & El). exists t, ps. split_and!; [done..|].
    cbn [mret state_ret]. rewrite bind_run, (boot_on_plcs_run _ _ _ _ _ _ El). by destruct (session_ttl c).
Qed.

Lemma admins_rows t : admins t = 1 → rows t ≠ [].
Proof. intros H E. unfold admins, affected, select_where in H. by rewrite E in H. Qed.

(** The user store after the start: an administrator may have been added. *)
Definition admin_ok (u : user_table) : Prop :=
  (EnsureAdminExists (wd_now w) (wd_salt w) (wd_admin w) (wd_admin_password w) (Db u [])).1.2 = None.

(** The server is run with what the configuration and the store say, and only
    when there is a user. *)
Lemma run_server_run c ps ttl p u ev :
  let '(r, b) := run_server c ps ttl (mkBoot p (Db u []) ev) in
  bt_plcs b = p ∧
  (∀ l, Launched l ∈ bt_events b → Launched l ∉ ev →
        l = launch_of c ps ttl ∧ rows (tables (bt_users b)) ≠ []) ∧
  (wd_open w RUserStore = None → wd_open w RAuditLog = None → admin_ok u →
   r = wd_run w ∧ Launched (launch_of c ps ttl) ∈ bt_events b).
Proof.
  unfold run_server, deferring, admin_ok.
  destruct (wd_open w RUserStore) as [e|]; [by split_and!|].
  rewrite bind_run. unfold emit_boot at 1. cbn [modify bt_plcs bt_users bt_events].
  rewrite bind_run, bind_run. unfold on_users at 1, zoom at 1. cbn [bt_users].
  pose proof (EnsureAdminExists_correct (wd_now w) (wd_salt w) (wd_admin w) (wd_admin_password w) u) as Ha.
  destruct (EnsureAdminExists _ _ _ _ (Db u [])) as [[created err] u']. destruct Ha as [Ha1 Ha2].
  cbn [fst snd]. 
  assert (Hu : err = None → rows (tables u') ≠ []).
  { intros ->. destruct created; [destruct Ha1 as (_ & _ & _ & H); [done|]; by apply admins_rows|].
    destruct Ha2 as [-> H]; [done|]. by apply H. }
  assert (Hin : ∀ l es, Launched l ∈ ev ++ es → Launched l ∉ ev → Launched l ∈ es) by set_solver.
  unfold emit_boot, modify, mret, state_ret, mbind, state_bind.
  destruct err as [err|]; [|destruct (wd_open w RAuditLog) as [e|]].
  - destruct (wd_users_injected w); simpl; split_and!; try done;
      intros l; rewrite <- ?app_assoc; intros Hl Hev; pose proof (Hin l _ Hl Hev); set_solver.
  - destruct (wd_users_injected w); simpl; split_and!; try done;
      intros l; rewrite <- ?app_assoc; intros Hl Hev; pose proof (Hin l _ Hl Hev); set_solver.
  - destruct (String.eqb (wd_config_path w) ""), (wd_users_injected w); simpl; split_and!; try done;
      try (intros _ _ _; split; [done|set_solver]);
      intros l; rewrite <- ?app_assoc; intros Hl Hev; pose proof (Hin l _ Hl Hev); simpl in *;
      (split; [set_solver|by apply Hu]).
Qed.

Lemma launched_marks l es : Launched l ∈ marks es ↔ Launched l ∈ es.
Proof. unfold marks. rewrite !list_elem_of_In, List.filter_In. intuition. Qed.

(** What a launch must satisfy, given the PLCs stored before the start. *)
Definition launch_spec (c : Config) (t : plc_tables) (b : boot) (l : launch) : Prop :=
  session_ttl c = inl (la_ttl l) ∧ rows (tables (bt_users b)) ≠ [] ∧ la_opts l = server_opts c ∧
  ∃ m, boot_map c t = Some m ∧ plc_ok (tables (bt_plcs b)) ∧
       (∀ n, find (tables (bt_plcs b)) n = m n) ∧
       Sorted str_le (pName <$> la_manager l) ∧ NoDup (pName <$> la_manager l) ∧
       ∀ p, p ∈ la_manager l ↔ m (pName p) = Some p.

Definition launched_ok (c : Config) (t : plc_tables) (b : boot) : Prop :=
  ∀ l, Launched l ∈ bt_events b → launch_spec c t b l.

Lemma launched_ok_emit c t e b : match e with Launched _ => False | _ => True end →
  launched_ok c t b → launched_ok c t (emit_boot e b).2.
Proof.
  intros He Hb l. simpl. rewrite elem_of_app, list_elem_of_singleton.
  intros [Hl| <-]; [exact (Hb l Hl)|done].
Qed.

(** The stores a resource is opened around are those of the rest. *)
Lemma deferring_ok c t close r rest d u ev :
  (∀ l, Launched l ∉ ev) →
  (∀ ev', (∀ l, Launched l ∉ ev') → launched_ok c t (rest (mkBoot d u ev')).2) →
  launched_ok c t (deferring close r rest (mkBoot d u ev)).2.
Proof.
  intros Hev Hrest. unfold deferring. destruct (wd_open w r); [by intros l []%Hev|].
  rewrite bind_run. unfold emit_boot at 1. cbn [modify bt_plcs bt_users bt_events]. rewrite bind_run.
  specialize (Hrest (ev ++ [Opened r]) ltac:(set_solver)).
  destruct (rest _) as [err b1]. rewrite bind_run. destruct close; [|exact Hrest].
  pose proof (launched_ok_emit c t (Closed r) b1 I Hrest). by unfold emit_boot in *.
Qed.

Lemma load_plcs_ok c t u ev : plc_ok t → (∀ l, Launched l ∉ ev) →
  launched_ok c t (load_plcs c (mkBoot (Db t []) (Db u []) ev)).2.
Proof.
  intros Hok Hev. pose proof (load_plcs_run c t (Db u []) ev Hok) as H.
  destruct (boot_map c t) as [m|] eqn:Em.
  - destruct H as (t' & ps & Hok' & Hm & (Hs & Hnd & Hps) & ->).
    destruct (session_ttl c) as [ttl|] eqn:Et; [|by intros l []%Hev].
    pose proof (run_server_run c ps ttl (Db t' []) u ev) as Hr.
    destruct (run_server _ _ _ _) as [r b]. destruct Hr as (Hp & Hl & _).
    intros l Hin. destruct (Hl l Hin (Hev l)) as [-> Hu]. simpl in *.
    split_and!; [done..|]. exists m. rewrite Hp. split_and!; try done.
    intros p. rewrite Hps. simpl. by rewrite Hm.
  - destruct H as (e & t' & ->). by intros l []%Hev.
Qed.

(** A store that has PLCs decides which there are, whatever the YAML file says; an
    empty one is given the PLCs of the file, all of them or none.  The manager gets exactly the stored PLCs, in the order of their names.
    The server only runs with a signing secret, a user in the store, and the
    configured lifetime of its tokens. *)
Theorem startup_store_wins (c : Config) (t : plc_tables) (u : user_table) : plc_ok t →
  let '(r, b) := runServerTo (Some c) (mkBoot (Db t []) (Db u []) []) in
  ∀ l, Launched l ∈ bt_events b → aJwtSecret (Auth c) ≠ "" ∧ launch_spec c t b l.
Proof.
  intros Hok. destruct (runServerTo _ _) as [r b] eqn:E. revert E. unfold runServerTo.
  assert (Hno : ∀ l : launch, Launched l ∉ []) by set_solver.
  destruct (String.eqb_spec (aJwtSecret (Auth c)) "") as [|Hsec]; [intros [= <- <-] l []%Hno|].
  intros E l Hl. split; [done|]. revert l Hl. change (launched_ok c t b). revert E.
  repeat (case_match; [|by intros [= <- <-] l []%Hno] || (case_match; [by intros [= <- <-] l []%Hno|])).
  intros E. replace b with (with_historian c (deferring true RPLCStore
    (deferring true RACLStore (load_plcs c))) (mkBoot (Db t []) (Db u []) [])).2 by (by rewrite E).
  assert (Hrest : ∀ ev, (∀ l, Launched l ∉ ev) →
    launched_ok c t (deferring true RPLCStore (deferring true RACLStore (load_plcs c))
                       (mkBoot (Db t []) (Db u []) ev)).2).
  { intros ev Hev. apply deferring_ok; [done|]. intros ev' Hev'. apply deferring_ok; [done|].
    intros ev'' Hev''. by apply load_plcs_ok. }
  unfold with_historian. destruct (0 <? _); [|by apply Hrest].
  apply deferring_ok; [done|]. intros ev Hev. rewrite bind_run. cbn. apply Hrest. set_solver.
Qed.

Lemma deferring_run r rest d u ev x d' u' ev' :
  wd_open w r = None →
  rest (mkBoot d u (ev ++ [Opened r])) = (x, mkBoot d' u' ev') →
  deferring true r rest (mkBoot d u ev) = (x, mkBoot d' u' (ev' ++ [Closed r])).
Proof.
  intros Ho Hrest. unfold deferring. rewrite Ho, bind_run. unfold emit_boot at 1.
  cbn [modify bt_plcs bt_users bt_events]. by rewrite bind_run, Hrest.
Qed.

(** When the data directory, the stores and the configuration are in order the
    server is run, and what it returns is returned. *)
Theorem startup_runs (c : Config) (t : plc_tables) (u : user_table) m ttl path path' :
  plc_ok t → aJwtSecret (Auth c) ≠ "" → wd_resolve w = inl path → wd_ensure w path = inl path' →
  wd_logger w = None → (∀ r, wd_open w r = None) → boot_map c t = Some m →
  session_ttl c = inl ttl → admin_ok u →
  let '(r, b) := runServerTo (Some c) (mkBoot (Db t []) (Db u []) []) in
  r = wd_run w ∧ ∃ l, Launched l ∈ bt_events b ∧ la_ttl l = ttl.
Proof.
  intros Hok Hsec Hres Hens Hlog Hopen Hm Httl Hadm. unfold runServerTo.
  rewrite (proj2 (String.eqb_neq _ _) Hsec), Hres, Hens, Hlog.
  assert (H : ∀ ev, (∀ l, Launched l ∉ ev) → ∃ d' u' ev',
    load_plcs c (mkBoot (Db t []) (Db u []) ev) = (wd_run w, mkBoot d' u' ev') ∧
    ∃ l, Launched l ∈ ev' ∧ la_ttl l = ttl).
  { intros ev Hev. pose proof (load_plcs_run c t (Db u []) ev Hok) as H. rewrite Hm in H.
    destruct H as (t' & ps & _ & _ & _ & ->). rewrite Httl.
    pose proof (run_server_run c ps ttl (Db t' []) u ev) as Hr.
    destruct (run_server _ _ _ _) as [r [d' u' ev']]. destruct Hr as (_ & _ & Hr).
    destruct Hr as [-> Hl]; [done..|]. exists d', u', ev'. split; [done|]. by eexists. }
  unfold with_historian. destruct (0 <? _).
  - destruct (H [Opened RHistorian; RetentionLoop; Opened RPLCStore; Opened RACLStore])
      as (d' & u' & ev' & E & l & Hl & Ht); [set_solver|].
    erewrite deferring_run; [|done|].
    2: { rewrite bind_run. cbn. apply deferring_run; [done|]. apply deferring_run; [done|exact E]. }
    split; [done|]. exists l. simpl. set_solver.
  - destruct (H [Opened RPLCStore; Opened RACLStore]) as (d' & u' & ev' & E & l & Hl & Ht); [set_solver|].
    erewrite deferring_run; [|done|apply deferring_run; [done|exact E]].
    split; [done|]. exists l. simpl. set_solver.
Qed.
End startup.

Theorem ExitCode_correct (err : option error) :
  (ExitCode err = 0 ↔ err = None) ∧
  (ExitCode err = 77 ↔ errors_is ErrConfigPermission err = true ∨ errors_is ErrDataDirPermission err = true) ∧
  (ExitCode err = 0 ∨ ExitCode err = 1 ∨ ExitCode err = 77).
Proof.
  destruct err as [err|]; simpl; [|split_and!; naive_solver].
  destruct (is_error ErrConfigPermission err), (is_error ErrDataDirPermission err);
    simpl; split_and!; naive_solver.
Qed.

(** ** Concrete starts *)

Definition good_world : world :=
  mkWorld (inl "/var/lib/lgb") inl None (λ _, None) None (1700000000 * Second) 1 "" "correct horse battery"
    false "lgb.yaml".

Definition first_boot : boot := mkBoot (Db empty_plcs []) (Db empty_table []) [].

#[local] Existing Instance plain_bcrypt.

Lemma startup_runs_witness :
  let '(r, b) := runServerTo good_world (Some (base_config 1 "8h" [sample_plc])) first_boot in
  r = None ∧ ∃ l, Launched l ∈ bt_events b ∧ la_ttl l = 8 * Hour.
Proof.
  assert (Hm : ∃ m, boot_map (base_config 1 "8h" [sample_plc]) empty_plcs = Some m).
  { unfold boot_map. rewrite bool_decide_eq_true_2 by done. cbn [PLCs base_config seed_spec].
    assert (E : bool_decide (is_Some (find empty_plcs (pName sample_plc))) ||
                negb (distinct_tags sample_plc) = false) by (vm_compute; reflexivity).
    rewrite E. by eexists. }
  destruct Hm as [m Hm].
  pose proof (startup_runs good_world (base_config 1 "8h" [sample_plc]) empty_plcs empty_table m
    (8 * Hour) "/var/lib/lgb" "/var/lib/lgb" plc_ok_empty ltac:(discriminate) eq_refl eq_refl eq_refl
    (λ _, eq_refl) Hm) as H.
  unfold first_boot. destruct (runServerTo _ _ _) as [r b].
  destruct H as [H1 H2]; [vm_compute; reflexivity..|]. split; [exact H1|exact H2].
Defined.

Lemma startup_store_wins_witness :
  let '(r, b) := runServerTo good_world (Some (base_config 1 "" [])) (mkBoot (Db sample_plcs []) (Db empty_table []) []) in
  (∀ l, Launched l ∈ bt_events b → launch_spec (base_config 1 "" []) sample_plcs b l) ∧ r = None.
Proof.
  pose proof (startup_store_wins good_world (base_config 1 "" []) sample_plcs empty_table sample_plcs_ok) as H.
  assert (Hr : (runServerTo good_world (Some (base_config 1 "" []))
    (mkBoot (Db sample_plcs []) (Db empty_table []) [])).1 = None) by (vm_compute; reflexivity).
  destruct (runServerTo _ _ _) as [r b]. split; [|exact Hr]. intros l Hl. by apply H.
Defined.

Lemma startup_brackets_witness :
  let '(r, b') := runServerTo good_world (Some (base_config 1 "never" [])) first_boot in
  ∃ rs run, marks (bt_events b') = (Opened <$> rs) ++ run ++ closing good_world rs ∧
            rs `prefix_of` [RHistorian; RPLCStore; RACLStore; RUserStore; RAuditLog].
Proof.
  pose proof (startup_brackets good_world (Some (base_config 1 "never" [])) first_boot eq_refl) as H.
  destruct (runServerTo _ _ _) as [r b']. destruct H as (rs & run & H1 & H2 & _). by exists rs, run.
Defined.

(** The server starts with a configuration that [Validate] refuses. *)
Theorem unvalidated_start (stat : string → bool + foreign) :
  let c := base_config 7 "8h" [] in
  ¬ valid_config stat c ∧
  ∃ l, Launched l ∈ bt_events (runServerTo good_world (Some c) first_boot).2.
Proof.
  split.
  { intros (_ & _ & _ & _ & _ & _ & _ & _ & _ & _ & H & _). simpl in H. lia. }
  eexists. vm_compute. repeat constructor.
Qed.
