(* ===== verification/Historian.v ===== *)
(** * [internal/historian/store.go]: tag history

    The store, with its time-range query and its retention.  Values are stored
    as formatted text. *)

From S2P Require Import Prelude GoString GoTime GoError Sql.

(** ** The store *)

Record Sample (V : Type) := mkSample {
  smPLCName : string; smTag : string; smTimestamp : time; smValue : V; smQuality : string;
}.
Arguments mkSample {V} _ _ _ _ _.
Arguments smPLCName {V} _.
Arguments smTag {V} _.
Arguments smTimestamp {V} _.
Arguments smValue {V} _.
Arguments smQuality {V} _.

Record sample_query := mkQuery {
  qPLCName : string; qTag : string; qFrom : time; qTo : time; qLimit : Z;
}.

(** A row of [tag_samples]. *)
Record sample_row := SampleRow {
  sr_plc : string; sr_tag : string; sr_ts : Z; sr_value : text; sr_quality : string;
}.

Abbreviation samples := (table sample_row).

(** The text a value is stored as: strings as they are, instants by their
    [String] method, floats in the shortest decimal form that reads back, the
    rest by [fmt.Sprint]. *)
Definition stringify (v : value) : text :=
  match v with
  | VString s => Lit s
  | VTime _ => Fmt "%s" [FVal v]
  | VFloat32 _ => Fmt "FormatFloat(f, -1, 32)" [FVal v]
  | VFloat64 _ => Fmt "FormatFloat(f, -1, 64)" [FVal v]
  | _ => Fmt "%v" [FVal v]
  end.

Definition row_of (s : Sample value) : sample_row :=
  SampleRow (smPLCName s) (smTag s) (unix_nano (smTimestamp s)) (stringify (smValue s))
    (if String.eqb (smQuality s) "" then "good" else smQuality s).

Definition sample_of (r : sample_row) : Sample text :=
  mkSample (sr_plc r) (sr_tag r) (time_of_nano (sr_ts r)) (sr_value r) (sr_quality r).

Definition insert_sample (s : Sample value) : State (db samples) (option error) :=
  res ← exec (λ t, inl (tt, insert_row (row_of s) t));
  mret (match res with inl _ => None | inr f => Some (EForeign f) end).

(** The transaction of [InsertBatch]: prepare, insert each, commit. *)
Definition insert_tx (ss : list (Sample value)) : State (db samples) (option error) :=
  transaction (
    res ← query (λ _ : samples, tt);
    match res with
    | inr f => mret (Some (EForeign f))
    | inl _ => for_each_err ss insert_sample
    end).

(** The store with its busy flag. *)
Record hist := mkHist { h_db : db samples; writerBusy : bool }.

(** [ctx_err] is the error of a context that is done, which [BeginTx] returns. *)
Definition InsertBatch (ctx_err : option error) (ss : list (Sample value))
    : State hist (option error) := λ h,
  match ss with
  | [] => (None, h)
  | _ =>
      if writerBusy h then (Some (Sentinel ErrWriterBusy), h)
      else match ctx_err with
           | Some err => (Some err, h)
           | None => let '(r, d) := insert_tx ss (h_db h) in (r, mkHist d false)
           end
  end.

(** The rows of a query, in the order of their instants. *)
Definition in_range (q : sample_query) : Z * sample_row → bool := λ x,
  String.eqb (sr_plc x.2) (qPLCName q) && String.eqb (sr_tag x.2) (qTag q)
  && (unix_nano (qFrom q) <=? sr_ts x.2) && (sr_ts x.2 <=? unix_nano (qTo q)).

Definition by_time (x y : Z * sample_row) : Prop := sr_ts x.2 ≤ sr_ts y.2.
#[export] Instance by_time_dec : RelDecision by_time.
Proof. intros x y. unfold by_time. apply _. Defined.
#[export] Instance by_time_total : Total by_time.
Proof. intros x y. unfold by_time. lia. Qed.
#[export] Instance by_time_trans : Transitive by_time.
Proof. intros x y z. unfold by_time. lia. Qed.

Definition query_limit (q : sample_query) : Z := if qLimit q <=? 0 then 1000 else qLimit q.

Definition Query (q : sample_query) : State (db samples) (result (slice (Sample text))) :=
  res ← query (λ t, take (Z.to_nat (query_limit q)) (merge_sort by_time (select_where (in_range q) t)));
  mret (map_result (λ rs, appended (sample_of ∘ snd <$> rs)) (foreign_result res)).

(** The instant before which samples expire, in [int64] nanoseconds. *)
Definition cutoff (days : Z) (now : time) : Z :=
  unix_nano (now + int64 (int64 (- days * 24) * Hour)).

Definition EnforceRetention (days : Z) (now : time) : State (db samples) (option error) :=
  if days <=? 0 then mret None
  else
    res ← exec (λ t, inl (tt, delete_where (λ x, sr_ts x.2 <? cutoff days now) t));
    mret (match res with inl _ => None | inr f => Some (EForeign f) end).

(** [runRetentionLoop] of [cmd/server.go], for the times of its ticks; a failure
    is logged. *)
Definition runRetentionLoop (days : Z) (ticks : list time) : State (db samples) unit :=
  for_each ticks (λ now, _ ← EnforceRetention days now; mret tt).

(** ** The store keeps what it was given *)

Definition contents (d : db samples) : list sample_row := snd <$> rows (tables d).

Lemma insert_samples_spec ss d :
  let '(r, d') := for_each_err ss insert_sample d in
  r = None → contents d' = contents d ++ (row_of <$> ss).
Proof.
  revert d. induction ss as [|s ss IH]; intros d; [by rewrite app_nil_r|].
  cbn [for_each_err]. rewrite bind_run. unfold insert_sample at 1. rewrite bind_run.
  unfold exec, next_fault. unfold_state. destruct d as [t [|[f|] fs]]; simpl; [|done|].
  all: match goal with |- context [for_each_err ?xs insert_sample ?d] =>
         specialize (IH d); destruct (for_each_err xs insert_sample d) as [r d'] end.
  all: intros Hr; rewrite (IH Hr); unfold contents; simpl; by rewrite fmap_app, <- app_assoc.
Qed.

(** A batch is stored whole and in order, or not at all. *)
Lemma insert_tx_spec ss d :
  let '(r, d') := insert_tx ss d in
  match r with
  | None => contents d' = contents d ++ (row_of <$> ss)
  | Some _ => tables d' = tables d
  end.
Proof.
  destruct (insert_tx ss d) as [[e|] d'] eqn:E; [by eapply transaction_atomic|].
  unfold insert_tx, transaction in E. unfold_state. pose proof (next_fault_tables d) as E0.
  destruct (next_fault d) as [[f|] d0]; simpl in *; [done|].
  unfold query, exec in E. unfold_state. pose proof (next_fault_tables d0) as E1.
  destruct (next_fault d0) as [[f|] d1]; simpl in *; [done|].
  pose proof (insert_samples_spec ss (Db (tables d1) (faults d1))) as Hs.
  destruct (for_each_err ss insert_sample _) as [[e|] d2]; [done|].
  specialize (Hs eq_refl). pose proof (next_fault_tables d2) as E2.
  destruct (next_fault d2) as [[f|] d3]; simpl in *; simplify_eq.
  unfold contents in *. simpl in *. by rewrite E2, Hs, E1, E0.
Qed.

Lemma insert_tx_ok ss t : ∃ t', insert_tx ss (Db t []) = (None, Db t' []) ∧
  snd <$> rows t' = (snd <$> rows t) ++ (row_of <$> ss).
Proof.
  assert (H : ∃ t', for_each_err ss insert_sample (Db t []) = (None, Db t' [])).
  { revert t. induction ss as [|s ss IH]; intros t; [by eexists|].
    cbn [for_each_err]. rewrite bind_run. unfold insert_sample at 1.
    rewrite bind_run, exec_ok. apply IH. }
  destruct H as [t' H]. exists t'.
  assert (E : insert_tx ss (Db t []) = (None, Db t' [])).
  { unfold insert_tx. apply (transaction_ok _ t None t'). by rewrite bind_run, query_ok. }
  split; [done|]. pose proof (insert_tx_spec ss (Db t [])) as Hs. by rewrite E in Hs.
Qed.

Lemma InsertBatch_spec ctx_err ss h :
  let '(r, h') := InsertBatch ctx_err ss h in
  match r with
  | None => contents (h_db h') = contents (h_db h) ++ (row_of <$> ss)
  | Some _ => tables (h_db h') = tables (h_db h)
  end.
Proof.
  unfold InsertBatch. destruct ss as [|s ss]; [by rewrite app_nil_r|].
  destruct (writerBusy h); [done|]. destruct ctx_err; [done|].
  pose proof (insert_tx_spec (s :: ss) (h_db h)) as H.
  by destruct (insert_tx _ _) as [[e|] d].
Qed.

(** ** Queries *)

Lemma Query_run q t :
  Query q (Db t []) =
  (inl (appended (sample_of ∘ snd <$>
     take (Z.to_nat (query_limit q)) (merge_sort by_time (select_where (in_range q) t)))), Db t []).
Proof. done. Qed.

(** A query answers with the earliest samples of the tag in the range, in the
    order of their instants, as many as there are up to the limit. *)
Theorem Query_correct (q : sample_query) (t : samples) :
  ∃ xs found rest, Query q (Db t []) = (inl xs, Db t []) ∧
  elems xs = sample_of ∘ snd <$> found ∧
  found ++ rest ≡ₚ select_where (in_range q) t ∧
  Sorted by_time found ∧ (∀ x y, x ∈ found → y ∈ rest → by_time x y) ∧
  (length found = Z.to_nat (query_limit q) ∨ rest = []).
Proof.
  set (l := merge_sort by_time (select_where (in_range q) t)).
  set (n := Z.to_nat (query_limit q)).
  assert (Hs : Sorted by_time (take n l ++ drop n l)).
  { rewrite take_drop. apply Sorted_merge_sort, _. }
  assert (Hss : StronglySorted by_time (take n l ++ drop n l)).
  { apply Sorted_StronglySorted; [apply _|done]. }
  exists (appended (sample_of ∘ snd <$> take n l)), (take n l), (drop n l).
  rewrite Query_run, elems_appended. split_and!; try done.
  - rewrite take_drop. apply merge_sort_Permutation.
  - apply StronglySorted_Sorted. by eapply StronglySorted_app_1_l.
  - apply StronglySorted_app in Hss as (Hc & _). intros x y Hx Hy. by apply Hc.
  - rewrite length_take. destruct (decide (n ≤ length l)%nat); [left; lia|].
    right. apply drop_ge. lia.
Qed.

(** ** Round trip *)

(** What a sample reads back as. *)
Definition read_back (s : Sample value) : Sample text :=
  mkSample (smPLCName s) (smTag s) (smTimestamp s) (stringify (smValue s))
    (if String.eqb (smQuality s) "" then "good" else smQuality s).

Definition asked (q : sample_query) (s : Sample value) : bool :=
  String.eqb (smPLCName s) (qPLCName q) && String.eqb (smTag s) (qTag q)
  && (qFrom q <=? smTimestamp s) && (smTimestamp s <=? qTo q).

Lemma filter_rows_of q ss (rs : list (Z * sample_row)) :
  snd <$> rs = row_of <$> ss →
  in_s 64 (qFrom q) → in_s 64 (qTo q) → Forall (λ s, in_s 64 (smTimestamp s)) ss →
  sample_of ∘ snd <$> List.filter (in_range q) rs = read_back <$> List.filter (asked q) ss.
Proof.
  intros Hrs Hf Ht Hss. revert rs Hrs. induction Hss as [|s ss Hs Hss IH]; intros [|[i r] rs] Hrs;
    [done..|]. cbn [fmap list_fmap snd] in Hrs. injection Hrs as -> Hrs.
  assert (E : in_range q (i, row_of s) = asked q s).
  { unfold in_range, asked. simpl. by rewrite !unix_nano_id. }
  cbn [List.filter]. rewrite E. destruct (asked q s); [|by apply IH].
  rewrite !fmap_cons, (IH rs Hrs). f_equal.
  unfold sample_of, read_back, time_of_nano. simpl. by rewrite unix_nano_id.
Qed.

Lemma stored_batch ss :
  let '(e, h) := InsertBatch None ss (mkHist (Db empty_table []) false) in
  e = None ∧ ∃ t, h = mkHist (Db t []) false ∧ snd <$> rows t = row_of <$> ss.
Proof.
  destruct (insert_tx_ok ss empty_table) as (t & E & Hrows). unfold InsertBatch.
  destruct ss; [split; [done|]; by exists empty_table|]. simpl. rewrite E. split; [done|]. by exists t.
Qed.

(** What was stored is read back: samples stored in one batch are returned by a
    query over their tag and range, each once, with their instant, quality (an
    empty one as "good") and formatted value, in the order of their instants. *)
Theorem historian_roundtrip (ss : list (Sample value)) (q : sample_query) :
  in_s 64 (qFrom q) → in_s 64 (qTo q) → Forall (λ s, in_s 64 (smTimestamp s)) ss →
  Z.of_nat (length (List.filter (asked q) ss)) ≤ query_limit q →
  let '(r, h) := InsertBatch None ss (mkHist (Db empty_table []) false) in
  r = None ∧
  ∃ xs, (Query q (h_db h)).1 = inl xs ∧ elems xs ≡ₚ read_back <$> List.filter (asked q) ss ∧
        Sorted (λ x y, smTimestamp x ≤ smTimestamp y) (elems xs).
Proof.
  intros Hf Ht Hss Hlim.
  pose proof (stored_batch ss) as H. destruct (InsertBatch None ss _) as [e h].
  destruct H as (-> & t' & -> & Hrows). split; [done|]. cbn [h_db]. rewrite Query_run.
  pose proof (filter_rows_of q ss (rows t') Hrows Hf Ht Hss) as Hfilter.
  pose proof (merge_sort_Permutation by_time (select_where (in_range q) t')) as Hperm.
  assert (Htake : take (Z.to_nat (query_limit q)) (merge_sort by_time (select_where (in_range q) t')) =
                  merge_sort by_time (select_where (in_range q) t')).
  { apply take_ge. rewrite Hperm. apply (f_equal length) in Hfilter.
    rewrite !length_fmap in Hfilter. unfold select_where. rewrite Hfilter. lia. }
  eexists. split; [done|]. rewrite elems_appended, Htake. split.
  - rewrite Hperm. unfold select_where. by rewrite Hfilter.
  - apply (Sorted_fmap_mono by_time); [|apply Sorted_merge_sort, _]. by intros [i x] [j y].
Qed.

(** ** Retention *)

Lemma cutoff_exact days now :
  in_s 64 (now - days * 24 * Hour) → cutoff days now = now - days * 24 * Hour.
Proof.
  intros H. unfold cutoff, unix_nano.
  rewrite wrap_s_add, <- (wrap_s_small 64 (now - days * 24 * Hour)) by (done || lia).
  rewrite <- (wrap_s_add 64 now (int64 (- days * 24) * Hour)), wrap_s_mul, wrap_s_add by lia.
  f_equal. lia.
Qed.

Lemma EnforceRetention_spec (days : Z) (now : time) (t : samples) :
  0 < days → in_s 64 (now - days * 24 * Hour) →
  ∃ t', EnforceRetention days now (Db t []) = (None, Db t' []) ∧
  ∀ x, x ∈ rows t' ↔ x ∈ rows t ∧ now - days * 24 * Hour ≤ sr_ts x.2.
Proof.
  intros Hd Hr. unfold EnforceRetention. destruct (Z.leb_spec days 0); [lia|].
  rewrite bind_run, exec_ok. eexists. split; [done|]. intros x. rewrite elem_of_delete.
  rewrite (cutoff_exact days now Hr). rewrite Z.ltb_ge. done.
Qed.

(** Retention deletes exactly the samples older than the configured number of
    days, as long as that many days ago is an instant of the years 1678 to
    2262. *)
Theorem EnforceRetention_correct (days : Z) (now : time) (t : samples) :
  0 < days → in_s 64 (now - days * 24 * Hour) →
  ∃ t', EnforceRetention days now (Db t []) = (None, Db t' []) ∧
  ∀ x, x ∈ rows t' ↔ x ∈ rows t ∧ now - days * 24 * Hour ≤ sr_ts x.2.
Proof. apply EnforceRetention_spec. Qed.

(** C29 The loop keeps exactly the samples that are not older than the configured
    days at any of its ticks. *)
Theorem retention_loop_correct (days : Z) (ticks : list time) (t : samples) :
  0 < days → Forall (λ now, in_s 64 (now - days * 24 * Hour)) ticks →
  ∃ t', runRetentionLoop days ticks (Db t []) = (tt, Db t' []) ∧
  ∀ x, x ∈ rows t' ↔ x ∈ rows t ∧ Forall (λ now, now - days * 24 * Hour ≤ sr_ts x.2) ticks.
Proof.
  intros Hd Ht. unfold runRetentionLoop. revert t. induction Ht as [|now ticks Hnow _ IH]; intros t.
  { exists t. split; [done|]. intros x. rewrite Forall_nil. tauto. }
  cbn [for_each]. rewrite !bind_run.
  destruct (EnforceRetention_spec days now t Hd Hnow) as (t1 & -> & H1). cbn [mret state_ret].
  destruct (IH t1) as (t2 & -> & H2). exists t2. split; [done|]. intros x. rewrite H2, H1, Forall_cons. tauto.
Qed.

(** A retention of 130,000 days, which the configuration accepts, makes the
    cutoff overflow: a sample of this instant is deleted. *)
Theorem retention_overflow :
  let now := 1750000000 * Second in
  let t := insert_row (SampleRow "plc1" "Speed" now (Lit "1") "good") empty_table in
  rows (tables (EnforceRetention 130000 now (Db t [])).2) = [].
Proof. vm_compute. reflexivity. Qed.

(** ** Concrete samples *)

Definition speed (at_ : time) (v : value) : Sample value := mkSample "plc1" "Speed" at_ v "".
Definition sample_batch : list (Sample value) :=
  [speed (3 * Second) (VInt32 3); mkSample "plc1" "Run" (2 * Second) (VBool true) "good";
   speed (1 * Second) (VInt32 1)].
Definition speed_query : sample_query := mkQuery "plc1" "Speed" 0 (10 * Second) 100.

Theorem historian_roundtrip_witness :
  let '(r, h) := InsertBatch None sample_batch (mkHist (Db empty_table []) false) in
  r = None ∧ ∃ xs, (Query speed_query (h_db h)).1 = inl xs ∧
  elems xs ≡ₚ [read_back (speed (1 * Second) (VInt32 1)); read_back (speed (3 * Second) (VInt32 3))].
Proof.
  assert (Hr : in_s 64 (qFrom speed_query) ∧ in_s 64 (qTo speed_query)) by (by split).
  assert (Hss : Forall (λ s, in_s 64 (smTimestamp s)) sample_batch) by (repeat constructor; done).
  pose proof (historian_roundtrip sample_batch speed_query (proj1 Hr) (proj2 Hr) Hss) as H.
  destruct (InsertBatch _ _ _) as [r h]. destruct H as (H1 & xs & H2 & H3 & _); [done|].
  split; [done|]. exists xs. split; [done|]. rewrite H3. apply Permutation_swap.
Defined.

Theorem EnforceRetention_correct_witness :
  let now := 1750000000 * Second in
  ∃ t', EnforceRetention 90 now (Db empty_table []) = (None, Db t' []) ∧
  in_s 64 (now - 90 * 24 * Hour).
Proof.
  assert (H : in_s 64 (1750000000 * Second - 90 * 24 * Hour)) by (by split).
  destruct (EnforceRetention_correct 90 (1750000000 * Second) empty_table ltac:(done) H)
    as (t' & E & _).
  by exists t'.
Defined.

Theorem retention_loop_correct_witness :
  let now := 1750000000 * Second in
  ∃ t', runRetentionLoop 90 [now; now + Hour] (Db empty_table []) = (tt, Db t' []) ∧
  Forall (λ now, in_s 64 (now - 90 * 24 * Hour)) [now; now + Hour].
Proof.
  cbv zeta.
  assert (H : Forall (λ now, in_s 64 (now - 90 * 24 * Hour)) [1750000000 * Second; 1750000000 * Second + Hour])
    by (repeat constructor; vm_compute; congruence).
  destruct (retention_loop_correct 90 [1750000000 * Second; 1750000000 * Second + Hour] empty_table ltac:(done) H)
    as (t' & E & _).
  exists t'. split; [exact E|exact H].
Defined.

(** ** Writers that overlap

    [InsertBatch] in the two parts other goroutines can come between: up to the
    hook, once the flag is taken, and from there to its return. *)

(** The store, whether a hook is set, the calls past the flag that have not
    returned, those the hook ran for, and those that have returned, with what
    their context answered to [BeginTx]. *)
Record writers := mkWriters {
  wr_hist : hist; wr_hook : bool; wr_inside : list (list (Sample value));
  wr_hooked : list (list (Sample value)); wr_done : list (list (Sample value) * option error);
}.

Definition SetBeforeWriteHook (fn : bool) : State writers unit :=
  modify (λ w, mkWriters (wr_hist w) fn (wr_inside w) (wr_hooked w) (wr_done w)).

Definition WriterBusy (w : writers) : bool := writerBusy (wr_hist w).

(** [Some r]: the call returns [r] at once. *)
Definition insert_begin (ss : list (Sample value)) : State writers (option (option error)) := λ w,
  match ss with
  | [] => (Some None, w)
  | _ =>
      if WriterBusy w then (Some (Some (Sentinel ErrWriterBusy)), w)
      else (None, mkWriters (mkHist (h_db (wr_hist w)) true) (wr_hook w) (wr_inside w ++ [ss])
                    (if wr_hook w then wr_hooked w ++ [ss] else wr_hooked w) (wr_done w))
  end.

Definition write_batch (ss : list (Sample value)) (ctx_err : option error) : State (db samples) (option error) :=
  match ctx_err with Some err => mret (Some err) | None => insert_tx ss end.

Definition insert_end (ctx_err : option error) : State writers (option (option error)) := λ w,
  match wr_inside w with
  | [] => (None, w)
  | ss :: rest =>
      let '(r, d) := write_batch ss ctx_err (h_db (wr_hist w)) in
      (Some r, mkWriters (mkHist d false) (wr_hook w) rest (wr_hooked w) (wr_done w ++ [(ss, ctx_err)]))
  end.

Inductive write_event := SetHook (fn : bool) | CallInsert (ss : list (Sample value)) | EndInsert (ctx_err : option error).

Definition write_step (e : write_event) : State writers unit :=
  match e with
  | SetHook fn => SetBeforeWriteHook fn
  | CallInsert ss => _ ← insert_begin ss; mret tt
  | EndInsert ctx_err => _ ← insert_end ctx_err; mret tt
  end.

(** What holds between any two steps, from the database [d]. *)
Record writers_ok (d : db samples) (w : writers) : Prop := {
  wr_one : length (wr_inside w) = if WriterBusy w then 1%nat else 0%nat;
  wr_nonempty : Forall (λ ss, ss ≠ []) (wr_inside w);
  wr_sequential : h_db (wr_hist w) = (for_each (wr_done w) (λ '(ss, c), _ ← write_batch ss c; mret tt) d).2;
}.

(** However the calls, their ends and the hook interleave, at most one batch is
    being written at a time, the flag is up exactly then, and every other call is
    refused meanwhile; what is stored is what the calls let in would have stored
    one after the other. *)
Theorem one_writer_at_a_time (d : db samples) (hook : bool) (es : list write_event) :
  let w := (for_each es write_step (mkWriters (mkHist d false) hook [] [] [])).2 in
  writers_ok d w ∧
  (WriterBusy w = true → ∀ ss, ss ≠ [] → insert_begin ss w = (Some (Some (Sentinel ErrWriterBusy)), w)).
Proof.
  cbv zeta. split; [|intros Hb [|s ss] H; [done|]; unfold insert_begin; by rewrite Hb].
  apply for_each_inv; [|by split].
  clear es. intros [fn|ss|c] w [H1 H2 H3]; unfold write_step.
  - by split.
  - rewrite bind_run. unfold insert_begin. destruct ss as [|s ss]; [by split|].
    destruct (WriterBusy w) eqn:Eb; [split; simpl; by rewrite ?Eb|].
    split; simpl; [|by apply Forall_app_2; [|repeat constructor]|done].
    by rewrite length_app, H1.
  - rewrite bind_run. unfold insert_end. destruct (wr_inside w) as [|ss [|]] eqn:Ei.
    + split; simpl; by rewrite ?Ei.
    + destruct (write_batch ss c (h_db (wr_hist w))) as [r d'] eqn:Ew. split; simpl; [done|constructor|].
      rewrite for_each_app, <- H3. cbn [for_each]. rewrite !bind_run. by rewrite Ew.
    + simpl in H1. by destruct (WriterBusy w).
Qed.

(** A call nobody comes between is [InsertBatch]. *)
Lemma insert_undisturbed (ctx_err : option error) (ss : list (Sample value)) (d : db samples) (hook : bool) dn hk :
  let w := mkWriters (mkHist d false) hook [] hk dn in
  let '(r, h) := InsertBatch ctx_err ss (wr_hist w) in
  match insert_begin ss w with
  | (Some r', w') => r' = r ∧ wr_hist w' = h
  | (None, w') => (insert_end ctx_err w').1 = Some r ∧ wr_hist (insert_end ctx_err w').2 = h
  end.
Proof.
  cbv zeta. unfold InsertBatch, insert_begin, insert_end, write_batch. destruct ss as [|s ss]; [done|]. simpl.
  destruct ctx_err as [err|]; [done|]. by destruct (insert_tx _ d).
Qed.
