(* ===== verification/StoreOpen.v ===== *)
(** * Opening the other stores

    [aclstore.Open], [auth.OpenUserStore] and [historian.Open] with their
    migrations, [Close], and the connections they leave open ([plcstore.Open]
    is in [PlcOpen]); [OpenAuditLogger] and [Close] of the audit log. *)

From S2P Require Import Prelude GoString GoTime GoError Sql AclStore UserStore Historian AuditLog.

(** ** A database file of one table *)

(** Whether foreign keys are enforced on the connection, the table, and whether
    its lookup index is there; the connections of the process that are open. *)
Record store_file (R : Type) := mkStoreFile {
  sf_fk : bool; sf_table : option (table R); sf_index : bool; sf_conns : Z;
}.
Arguments mkStoreFile {R} _ _ _ _.
Arguments sf_fk {R} _.
Arguments sf_table {R} _.
Arguments sf_index {R} _.
Arguments sf_conns {R} _.

Inductive ddl := PragmaForeignKeys | CreateTable | CreateIndex.

Section open.
Context {R : Type}.
Implicit Types f : store_file R.

(** [PRAGMA foreign_keys = ON], [CREATE TABLE IF NOT EXISTS] and
    [CREATE INDEX IF NOT EXISTS]. *)
Definition run_ddl (s : ddl) : stmt (store_file R) unit := λ f,
  match s, sf_table f with
  | PragmaForeignKeys, _ => inl (tt, mkStoreFile true (sf_table f) (sf_index f) (sf_conns f))
  | CreateTable, _ =>
      inl (tt, mkStoreFile (sf_fk f) (Some (default empty_table (sf_table f))) (sf_index f) (sf_conns f))
  | CreateIndex, None => inr (plain_error "no such table")
  | CreateIndex, Some _ => inl (tt, mkStoreFile (sf_fk f) (sf_table f) true (sf_conns f))
  end.

(** [sql.Open]: a connection, on which no foreign keys are enforced yet. *)
Definition connect : State (db (store_file R)) unit :=
  modify (λ d, Db (mkStoreFile false (sf_table (tables d)) (sf_index (tables d)) (sf_conns (tables d) + 1)) (faults d)).

(** [db.Close], whose error the callers here drop or log. *)
Definition Close : State (db (store_file R)) unit :=
  modify (λ d, Db (mkStoreFile (sf_fk (tables d)) (sf_table (tables d)) (sf_index (tables d)) (sf_conns (tables d) - 1)) (faults d)).

(** The statements of one [ExecContext], up to the first that fails. *)
Fixpoint exec_all (ss : list ddl) : State (db (store_file R)) (option error) :=
  match ss with
  | [] => mret None
  | s :: ss =>
      res ← exec (run_ddl s);
      match res with
      | inr err => mret (Some (EForeign err))
      | inl _ => exec_all ss
      end
  end.

(** The three [Open]: what [os.MkdirAll] and [sql.Open] answer, then the
    migration; a connection whose migration fails is closed. *)
Definition open_store (migrate : State (db (store_file R)) (option error)) (path : string)
    (mkdir_err open_err : option foreign) : State (db (store_file R)) (option error) :=
  match (if String.eqb path ":memory:" then None else mkdir_err) with
  | Some err => mret (Some (EForeign err))
  | None =>
      match open_err with
      | Some err => mret (Some (EForeign err))
      | None =>
          _ ← connect;
          err ← migrate;
          match err with
          | Some err => _ ← Close; mret (Some err)
          | None => mret None
          end
      end
  end.
End open.

(** [aclstore]. *)
Definition acl_migrate : State (db (store_file acl_row)) (option error) :=
  err ← exec_all [PragmaForeignKeys];
  match err with
  | Some err => mret (Some err)
  | None => exec_all [CreateTable; CreateIndex]
  end.
Definition acl_Open := open_store acl_migrate.

(** [auth]. *)
Definition user_migrate : State (db (store_file user_row)) (option error) := exec_all [CreateTable].
Definition OpenUserStore := open_store user_migrate.

(** [historian]. *)
Definition history_migrate : State (db (store_file sample_row)) (option error) := exec_all [CreateTable; CreateIndex].
Definition history_Open := open_store history_migrate.

(** ** Opening loses nothing and leaks nothing *)

Section proofs.
Context {R : Type}.
Implicit Types f : store_file R.

(** What a migration keeps, whatever fails: the rows, and the connections. *)
Definition same_rows f f' : Prop :=
  default empty_table (sf_table f') = default empty_table (sf_table f) ∧ sf_conns f' = sf_conns f.

Lemma run_ddl_keeps s f :
  match run_ddl s f with
  | inl (_, f') => same_rows f f' ∧ (is_Some (sf_table f) ∨ s = CreateTable → is_Some (sf_table f'))
  | inr _ => s = CreateIndex ∧ sf_table f = None
  end.
Proof. destruct s; unfold run_ddl, same_rows; destruct (sf_table f) eqn:E; simpl; rewrite ?E; naive_solver. Qed.

Lemma exec_all_keeps ss (d : db (store_file R)) :
  let '(r, d') := exec_all ss d in
  same_rows (tables d) (tables d') ∧
  (r = None → is_Some (sf_table (tables d)) ∨ CreateTable ∈ ss → is_Some (sf_table (tables d'))).
Proof.
  revert d. induction ss as [|s ss IH]; intros d.
  { split; [done|]. intros _ [H|H%not_elem_of_nil]; done. }
  cbn [exec_all]. unfold exec, next_fault. unfold_state.
  pose proof (run_ddl_keeps s (tables d)) as H.
  destruct d as [f [|[e|] fs]]; simpl in *; [|done|].
  all: destruct (run_ddl s f) as [[[] f']|e]; [|done]; destruct H as [[H1 H2] H3].
  all: match goal with |- context [exec_all _ ?d] => specialize (IH d); destruct (exec_all _ d) as [r d'] end.
  all: destruct IH as [[K1 K2] K3]; unfold same_rows; simpl in *; (split; [split; congruence|]).
  all: intros Hr Ht; apply K3; [done|]; destruct Ht as [Ht|[Ht|Ht]%elem_of_cons]; [left; apply H3; by left|left; apply H3; by right|by right].
Qed.

(** The migrations here: they create their table before its index. *)
Definition migrates (m : State (db (store_file R)) (option error)) : Prop :=
  (∀ d, let '(r, d') := m d in same_rows (tables d) (tables d') ∧ (r = None → is_Some (sf_table (tables d')))) ∧
  (∀ f, ∃ f', m (Db f []) = (None, Db f' []) ∧ m (Db f' []) = (None, Db f' [])).

(** Whatever fails, opening a store keeps every row of the file, and leaves one
    connection open exactly when it succeeds; then the table is there.  A store
    that is closed and opened again is as it was. *)
Theorem open_store_correct (m : State (db (store_file R)) (option error)) (path : string)
    (mkdir_err open_err : option foreign) (d : db (store_file R)) :
  migrates m →
  let '(r, d') := open_store m path mkdir_err open_err d in
  default empty_table (sf_table (tables d')) = default empty_table (sf_table (tables d)) ∧
  match r with
  | None => sf_conns (tables d') = sf_conns (tables d) + 1 ∧ is_Some (sf_table (tables d')) ∧
            sf_conns (tables (Close d').2) = sf_conns (tables d)
  | Some _ => sf_conns (tables d') = sf_conns (tables d)
  end.
Proof.
  intros [Hm _]. unfold open_store. destruct (if String.eqb _ _ then _ else _); [done|]. destruct open_err; [done|].
  rewrite bind_run. cbn [connect modify]. rewrite bind_run.
  match goal with |- context [m ?d1] => specialize (Hm d1); destruct (m d1) as [r d2] end.
  destruct Hm as [[H1 H2] H3]. destruct r as [e|]; simpl in *.
  - split; [done|lia].
  - split; [done|]. split; [done|]. split; [auto|lia].
Qed.

(** With a directory and a database that answer, opening succeeds, and opening
    again changes nothing but the number of connections. *)
Theorem open_store_runs (m : State (db (store_file R)) (option error)) (path : string) (f : store_file R) :
  migrates m →
  ∃ f', open_store m path None None (Db f []) = (None, Db f' []) ∧ is_Some (sf_table f') ∧
  default empty_table (sf_table f') = default empty_table (sf_table f).
Proof.
  intros [Hm Hr]. unfold open_store. replace (if String.eqb path ":memory:" then None else None) with (@None foreign) by by case_match.
  rewrite bind_run. cbn [connect modify tables faults]. rewrite bind_run.
  set (f1 := mkStoreFile _ _ _ _). destruct (Hr f1) as (f' & E & _). specialize (Hm (Db f1 [])). rewrite E in *.
  destruct Hm as [[H1 H2] H3]. eexists. split; [done|]. simpl in *. auto.
Qed.
End proofs.

Lemma acl_migrates : migrates acl_migrate.
Proof.
  split.
  - intros d. unfold acl_migrate. rewrite bind_run. pose proof (exec_all_keeps [PragmaForeignKeys] d) as H.
    destruct (exec_all [PragmaForeignKeys] d) as [[e|] d1]; destruct H as [[H1 H2] _]; [done|].
    pose proof (exec_all_keeps [CreateTable; CreateIndex] d1) as K. destruct (exec_all _ d1) as [r d2].
    destruct K as [[K1 K2] K3]. split; [split; congruence|]. intros Hr. apply K3; [done|]. right. left.
  - intros f. eexists. split; [reflexivity|]. by destruct (sf_table f).
Qed.

Lemma one_exec_migrates {R : Type} ss : head ss = Some CreateTable → Forall (λ s, s ≠ PragmaForeignKeys) ss →
  (length ss ≤ 2)%nat → migrates (R := R) (exec_all ss).
Proof.
  intros Hh Hs Hl. split.
  - intros d. pose proof (exec_all_keeps ss d) as H. destruct (exec_all ss d) as [r d']. destruct H as [H1 H2].
    split; [done|]. intros Hr. apply H2; [done|]. right. destruct ss; simplify_eq/=. left.
  - intros f. destruct ss as [|s [|s2 [|]]]; simplify_eq/=; [| |lia].
    + eexists. split; reflexivity.
    + destruct s2; [by inversion_clear Hs as [|? ? _ H]; inversion H| |]; eexists; (split; [reflexivity|]); by destruct (sf_table f).
Qed.

(** The three stores open as [open_store_correct] says. *)
Lemma stores_migrate : migrates acl_migrate ∧ migrates user_migrate ∧ migrates history_migrate.
Proof. split_and!; [apply acl_migrates| |]; apply one_exec_migrates; repeat constructor; done. Qed.
