(* ===== verification/HistorianWriter.v ===== *)
(** * [internal/historian/writer.go]: the batching writer

    The writer between its channel and the store: the enqueuing callers, the
    turns of the loop of [run], [Stop] and the end of the context are steps that
    interleave freely.  A [select] with several ready cases takes any of them. *)

From S2P Require Import Prelude GoString GoTime GoError Sql Historian.

(** ** The writer *)

Record WriterOptions := mkWriterOptions { BufferSize : Z; BatchSize : Z; FlushInterval : Z }.

Definition writer_defaults (o : WriterOptions) : WriterOptions :=
  mkWriterOptions (if BufferSize o <=? 0 then 1024 else BufferSize o)
    (if BatchSize o <=? 0 then 100 else BatchSize o)
    (if FlushInterval o <=? 0 then Second else FlushInterval o).

(** The channel and whether it is closed, the error of the context of [run] once
    it is done, the pending batch, the store, the slot of [errCh], and whether
    the goroutine still runs ([done] is closed when it does not). *)
Record writer := mkWriter {
  wr_ch : list (Sample value); wr_closed : bool; wr_ctx : option error;
  wr_batch : list (Sample value); wr_store : hist; wr_err : option error; wr_running : bool;
}.

Definition NewWriter (h : hist) : writer := mkWriter [] false None [] h None true.

Definition set_ch ch w := mkWriter ch (wr_closed w) (wr_ctx w) (wr_batch w) (wr_store w) (wr_err w) (wr_running w).
Definition set_closed w := mkWriter (wr_ch w) true (wr_ctx w) (wr_batch w) (wr_store w) (wr_err w) (wr_running w).
Definition set_ctx e w := mkWriter (wr_ch w) (wr_closed w) e (wr_batch w) (wr_store w) (wr_err w) (wr_running w).
Definition set_batch b w := mkWriter (wr_ch w) (wr_closed w) (wr_ctx w) b (wr_store w) (wr_err w) (wr_running w).
Definition set_store h w := mkWriter (wr_ch w) (wr_closed w) (wr_ctx w) (wr_batch w) h (wr_err w) (wr_running w).
Definition set_err e w := mkWriter (wr_ch w) (wr_closed w) (wr_ctx w) (wr_batch w) (wr_store w) e (wr_running w).
Definition stop_running w := mkWriter (wr_ch w) (wr_closed w) (wr_ctx w) (wr_batch w) (wr_store w) (wr_err w) false.

(** What a call of [Enqueue] meets: [Blocks] when it waits. *)
Inductive enqueued := Accepted | Refused (err : error) | Blocks | SendOnClosed.

(** What the loop of [run] selects; a case that is not ready leaves the writer
    as it is. *)
Inductive wevent := Receive | Tick | CtxDone.

Section writer.
Context (opts : WriterOptions).

(** [Enqueue] under a context of its own; [prefer_ctx] is the choice of the
    [select] when both cases are ready. *)
Definition Enqueue (prefer_ctx : bool) (ctx_err : option error) (s : Sample value)
    : State writer enqueued := λ w,
  let sent :=
    if wr_closed w then Some (SendOnClosed, w)
    else if Z.of_nat (length (wr_ch w)) <? BufferSize (writer_defaults opts)
    then Some (Accepted, set_ch (wr_ch w ++ [s]) w)
    else None in
  match sent, ctx_err with
  | Some r, None => r
  | Some r, Some err => if prefer_ctx then (Refused err, w) else r
  | None, Some err => (Refused err, w)
  | None, None => (Blocks, w)
  end.

(** [flush]: the answer tells whether the loop goes on. *)
Definition flush : State writer bool := λ w,
  match wr_batch w with
  | [] => (true, w)
  | batch =>
      match InsertBatch (wr_ctx w) batch (wr_store w) with
      | (Some err, h) =>
          (false, set_store h (set_err (match wr_err w with Some e => Some e | None => Some err end) w))
      | (None, h) => (true, set_store h (set_batch [] w))
      end
  end.

Definition flush_or_return : State writer unit :=
  ok ← flush;
  if (ok : bool) then mret tt else modify stop_running.

Definition flush_and_return : State writer unit :=
  _ ← flush;
  modify stop_running.

(** One turn of the loop. *)
Definition writer_turn (e : wevent) : State writer unit :=
  w ← get_state;
  if negb (wr_running w) then mret tt
  else match e with
  | CtxDone => match wr_ctx w with Some _ => flush_and_return | None => mret tt end
  | Receive =>
      match wr_ch w with
      | [] => if wr_closed w then flush_and_return else mret tt
      | s :: ch =>
          _ ← set_state (set_batch (wr_batch w ++ [s]) (set_ch ch w));
          if BatchSize (writer_defaults opts) <=? Z.of_nat (length (wr_batch w ++ [s]))
          then flush_or_return else mret tt
      end
  | Tick => flush_or_return
  end.

(** [Stop]: [None] while it waits.  [prefer_ctx] as in [Enqueue]. *)
Definition Stop_wait (prefer_ctx : bool) (ctx_err : option error)
    : State writer (option (option error)) := λ w,
  let finished := (Some (wr_err w), set_err None w) in
  match wr_running w, ctx_err with
  | false, None => finished
  | false, Some err => if prefer_ctx then (Some (Some err), w) else finished
  | true, Some err => (Some (Some err), w)
  | true, None => (None, w)
  end.

(** The steps of the goroutines around a writer. *)
Inductive wstep :=
| Enqueuing (prefer_ctx : bool) (ctx_err : option error) (s : Sample value)
| Turn (e : wevent)
| CloseCh
| CancelCtx (err : error).

Definition writer_step (x : wstep) : State writer unit :=
  match x with
  | Enqueuing p c s => _ ← Enqueue p c s; mret tt
  | Turn e => writer_turn e
  | CloseCh => modify set_closed
  | CancelCtx err => modify (set_ctx (Some err))
  end.

Definition writer_run (xs : list wstep) : State writer unit := for_each xs writer_step.

(** The samples whose [Enqueue] returned nil. *)
Definition accepts (x : wstep) (w : writer) : list (Sample value) :=
  match x with
  | Enqueuing p c s => match (Enqueue p c s w).1 with Accepted => [s] | _ => [] end
  | _ => []
  end.

Fixpoint accepted (xs : list wstep) (w : writer) : list (Sample value) :=
  match xs with
  | [] => []
  | x :: xs => accepts x w ++ accepted xs (writer_step x w).2
  end.

(** ** What a writer holds *)

Definition stored (w : writer) : list sample_row := contents (h_db (wr_store w)).

(** What the writer is responsible for: the stored rows, then the pending batch,
    then the channel. *)
Definition holds (w : writer) : list sample_row :=
  stored w ++ (row_of <$> wr_batch w ++ wr_ch w).

Lemma flush_spec w :
  let '(ok, w') := flush w in
  holds w' = holds w ∧ wr_ch w' = wr_ch w ∧ wr_running w' = wr_running w ∧
  wr_closed w' = wr_closed w ∧ wr_ctx w' = wr_ctx w ∧ (ok = true → wr_batch w' = []) ∧
  (length (wr_batch w') ≤ length (wr_batch w))%nat.
Proof.
  unfold flush. destruct (wr_batch w) as [|s b] eqn:Eb; [by rewrite Eb; split_and!|].
  pose proof (InsertBatch_spec (wr_ctx w) (s :: b) (wr_store w)) as H.
  destruct (InsertBatch _ _ _) as [[e|] h]; unfold holds, stored; simpl; rewrite Eb; simpl.
  - unfold contents. rewrite H. by split_and!.
  - rewrite H. simpl. rewrite <- app_assoc, fmap_app. split_and!; try done. simpl. lia.
Qed.

Lemma flush_or_return_spec w :
  let w' := (flush_or_return w).2 in
  holds w' = holds w ∧ wr_ch w' = wr_ch w ∧ (wr_running w' = true → wr_batch w' = []).
Proof.
  unfold flush_or_return. rewrite bind_run. pose proof (flush_spec w) as H.
  destruct (flush w) as [[] w1]; destruct H as (H1 & H2 & _ & _ & _ & H5 & _); simpl; split_and!; auto.
Qed.

Lemma flush_and_return_spec w :
  let w' := (flush_and_return w).2 in
  holds w' = holds w ∧ wr_ch w' = wr_ch w ∧ wr_running w' = false.
Proof.
  unfold flush_and_return. rewrite bind_run. pose proof (flush_spec w) as H.
  destruct (flush w) as [b w1]; destruct H as (H1 & H2 & _). by simpl.
Qed.

Lemma turn_running e w : wr_running w = true →
  writer_turn e w =
  match e with
  | CtxDone => match wr_ctx w with Some _ => flush_and_return w | None => (tt, w) end
  | Receive =>
      match wr_ch w with
      | [] => if wr_closed w then flush_and_return w else (tt, w)
      | s :: ch =>
          let w1 := set_batch (wr_batch w ++ [s]) (set_ch ch w) in
          if BatchSize (writer_defaults opts) <=? Z.of_nat (length (wr_batch w ++ [s]))
          then flush_or_return w1 else (tt, w1)
      end
  | Tick => flush_or_return w
  end.
Proof.
  intros Hr. unfold writer_turn. rewrite bind_run. unfold get_state at 1. cbv beta iota.
  rewrite Hr. cbn [negb]. destruct e; [|done|by destruct (wr_ctx w)].
  destruct (wr_ch w) as [|s ch]; [by destruct (wr_closed w)|].
  rewrite bind_run. unfold set_state at 1. cbv beta iota. by destruct (_ <=? _).
Qed.

Lemma turn_stopped e w : wr_running w = false → writer_turn e w = (tt, w).
Proof. intros Hr. unfold writer_turn. rewrite bind_run. unfold get_state at 1. cbv beta iota. by rewrite Hr. Qed.

Lemma turn_holds e w : holds (writer_turn e w).2 = holds w.
Proof.
  destruct (wr_running w) eqn:Er; [|by rewrite turn_stopped].
  rewrite turn_running by done. destruct e.
  - destruct (wr_ch w) as [|s ch] eqn:Ec.
    { destruct (wr_closed w); [apply flush_and_return_spec|done]. }
    cbv zeta. set (w1 := set_batch _ _).
    assert (H1 : holds w1 = holds w).
    { unfold holds, stored. simpl. by rewrite Ec, <- app_assoc. }
    destruct (_ <=? _); [|done]. rewrite <- H1. apply flush_or_return_spec.
  - apply flush_or_return_spec.
  - destruct (wr_ctx w); [apply flush_and_return_spec|done].
Qed.

Lemma Enqueue_spec p c s w :
  let '(r, w') := Enqueue p c s w in
  w' = w ∨ r = Accepted ∧ wr_closed w = false ∧ w' = set_ch (wr_ch w ++ [s]) w ∧
           Z.of_nat (length (wr_ch w)) < BufferSize (writer_defaults opts).
Proof. unfold Enqueue. repeat split_match; simplify_eq; bool_to_prop; auto. Qed.

Lemma Enqueue_accepts p c s w :
  (Enqueue p c s w).2 = set_ch (wr_ch w ++ accepts (Enqueuing p c s) w) w.
Proof.
  unfold accepts, Enqueue. destruct w. repeat split_match; simplify_eq; simpl in *; by rewrite ?app_nil_r.
Qed.

Lemma step_holds x w :
  holds (writer_step x w).2 = holds w ++ (row_of <$> accepts x w).
Proof.
  destruct x as [p c s|e| |err]; cbn [writer_step accepts]; rewrite ?app_nil_r; try done.
  - rewrite bind_run. pose proof (Enqueue_accepts p c s w) as E. unfold accepts in E.
    destruct (Enqueue p c s w) as [r w1]. simpl in *. subst w1.
    unfold holds, stored. simpl. rewrite !fmap_app, <- !app_assoc. done.
  - apply turn_holds.
Qed.

Lemma writer_conserves_run (xs : list wstep) (w : writer) :
  holds (writer_run xs w).2 = holds w ++ (row_of <$> accepted xs w).
Proof.
  unfold writer_run. revert w. induction xs as [|x xs IH]; intros w.
  { by rewrite app_nil_r. }
  cbn [for_each accepted]. rewrite bind_run, fmap_app, app_assoc, <- step_holds.
  destruct (writer_step x w) as [[] w1]. apply IH.
Qed.

(** C38 However callers, the loop, [Stop] and the end of the context interleave and
    however the database fails, no sample is lost track of, stored twice or out
    of order: what is stored, then pending, then queued is what was there before
    followed by what [Enqueue] accepted. *)
Theorem writer_conserves (xs : list wstep) (w : writer) :
  holds (writer_run xs w).2 = holds w ++ (row_of <$> accepted xs w).
Proof. apply writer_conserves_run. Qed.

(** ** Bounds *)

Definition bounded (w : writer) : Prop :=
  Z.of_nat (length (wr_ch w)) ≤ BufferSize (writer_defaults opts) ∧
  (wr_running w = true → Z.of_nat (length (wr_batch w)) < BatchSize (writer_defaults opts)).

Lemma batch_size_pos : 0 < BatchSize (writer_defaults opts).
Proof. unfold writer_defaults. simpl. case_match; lia. Qed.

Lemma step_bounded x w : bounded w → bounded (writer_step x w).2.
Proof.
  intros [Hc Hb]. pose proof batch_size_pos as Hp. destruct x as [p c s|e| |err]; cbn [writer_step].
  - rewrite bind_run. pose proof (Enqueue_spec p c s w) as H. destruct (Enqueue p c s w) as [r w1].
    destruct H as [->|(_ & _ & -> & H)]; [done|].
    change (bounded (set_ch (wr_ch w ++ [s]) w)). split; [|exact Hb]. cbn [wr_ch set_ch]. rewrite length_app. cbn [length]. lia.
  - destruct (wr_running w) eqn:Er; [|rewrite turn_stopped by done; split; [done|intros H; cbn [snd] in H; congruence]].
    specialize (Hb eq_refl). rewrite turn_running by done.
    assert (Hfr : ∀ w1, wr_ch w1 `suffix_of` wr_ch w → bounded (flush_or_return w1).2).
    { intros w1 Hs%suffix_length. destruct (flush_or_return_spec w1) as (_ & H2 & H3). split.
      - rewrite H2. lia.
      - intros ?. rewrite H3 by done. done. }
    assert (Hfa : bounded (flush_and_return w).2).
    { destruct (flush_and_return_spec w) as (_ & H2 & H3). split; [by rewrite H2|by rewrite H3]. }
    destruct e.
    + destruct (wr_ch w) as [|s ch] eqn:Ec; [destruct (wr_closed w); [done|split; cbn [snd]; [by rewrite Ec|by intros _]]|].
      cbv zeta. destruct (Z.leb_spec (BatchSize (writer_defaults opts)) (Z.of_nat (length (wr_batch w ++ [s])))).
      * apply Hfr. by exists [s].
      * split; simpl in *; [lia|done].
    + by apply Hfr.
    + destruct (wr_ctx w); [done|by split].
  - by split.
  - by split.
Qed.

(** The queue never exceeds its buffer, and a running writer never keeps a full
    batch. *)
Theorem writer_bounded (xs : list wstep) (h : hist) : bounded (writer_run xs (NewWriter h)).2.
Proof.
  unfold writer_run. apply (for_each_inv bounded); [intros x w; apply step_bounded|].
  split; simpl; [|intros _; apply batch_size_pos]. unfold writer_defaults. simpl. case_match; lia.
Qed.

(** ** Delivery *)

(** A writer whose context is open and whose database answers. *)
Definition live (w : writer) : Prop :=
  wr_err w = None ∧ wr_ctx w = None ∧ writerBusy (wr_store w) = false ∧
  faults (h_db (wr_store w)) = [].

Lemma flush_live w : live w →
  ∃ h, flush w = (true, set_store h (set_batch [] w)) ∧ live (set_store h w) ∧
       contents (h_db h) = stored w ++ (row_of <$> wr_batch w).
Proof.
  intros (He & Hctx & Hb & Hf). unfold flush, stored. destruct (wr_batch w) as [|s b] eqn:Eb.
  { exists (wr_store w). rewrite app_nil_r. split; [|by split_and!]. destruct w. simpl in *. by subst. }
  unfold InsertBatch. rewrite Hb, Hctx. destruct (h_db (wr_store w)) as [t fs]. simpl in Hf. subst fs.
  destruct (insert_tx_ok (s :: b) t) as (t' & -> & Hrows). eexists. split; [done|]. by split_and!.
Qed.

Lemma flush_or_return_live w : live w →
  let w' := (flush_or_return w).2 in
  live w' ∧ wr_running w' = wr_running w ∧ wr_closed w' = wr_closed w.
Proof.
  intros Hw. unfold flush_or_return. rewrite bind_run.
  destruct (flush_live w Hw) as (h & -> & Hl & _). by split_and!.
Qed.

Lemma flush_and_return_live w : live w →
  let w' := (flush_and_return w).2 in
  live w' ∧ wr_running w' = false ∧ stored w' = stored w ++ (row_of <$> wr_batch w).
Proof.
  intros Hw. unfold flush_and_return. rewrite bind_run.
  destruct (flush_live w Hw) as (h & -> & Hl & Hs). by split_and!.
Qed.

Lemma live_set_batch b ch w : live w → live (set_batch b (set_ch ch w)).
Proof. by intros (? & ? & ? & ?). Qed.

(** What callers and the loop do before the writer is stopped. *)
Definition feeding (x : wstep) : bool :=
  match x with Enqueuing _ _ _ | Turn _ => true | _ => false end.

Lemma step_live x w : live w → wr_running w = true → wr_closed w = false → feeding x = true →
  let w' := (writer_step x w).2 in live w' ∧ wr_running w' = true ∧ wr_closed w' = false.
Proof.
  intros Hl Hr Hc Hf. destruct x as [p c s|e| |err]; try done; cbn [writer_step].
  - rewrite bind_run. pose proof (Enqueue_spec p c s w) as H. destruct (Enqueue p c s w) as [r w1].
    by destruct H as [->|(_ & _ & -> & _)].
  - rewrite turn_running by done.
    destruct e.
    + destruct (wr_ch w) as [|s ch]; [by rewrite Hc|]. cbv zeta. destruct (_ <=? _); [|by split_and!].
      destruct (flush_or_return_live _ (live_set_batch (wr_batch w ++ [s]) ch w Hl)) as (H1 & H2 & H3).
      split_and!; [done|by rewrite H2|by rewrite H3].
    + destruct (flush_or_return_live w Hl) as (H1 & H2 & H3). cbv zeta. by rewrite H2, H3.
    + destruct Hl as (? & Hctx & ?). rewrite Hctx. by split_and!.
Qed.

Lemma run_live xs w : live w → wr_running w = true → wr_closed w = false →
  forallb feeding xs = true →
  let w' := (writer_run xs w).2 in live w' ∧ wr_running w' = true ∧ wr_closed w' = false.
Proof.
  unfold writer_run. revert w. induction xs as [|x xs IH]; intros w Hl Hr Hc He; [done|].
  cbn [forallb] in He. bool_to_prop. cbn [for_each]. rewrite bind_run.
  destruct (step_live x w) as (H1 & H2 & H3); [done..|].
  destruct (writer_step x w) as [[] w1]. by apply IH.
Qed.

Definition receives (es : list wevent) : nat :=
  length (List.filter (λ e, match e with Receive => true | _ => false end) es).

Lemma run_stopped es w : wr_running w = false → writer_run (Turn <$> es) w = (tt, w).
Proof.
  intros Hr. unfold writer_run. induction es as [|e es IH]; [done|].
  cbn [fmap list_fmap for_each writer_step]. rewrite bind_run, turn_stopped by done. exact IH.
Qed.

Lemma drain es w : live w → wr_closed w = true → wr_running w = true →
  (length (wr_ch w) < receives es)%nat →
  let w' := (writer_run (Turn <$> es) w).2 in
  wr_running w' = false ∧ wr_err w' = None ∧ stored w' = holds w.
Proof.
  revert w. induction es as [|e es IH]; intros w Hl Hc Hr Hn; [unfold receives in Hn; simpl in Hn; lia|].
  unfold writer_run in *. cbn [fmap list_fmap for_each writer_step]. rewrite bind_run.
  pose proof (turn_holds e w) as Hh. revert Hh. rewrite turn_running by done.
  assert (Hfr : ∀ w1, live w1 → wr_closed w1 = true → wr_running w1 = true →
    (length (wr_ch w1) < receives es)%nat → holds (flush_or_return w1).2 = holds w →
    let w' := (let '(_, s') := flush_or_return w1 in for_each (Turn <$> es) writer_step s').2 in
    wr_running w' = false ∧ wr_err w' = None ∧ stored w' = holds w).
  { intros w1 H1 H2 H3 H4 <-. destruct (flush_or_return_live w1 H1) as (H5 & H6 & H7).
    destruct (flush_or_return_spec w1) as (_ & H8 & _). destruct (flush_or_return w1) as [u w2].
    simpl in *. apply IH; [done|by rewrite H7|by rewrite H6|by rewrite H8]. }
  destruct e.
  - change (receives (Receive :: es)) with (S (receives es)) in Hn. destruct (wr_ch w) as [|s ch] eqn:Ec.
    + rewrite Hc. intros _. destruct (flush_and_return_live w Hl) as (H1 & H2 & H3).
      destruct (flush_and_return w) as [[] w1]. simpl in *.
      pose proof (run_stopped es w1 H2) as E. unfold writer_run in E. rewrite E. cbn [snd].
      destruct H1 as (H1 & _). split_and!; [done..|]. unfold holds. by rewrite H3, Ec, app_nil_r.
    + cbn [length] in Hn. cbv zeta. destruct (_ <=? _); intros Hh.
      * apply Hfr; [by apply live_set_batch|done..|simpl; lia|done].
      * cbn [snd] in Hh. rewrite <- Hh. apply IH; [by apply live_set_batch|done..|simpl; lia].
  - intros Hh. by apply Hfr.
  - pose proof Hl as (_ & Hctx & _). rewrite Hctx. intros _. by apply IH.
Qed.


(** ** Shutdown *)

Lemma flush_cancelled w : is_Some (wr_ctx w) → stored (flush w).2 = stored w ∧ wr_ctx (flush w).2 = wr_ctx w.
Proof.
  intros [err Hctx]. unfold flush, stored, InsertBatch. destruct (wr_batch w) as [|s b]; [done|].
  rewrite Hctx. destruct (writerBusy _); simpl; by rewrite Hctx.
Qed.

Lemma step_cancelled x w : is_Some (wr_ctx w) →
  stored (writer_step x w).2 = stored w ∧ is_Some (wr_ctx (writer_step x w).2).
Proof.
  intros Hctx. destruct x as [p c s|e| |err]; cbn [writer_step].
  - rewrite bind_run. pose proof (Enqueue_spec p c s w) as H. destruct (Enqueue p c s w) as [r w1].
    by destruct H as [->|(_ & _ & -> & _)].
  - destruct (wr_running w) eqn:Er; [|by rewrite turn_stopped]. rewrite turn_running by done.
    assert (Hf : ∀ w1, wr_store w1 = wr_store w → wr_ctx w1 = wr_ctx w →
      (stored (flush_or_return w1).2 = stored w ∧ is_Some (wr_ctx (flush_or_return w1).2)) ∧
      (stored (flush_and_return w1).2 = stored w ∧ is_Some (wr_ctx (flush_and_return w1).2))).
    { intros w1 Hs Hw. unfold flush_or_return, flush_and_return. rewrite !bind_run.
      destruct (flush_cancelled w1) as [H1 H2]; [by rewrite Hw|].
      replace (stored w) with (stored w1) by (unfold stored; by rewrite Hs).
      destruct (flush w1) as [[] w2]; simpl in *; rewrite H2, Hw; by split_and!. }
    destruct e; repeat case_match; try apply Hf; done.
  - done.
  - split; [done|]. by eexists.
Qed.

(** Once the context of the writer has ended nothing more is stored, whatever
    happens: the samples pending or queued at that moment are lost. *)
Theorem cancel_loses_pending (err : error) (xs : list wstep) (w : writer) :
  let w' := (writer_run (CancelCtx err :: xs) w).2 in
  stored w' = stored w ∧ holds w' = holds w ++ (row_of <$> accepted xs (set_ctx (Some err) w)).
Proof.
  cbv zeta. split.
  - unfold writer_run. cbn [for_each writer_step]. rewrite bind_run. cbn [modify].
    enough (H : ∀ w1, is_Some (wr_ctx w1) → stored (for_each xs writer_step w1).2 = stored w1).
    { by rewrite H. }
    induction xs as [|x xs IH]; intros w1 H1; [done|]. cbn [for_each]. rewrite bind_run.
    destruct (step_cancelled x w1 H1) as [H2 H3]. destruct (writer_step x w1) as [[] w2]. simpl in *.
    by rewrite IH.
  - rewrite writer_conserves_run. done.
Qed.
End writer.

(** ** Concrete runs *)

