(* ===== verification/ApiTags.v ===== *)
(** * [internal/server]: current tags and their live stream

    [GET /api/tags/current] over the manager's tag store, and the hub that
    fans tag updates out to the WebSocket clients. *)

From S2P Require Import Prelude GoString GoTime GoError Config Sql Http PlcManager.

(** ** The snapshot *)

Record tagResponse := mkTagResponse {
  trPLC : string; trTag : string; trValue : value; trQuality : string; trTimestamp : time;
}.

Definition tag_json (t : tagResponse) : value :=
  VObj [("plc", VString (trPLC t)); ("tag", VString (trTag t)); ("value", trValue t);
        ("quality", VString (trQuality t)); ("timestamp", VTime (trTimestamp t))].

(** The less-than of [sort.Slice], as an order. *)
Definition tag_le (x y : tagResponse) : Prop := lex_le [trPLC x; trTag x] [trPLC y; trTag y] = true.

#[export] Instance tag_le_dec : RelDecision tag_le.
Proof. intros x y. unfold tag_le. apply _. Defined.
#[export] Instance tag_le_total : Total tag_le.
Proof.
  intros x y. pose proof (order_by_total (R := tagResponse) (λ t, [trPLC t; trTag t]) (0, x) (0, y)) as H.
  exact H.
Qed.
#[export] Instance tag_le_trans : Transitive tag_le.
Proof.
  intros x y z. exact (order_by_trans (R := tagResponse) (λ t, [trPLC t; trTag t]) (0, x) (0, y) (0, z)).
Qed.

(** The rows of the two nested loops over the maps, in some order. *)
Definition snapshot_rows (snapshot : tag_store) : list tagResponse :=
  '(plc, tags) ← map_to_list snapshot;
  '(tag, v) ← map_to_list tags;
  [mkTagResponse plc tag (vValue v) (vQuality v) (vTimestamp v)].

Definition flattenSnapshot (snapshot : tag_store) : list tagResponse :=
  merge_sort tag_le (snapshot_rows snapshot).

(** [has_provider] is whether [plcMgr] is a [tagSnapshotProvider]. *)
Definition handleCurrentTags (has_provider : bool) : handler manager unit := λ r,
  match parsePagination r with
  | inr resp => mret resp
  | inl (limit, offset) =>
      if negb has_provider then mret (writeJSON StatusOK (data_page [] limit offset 0))
      else
        m ← get_state;
        let rows := flattenSnapshot (CurrentSnapshot m) in
        mret (match page limit offset rows with
              | None => panic
              | Some rs =>
                  writeJSON StatusOK
                    (data_page (tag_json <$> rs) limit offset (Z.of_nat (length rows)))
              end)
  end.

Lemma elem_of_snapshot_rows snapshot x :
  x ∈ snapshot_rows snapshot ↔
  tag_lookup (trPLC x) (trTag x) snapshot = Some (mkTagValue (trValue x) (trTimestamp x) (trQuality x)).
Proof.
  unfold snapshot_rows, tag_lookup. rewrite list_elem_of_bind. split.
  - intros ([plc tags] & Hx & Hp%elem_of_map_to_list). apply list_elem_of_bind in Hx as ([tag v] & Hx & Ht).
    apply elem_of_map_to_list in Ht. apply list_elem_of_singleton in Hx. subst x. simpl.
    rewrite Hp. simpl. rewrite Ht. by destruct v.
  - intros (tags & Hp & Ht)%bind_Some. exists (trPLC x, tags). split; [|by apply elem_of_map_to_list].
    apply list_elem_of_bind. eexists (trTag x, _). split; [|by apply elem_of_map_to_list].
    apply list_elem_of_singleton. by destruct x.
Qed.

Lemma snapshot_rows_NoDup snapshot : NoDup ((λ x, (trPLC x, trTag x)) <$> snapshot_rows snapshot).
Proof.
  unfold snapshot_rows. pose proof (NoDup_fst_map_to_list snapshot) as Hnd.
  induction (map_to_list snapshot) as [|[plc tags] l IH]; [constructor|].
  rewrite bind_cons, fmap_app. apply NoDup_app. apply NoDup_cons in Hnd as [Hn Hnd]. split_and!.
  - clear. pose proof (NoDup_fst_map_to_list tags) as Hnd.
    induction (map_to_list tags) as [|[tag v] l IH]; [constructor|]. simpl.
    apply NoDup_cons in Hnd as [Hn Hnd]. constructor; [|by apply IH].
    intros (y & Hy & Hin)%list_elem_of_fmap. apply list_elem_of_bind in Hin as ([tag' v'] & Hin & Hl).
    apply list_elem_of_singleton in Hin. subst y. simplify_eq/=. apply Hn.
    apply list_elem_of_fmap. by exists (tag', v').
  - intros [p t] (y & Hy & Hin)%list_elem_of_fmap (z & Hz & Hinz)%list_elem_of_fmap.
    apply list_elem_of_bind in Hin as ([tag v] & Hin & _). apply list_elem_of_singleton in Hin. subst y.
    apply list_elem_of_bind in Hinz as ([plc' tags'] & Hinz & Hl).
    apply list_elem_of_bind in Hinz as ([tag' v'] & Hinz & _).
    apply list_elem_of_singleton in Hinz. subst z. simplify_eq/=. apply Hn.
    apply list_elem_of_fmap. eexists. split; [|exact Hl]. done.
  - by apply IH.
Qed.

(** The current tags are answered in the order of (plc, tag), every stored tag
    once, a page at a time: the pages of a fixed size put end to end are the
    whole snapshot, and no page request panics. *)
Theorem handleCurrentTags_correct (r : request unit) (m : manager) (limit offset : Z) :
  parsePagination r = inl (limit, offset) →
  Z.of_nat (length (snapshot_rows (CurrentSnapshot m))) < 2 ^ 62 →
  ∃ rows, handleCurrentTags true r m =
    (writeJSON StatusOK
       (data_page (tag_json <$> take (Z.to_nat limit) (drop (Z.to_nat offset) rows)) limit offset
          (Z.of_nat (length rows))), m) ∧
  Sorted tag_le rows ∧ NoDup ((λ x, (trPLC x, trTag x)) <$> rows) ∧
  ∀ x, x ∈ rows ↔ CurrentTag (trPLC x) (trTag x) m =
                  Some (mkTagValue (trValue x) (trTimestamp x) (trQuality x)).
Proof.
  intros Hp Hlen. destruct (parsePagination_ok r limit offset Hp) as [Hl Ho].
  exists (flattenSnapshot (CurrentSnapshot m)). unfold flattenSnapshot.
  pose proof (merge_sort_Permutation tag_le (snapshot_rows (CurrentSnapshot m))) as Hperm.
  split_and!.
  - unfold handleCurrentTags. rewrite Hp. cbn [negb]. rewrite bind_run. unfold get_state.
    cbv beta iota. unfold flattenSnapshot. rewrite page_total; [done|done|lia|by rewrite Hperm].
  - apply Sorted_merge_sort, _.
  - rewrite Hperm. apply snapshot_rows_NoDup.
  - intros x. rewrite Hperm. apply elem_of_snapshot_rows.
Qed.

(** ** The hub *)

(** A subscriber, with the updates in its channel. *)
Record tagSubscriber := mkSubscriber {
  sbPLC : string; sbTag : string; sbActive : bool; sbQueue : list TagUpdate; sbClosed : bool;
}.

Definition chan_cap : nat := 16.

(** The subscribers by identity, registered or not, and who is registered. *)
Record tagHub := mkHub { subs : gmap nat tagSubscriber; clients : gset nat }.

Definition newTagHub : tagHub := mkHub ∅ ∅.

Definition alter_sub (f : tagSubscriber → tagSubscriber) (i : nat) (h : tagHub) : tagHub :=
  mkHub (alter f i (subs h)) (clients h).

Definition setFilter (plc tag : string) (s : tagSubscriber) : tagSubscriber :=
  mkSubscriber plc tag true (sbQueue s) (sbClosed s).
Definition unsubscribe (s : tagSubscriber) : tagSubscriber :=
  mkSubscriber "" "" false (sbQueue s) (sbClosed s).

Definition register (i : nat) (h : tagHub) : tagHub := mkHub (subs h) ({[i]} ∪ clients h).

(** [None] is the panic of closing a channel twice. *)
Definition unregister (i : nat) (h : tagHub) : option tagHub :=
  s ← subs h !! i;
  if sbClosed s then None
  else Some (mkHub (<[i := mkSubscriber (sbPLC s) (sbTag s) (sbActive s) (sbQueue s) true]> (subs h))
               (clients h ∖ {[i]})).

Definition matches (s : tagSubscriber) (u : TagUpdate) : bool :=
  if negb (sbActive s) then false
  else if negb (String.eqb (sbPLC s) "") && negb (String.eqb (sbPLC s) (uPLCName u)) then false
  else if negb (String.eqb (sbTag s) "") && negb (String.eqb (sbTag s) (uTag u)) then false
  else true.

(** What [publish] does to one registered subscriber; the second component tells
    whether it sends on a closed channel, which panics. *)
Definition offer (u : TagUpdate) (s : tagSubscriber) : tagSubscriber * bool :=
  if negb (matches s u) then (s, false)
  else if sbClosed s then (s, true)
  else if (length (sbQueue s) <? chan_cap)%nat
  then (mkSubscriber (sbPLC s) (sbTag s) (sbActive s) (sbQueue s ++ [u]) (sbClosed s), false)
  else (s, false).

(** [None] is the panic. *)
Definition publish (u : TagUpdate) (h : tagHub) : option tagHub :=
  if decide (map_Exists (λ i s, i ∈ clients h ∧ (offer u s).2 = true) (subs h)) then None
  else Some (mkHub (map_imap (λ i s, Some (if decide (i ∈ clients h) then (offer u s).1 else s)) (subs h))
               (clients h)).

(** One client: it connects, changes its filter, reads its channel, leaves. *)
Inductive hub_step : tagHub → tagHub → Prop :=
| hub_connect i plc tag h : subs h !! i = None →
    hub_step h (register i (mkHub (<[i := mkSubscriber plc tag true [] false]> (subs h)) (clients h)))
| hub_filter i plc tag h : hub_step h (alter_sub (setFilter plc tag) i h)
| hub_unsubscribe i h : hub_step h (alter_sub unsubscribe i h)
| hub_leave i h h' : i ∈ clients h → unregister i h = Some h' → hub_step h h'
| hub_receive i s u q h : subs h !! i = Some s → sbQueue s = u :: q →
    hub_step h (mkHub (<[i := mkSubscriber (sbPLC s) (sbTag s) (sbActive s) q (sbClosed s)]> (subs h))
                  (clients h))
| hub_publish u h h' : publish u h = Some h' → hub_step h h'.

(** Registered channels are open and never hold more than their capacity. *)
Definition hub_ok (h : tagHub) : Prop :=
  ∀ i, (i ∈ clients h → ∃ s, subs h !! i = Some s ∧ sbClosed s = false) ∧
       (∀ s, subs h !! i = Some s → (length (sbQueue s) ≤ chan_cap)%nat).

Lemma hub_ok_update i h s s' :
  hub_ok h → subs h !! i = Some s → sbClosed s' = sbClosed s → (length (sbQueue s') ≤ chan_cap)%nat →
  hub_ok (mkHub (<[i := s']> (subs h)) (clients h)).
Proof.
  intros Hok Hs Hc Hq j. destruct (Hok j) as [H1 H2]. simpl. destruct (decide (j = i)) as [->|Hne].
  - rewrite lookup_insert_eq. split; [|by intros s0 [= <-]].
    intros Hin. destruct (H1 Hin) as (s0 & E & H0). exists s'. split; [done|]. congruence.
  - by rewrite lookup_insert_ne.
Qed.

Lemma hub_ok_alter f i h :
  hub_ok h → (∀ s, sbClosed (f s) = sbClosed s ∧ sbQueue (f s) = sbQueue s) →
  hub_ok (alter_sub f i h).
Proof.
  intros Hok Hf. destruct (subs h !! i) as [s|] eqn:E.
  - unfold alter_sub. assert (alter f i (subs h) = <[i := f s]> (subs h)) as ->.
    { apply map_eq. intros j. destruct (decide (i = j)) as [<-|].
      - by rewrite lookup_alter_eq, lookup_insert_eq, E.
      - by rewrite lookup_alter_ne, lookup_insert_ne. }
    destruct (Hf s) as [H1 H2]. eapply hub_ok_update; [done..|]. rewrite H2. by apply (Hok i).
  - unfold alter_sub. assert (alter f i (subs h) = subs h) as ->; [|by destruct h].
    apply map_eq. intros j. destruct (decide (i = j)) as [<-|].
    + by rewrite lookup_alter_eq, E.
    + by rewrite lookup_alter_ne.
Qed.

Lemma offer_ok u s :
  sbClosed (offer u s).1 = sbClosed s ∧
  ((length (sbQueue s) ≤ chan_cap)%nat → (length (sbQueue (offer u s).1) ≤ chan_cap)%nat).
Proof.
  unfold offer. destruct (negb _); [done|]. destruct (sbClosed s) eqn:E; [done|].
  destruct (Nat.ltb_spec (length (sbQueue s)) chan_cap); simpl; [|done].
  rewrite length_app. simpl. split; [done|lia].
Qed.

Lemma publish_lookup u h h' i :
  publish u h = Some h' →
  clients h' = clients h ∧
  subs h' !! i = (λ s, if decide (i ∈ clients h) then (offer u s).1 else s) <$> subs h !! i.
Proof.
  unfold publish. destruct (decide _); [done|]. intros [= <-]. simpl. split; [done|].
  rewrite map_lookup_imap. by destruct (subs h !! i).
Qed.

Lemma hub_step_ok h h' : hub_step h h' → hub_ok h → hub_ok h'.
Proof.
  intros Hstep Hok. destruct Hstep as [i plc tag h E|i plc tag h|i h|i h h' Hin E|i s u q h E Eq|u h h' E].
  - intros j. destruct (Hok j) as [H1 H2]. simpl. destruct (decide (j = i)) as [->|Hne].
    + rewrite lookup_insert_eq. split; [eauto|]. intros s [= <-]. simpl. lia.
    + rewrite lookup_insert_ne by done. split; [|done].
      intros [Hs|Hs]%elem_of_union; [by apply elem_of_singleton in Hs|auto].
  - by apply hub_ok_alter.
  - by apply hub_ok_alter.
  - unfold unregister in E. apply bind_Some in E as (s & Hs & E). destruct (sbClosed s) eqn:Ec; [done|].
    injection E as <-. intros j. destruct (Hok j) as [H1 H2]. simpl.
    destruct (decide (j = i)) as [->|Hne].
    + rewrite lookup_insert_eq. split; [set_solver|]. intros s0 [= <-]. exact (H2 s Hs).
    + rewrite lookup_insert_ne by done. split; [set_solver|done].
  - eapply hub_ok_update; [done..|]. destruct (Hok i) as [_ H]. specialize (H s E).
    rewrite Eq in H. simpl in *. lia.
  - intros j. destruct (Hok j) as [H1 H2]. destruct (publish_lookup u h h' j E) as [-> ->].
    destruct (subs h !! j) as [s|]; simpl.
    + destruct (offer_ok u s) as [Hc Hq]. split.
      * intros Hin. destruct (H1 Hin) as (s0 & [= <-] & H0). eexists. split; [done|].
        case_decide; congruence.
      * intros s0 [= <-]. specialize (H2 s eq_refl). case_decide; [by apply Hq|done].
    + split; [|done]. intros Hin. by destruct (H1 Hin) as (s0 & ? & _).
Qed.

Lemma publish_ok u h : hub_ok h → ∃ h', publish u h = Some h' ∧ hub_ok h'.
Proof.
  intros Hok. assert (Hnp : ¬ map_Exists (λ i s, i ∈ clients h ∧ (offer u s).2 = true) (subs h)).
  { intros (i & s & Hs & Hin & Ho). destruct (Hok i) as [H1 _]. destruct (H1 Hin) as (s0 & E & Hc).
    simplify_eq. unfold offer in Ho. rewrite Hc in Ho. by repeat split_match_in Ho. }
  assert (∃ h', publish u h = Some h') as [h' E].
  { unfold publish. destruct (decide _); [done|]. eauto. }
  exists h'. split; [done|]. apply (hub_step_ok h); [by apply (hub_publish u)|done].
Qed.

(** However clients connect, change their filters, read slowly and leave, a
    publish never blocks and never panics: each registered client whose filter
    matches gets the update at the end of its channel, or loses it when 16 are
    waiting; nobody else's channel changes. *)
Theorem publish_correct (u : TagUpdate) (h : tagHub) :
  rtc hub_step newTagHub h →
  ∃ h', publish u h = Some h' ∧ clients h' = clients h ∧
  ∀ i s, subs h !! i = Some s →
    ∃ s', subs h' !! i = Some s' ∧ (length (sbQueue s') ≤ chan_cap)%nat ∧
    sbQueue s' = if bool_decide (i ∈ clients h) && matches s u &&
                    (length (sbQueue s) <? chan_cap)%nat
                 then sbQueue s ++ [u] else sbQueue s.
Proof.
  intros Hr. assert (Hok : hub_ok h).
  { assert (H0 : hub_ok newTagHub) by (intros i; split; [set_solver|done]).
    induction Hr; [done|]. eauto using hub_step_ok. }
  destruct (publish_ok u h Hok) as (h' & E & _).
  exists h'. split; [done|]. split; [by apply (publish_lookup u h h' 0%nat)|].
  intros i s Hs. destruct (publish_lookup u h h' i E) as [_ Hl]. rewrite Hs in Hl. simpl in Hl.
  eexists. split; [exact Hl|]. destruct (Hok i) as [H1 H2]. specialize (H2 s Hs).
  destruct (decide (i ∈ clients h)) as [Hin|Hn].
  - rewrite bool_decide_eq_true_2 by done. split; [by apply offer_ok|].
    destruct (H1 Hin) as (s0 & E0 & Hc). simplify_eq. unfold offer. rewrite Hc.
    destruct (matches s u); simpl; [|done]. by destruct (_ <? _)%nat.
  - by rewrite bool_decide_eq_false_2.
Qed.

(** ** Concrete states *)

Definition one_client : tagHub :=
  register 0 (mkHub (<[0%nat := mkSubscriber "plc1" "" true [] false]> (subs newTagHub))
                (clients newTagHub)).

Definition speed_update (plc : string) : TagUpdate := mkTagUpdate plc "Speed" (VBool true) 0 "good".

Theorem publish_correct_witness :
  rtc hub_step newTagHub one_client ∧
  ∃ h', publish (speed_update "plc1") one_client = Some h' ∧
  ∃ s', subs h' !! 0%nat = Some s' ∧ sbQueue s' = [speed_update "plc1"].
Proof.
  assert (Hr : rtc hub_step newTagHub one_client).
  { eapply rtc_l; [|apply rtc_refl]. by apply (hub_connect 0 "plc1" "" newTagHub). }
  split; [exact Hr|].
  destruct (publish_correct (speed_update "plc1") one_client Hr) as (h' & E & _ & H).
  exists h'. split; [done|].
  destruct (H 0%nat (mkSubscriber "plc1" "" true [] false)) as (s' & Hs & _ & Hq); [reflexivity|].
  by exists s'.
Defined.

Definition two_tags : manager :=
  mkManager ∅ (storeTag (mkTagUpdate "plc1" "Speed" (VBool true) 5 "good")
                 (storeTag (mkTagUpdate "plc1" "Run" (VBool false) 6 "bad") ∅))
    false true None [] [] [] [] 0 [].

Definition page_request : request unit :=
  mkRequest "GET" "" (λ _, None) (λ k, if String.eqb k "limit" then "1" else "1") (λ _, "")
    "127.0.0.1:9" None None.

Theorem handleCurrentTags_correct_witness :
  parsePagination page_request = inl (1, 1) ∧
  (handleCurrentTags true page_request two_tags).2 = two_tags ∧
  ∃ rows, Sorted tag_le rows ∧ (∀ x, x ∈ rows ↔ CurrentTag (trPLC x) (trTag x) two_tags =
                  Some (mkTagValue (trValue x) (trTimestamp x) (trQuality x))).
Proof.
  assert (Hp : parsePagination page_request = inl (1, 1)) by (vm_compute; reflexivity).
  split; [exact Hp|].
  destruct (handleCurrentTags_correct page_request two_tags 1 1 Hp) as (rows & E & Hs & _ & H).
  { vm_compute. reflexivity. }
  rewrite E. split; [reflexivity|]. exists rows. split; [exact Hs|exact H].
Defined.
