(* ===== verification/Gateway.v ===== *)
(** * The gateway: every store behind every endpoint

    The handlers of the API over one state, behind the multiplexer and the
    middleware: what a request to a running server does to its stores, its
    audit log and its PLC manager. *)

From S2P Require Import Prelude GoString GoTime GoError Config Sql AclStore PlcStore UserStore Http Auth AuditLog.
From S2P Require Import ApiAuth ApiUsers WriteGuard ApiWrite PlcManager ServerState ApiPlcs ApiAcl ApiConfig ApiTags.
From S2P Require Import Routes Lifecycle Mux Surface.

(** ** The state *)

Record gateway := mkGateway { gw_users : db user_table; gw_server : server }.

Definition on_user_store {A : Type} : State (db user_table) A → State gateway A :=
  zoom gw_users (λ x g, mkGateway x (gw_server g)).
Definition on_server {A : Type} : State server A → State gateway A :=
  zoom gw_server (λ x g, mkGateway (gw_users g) x).

(** The user store and the audit log, for the handlers of a session. *)
Definition on_session {A : Type} : State auth_state A → State gateway A :=
  zoom (λ g, mkAuthState (gw_users g) (sv_audit (gw_server g)))
       (λ x g, mkGateway (au_users x) (set_audit (au_audit x) (gw_server g))).

Definition on_manager {A : Type} : State manager A → State server A := zoom sv_mgr set_mgr.

(** ** Bodies

    What [json.Decoder.Decode] makes of a body for each type the handlers decode
    into. *)
Record decoders (B : Type) := mkDecoders {
  dec_login : B → option loginRequest; dec_user : B → option create_user_req;
  dec_role : B → option string; dec_password : B → option string;
  dec_plc : B → option plc_req; dec_rule : B → option aclRuleRequest; dec_value : B → option value;
}.
Arguments dec_login {B} _ _.
Arguments dec_user {B} _ _.
Arguments dec_role {B} _ _.
Arguments dec_password {B} _ _.
Arguments dec_plc {B} _ _.
Arguments dec_rule {B} _ _.
Arguments dec_value {B} _ _.

Definition decoded {B C : Type} (dec : B → option C) (r : request B) : request C :=
  mkRequest (r_method r) (r_authorization r) (r_cookie r) (r_query r) (r_path r) (r_remote r)
    (r_body r ≫= dec) (r_claims r).

(** A body no handler reads. *)
Definition unread {B : Type} (b : B) : option unit := Some tt.

Section gateway.
Context {Eng : Engine} {Bc : Bcrypt} {Jw : JWT} {B : Type} (dec : decoders B).
(** The wiring of the server; the endpoints with a state of their own (tag
    stream, history, doctor, backups) are an argument. *)
Context (o : Opts) (tls : bool) (cfg : Config) (ts : TokenService) (sub : assets + foreign)
        (other : endpoint → handler gateway B).

Definition wdeps : write_deps := WriteDeps (wired o Lifecycle.PLCManager) (o_auditLog o) (guard_of o).
Definition adeps : auth_deps :=
  AuthDeps (o_userStore o) (if o_authTokens o then Some ts else None) (o_auditLog o) tls.

(** One request: when it is served, the salt bcrypt draws, and its context. *)
Record call := mkCall { at_time : time; salt : Z; req_ctx : ctx; message : incoming B }.

(** The handlers [registerAPIRoutes] names. *)
Definition endpoint_handler (c : call) (e : endpoint) : handler gateway B :=
  let now := at_time c in
  match e with
  | Login => λ r, on_session (handleLogin adeps now now (decoded (dec_login dec) r))
  | RefreshToken => λ r, on_session (handleRefresh adeps now now now (decoded unread r))
  | Logout => λ r, on_session (handleLogout adeps now (decoded unread r))
  | Me => λ r, on_session (handleMe (decoded unread r))
  | ListUsers => λ r, on_user_store (handleListUsers (decoded unread r))
  | CreateUser => λ r, on_user_store (handleCreateUser now (salt c) (decoded (dec_user dec) r))
  | GetUser => λ r, on_user_store (handleGetUser (decoded unread r))
  | UpdateUserRole => λ r, on_user_store (handleUpdateUserRole (decoded (dec_role dec) r))
  | UpdateUserPassword => λ r, on_user_store (handleUpdateUserPassword (salt c) (decoded (dec_password dec) r))
  | DeleteUser => λ r, on_user_store (handleDeleteUser (decoded unread r))
  | WriteTagEndpoint => λ r,
      on_server (handleWriteTag (AuditSink0 := server_audit now) wdeps (decoded (dec_value dec) r))
  | ListACLRules => λ r, on_server (handleListACLRules (decoded unread r))
  | CreateACLRule => λ r, on_server (handleCreateACLRule wdeps now (decoded (dec_rule dec) r))
  | GetACLRule => λ r, on_server (handleGetACLRule (decoded unread r))
  | UpdateACLRule => λ r, on_server (handleUpdateACLRule wdeps now (decoded (dec_rule dec) r))
  | DeleteACLRule => λ r, on_server (handleDeleteACLRule wdeps now (decoded unread r))
  | ListPLCs => λ r, on_server (handleListPLCs (decoded unread r))
  | GetPLCEndpoint => λ r, on_server (handleGetPLC (decoded unread r))
  | CreatePLC => λ r, on_server (handleCreatePLC wdeps now (req_ctx c) (decoded (dec_plc dec) r))
  | UpdatePLC => λ r, on_server (handleUpdatePLC wdeps now (req_ctx c) (decoded (dec_plc dec) r))
  | DeletePLC => λ r, on_server (handleDeletePLC wdeps now (req_ctx c) (decoded unread r))
  | ConfigMappings => λ r, on_server (handleConfigMappings (o_plcStore o) (Some cfg) (decoded unread r))
  | CurrentTags => λ r, on_server (on_manager (handleCurrentTags (wired o Lifecycle.PLCManager) (decoded unread r)))
  | _ => other e
  end.

(** A request to the gateway: the answer with its headers, and what becomes of
    the gateway. *)
Definition request_to (c : call) (g : gateway) : (answer * gateway) * headers :=
  ServeHTTP ts (at_time c) (New o) sub (endpoint_handler c) (message c) g.

(** Requests served one after the other. *)
Definition serve_all (cs : list call) : State gateway unit :=
  for_each cs (λ c g, (tt, (request_to c g).1.2)).


(** ** A session, from the login to the driver *)

Definition login_route : route := mkRoute "POST" "/api/auth/login" [] Login.
Definition write_route : route := mkRoute "POST" "/api/plcs/{plc}/tags/{tag}/write" viewerMWs WriteTagEndpoint.

Lemma login_registered w : login_route ∈ registerAPIRoutes w.
Proof. unfold registerAPIRoutes. rewrite !elem_of_app. right. left. right. left. Qed.

Lemma write_registered w : w_authTokens w = true → w_plcStore w = true → w_writeGuard w = true →
  write_route ∈ registerAPIRoutes w.
Proof.
  intros Ha Hp Hg. unfold registerAPIRoutes. rewrite !elem_of_app. do 5 right. left.
  unfold registerWriteRoutes, guarded. rewrite Ha, Hp, Hg. simpl. left.
Qed.

(** A write request to a tag, by its method and its path. *)
Definition writes_to (i : incoming B) (plc tag : string) : Prop :=
  r_method (in_request i) = "POST" ∧ cleanPath (in_path i) = in_path i ∧ plc ≠ "" ∧ tag ≠ "" ∧
  segments_of (in_path i) = ["api"; "plcs"; plc; "tags"; tag; "write"].

Lemma write_target w i plc tag :
  write_route ∈ registerAPIRoutes w → writes_to i plc tag →
  find_target w sub i = Found (api_entry write_route) [plc; tag].
Proof.
  intros Hw (Hm & Hc & Hp & Ht & Hs). unfold find_target. rewrite Hm. apply (endpoint_reached w sub write_route); try done.
  rewrite Hs. unfold write_route. simpl method. simpl pattern.
  change (pt_segments _) with [Lit "api"; Lit "plcs"; Wild "plc"; Lit "tags"; Wild "tag"; Lit "write"].
  by repeat constructor.
Qed.

Lemma login_request (c : call) g :
  r_method (in_request (message c)) = "POST" → in_path (message c) = "/api/auth/login" →
  (request_to c g).1 =
  let '(resp, g') := on_session (handleLogin adeps (at_time c) (at_time c)
    (decoded (dec_login dec) (with_path (PathValue [Lit "api"; Lit "auth"; Lit "login"] []) (in_request (message c))))) g in
  (Json resp, g').
Proof.
  intros Hm Hp. unfold request_to.
  rewrite (ServeHTTP_api _ _ _ _ _ _ _ login_route []); [done|].
  unfold find_target. rewrite Hm, Hp. apply (endpoint_reached _ sub login_route); try done.
  - apply login_registered.
  - change (segments_of _) with ["api"; "auth"; "login"].
    change (pt_segments _) with [Lit "api"; Lit "auth"; Lit "login"]. by repeat constructor.
Qed.

(** A write request that carries a token, at a time the token is checked. *)
Lemma write_request_run (c : call) g plc tag v tok :
  o_authTokens o = true → o_plcStore o = true → guard_of o = true →
  writes_to (message c) plc tag → ExtractToken (in_request (message c)) = tok → tok ≠ "" →
  r_body (in_request (message c)) ≫= dec_value dec = Some v →
  ∃ r : request value, r_path r "plc" = plc ∧ r_path r "tag" = tag ∧ r_body r = Some v ∧
  match Validate ts (at_time c) tok with
  | inr _ => ∃ msg, (request_to c g).1 = (Json (http_error StatusUnauthorized msg), g)
  | inl cl =>
      Valid (cRole cl) = true →
      (request_to c g).1 =
      let '(resp, g') := on_server (handleWriteTag (AuditSink0 := server_audit (at_time c)) wdeps (with_claims cl r)) g in
      (Json resp, g')
  end.
Proof.
  intros Ha Hp Hg Hi Ht Hne Hb.
  assert (Hin : write_route ∈ registerAPIRoutes (New o)) by by apply write_registered.
  set (r := with_values (api_entry write_route) [plc; tag] (message c)).
  exists (decoded (dec_value dec) r). split; [done|]. split; [done|]. split; [exact Hb|].
  pose proof (ServeHTTP_api ts (at_time c) (New o) sub (endpoint_handler c) (message c) g write_route [plc; tag]
                (write_target (New o) (message c) plc tag Hin Hi)) as E.
  fold (request_to c g) in E. rewrite E. clear E. fold r.
  pose proof (serve_policy ts (at_time c) (New o) write_route (endpoint_handler c) r g Ha Hin) as H.
  cbn [policy ep write_route] in H. unfold caller in H. change (ExtractToken r) with (ExtractToken (in_request (message c))) in H.
  rewrite Ht, (proj2 (String.eqb_neq _ _) Hne) in H. destruct (Validate ts (at_time c) tok) as [cl|e].
  - intros Hv%Valid_iff. destruct H as [H _]. rewrite H by set_solver. done.
  - destruct H as [msg H]. exists msg. by rewrite H.
Qed.

(** C1 Whoever logs in with a stored name and a password that matches its hash can
    write a tag with the token of that session, by header or by cookie, exactly
    when the tag is writable, a rule grants the write to the role the user had at
    the login, and the manager runs the PLC: until the second the token expires
    in, whatever happens to the user in between; from then on every such request is
    answered 401 and changes nothing. *)
Theorem session_write_exact (c1 c2 : call) (g1 g2 : gateway) (resp1 : response) (tok plc tag : string) (v : value) :
  o_authTokens o = true → o_plcStore o = true → guard_of o = true → wired o Lifecycle.PLCManager = true →
  user_ok (tables (gw_users g1)) →
  r_method (in_request (message c1)) = "POST" → in_path (message c1) = "/api/auth/login" →
  (request_to c1 g1).1.1 = Json resp1 → status resp1 = 200 → opens adeps resp1 tok → tok ≠ "" →
  faults (sv_plcs (gw_server g2)) = [] → faults (sv_acl (gw_server g2)) = [] → acl_ok (tables (sv_acl (gw_server g2))) →
  writes_to (message c2) plc tag → ExtractToken (in_request (message c2)) = tok →
  r_body (in_request (message c2)) ≫= dec_value dec = Some v →
  ∃ req i row,
    r_body (in_request (message c1)) ≫= dec_login dec = Some req ∧ (i, row) ∈ rows (tables (gw_users g1)) ∧
    user_name row = lgUsername req ∧ CompareHashAndPassword (user_hash row) (lgPassword req) = None ∧
    let '(a, g3) := (request_to c2 g2).1 in
    let s := gw_server g2 in
    let open := http_permitted (server_observe s) (user_role row) plc tag ∧ is_Some (workers (sv_mgr s) !! plc) in
    if at_time c2 <? NewNumericDate (at_time c1 + ts_ttl ts) then
      (open → sv_written (gw_server g3) = sv_written s ++ [(plc, tag, v)]) ∧
      (¬ open → sv_written (gw_server g3) = sv_written s)
    else g3 = g2 ∧ ∃ msg, a = Json (http_error StatusUnauthorized msg).
Proof.
  intros Ha Hp Hg Hm Huok Hm1 Hp1 Hr1 Hs1 Ho1 Hne Hf1 Hf2 Hacl Hw Htok Hv.
  rewrite (login_request c1 g1 Hm1 Hp1) in Hr1. unfold on_session, zoom in Hr1.
  set (lr := decoded (dec_login dec) _) in Hr1.
  pose proof (login_spec adeps (at_time c1) (at_time c1) lr (mkAuthState (gw_users g1) (sv_audit (gw_server g1)))) as Hl.
  destruct (handleLogin _ _ _ lr _) as [resp s1]. cbn [fst] in Hr1. injection Hr1 as ->.
  destruct Hl as [_ Hl]. rewrite Hs1 in Hl. cbn [Z.eqb Pos.eqb] in Hl.
  destruct Hl as (req & ts' & i & row & tok' & cl & Hreq & Hts & Hin & Hname & Hpw & Ho2 & Hi & _).
  cbn [adeps ad_tokens] in Hts. rewrite Ha in Hts. injection Hts as <-.
  assert (tok' = tok) as ->.
  { destruct Ho1 as (k1 & E1 & _ & V1 & _), Ho2 as (k2 & E2 & _ & V2 & _). rewrite E1 in E2. by simplify_eq. }
  exists req, i, row. split; [exact Hreq|]. split; [exact Hin|]. split; [done|]. split; [done|].
  destruct (write_request_run c2 g2 plc tag v tok Ha Hp Hg Hw Htok Hne Hv) as (r & Er1 & Er2 & Er3 & Hrun).
  rewrite (Issue_Validate_time ts (at_time c1) (at_time c2) i (user_name row) (user_role row) tok Hi) in Hrun.
  destruct (at_time c2 <? _); [|destruct Hrun as [msg ->]; eauto].
  rewrite Hrun.
  2: { destruct Huok as (_ & _ & Hvalid). rewrite Forall_forall in Hvalid. apply (Hvalid _ Hin). }
  unfold on_server, zoom.
  pose proof (write_gate_spec (at_time c2) wdeps (with_claims (mkClaims i (user_name row) (user_role row)
    (NewNumericDate (at_time c1)) (NewNumericDate (at_time c1 + ts_ttl ts))) r) v _ (gw_server g2) Hf1 Hf2 Hacl Hm Er3 eq_refl) as H.
  destruct (handleWriteTag _ _ _) as [resp2 s2]. cbn [gw_server r_path with_claims] in *. rewrite Er1, Er2 in H.
  destruct H as (H1 & H2 & _). done.
Qed.

(** ** What every request keeps *)

(** The constraints of the stores, and an audit log that only grows. *)
Definition server_ok (logged : list AuditEvent) (s : server) : Prop :=
  plc_ok (tables (sv_plcs s)) ∧ acl_ok (tables (sv_acl s)) ∧ logged `prefix_of` tables (sv_audit s).

Definition gateway_ok (logged : list AuditEvent) (g : gateway) : Prop :=
  user_ok (tables (gw_users g)) ∧ server_ok logged (gw_server g).

Lemma keeps_plcs {A} l (m : State (db plc_tables) A) : preserves plc_ok m → keeps (server_ok l) (on_plcs m).
Proof. intros Hm s (H1 & H2 & H3). unfold on_plcs, zoom. specialize (Hm _ H1). by destruct (m _). Qed.

Lemma keeps_acl {A} l (m : State (db acl_table) A) : preserves acl_ok m → keeps (server_ok l) (on_acl m).
Proof. intros Hm s (H1 & H2 & H3). unfold on_acl, zoom. specialize (Hm _ H2). by destruct (m _). Qed.

Lemma keeps_log l now e : keeps (server_ok l) (on_audit (Log now e)).
Proof.
  intros s (H1 & H2 & H3). unfold on_audit, zoom. pose proof (Log_adds now e (sv_audit s)) as H.
  destruct (Log now e (sv_audit s)) as [r d]. split_and!; [done..|]. simpl in *.
  destruct H as [(e' & -> & _)|[-> _]]; [by apply prefix_app_r|done].
Qed.

Lemma keeps_reload l c ps : keeps (server_ok l) (modify (λ s, set_mgr (Reload c ps (sv_mgr s)) s)).
Proof. intros s Hs. done. Qed.

Lemma keeps_driver l plc tag v : keeps (server_ok l) (managerWriteTag plc tag v).
Proof.
  intros s Hs. unfold managerWriteTag. destruct (PlcManager.WriteTag _ _); [|done].
  by destruct (match sv_answers s with [] => _ | _ => _ end).
Qed.

Lemma keeps_state l : keeps (server_ok l) get_state.
Proof. by intros s Hs. Qed.

Lemma keeps_manager {A} l (m : State manager A) : keeps (server_ok l) (on_manager m).
Proof. intros s Hs. unfold on_manager, zoom. by destruct (m _). Qed.

Ltac reads := repeat first
  [ apply preserves_ret | apply preserves_query | apply preserves_bind; [|intros ?] | progress case_match
  | apply preserves_for_each_err; intros ? ].

Lemma plc_List_keeps : preserves plc_ok PlcStore.List.
Proof.
  unfold PlcStore.List. apply preserves_bind; [apply preserves_query|]. intros [rs|f]; [|apply preserves_ret].
  induction rs as [|[i r] rs IH]; cbn [with_tags]; [apply preserves_ret|]. unfold listTags. reads; auto.
Qed.

Lemma plc_Get_keeps name : preserves plc_ok (PlcStore.Get name).
Proof. unfold PlcStore.Get, listTags. reads. Qed.

Lemma acl_reads_keep : preserves acl_ok ListRules ∧ (∀ id, preserves acl_ok (GetRule id)) ∧
  (∀ role plc tag, preserves acl_ok (AclStore.CanWrite role plc tag)).
Proof. unfold ListRules, GetRule, AclStore.CanWrite. split_and!; intros; reads. Qed.

(** One step of a handler. *)
Ltac keeps_step := first
  [ apply keeps_ret | apply keeps_bind; [|intros ?] | apply keeps_state | apply keeps_log | apply keeps_reload
  | apply keeps_driver | apply keeps_manager
  | apply keeps_plcs; first [apply plc_List_keeps | apply plc_Get_keeps
      | apply (plc_run_op_ok (PlcStore.OpCreate _ _)) | apply (plc_run_op_ok (PlcStore.OpUpdate _ _ _))
      | apply (plc_run_op_ok (PlcStore.OpDelete _))]
  | apply keeps_acl; first [apply acl_reads_keep
      | apply (acl_run_op_ok (AclStore.OpCreate _)) | apply (acl_run_op_ok (AclStore.OpUpdate _ _))
      | apply (acl_run_op_ok (AclStore.OpDelete _))]
  | progress case_match ].

Lemma keeps_write_handler l now r :
  keeps (server_ok l) (handleWriteTag (AuditSink0 := server_audit now) wdeps r).
Proof.
  unfold handleWriteTag, emitWriteAudit, emitWriteAuditDetail, AuthorizeHTTP, GetPLC, server_get_plc, TagMeta,
    server_tag_meta, plcstoreTagReader, GetPLC, WriteGuard.CanWrite, server_can_write, WriteGuard.WriteTag,
    server_write_tag, Audit, server_audit. repeat keeps_step.
Qed.

Lemma keeps_plc_handlers l now c r r' :
  keeps (server_ok l) (handleListPLCs r) ∧ keeps (server_ok l) (handleGetPLC r) ∧
  keeps (server_ok l) (handleCreatePLC wdeps now c r') ∧ keeps (server_ok l) (handleUpdatePLC wdeps now c r') ∧
  keeps (server_ok l) (handleDeletePLC wdeps now c r).
Proof.
  unfold handleListPLCs, handleGetPLC, handleCreatePLC, handleUpdatePLC, handleDeletePLC, finish_write, audit_plc,
    reloadPLCsFromStore. split_and!; repeat keeps_step.
Qed.

Lemma keeps_acl_handlers l now r r' :
  keeps (server_ok l) (handleListACLRules r) ∧ keeps (server_ok l) (handleGetACLRule r) ∧
  keeps (server_ok l) (handleCreateACLRule wdeps now r') ∧ keeps (server_ok l) (handleUpdateACLRule wdeps now r') ∧
  keeps (server_ok l) (handleDeleteACLRule wdeps now r).
Proof.
  unfold handleListACLRules, handleGetACLRule, handleCreateACLRule, handleUpdateACLRule, handleDeleteACLRule, audit_acl.
  split_and!; repeat keeps_step.
Qed.

Lemma keeps_config_handler l b f r : keeps (server_ok l) (handleConfigMappings b f r).
Proof. unfold handleConfigMappings. repeat keeps_step. Qed.

Lemma scanOne_keeps p : preserves user_ok (scanOne p).
Proof. unfold scanOne. reads. Qed.

Lemma keeps_user_handlers (now : time) (sa : Z) r r1 r2 :
  preserves user_ok (handleListUsers r) ∧ preserves user_ok (handleCreateUser now sa r1) ∧
  preserves user_ok (handleGetUser r) ∧ preserves user_ok (handleUpdateUserRole r2) ∧
  preserves user_ok (handleUpdateUserPassword sa r2) ∧ preserves user_ok (handleDeleteUser r).
Proof.
  unfold handleListUsers, handleCreateUser, handleGetUser, handleUpdateUserRole, handleUpdateUserPassword,
    handleDeleteUser, last_admin_guard, GetByID, UserStore.List, CountByRole.
  split_and!; repeat first [ apply preserves_ret | apply preserves_query | apply scanOne_keeps
    | apply Create_preserves | apply UpdateRole_preserves | apply UpdatePassword_preserves | apply Delete_preserves
    | apply preserves_bind; [|intros ?] | progress case_match ].
Qed.

Lemma keeps_users {A} l (m : State (db user_table) A) : preserves user_ok m → keeps (gateway_ok l) (on_user_store m).
Proof. intros Hm g [H1 H2]. unfold on_user_store, zoom. specialize (Hm _ H1). by destruct (m _). Qed.

Lemma keeps_server {A} l (m : State server A) : keeps (server_ok l) m → keeps (gateway_ok l) (on_server m).
Proof. intros Hm g [H1 H2]. unfold on_server, zoom. specialize (Hm _ H2). by destruct (m _). Qed.

(** Session handlers read the users and add to the log. *)
Definition session_ok (l : list AuditEvent) (x : auth_state) : Prop :=
  user_ok (tables (au_users x)) ∧ l `prefix_of` tables (au_audit x).

Lemma keeps_session {A} l (m : State auth_state A) : keeps (session_ok l) m → keeps (gateway_ok l) (on_session m).
Proof.
  intros Hm g (H1 & H2 & H3 & H4). unfold on_session, zoom.
  specialize (Hm (mkAuthState (gw_users g) (sv_audit (gw_server g))) (conj H1 H4)).
  destruct (m _) as [a x]. by destruct Hm.
Qed.

Lemma keeps_session_users {A} l (m : State (db user_table) A) :
  preserves user_ok m → keeps (session_ok l) (ApiAuth.on_users m).
Proof. intros Hm x [H1 H2]. unfold ApiAuth.on_users, zoom. specialize (Hm _ H1). by destruct (m _). Qed.

Lemma keeps_audit_login l dp now action name remote : keeps (session_ok l) (audit_login dp now action name remote).
Proof.
  unfold audit_login. destruct (negb _); [apply keeps_ret|]. apply keeps_bind; [|intros _; apply keeps_ret].
  intros x [H1 H2]. unfold on_log, zoom. pose proof (Log_adds now (mkAuditEvent zero_time action name 0 (GoError.Lit "") remote) (au_audit x)) as H.
  destruct (Log _ _ _) as [r d]. split; [done|]. simpl in *.
  destruct H as [(e' & -> & _)|[-> _]]; [by apply prefix_app_r|done].
Qed.

Lemma keeps_session_handlers l now r r' :
  keeps (session_ok l) (handleLogin adeps now now r) ∧ keeps (session_ok l) (handleRefresh adeps now now now r') ∧
  keeps (session_ok l) (handleLogout adeps now r') ∧ keeps (session_ok l) (handleMe r').
Proof.
  unfold handleLogin, handleRefresh, revalidate, handleLogout, handleMe, Authenticate, GetByUsername, GetByID.
  split_and!; repeat first [ apply keeps_ret | apply keeps_audit_login
    | apply keeps_session_users; repeat first [apply scanOne_keeps | apply preserves_ret | apply preserves_bind; [|intros ?] | progress case_match]
    | apply keeps_bind; [|intros ?] | progress case_match ].
Qed.

(** The endpoints modelled elsewhere leave these stores alone. *)
Definition others_keep : Prop := ∀ e l r, keeps (gateway_ok l) (other e r).

Lemma endpoint_keeps c e l r : others_keep → keeps (gateway_ok l) (endpoint_handler c e r).
Proof.
  intros Ho. pose proof (keeps_user_handlers (at_time c) (salt c)) as Hu.
  pose proof (keeps_plc_handlers l (at_time c) (req_ctx c)) as Hp.
  pose proof (keeps_acl_handlers l (at_time c)) as Hac. pose proof (keeps_session_handlers l (at_time c)) as Hs.
  destruct e; cbn [endpoint_handler]; first
    [ apply Ho | apply keeps_session, Hs; first [exact (decoded unread r) | exact (decoded (dec_login dec) r)]
    | apply keeps_users, Hu; first [exact (decoded unread r) | exact (decoded (dec_user dec) r) | exact (decoded (dec_role dec) r)]
    | apply keeps_server; first [apply keeps_write_handler | apply keeps_config_handler | apply keeps_manager
        | apply Hp; first [exact (decoded unread r) | exact (decoded (dec_plc dec) r)]
        | apply Hac; first [exact (decoded unread r) | exact (decoded (dec_rule dec) r)]] ].
Qed.

End gateway.

(** ** A concrete gateway *)

Inductive sample_body := BodyLogin (l : loginRequest) | BodyValue (v : value).

Definition sample_decoders : decoders sample_body := {|
  dec_login b := match b with BodyLogin l => Some l | _ => None end;
  dec_user _ := None; dec_role _ := None; dec_password _ := None; dec_plc _ := None; dec_rule _ := None;
  dec_value b := match b with BodyValue v => Some v | _ => None end;
|}.

Definition sample_opts : Opts :=
  mkOpts [Lifecycle.PLCManager] true true true true true true true true false false.

Definition no_other (e : endpoint) : handler gateway sample_body := λ _, mret panic.

Definition sample_gateway : gateway := mkGateway (au_users sample_users) sample_server.

Lemma sample_users_ok : user_ok (tables (gw_users sample_gateway)).
Proof. split; [split; repeat constructor; simpl; lia|]. split; [apply NoDup_singleton|]. by repeat constructor. Qed.

Definition sample_cfg : Config := base_config 1 "8h" [].

Definition post (path auth : string) (b : sample_body) : incoming sample_body :=
  mkIncoming path (mkRequest "POST" auth (λ _, None) (λ _, "") (λ _, "") "127.0.0.1:9" (Some b) None).

Definition login_call : call :=
  mkCall (60 * Second) 0 [] (post "/api/auth/login" "" (BodyLogin (mkLogin "ana" "correct horse"))).

Abbreviation sample_request c g :=
  (request_to sample_decoders sample_opts true sample_cfg sample_tokens (inl sample_assets) no_other c g).

Definition session_token : string :=
  match Issue sample_tokens (60 * Second) 7 "ana" "operator" with inl t => t | inr _ => "" end.

Definition write_call (t : time) : call :=
  mkCall t 0 [] (post "/api/plcs/plc1/tags/Speed/write" ("Bearer " +:+ session_token) (BodyValue (VFloat64 0))).

#[local] Existing Instance plain_bcrypt.

(** The operator logs in and writes a minute later; an hour later it is over. *)
Theorem session_write_exact_witness :
  sv_written (gw_server (sample_request (write_call (120 * Second)) sample_gateway).1.2) = [("plc1", "Speed", VFloat64 0)] ∧
  (sample_request (write_call (3660 * Second)) sample_gateway).1.2 = sample_gateway.
Proof.
  assert (E : ∃ resp, (sample_request login_call sample_gateway).1.1 = Json resp ∧ status resp = 200 ∧
    opens (adeps sample_opts true sample_tokens) resp session_token).
  { eexists. split; [vm_compute; reflexivity|]. split; [reflexivity|]. eexists. split; [reflexivity|].
    repeat split. }
  destruct E as (resp & H1 & H2 & H3).
  pose proof (λ t, session_write_exact sample_decoders sample_opts true sample_cfg sample_tokens (inl sample_assets) no_other
    login_call (write_call t) sample_gateway sample_gateway resp session_token "plc1" "Speed" (VFloat64 0)
    eq_refl eq_refl eq_refl eq_refl sample_users_ok eq_refl eq_refl H1 H2 H3) as H.
  assert (Hne : session_token ≠ "") by (vm_compute; discriminate).
  assert (Hw : ∀ t, writes_to (message (write_call t)) "plc1" "Speed") by (intros t; repeat split; discriminate || (vm_compute; reflexivity)).
  split.
  - destruct (H (120 * Second) Hne eq_refl eq_refl gate_acl_ok (Hw _) eq_refl eq_refl) as (req & i & row & _ & Hin & _ & _ & H').
    apply elem_of_cons in Hin as [[= -> ->]|Hin]; [|by apply not_elem_of_nil in Hin].
    destruct (request_to _ _ _ _ _ _ _ (write_call (120 * Second)) _) as [[a g3] hd]. cbn [fst snd] in *.
    change (120 * Second <? _) with true in H'. cbv iota zeta in H'. destruct H' as [H' _]. rewrite H'; [done|].
    split; [|vm_compute; eauto]. split.
    + eexists. split; vm_compute; reflexivity.
    + eexists _, _. split; [do 2 right; left|by split].
  - destruct (H (3660 * Second) Hne eq_refl eq_refl gate_acl_ok (Hw _) eq_refl eq_refl) as (req & i & row & _ & _ & _ & _ & H').
    destruct (request_to _ _ _ _ _ _ _ (write_call (3660 * Second)) _) as [[a g3] hd]. cbn [fst snd] in *.
    change (3660 * Second <? _) with false in H'. by destruct H' as [-> _].
Defined.

