(* ===== verification/Requests.v ===== *)
(** * Requests that arrive at the same time

    The server answers every request in a goroutine of its own: the handlers that
    change something, as code whose operations are the statements and transactions
    of the databases (each store has one connection), the appends to the audit log
    and the calls of the PLC manager.  Whatever their order: the stores keep their
    constraints, and every write to a PLC was permitted while its request ran. *)

From S2P Require Import Prelude Threads GoString GoTime GoError Config Sql AclStore PlcStore UserStore Http Auth AuditLog.
From S2P Require Import ApiAuth ApiUsers WriteGuard ApiWrite PlcManager ServerState ApiPlcs ApiAcl Lifecycle Gateway.

(** ** The state *)

(** Who asked for a write: a role over HTTP, none for a device command; the write,
    and how many operations had been made when its request began. *)
Record asked := mkAsked { as_since : nat; as_role : option string; as_write : string * string * value }.

(** The gateway, the states it was in before each operation, the writes asked of
    the manager, and the responses in the order they were given. *)
Record world := mkWorld {
  wd_gateway : gateway; wd_past : list gateway; wd_asked : list asked; wd_answers : list response;
}.

(** An operation on the gateway. *)
Definition on_gateway {A : Type} (m : State gateway A) : code world A := op (λ w,
  let '(a, g) := m (wd_gateway w) in (a, mkWorld g (wd_past w ++ [wd_gateway w]) (wd_asked w) (wd_answers w))).

Definition users_op {A : Type} (m : State (db user_table) A) : code world A := on_gateway (on_user_store m).
Definition server_op {A : Type} (m : State server A) : code world A := on_gateway (on_server m).
Definition plcs_op {A : Type} (m : State (db plc_tables) A) : code world A := server_op (on_plcs m).
Definition acl_op {A : Type} (m : State (db acl_table) A) : code world A := server_op (on_acl m).
Definition session_op {A : Type} (m : State auth_state A) : code world A := on_gateway (on_session m).

(** The call of [Manager.WriteTag]. *)
Definition write_op (since : nat) (role : option string) (plc tag : string) (v : value) : code world (option error) :=
  op (λ w,
    let '(err, g) := on_server (managerWriteTag plc tag v) (wd_gateway w) in
    (err, mkWorld g (wd_past w ++ [wd_gateway w]) (wd_asked w ++ [mkAsked since role (plc, tag, v)]) (wd_answers w))).

Definition begun : code world nat := op (λ w, (length (wd_past w), w)).

Definition answer (resp : response) : code world unit := op (λ w,
  (tt, mkWorld (wd_gateway w) (wd_past w) (wd_asked w) (wd_answers w ++ [resp]))).

Section requests.
Context {Eng : Engine} (deps : write_deps).

(** ** Reading the PLC store: one query for the rows, one for the tags of each *)

Definition get_plc (name : string) : code world (result PLC) :=
  res ← plcs_op (query (select_plc name));
  match res with
  | inr f => mret (inr (EForeign f))
  | inl None => mret (inr (Sentinel ErrPLCNotFound))
  | inl (Some (id, r)) => tags ← plcs_op (listTags id); mret (map_result (scan_plc r) tags)
  end.

Fixpoint tags_of_rows (rs : list (Z * plc_row)) : code world (result (list PLC)) :=
  match rs with
  | [] => mret (inl [])
  | (id, r) :: rs' =>
      tags ← plcs_op (listTags id);
      match tags with
      | inr err => mret (inr err)
      | inl tags => ps ← tags_of_rows rs'; mret (map_result (cons (scan_plc r tags)) ps)
      end
  end.

Definition list_plcs : code world (result (list PLC)) :=
  res ← plcs_op (query (λ t, merge_sort (order_by plc_columns) (rows (plcs t))));
  match res with
  | inr f => mret (inr (EForeign f))
  | inl rs => tags_of_rows rs
  end.

(** ** Writes *)

Definition tag_meta_of (plcName tagName : string) : code world (option tag_meta) :=
  p ← get_plc plcName;
  mret (match p with
        | inr _ => None
        | inl p =>
            t ← List.find (λ t, String.eqb (tName t) tagName) (elems (pTags p));
            Some (TagMetaOf (tWritable t) (tDCMDEnabled t))
        end).

Definition authorize_http (actor : Actor) (plcName tagName : string) : code world Decision :=
  meta ← tag_meta_of plcName tagName;
  match meta with
  | None => mret (deny "tag not writable")
  | Some meta =>
      if negb (Writable meta) then mret (deny "tag not writable")
      else
        allowed ← acl_op (AclStore.CanWrite (actorRole actor) plcName tagName);
        mret (match allowed with inl true => allow | _ => deny "acl deny" end)
  end.

Definition authorize_dcmd (plcName tagName : string) : code world Decision :=
  meta ← tag_meta_of plcName tagName;
  mret (match meta with
        | None => deny "tag not writable"
        | Some meta =>
            if negb (Writable meta) then deny "tag not writable"
            else if negb (DCMDEnabled meta) then deny "dcmd not enabled"
            else allow
        end).

Section at_time.
Context (now : time) (req_ctx : ctx).
#[local] Existing Instance server_audit.

Definition emit (plcName tagName : string) (v : value) (outcome : string) (reason : text) (source username : string)
    : code world unit :=
  server_op (emitWriteAuditDetail (AuditSink0 := server_audit now) deps plcName tagName v outcome reason source username).

Definition write_tag (r : request value) : code world response :=
  since ← begun;
  let plcName := r_path r "plc" in
  let tagName := r_path r "tag" in
  match r_body r with
  | None => mret (writeAPIError StatusBadRequest "bad_request" "invalid request body")
  | Some v =>
      plc ← get_plc plcName;
      match plc with
      | inr err =>
          if is_error ErrPLCNotFound err
          then mret (writeAPIError StatusNotFound "tag_not_found" "PLC or tag not found")
          else mret (writeAPIError StatusInternalServerError "internal_error" "could not look up PLC")
      | inl plc =>
          if negb (existsb (λ t, String.eqb (tName t) tagName) (elems (pTags plc)))
          then mret (writeAPIError StatusNotFound "tag_not_found" "tag not found")
          else
            let actor := match ClaimsFromContext r with
                         | Some c => mkActor (cUsername c) (cRole c)
                         | None => mkActor "" ""
                         end in
            decision ← authorize_http actor plcName tagName;
            if negb (Allowed decision) then
              _ ← emit plcName tagName v "deny" (Reason decision) "http" (actorUsername actor);
              mret (writeAPIError StatusForbidden "write_denied" "write not permitted")
            else
              err ← (if has_manager deps then write_op since (Some (actorRole actor)) plcName tagName v else mret None);
              match err with
              | Some err =>
                  _ ← emit plcName tagName v "deny" (ApiWrite.write_error err) "http" (actorUsername actor);
                  mret (writeAPIError StatusInternalServerError "write_error" "write failed")
              | None =>
                  _ ← emit plcName tagName v "allow" (Lit "") "http" (actorUsername actor);
                  mret (mkResponse StatusOK None [])
              end
      end
  end.

(** One command of a DCMD, when the server has a handler for it. *)
Definition command (deviceID tag : string) (v : value) : code world unit :=
  since ← begun;
  decision ← authorize_dcmd deviceID tag;
  if negb (Allowed decision)
  then emit deviceID tag v "deny" (Reason decision) "dcmd" ""
  else
    err ← write_op since None deviceID tag v;
    match err with
    | Some err => emit deviceID tag v "deny" (ApiWrite.write_error err) "dcmd" ""
    | None => emit deviceID tag v "allow" (Lit "") "dcmd" ""
    end.

(** ** PLC and ACL changes *)

(** [Manager.Reload] holds its lock; it is one operation here. *)
Definition reload_plcs : code world unit :=
  if negb (has_manager deps) then mret tt
  else
    plcs ← list_plcs;
    match plcs with
    | inr _ => mret tt
    | inl plcs => server_op (modify (λ s, set_mgr (Reload req_ctx plcs (sv_mgr s)) s))
    end.

Definition finish_plc {B} (r : request B) (action detail : string) (status : Z) (p : PLC) : code world response :=
  _ ← server_op (audit_plc deps now r action detail);
  _ ← reload_plcs;
  stored ← get_plc (pName p);
  mret (writeJSON status (data (plcToResponse (match stored with inl p' => p' | inr _ => p end)))).

Definition create_plc (r : request plc_req) : code world response :=
  match decodePLCRequest r with
  | None => mret (writeAPIError StatusBadRequest "bad_request" "invalid request body")
  | Some p =>
      match ValidatePLC p with
      | Some err => mret (writeAPIError_of StatusBadRequest "invalid_plc" err)
      | None =>
          err ← plcs_op (PlcStore.Create (unix_sec now) p);
          match err with
          | Some err =>
              mret (if is_error ErrPLCAlreadyExists err
                    then writeAPIError StatusConflict "duplicate_plc" "a PLC with that name already exists"
                    else internal_error "could not create PLC")
          | None => finish_plc r "plc.create" (pName p) StatusCreated p
          end
      end
  end.

Definition update_plc (r : request plc_req) : code world response :=
  let name := r_path r "name" in
  match decodePLCRequest r with
  | None => mret (writeAPIError StatusBadRequest "bad_request" "invalid request body")
  | Some p =>
      match ValidatePLC p with
      | Some err => mret (writeAPIError_of StatusBadRequest "invalid_plc" err)
      | None =>
          err ← plcs_op (PlcStore.Update (unix_sec now) name p);
          match err with
          | Some err =>
              mret (if is_error ErrPLCNotFound err then plc_not_found
                    else if is_error ErrPLCAlreadyExists err
                    then writeAPIError StatusConflict "duplicate_plc" "another PLC already has that name"
                    else internal_error "could not update PLC")
          | None => finish_plc r "plc.update" name StatusOK p
          end
      end
  end.

Definition delete_plc (r : request unit) : code world response :=
  let name := r_path r "name" in
  err ← plcs_op (PlcStore.Delete name);
  match err with
  | Some err =>
      mret (if is_error ErrPLCNotFound err then plc_not_found else internal_error "could not delete PLC")
  | None =>
      _ ← server_op (audit_plc deps now r "plc.delete" name);
      _ ← reload_plcs;
      mret no_content
  end.

Definition change_plc (q : change) : code world response :=
  match q with
  | ChangeCreate r => create_plc r
  | ChangeUpdate r => update_plc r
  | ChangeDelete r => delete_plc r
  end.

Definition create_rule (r : request aclRuleRequest) : code world response :=
  match r_body r with
  | None => mret (writeAPIError StatusBadRequest "bad_request" "invalid request body")
  | Some req =>
      let rule := rule_of_req 0 req in
      err ← acl_op (CreateRule rule);
      match err with
      | Some err =>
          mret (if is_error ErrRuleAlreadyExists err then duplicate_rule
                else if is_error ErrInvalidRole err then invalid_rule
                else internal_error "could not create ACL rule")
      | None =>
          _ ← server_op (audit_acl deps now r "acl.create"
                (Fmt "role=%s plc=%s tag=%s" [FStr (aqRole req); FStr (aqPLC req); FStr (aqTag req)]));
          rules ← acl_op ListRules;
          let stored :=
            match rules with
            | inl rules => List.find (same_triple rule) (elems rules)
            | inr _ => None
            end in
          mret (writeJSON StatusCreated (rule_json (default rule stored)))
      end
  end.

Definition update_rule (r : request aclRuleRequest) : code world response :=
  match parseACLRuleID r with
  | inr resp => mret resp
  | inl id =>
      match r_body r with
      | None => mret (writeAPIError StatusBadRequest "bad_request" "invalid request body")
      | Some req =>
          err ← acl_op (UpdateRule id (rule_of_req 0 req));
          match err with
          | Some err =>
              mret (if is_error ErrRuleNotFound err then rule_not_found
                    else if is_error ErrRuleAlreadyExists err then duplicate_rule
                    else if is_error ErrInvalidRole err then invalid_rule
                    else internal_error "could not update ACL rule")
          | None =>
              _ ← server_op (audit_acl deps now r "acl.update"
                    (Fmt "id=%d role=%s plc=%s tag=%s"
                       [FInt id; FStr (aqRole req); FStr (aqPLC req); FStr (aqTag req)]));
              stored ← acl_op (GetRule id);
              mret (writeJSON StatusOK
                      (rule_json (match stored with inl s => s | inr _ => rule_of_req id req end)))
          end
      end
  end.

Definition delete_rule (r : request unit) : code world response :=
  match parseACLRuleID r with
  | inr resp => mret resp
  | inl id =>
      existing ← acl_op (GetRule id);
      err ← acl_op (DeleteRule id);
      match err with
      | Some err =>
          mret (if is_error ErrRuleNotFound err then rule_not_found
                else internal_error "could not delete ACL rule")
      | None =>
          _ ← server_op (audit_acl deps now r "acl.delete"
                (match existing with
                 | inr _ => Fmt "id=%d" [FInt id]
                 | inl e => Fmt "id=%d role=%s plc=%s tag=%s"
                              [FInt id; FStr (aclRole e); FStr (aclPLC e); FStr (aclTag e)]
                 end));
          mret no_content
      end
  end.

Definition change_acl (q : acl_change) : code world response :=
  match q with
  | RuleCreate r => create_rule r
  | RuleUpdate r => update_rule r
  | RuleDelete r => delete_rule r
  end.
End at_time.

(** ** User changes *)

Definition update_role (r : request string) : code world response :=
  match parseUserID r with
  | inr resp => mret resp
  | inl id =>
      match r_body r with
      | None => mret (writeAPIError StatusBadRequest "bad_request" "invalid request body")
      | Some role =>
          if negb (Valid role)
          then mret (writeAPIError StatusBadRequest "invalid_role" "role must be admin, operator, or viewer")
          else
            err ← users_op (UpdateRole id role);
            match err with
            | Some err => mret (user_error "could not update role" err)
            | None =>
                user ← users_op (GetByID id);
                mret (match user with
                      | inr _ => internal_error "could not retrieve updated user"
                      | inl user => writeJSON StatusOK (data (userToResponse user))
                      end)
            end
      end
  end.

Definition delete_user (r : request unit) : code world response :=
  match parseUserID r with
  | inr resp => mret resp
  | inl id =>
      if match r_claims r with Some c => cUserID c =? id | None => false end
      then mret (writeAPIError StatusConflict "self_delete" "cannot delete your own account")
      else
        user ← users_op (GetByID id);
        match user with
        | inr err => mret (user_error "could not get user" err)
        | inl user =>
            refused ← (if String.eqb (uRole user) RoleAdmin then
                         count ← users_op (CountByRole RoleAdmin);
                         mret (match count with
                               | inr _ => Some (internal_error "could not count admins")
                               | inl n =>
                                   if n <=? 1
                                   then Some (writeAPIError StatusConflict "last_admin" "cannot delete the last admin user")
                                   else None
                               end)
                       else mret None);
            match refused with
            | Some resp => mret resp
            | None =>
                err ← users_op (UserStore.Delete id);
                mret (match err with
                      | Some err => user_error "could not delete user" err
                      | None => no_content
                      end)
            end
        end
  end.

(** ** Sessions *)

Section sessions.
Context {Bc : Bcrypt} {Jw : JWT} (ad : auth_deps) (now : time).

Definition login (r : request loginRequest) : code world response :=
  match ad_users ad, ad_tokens ad with
  | true, Some ts =>
      match r_body r with
      | None => mret (writeAPIError StatusBadRequest "bad_request" "username and password are required")
      | Some req =>
          if String.eqb (lgUsername req) "" || String.eqb (lgPassword req) ""
          then mret (writeAPIError StatusBadRequest "bad_request" "username and password are required")
          else
            user ← session_op (ApiAuth.on_users (Authenticate (lgUsername req) (lgPassword req)));
            match user with
            | inr _ => mret (unauthorized "invalid credentials")
            | inl user =>
                match Issue ts now (uID user) (uUsername user) (uRole user) with
                | inr _ => mret (internal_error "could not issue token")
                | inl token =>
                    match Validate ts now token with
                    | inr _ => mret (internal_error "could not validate token")
                    | inl claims =>
                        _ ← session_op (audit_login ad now "login" (uUsername user) (r_remote r));
                        mret (session_response ad token (cExpiresAt claims))
                    end
                end
            end
      end
  | _, _ => mret (writeAPIError StatusServiceUnavailable "unavailable" "auth not configured")
  end.

Definition logout (r : request unit) : code world response :=
  let username := match ClaimsFromContext r with Some c => cUsername c | None => "" end in
  _ ← session_op (audit_login ad now "logout" username (r_remote r));
  mret (mkResponse StatusNoContent None [clearSessionCookie (resolveSessionCookieConfig (ad_tls ad))]).
End sessions.

(** ** The requests

    A refresh makes one query, creating a user and setting a password one statement
    each. *)
Inductive job :=
| JWrite (now : time) (r : request value)
| JCommand (now : time) (deviceID tag : string) (v : value)
| JChangePLC (now : time) (req_ctx : ctx) (q : change)
| JChangeACL (now : time) (q : acl_change)
| JCreateUser (now : time) (salt : Z) (r : request create_user_req)
| JSetPassword (salt : Z) (r : request string)
| JSetRole (r : request string)
| JDeleteUser (r : request unit)
| JLogin (now : time) (r : request loginRequest)
| JRefresh (now : time) (r : request unit)
| JLogout (now : time) (r : request unit).

Definition answered (c : code world response) : code world unit := resp ← c; answer resp.

Context {Bc : Bcrypt} {Jw : JWT} (ad : auth_deps).

Definition code_of (j : job) : code world unit :=
  match j with
  | JWrite now r => answered (write_tag now r)
  | JCommand now dev tag v => command now dev tag v
  | JChangePLC now c q => answered (change_plc now c q)
  | JChangeACL now q => answered (change_acl now q)
  | JCreateUser now salt r => answered (users_op (handleCreateUser now salt r))
  | JSetPassword salt r => answered (users_op (handleUpdateUserPassword salt r))
  | JSetRole r => answered (update_role r)
  | JDeleteUser r => answered (delete_user r)
  | JLogin now r => answered (login ad now r)
  | JRefresh now r => answered (session_op (handleRefresh ad now now now r))
  | JLogout now r => answered (logout ad now r)
  end.

(** Any number of requests of any kind run at the same time. *)
Definition serve_all_at_once (cs : list (choice (J := job))) (w : world) : system :=
  schedule (λ j, job_prog (code_of j)) (λ _ _, false) cs (mkSystem w []).
End requests.

(** ** A request nobody comes between is the handler of the sequential model *)

Section tracking.
Context {T : Type} (get : gateway → T) (set : T → gateway → gateway).
Context (get_set : ∀ x g, get (set x g) = x) (set_get : ∀ g, set (get g) g = g) (set_set : ∀ x y g, set y (set x g) = set y g).

(** The code does to the part [get] of the gateway what [m] does, and returns what
    it returns. *)
Definition tracks {A : Type} (c : code world A) (m : State T A) : Prop := ∀ k w, ∃ w',
  alone (c k) w = alone (k (m (get (wd_gateway w))).1) w' ∧
  wd_gateway w' = set (m (get (wd_gateway w))).2 (wd_gateway w) ∧ wd_answers w' = wd_answers w.

Lemma tracks_op {A : Type} (m : State T A) : tracks (on_gateway (zoom get set m)) m.
Proof.
  intros k w. unfold on_gateway, op. rewrite alone_act. unfold zoom. destruct (m (get (wd_gateway w))) as [a x].
  by eexists.
Qed.

Lemma tracks_ret {A : Type} (a : A) : tracks (mret a) (mret a).
Proof. intros k w. exists w. split; [done|]. simpl. by rewrite set_get. Qed.

Lemma tracks_bind {A B : Type} (c : code world A) (m : State T A) (f : A → code world B) (h : A → State T B) :
  tracks c m → (∀ a, tracks (f a) (h a)) → tracks (c ≫= f) (m ≫= h).
Proof.
  intros Hc Hf k w. rewrite code_bind_run. destruct (Hc (λ a, f a k) w) as (w1 & -> & E1 & E2).
  destruct (Hf (m (get (wd_gateway w))).1 k w1) as (w2 & -> & E3 & E4). exists w2.
  rewrite E1, get_set in *. rewrite bind_run. destruct (m (get (wd_gateway w))) as [a x]. cbn [fst snd] in *.
  split_and!; [done| |congruence]. by rewrite E3, set_set.
Qed.

Lemma alone_answered (c : code world response) (m : State T response) w :
  tracks c m → wd_gateway (alone (job_prog (answered c)) w) = (zoom get set m (wd_gateway w)).2.
Proof.
  intros H. unfold job_prog, answered. rewrite code_bind_run.
  destruct (H (λ resp, answer resp (λ _, Done)) w) as (w' & -> & E & _). unfold answer, op. rewrite alone_act. simpl.
  rewrite E. unfold zoom. by destruct (m _).
Qed.

Lemma tracks_ext {A : Type} (c : code world A) (m m' : State T A) : (∀ x, m x = m' x) → tracks c m → tracks c m'.
Proof. intros E H k w. rewrite <- E. apply H. Qed.

(** An operation the sequential model does not have. *)
Lemma tracks_begun {A : Type} (f : nat → code world A) (m : State T A) :
  (∀ n, tracks (f n) m) → tracks (begun ≫= f) m.
Proof. intros Hf k w. rewrite code_bind_run. unfold begun, op. rewrite alone_act. apply Hf. Qed.
End tracking.

Abbreviation tracks_server := (tracks gw_server (λ x g, mkGateway (gw_users g) x)).
Abbreviation tracks_users := (tracks gw_users (λ x g, mkGateway x (gw_server g))).
Abbreviation tracks_session := (tracks (λ g, mkAuthState (gw_users g) (sv_audit (gw_server g)))
  (λ x g, mkGateway (au_users x) (set_audit (au_audit x) (gw_server g)))).

Lemma on_plcs_bind {A B : Type} (m : State (db plc_tables) A) (k : A → State (db plc_tables) B) (s : server) :
  (on_plcs m ≫= λ a, on_plcs (k a)) s = on_plcs (m ≫= k) s.
Proof.
  unfold on_plcs, zoom. rewrite !bind_run. destruct (m (sv_plcs s)) as [a d]. simpl. by destruct (k a d).
Qed.

Lemma on_plcs_ret {A : Type} (a : A) (s : server) : (mret a : State server A) s = on_plcs (mret a) s.
Proof. unfold on_plcs, zoom. by destruct s. Qed.

Section serial.
Context {Eng : Engine} (deps : write_deps).

Lemma server_tracks_op {A : Type} (m : State server A) : tracks_server (server_op m) m.
Proof. apply tracks_op. Qed.

Lemma server_tracks_ret {A : Type} (a : A) : tracks_server (mret a) (mret a).
Proof. apply tracks_ret. by intros []. Qed.

Lemma server_tracks_bind {A B : Type} (c : code world A) (m : State server A) (f : A → code world B) (h : A → State server B) :
  tracks_server c m → (∀ a, tracks_server (f a) (h a)) → tracks_server (c ≫= f) (m ≫= h).
Proof. by apply tracks_bind. Qed.

Lemma users_tracks_bind {A B : Type} (c : code world A) m (f : A → code world B) h :
  tracks_users c m → (∀ a, tracks_users (f a) (h a)) → tracks_users (c ≫= f) (m ≫= h).
Proof. by apply tracks_bind. Qed.

Lemma users_tracks_ret {A : Type} (a : A) : tracks_users (mret a) (mret a).
Proof. apply tracks_ret. by intros []. Qed.

Lemma session_tracks_bind {A B : Type} (c : code world A) m (f : A → code world B) h :
  tracks_session c m → (∀ a, tracks_session (f a) (h a)) → tracks_session (c ≫= f) (m ≫= h).
Proof. apply tracks_bind; [by intros [] []|done]. Qed.

Lemma session_tracks_ret {A : Type} (a : A) : tracks_session (mret a) (mret a).
Proof. apply tracks_ret. by intros [? []]. Qed.

Lemma session_tracks_op {A : Type} (m : State auth_state A) : tracks_session (session_op m) m.
Proof. apply tracks_op. Qed.

Lemma tracks_write since role plc tag v :
  tracks_server (write_op since role plc tag v) (managerWriteTag plc tag v).
Proof.
  intros k w. unfold write_op, op. rewrite alone_act. unfold on_server, zoom.
  destruct (managerWriteTag plc tag v (gw_server (wd_gateway w))) as [e s]. by eexists.
Qed.

(** The pieces of a read of the PLC store. *)
Lemma tracks_get name : tracks_server (get_plc name) (on_plcs (PlcStore.Get name)).
Proof.
  unfold PlcStore.Get. eapply tracks_ext; [intros s; apply on_plcs_bind|].
  apply server_tracks_bind; [apply server_tracks_op|]. intros [[[id r]|]|f].
  - eapply tracks_ext; [intros s; apply on_plcs_bind|]. apply server_tracks_bind; [apply server_tracks_op|].
    intros tags. eapply tracks_ext; [intros s; apply on_plcs_ret|]. apply server_tracks_ret.
  - eapply tracks_ext; [intros s; apply on_plcs_ret|]. apply server_tracks_ret.
  - eapply tracks_ext; [intros s; apply on_plcs_ret|]. apply server_tracks_ret.
Qed.

Lemma tracks_tags rs : tracks_server (tags_of_rows rs) (on_plcs (with_tags rs)).
Proof.
  induction rs as [|[id r] rs IH]; cbn [tags_of_rows with_tags].
  { eapply tracks_ext; [intros s; apply on_plcs_ret|]. apply server_tracks_ret. }
  eapply tracks_ext; [intros s; apply on_plcs_bind|]. apply server_tracks_bind; [apply server_tracks_op|].
  intros [tags|err]; [|eapply tracks_ext; [intros s; apply on_plcs_ret|]; apply server_tracks_ret].
  eapply tracks_ext; [intros s; apply on_plcs_bind|]. apply server_tracks_bind; [exact IH|].
  intros ps. eapply tracks_ext; [intros s; apply on_plcs_ret|]. apply server_tracks_ret.
Qed.

Lemma tracks_list : tracks_server list_plcs (on_plcs PlcStore.List).
Proof.
  unfold list_plcs, PlcStore.List. eapply tracks_ext; [intros s; apply on_plcs_bind|].
  apply server_tracks_bind; [apply server_tracks_op|]. intros [rs|f]; [apply tracks_tags|].
  eapply tracks_ext; [intros s; apply on_plcs_ret|]. apply server_tracks_ret.
Qed.

Ltac tracks_step := first
  [ apply server_tracks_ret | apply users_tracks_ret | apply tracks_get | apply tracks_list | apply tracks_write
  | apply server_tracks_op | apply (tracks_op gw_users (λ x g, mkGateway x (gw_server g)))
  | apply server_tracks_bind; [|intros ?] | apply users_tracks_bind; [|intros ?]
  | apply tracks_begun; intros ? | progress case_match ].

Lemma tracks_write_tag now r :
  tracks_server (write_tag deps now r) (handleWriteTag (AuditSink0 := server_audit now) deps r).
Proof.
  unfold write_tag, handleWriteTag, authorize_http, tag_meta_of, AuthorizeHTTP, emit, emitWriteAudit, GetPLC, server_get_plc,
    TagMeta, server_tag_meta, plcstoreTagReader, GetPLC, WriteGuard.CanWrite, server_can_write, WriteGuard.WriteTag,
    server_write_tag. repeat tracks_step.
Qed.

Lemma tracks_command now dev tag v h :
  SparkplugCommandHandler (AuditSink0 := server_audit now) deps = Some h →
  tracks_server (command deps now dev tag v) (h dev tag v).
Proof.
  unfold SparkplugCommandHandler. destruct (negb (has_guard deps) || negb (has_manager deps)); [done|].
  intros [= <-]. unfold command, authorize_dcmd, tag_meta_of, AuthorizeDCMD, emit, TagMeta, server_tag_meta, plcstoreTagReader,
    GetPLC, server_get_plc, WriteGuard.WriteTag, server_write_tag. repeat tracks_step.
Qed.

Lemma tracks_plc now c q : tracks_server (change_plc deps now c q) (run_change deps now c q).
Proof.
  destruct q; unfold change_plc, create_plc, update_plc, delete_plc, run_change, handleCreatePLC, handleUpdatePLC, handleDeletePLC, finish_plc, finish_write,
    reload_plcs, reloadPLCsFromStore; repeat tracks_step.
Qed.

Lemma tracks_acl now q : tracks_server (change_acl deps now q) (run_acl_change deps now q).
Proof.
  destruct q; unfold change_acl, create_rule, update_rule, delete_rule, run_acl_change, handleCreateACLRule, handleUpdateACLRule, handleDeleteACLRule;
    repeat tracks_step.
Qed.

Lemma tracks_role r : tracks_users (update_role r) (handleUpdateUserRole r).
Proof. unfold update_role, handleUpdateUserRole. repeat tracks_step. Qed.

Lemma tracks_delete r : tracks_users (delete_user r) (handleDeleteUser r).
Proof. unfold delete_user, handleDeleteUser, last_admin_guard. repeat tracks_step. Qed.

Context {Bc : Bcrypt} {Jw : JWT} (ad : auth_deps).

Ltac session_step := first
  [ apply session_tracks_ret | apply session_tracks_op | apply session_tracks_bind; [|intros ?] | progress case_match ].

Lemma tracks_login now r : tracks_session (login ad now r) (handleLogin ad now now r).
Proof. unfold login, handleLogin. repeat session_step. Qed.

Lemma tracks_logout now r : tracks_session (logout ad now r) (handleLogout ad now r).
Proof. unfold logout, handleLogout. repeat session_step. Qed.

(** What the sequential model makes of a request. *)
Definition handled (j : job) (g : gateway) : gateway :=
  match j with
  | JWrite now r => (on_server (handleWriteTag (AuditSink0 := server_audit now) deps r) g).2
  | JCommand now dev tag v =>
      match SparkplugCommandHandler (AuditSink0 := server_audit now) deps with
      | Some h => (on_server (h dev tag v) g).2
      | None => g
      end
  | JChangePLC now c q => (on_server (run_change deps now c q) g).2
  | JChangeACL now q => (on_server (run_acl_change deps now q) g).2
  | JCreateUser now salt r => (on_user_store (handleCreateUser now salt r) g).2
  | JSetPassword salt r => (on_user_store (handleUpdateUserPassword salt r) g).2
  | JSetRole r => (on_user_store (handleUpdateUserRole r) g).2
  | JDeleteUser r => (on_user_store (handleDeleteUser r) g).2
  | JLogin now r => (on_session (handleLogin ad now now r) g).2
  | JRefresh now r => (on_session (handleRefresh ad now now now r) g).2
  | JLogout now r => (on_session (handleLogout ad now r) g).2
  end.

(** The server hands commands to the handler only when it has one. *)
Definition wired_job (j : job) : bool :=
  match j with JCommand _ _ _ _ => has_guard deps && has_manager deps | _ => true end.

Lemma alone_job j w : wired_job j = true →
  wd_gateway (alone (job_prog (code_of deps ad j)) w) = handled j (wd_gateway w).
Proof.
  destruct j as [now r|now dev tag v|now c q|now q|now salt r|salt r|r|r|now r|now r|now r]; intros Hj; cbn [code_of handled].
  - apply alone_answered, tracks_write_tag.
  - destruct (SparkplugCommandHandler deps) as [h|] eqn:Eh.
    + destruct (tracks_command now dev tag v h Eh (λ _, Done) w) as (w' & E & Eg & _). unfold job_prog. rewrite E. simpl.
      rewrite Eg. unfold on_server, zoom. by destruct (h _ _ _ _).
    + unfold SparkplugCommandHandler in Eh. simpl in Hj. apply andb_true_iff in Hj as [H1 H2]. by rewrite H1, H2 in Eh.
  - apply alone_answered, tracks_plc.
  - apply alone_answered, tracks_acl.
  - apply alone_answered, tracks_op.
  - apply alone_answered, tracks_op.
  - apply alone_answered, tracks_role.
  - apply alone_answered, tracks_delete.
  - apply alone_answered, tracks_login.
  - apply alone_answered, session_tracks_op.
  - apply alone_answered, tracks_logout.
Qed.

(** Handling requests one after the other, as the sequential model does, is one
    of the schedules. *)
Theorem sequential_is_a_schedule (js : list job) (w : world) :
  forallb wired_job js = true →
  ∃ cs, wd_gateway (sys_state (serve_all_at_once deps ad cs w)) = foldl (λ g j, handled j g) (wd_gateway w) js.
Proof.
  intros Hj. unfold serve_all_at_once.
  destruct (serial_schedule (λ j, job_prog (code_of deps ad j)) (λ _ _, false) js w) as [cs E]. exists cs. rewrite E. clear E cs.
  revert w Hj. induction js as [|j js IH]; intros w Hj; [done|]. simpl in Hj. apply andb_true_iff in Hj as [H1 H2].
  cbn [foldl]. by rewrite IH, alone_job.
Qed.
End serial.

(** ** Every schedule *)

Section invariant.
Context {Eng : Engine} (deps : write_deps) (logged : list AuditEvent) (written0 : list (string * string * value)).

(** The gateway had, at the [i]-th operation and not before the [n]-th, a PLC of
    this name with this identifier. *)
Definition row_seen (n : nat) (plc : string) (id : Z) (i : nat) (past : list gateway) : Prop :=
  (n ≤ i)%nat ∧ ∃ g row, past !! i = Some g ∧ (id, row) ∈ rows (plcs (tables (sv_plcs (gw_server g)))) ∧ plcName row = plc.

(** Later, at the [i]-th operation, its tag had these switches. *)
Definition switches_seen (n : nat) (plc tag : string) (m : tag_meta) (i : nat) (past : list gateway) : Prop :=
  ∃ id i0 g x, row_seen n plc id i0 past ∧ (i0 < i)%nat ∧ past !! i = Some g ∧
    List.find (λ t, String.eqb (tName t) tag) (tags_of (tables (sv_plcs (gw_server g))) id) = Some x ∧
    m = TagMetaOf (tWritable x) (tDCMDEnabled x).

(** After the [i]-th operation a rule granted the role the write. *)
Definition granted_seen (i : nat) (role plc tag : string) (past : list gateway) : Prop :=
  ∃ j g, (i < j)%nat ∧ past !! j = Some g ∧ AclStore.granted (tables (sv_acl (gw_server g))) role plc tag.

(** While the request ran, and before the write, the tag was writable and, for a
    role, granted; for a command, enabled. *)
Definition permitted (past : list gateway) (a : asked) : Prop :=
  let '(plc, tag, _) := as_write a in
  ∃ m i, Writable m = true ∧ switches_seen (as_since a) plc tag m i past ∧
  match as_role a with
  | Some role => granted_seen i role plc tag past
  | None => DCMDEnabled m = true
  end.

Record world_ok (w : world) : Prop := {
  wo_gateway : gateway_ok logged (wd_gateway w);
  wo_asked : Forall (permitted (wd_past w)) (wd_asked w);
  wo_written : ∀ x, x ∈ sv_written (gw_server (wd_gateway w)) → x ∈ written0 ∨ x ∈ as_write <$> wd_asked w;
}.

Definition goes_on (w w' : world) : Prop := wd_past w `prefix_of` wd_past w'.

(** *** What was seen stays seen *)

Lemma lookup_goes_on (l l' : list gateway) i g : l `prefix_of` l' → l !! i = Some g → l' !! i = Some g.
Proof. intros [k ->]. apply lookup_app_l_Some. Qed.

Lemma row_seen_on n plc id i l l' : l `prefix_of` l' → row_seen n plc id i l → row_seen n plc id i l'.
Proof. intros Hp (H1 & g & row & H2 & H3). split; [done|]. exists g, row. split; [by eapply lookup_goes_on|done]. Qed.

Lemma switches_seen_on n plc tag m i l l' : l `prefix_of` l' → switches_seen n plc tag m i l → switches_seen n plc tag m i l'.
Proof.
  intros Hp (id & i0 & g & x & H1 & H2 & H3 & H4). exists id, i0, g, x.
  split_and!; [by eapply row_seen_on|done|by eapply lookup_goes_on|apply H4..].
Qed.

Lemma granted_seen_on i role plc tag l l' : l `prefix_of` l' → granted_seen i role plc tag l → granted_seen i role plc tag l'.
Proof. intros Hp (j & g & H1 & H2 & H3). exists j, g. split_and!; [done|by eapply lookup_goes_on|done]. Qed.

Lemma permitted_on a l l' : l `prefix_of` l' → permitted l a → permitted l' a.
Proof.
  intros Hp. unfold permitted. destruct (as_write a) as [[plc tag] v]. intros (m & i & H1 & H2 & H3).
  exists m, i. split_and!; [done|by eapply switches_seen_on|]. destruct (as_role a); [by eapply granted_seen_on|done].
Qed.

Definition sees (P : list gateway → Prop) (w : world) : Prop := P (wd_past w).

Lemma stable_sees P : (∀ l l', l `prefix_of` l' → P l → P l') → stable goes_on (sees P).
Proof. intros H w w' Hw. by apply H. Qed.

Definition at_least (n : nat) (w : world) : Prop := (n ≤ length (wd_past w))%nat.

Lemma stable_at_least n : stable goes_on (at_least n).
Proof. intros w w' Hw%prefix_length. unfold at_least. lia. Qed.

Lemma stable_row n plc id i : stable goes_on (sees (row_seen n plc id i)).
Proof. apply stable_sees. intros l l'. apply row_seen_on. Qed.

Lemma stable_switches n plc tag m i : stable goes_on (sees (switches_seen n plc tag m i)).
Proof. apply stable_sees. intros l l'. apply switches_seen_on. Qed.

Lemma stable_permitted a : stable goes_on (sees (λ l, permitted l a)).
Proof. apply stable_sees. intros l l'. apply permitted_on. Qed.

Lemma stable_True : stable goes_on (λ _, True).
Proof. apply stable_pure. Qed.

(** *** Operations *)

Abbreviation triple := (Threads.triple world_ok goes_on).

(** An operation that keeps the constraints and hands nothing to a driver. *)
Definition plain {A : Type} (m : State gateway A) : Prop :=
  keeps (gateway_ok logged) m ∧ ∀ g, sv_written (gw_server (m g).2) = sv_written (gw_server g).

Lemma gateway_step {A : Type} (m : State gateway A) w : plain m → world_ok w →
  let '(a, g) := m (wd_gateway w) in
  world_ok (mkWorld g (wd_past w ++ [wd_gateway w]) (wd_asked w) (wd_answers w)).
Proof.
  intros [H1 H2] [H3 H4 H5]. specialize (H1 _ H3). specialize (H2 (wd_gateway w)). destruct (m (wd_gateway w)) as [a g].
  simpl in *. split; simpl; [done| |by rewrite H2].
  eapply Forall_impl; [exact H4|]. intros x. apply permitted_on. by apply prefix_app_r.
Qed.

Lemma triple_gateway {A : Type} (m : State gateway A) K : plain m → stable goes_on K → triple K (on_gateway m) (λ _, K).
Proof.
  intros Hm HK. apply triple_op; [done|]. intros w Hw HKw. pose proof (gateway_step m w Hm Hw) as H.
  destruct (m (wd_gateway w)) as [a g]. cbn [fst snd].
  assert (Hr : goes_on w (mkWorld g (wd_past w ++ [wd_gateway w]) (wd_asked w) (wd_answers w))) by (by eexists).
  split_and!; [done|done|by eapply HK].
Qed.

(** A read: its answer is that of a state not before the [n]-th operation. *)
Lemma triple_read {A E : Type} (m : State gateway (A + E)) (P : gateway → A → Prop) n K :
  plain m → stable goes_on K → (∀ w, K w → at_least n w) → (∀ g a, (m g).1 = inl a → P g a) →
  triple K (on_gateway m) (λ r w, match r with
    | inl a => ∃ i g, (n ≤ i)%nat ∧ sees (λ l, l !! i = Some g) w ∧ P g a ∧ K w
    | inr _ => K w
    end).
Proof.
  intros Hm HK Hn Hq. apply triple_op.
  { intros [a|f]; [|done]. do 2 (apply stable_exists; intros ?). apply stable_and; [apply stable_pure|].
    apply stable_and; [apply stable_sees; intros l l'; apply lookup_goes_on|]. apply stable_and; [apply stable_pure|done]. }
  intros w Hw HKw. pose proof (gateway_step m w Hm Hw) as H. specialize (Hq (wd_gateway w)).
  destruct (m (wd_gateway w)) as [r g]. cbn [fst snd] in *. specialize (Hn w HKw).
  assert (Hr : goes_on w (mkWorld g (wd_past w ++ [wd_gateway w]) (wd_asked w) (wd_answers w))) by (by eexists).
  split_and!; [done|done|]. destruct r as [a|f]; [|by eapply HK]. exists (length (wd_past w)), (wd_gateway w).
  split_and!; [exact Hn| |by apply Hq|by eapply HK]. unfold sees. simpl. by apply list_lookup_middle.
Qed.

Lemma triple_begun : triple (λ _, True) begun at_least.
Proof.
  apply triple_op; [apply stable_at_least|]. intros w Hw _. split_and!; [done|by exists []; rewrite app_nil_r|]. by unfold at_least.
Qed.

Lemma triple_answer resp K : triple K (answer resp) (λ _ _, True).
Proof.
  apply triple_op; [intros _; apply stable_True|]. intros w [H1 H2 H3] _. split_and!; [by split| |done].
  exists []. by rewrite app_nil_r.
Qed.

(** The write of a request that was permitted. *)
Lemma triple_write since role plc tag v :
  triple (sees (λ l, permitted l (mkAsked since role (plc, tag, v)))) (write_op since role plc tag v) (λ _ _, True).
Proof.
  apply triple_op; [intros _; apply stable_True|]. intros w [H1 H2 H3] Hp.
  assert (Hw : ∃ err g, on_server (managerWriteTag plc tag v) (wd_gateway w) = (err, g) ∧ gateway_ok logged g ∧
    ∀ x, x ∈ sv_written (gw_server g) → x = (plc, tag, v) ∨ x ∈ sv_written (gw_server (wd_gateway w))).
  { unfold on_server, zoom. pose proof (keeps_driver logged plc tag v (gw_server (wd_gateway w)) (proj2 H1)) as Hk.
    assert (Hx : ∀ x, x ∈ sv_written (managerWriteTag plc tag v (gw_server (wd_gateway w))).2 →
       x = (plc, tag, v) ∨ x ∈ sv_written (gw_server (wd_gateway w))).
    { unfold managerWriteTag. destruct (PlcManager.WriteTag _ _); [|simpl; auto]. destruct (sv_answers _) as [|]; simpl; set_solver. }
    destruct (managerWriteTag plc tag v _) as [err s]. eexists _, _. split; [done|]. destruct H1. by split. }
  destruct Hw as (err & g & -> & Hg & Hx). cbn [fst snd].
  assert (Hpre : wd_past w `prefix_of` wd_past w ++ [wd_gateway w]) by (by eexists). split_and!; [|done|done].
  split; simpl; [done| |].
  - apply Forall_app. split; [eapply Forall_impl; [exact H2|]; intros x; by apply permitted_on|].
    apply Forall_singleton. by eapply permitted_on.
  - intros x [->|Hin]%Hx; [right; rewrite fmap_app; set_solver|]. destruct (H3 x Hin); [by left|]. right. rewrite fmap_app. set_solver.
Qed.

(** *** The operations of the handlers are plain *)

Lemma plain_server {A : Type} (m : State server A) :
  keeps (server_ok logged) m → (∀ s, sv_written (m s).2 = sv_written s) → plain (on_server m).
Proof.
  intros H1 H2. split; [by apply keeps_server|]. intros g. unfold on_server, zoom. specialize (H2 (gw_server g)).
  by destruct (m _).
Qed.

Lemma plain_plcs {A : Type} (m : State (db plc_tables) A) : preserves plc_ok m → plain (on_server (on_plcs m)).
Proof. intros H. apply plain_server; [by apply keeps_plcs|]. intros s. unfold on_plcs, zoom. by destruct (m _). Qed.

Lemma plain_acl {A : Type} (m : State (db acl_table) A) : preserves acl_ok m → plain (on_server (on_acl m)).
Proof. intros H. apply plain_server; [by apply keeps_acl|]. intros s. unfold on_acl, zoom. by destruct (m _). Qed.

Lemma plain_users {A : Type} (m : State (db user_table) A) : preserves user_ok m → plain (on_user_store m).
Proof. intros H. split; [by apply keeps_users|]. intros g. unfold on_user_store, zoom. by destruct (m _). Qed.

Lemma plain_log now e {A : Type} (a : A) : plain (on_server (_ ← on_audit (Log now e); mret a)).
Proof.
  apply plain_server; [apply keeps_bind; [apply keeps_log|intros; apply keeps_ret]|].
  intros s. rewrite bind_run. unfold on_audit, zoom. by destruct (Log _ _ _).
Qed.

Lemma plain_ret {A : Type} (a : A) : plain (on_server (mret a)).
Proof. apply plain_server; [apply keeps_ret|done]. Qed.

Lemma plain_reload c ps : plain (on_server (modify (λ s, set_mgr (Reload c ps (sv_mgr s)) s))).
Proof. apply plain_server; [apply keeps_reload|done]. Qed.

Lemma plain_audit_plc {B} now (r : request B) action detail : plain (on_server (audit_plc deps now r action detail)).
Proof. unfold audit_plc. destruct (negb _); [apply plain_ret|apply plain_log]. Qed.

Lemma plain_audit_acl {B} now (r : request B) action detail : plain (on_server (audit_acl deps now r action detail)).
Proof. unfold audit_acl. destruct (negb _); [apply plain_ret|apply plain_log]. Qed.

Lemma plain_emit now plc tag v outcome reason source user :
  plain (on_server (emitWriteAuditDetail (AuditSink0 := server_audit now) deps plc tag v outcome reason source user)).
Proof. unfold emitWriteAuditDetail. destruct (negb _); [apply plain_ret|apply plain_log]. Qed.

Lemma query_keeps_plcs {A : Type} (q : plc_tables → A) : plain (on_server (on_plcs (query q))).
Proof. apply plain_plcs, preserves_query. Qed.

Lemma listTags_keeps id : plain (on_server (on_plcs (listTags id))).
Proof. apply plain_plcs. unfold listTags. apply preserves_bind; [apply preserves_query|]. intros. apply preserves_ret. Qed.

Lemma CountByRole_keeps role : preserves user_ok (CountByRole role).
Proof. unfold CountByRole. apply preserves_bind; [apply preserves_query|]. intros. apply preserves_ret. Qed.

(** *** Code that only makes plain operations *)

Ltac plain_op := lazymatch goal with
  | |- plain (on_server (on_plcs (query _))) => apply query_keeps_plcs
  | |- plain (on_server (on_plcs (listTags _))) => apply listTags_keeps
  | |- plain (on_server (on_plcs _)) => apply plain_plcs; first [ apply (plc_run_op_ok (PlcStore.OpCreate _ _))
      | apply (plc_run_op_ok (PlcStore.OpUpdate _ _ _)) | apply (plc_run_op_ok (PlcStore.OpDelete _)) ]
  | |- plain (on_server (on_acl _)) => apply plain_acl; first [ apply acl_reads_keep
      | apply (acl_run_op_ok (AclStore.OpCreate _)) | apply (acl_run_op_ok (AclStore.OpUpdate _ _))
      | apply (acl_run_op_ok (AclStore.OpDelete _)) ]
  | |- plain (on_server (modify _)) => apply plain_reload
  | |- plain (on_server (audit_plc _ _ _ _ _)) => apply plain_audit_plc
  | |- plain (on_server (audit_acl _ _ _ _ _)) => apply plain_audit_acl
  | |- plain (on_user_store _) => apply plain_users;
      first [ apply UpdateRole_preserves | apply Delete_preserves | apply scanOne_keeps | apply CountByRole_keeps ]
  | |- plain _ => apply plain_emit
  end.

Ltac plain_step K HK := lazymatch goal with
  | |- Threads.triple _ _ _ (mret _) _ => apply (triple_ret _ _ _ (λ _, K))
  | |- Threads.triple _ _ _ (mbind _ _) _ => apply (triple_bind _ _ K _ _ (λ _, K)); [|intros ?]
  | |- Threads.triple _ _ _ (on_gateway _) _ => apply triple_gateway; [plain_op|exact HK]
  | |- _ => progress case_match
  end.

Lemma plain_get name K : stable goes_on K → triple K (get_plc name) (λ _, K).
Proof. intros HK. unfold get_plc, plcs_op, server_op. repeat plain_step K HK. Qed.

Lemma plain_tags rs K : stable goes_on K → triple K (tags_of_rows rs) (λ _, K).
Proof. intros HK. induction rs as [|[id r] rs IH]; cbn [tags_of_rows]; unfold plcs_op, server_op; repeat (exact IH || plain_step K HK). Qed.

Lemma plain_list K : stable goes_on K → triple K list_plcs (λ _, K).
Proof. intros HK. unfold list_plcs, plcs_op, server_op. repeat ((apply plain_tags; done) || plain_step K HK). Qed.

Lemma plain_emit_code now plc tag v outcome reason source user K :
  stable goes_on K → triple K (emit deps now plc tag v outcome reason source user) (λ _, K).
Proof. intros HK. apply triple_gateway; [apply plain_emit|done]. Qed.

Lemma plain_change_plc now c q : triple (λ _, True) (change_plc deps now c q) (λ _ _, True).
Proof.
  pose proof stable_True as HK.
  destruct q; unfold change_plc, create_plc, update_plc, delete_plc, finish_plc, reload_plcs, plcs_op, server_op;
    repeat ((apply plain_get; done) || (apply plain_list; done) || plain_step (λ _ : world, True) HK).
Qed.

Lemma plain_change_acl now q : triple (λ _, True) (change_acl deps now q) (λ _ _, True).
Proof.
  pose proof stable_True as HK.
  destruct q; unfold change_acl, create_rule, update_rule, delete_rule, acl_op, server_op; repeat plain_step (λ _ : world, True) HK.
Qed.

Lemma plain_role r : triple (λ _, True) (update_role r) (λ _ _, True).
Proof. pose proof stable_True as HK. unfold update_role, users_op. repeat plain_step (λ _ : world, True) HK. Qed.

Lemma plain_delete r : triple (λ _, True) (delete_user r) (λ _ _, True).
Proof. pose proof stable_True as HK. unfold delete_user, users_op. repeat plain_step (λ _ : world, True) HK. Qed.

(** *** What the gates have seen *)

(** What a lookup of a tag tells, and what a gate does. *)
Definition meta_seen (n : nat) (plc tag : string) (meta : option tag_meta) (w : world) : Prop :=
  match meta with
  | Some m => ∃ i, sees (switches_seen n plc tag m i) w
  | None => True
  end.

Lemma listTags_answer id g tags : (on_server (on_plcs (listTags id)) g).1 = inl tags →
  tags = appended (tags_of (tables (sv_plcs (gw_server g))) id).
Proof.
  unfold on_server, on_plcs, zoom, listTags. rewrite bind_run.
  destruct (query_sound (λ t, select_where (of_plc id) (plc_tags t)) (sv_plcs (gw_server g))) as (_ & H & _).
  destruct (query _ _) as [[rs|f] d]; simpl in *; [|done]. intros [= <-]. by rewrite (H rs eq_refl).
Qed.

Lemma select_plc_answer plc g r : (on_server (on_plcs (query (select_plc plc))) g).1 = inl r →
  ∀ id row, r = Some (id, row) → (id, row) ∈ rows (plcs (tables (sv_plcs (gw_server g)))) ∧ plcName row = plc.
Proof.
  unfold on_server, on_plcs, zoom. destruct (query_sound (select_plc plc) (sv_plcs (gw_server g))) as (_ & H & _).
  destruct (query _ _) as [[x|f] d]; simpl in *; [|done]. intros [= <-] id row ->. specialize (H _ eq_refl). symmetry in H.
  apply select_one_Some in H as [H1 H2%String.eqb_eq]. done.
Qed.

Lemma get_seen n plc :
  triple (at_least n) (get_plc plc) (λ p w, match p with
    | inl p => ∃ id i0 i g, sees (row_seen n plc id i0) w ∧ (i0 < i)%nat ∧ sees (λ l, l !! i = Some g) w ∧
                 elems (pTags p) = tags_of (tables (sv_plcs (gw_server g))) id
    | inr _ => True
    end).
Proof.
  unfold get_plc, plcs_op, server_op. eapply triple_bind.
  { apply (triple_read _ (λ g r, ∀ id row, r = Some (id, row) →
        (id, row) ∈ rows (plcs (tables (sv_plcs (gw_server g)))) ∧ plcName row = plc) n);
      [apply query_keeps_plcs|apply stable_at_least|done|intros g a; apply select_plc_answer]. }
  intros [[[id row]|]|f]; cbv beta iota.
  2, 3: by apply triple_ret_if.
  apply triple_exists; intros i0. apply triple_exists; intros g0.
  eapply triple_bind.
  - apply (triple_pre _ _ (sees (row_seen n plc id i0))).
    { intros w (H1 & H2 & H3 & _). destruct (H3 _ _ eq_refl). by split; [|exists g0, row]. }
    apply (triple_read _ (λ g tags, tags = appended (tags_of (tables (sv_plcs (gw_server g))) id)) (S i0)).
    + apply listTags_keeps.
    + apply stable_row.
    + intros w (_ & g & r & Hl%lookup_lt_Some & _). unfold at_least. lia.
    + intros g a. apply listTags_answer.
  - intros [tags|err]; cbv beta iota.
    2: by apply triple_ret_if.
    apply triple_ret_if. intros w (i & g & H1 & H2 & H3 & H4). exists id, i0, i, g. split_and!; [done|lia|done|].
    simpl. by rewrite H3, elems_appended.
Qed.

Lemma stable_meta n plc tag meta : stable goes_on (meta_seen n plc tag meta).
Proof. destruct meta as [m|]; [|apply stable_True]. apply stable_exists. intros i. apply stable_switches. Qed.

Lemma tag_meta_seen n plc tag :
  triple (at_least n) (tag_meta_of plc tag) (meta_seen n plc tag).
Proof.
  unfold tag_meta_of. eapply triple_bind; [apply get_seen|]. intros [p|err]; cbv beta iota; [|by apply triple_ret_if].
  apply triple_ret_if. intros w (id & i0 & i & g & H1 & H2 & H3 & H4). rewrite H4.
  destruct (List.find _ (tags_of _ id)) as [x|] eqn:Ex; [|done]. exists i, id, i0, g, x. by split_and!.
Qed.

(** What an HTTP gate that allows has seen, and a command gate. *)
Definition http_seen (n : nat) (role plc tag : string) (past : list gateway) : Prop :=
  ∃ m i, Writable m = true ∧ switches_seen n plc tag m i past ∧ granted_seen i role plc tag past.
Definition dcmd_seen (n : nat) (plc tag : string) (past : list gateway) : Prop :=
  ∃ m i, Writable m = true ∧ switches_seen n plc tag m i past ∧ DCMDEnabled m = true.

Lemma stable_http n role plc tag : stable goes_on (sees (http_seen n role plc tag)).
Proof.
  apply stable_sees. intros l l' Hp (m & i & H1 & H2 & H3). exists m, i.
  split_and!; [done|by eapply switches_seen_on|by eapply granted_seen_on].
Qed.

Lemma CanWrite_answer role plc tag g a : (on_server (on_acl (AclStore.CanWrite role plc tag)) g).1 = inl a →
  a = true → AclStore.granted (tables (sv_acl (gw_server g))) role plc tag.
Proof.
  unfold on_server, on_acl, zoom. destruct (CanWrite_allows role plc tag (sv_acl (gw_server g))) as [_ H].
  destruct (AclStore.CanWrite _ _ _ _) as [r d]. simpl in *. intros -> ->. auto.
Qed.

Lemma authorize_http_seen n actor plc tag :
  triple (at_least n) (authorize_http actor plc tag)
    (λ d w, Allowed d = true → sees (http_seen n (actorRole actor) plc tag) w).
Proof.
  unfold authorize_http, acl_op, server_op. eapply triple_bind; [apply tag_meta_seen|]. intros [m|]; [|by apply triple_ret_if].
  destruct (Writable m) eqn:Hw; cbn [negb]; [|by apply triple_ret_if]. apply triple_exists; intros i. eapply triple_bind.
  - apply (triple_read _ (λ g a, a = true → AclStore.granted (tables (sv_acl (gw_server g))) (actorRole actor) plc tag) (S i)).
    + apply plain_acl, acl_reads_keep.
    + apply stable_switches.
    + intros w (id & i0 & g & x & _ & _ & Hl%lookup_lt_Some & _). unfold at_least. lia.
    + intros g a. apply CanWrite_answer.
  - intros [[|]|err]; apply triple_ret_if; [|done..]. intros w (j & g & H1 & H2 & H3 & H4) _.
    exists m, i. split_and!; [done..|]. exists j, g. split_and!; [lia|done|auto].
Qed.

Lemma authorize_dcmd_seen n plc tag :
  triple (at_least n) (authorize_dcmd plc tag) (λ d w, Allowed d = true → sees (dcmd_seen n plc tag) w).
Proof.
  unfold authorize_dcmd. eapply triple_bind; [apply tag_meta_seen|]. intros [m|]; [|by apply triple_ret_if].
  destruct (Writable m) eqn:Hw; cbn [negb]; [|by apply triple_ret_if].
  destruct (DCMDEnabled m) eqn:Hd; cbn [negb]; [|by apply triple_ret_if].
  apply triple_ret_if. intros w [i H] _. by exists m, i.
Qed.

(** *** The writing requests *)

Lemma emit_then {A : Type} now plc tag v outcome reason source user (a : A) K :
  triple K (_ ← emit deps now plc tag v outcome reason source user; mret a) (λ _ _, True).
Proof.
  apply (triple_pre _ _ (λ _, True)); [done|]. eapply triple_bind; [apply plain_emit_code, stable_True|].
  intros ?. by apply triple_ret_if.
Qed.

Lemma safe_write_tag now r : triple (λ _, True) (write_tag deps now r) (λ _ _, True).
Proof.
  unfold write_tag. eapply triple_bind; [apply triple_begun|]. intros n. cbv zeta.
  destruct (r_body r) as [v|]; [|by apply triple_ret_if].
  eapply triple_bind; [apply plain_get, stable_at_least|]. intros [p|err]; [|case_match; by apply triple_ret_if].
  destruct (negb _); [by apply triple_ret_if|]. eapply triple_bind; [apply authorize_http_seen|]. intros d.
  destruct (Allowed d) eqn:Ed; cbn [negb]; [|apply emit_then].
  set (actor := match ClaimsFromContext r with Some c => _ | None => _ end).
  apply (triple_bind _ _ _ _ _ (λ _ _, True)); [|intros [err|]; apply emit_then].
  destruct (has_manager deps); [|by apply triple_ret_if].
  apply (triple_pre _ _ (sees (λ l, permitted l (mkAsked n (Some (actorRole actor)) (r_path r "plc", r_path r "tag", v)))));
    [|apply triple_write]. intros w H. destruct (H Ed) as (m & i & ?). by exists m, i.
Qed.

Lemma safe_command now dev tag v : triple (λ _, True) (command deps now dev tag v) (λ _ _, True).
Proof.
  unfold command. eapply triple_bind; [apply triple_begun|]. intros n.
  eapply triple_bind; [apply authorize_dcmd_seen|]. intros d.
  destruct (Allowed d) eqn:Ed; cbn [negb].
  2: { apply (triple_pre _ _ (λ _, True)); [done|]. apply plain_emit_code, stable_True. }
  apply (triple_bind _ _ _ _ _ (λ _ _, True)).
  - apply (triple_pre _ _ (sees (λ l, permitted l (mkAsked n None (dev, tag, v))))); [|apply triple_write].
    intros w H. destruct (H Ed) as (m & i & ?). by exists m, i.
  - intros [err|]; apply plain_emit_code, stable_True.
Qed.

Context {Bc : Bcrypt} {Jw : JWT} (ad : auth_deps).

Lemma plain_session {A : Type} (m : State auth_state A) : keeps (session_ok logged) m → plain (on_session m).
Proof. intros H. split; [by apply keeps_session|]. intros g. unfold on_session, zoom. by destruct (m _). Qed.

Lemma plain_query name pw : plain (on_session (ApiAuth.on_users (Authenticate name pw))).
Proof.
  apply plain_session, keeps_session_users. unfold Authenticate, GetByUsername.
  apply preserves_bind; [apply scanOne_keeps|]. intros [u|e]; apply preserves_ret.
Qed.

Lemma plain_login now r : triple (λ _, True) (login ad now r) (λ _ _, True).
Proof.
  pose proof stable_True as HK. unfold login, session_op.
  repeat (apply triple_gateway; [first [apply plain_query | apply plain_session, keeps_audit_login]|exact HK])
    || plain_step (λ _ : world, True) HK.
Qed.

Lemma plain_logout now r : triple (λ _, True) (logout ad now r) (λ _ _, True).
Proof.
  pose proof stable_True as HK. unfold logout, session_op. eapply triple_bind.
  - apply triple_gateway; [apply plain_session, keeps_audit_login|exact HK].
  - intros ?. by apply triple_ret_if.
Qed.

Lemma safe_answered (c : code world response) : triple (λ _, True) c (λ _ _, True) → triple (λ _, True) (answered c) (λ _ _, True).
Proof. intros H. eapply triple_bind; [exact H|]. intros resp. apply triple_answer. Qed.

Lemma safe_request j : safe world_ok goes_on (λ _, True) (job_prog (code_of deps ad j)).
Proof.
  assert (H : triple (λ _, True) (code_of deps ad j) (λ _ _, True)); [|by apply H].
  pose proof (λ now sa r r1 r2, keeps_user_handlers now sa r r1 r2) as Hu.
  destruct j as [now r|now dev tag v|now c q|now q|now sa r|sa r|r|r|now r|now r|now r]; cbn [code_of];
    try apply safe_answered.
  - apply safe_write_tag.
  - apply safe_command.
  - apply plain_change_plc.
  - apply plain_change_acl.
  - apply triple_gateway; [|apply stable_True]. apply plain_users. by apply (Hu now sa (mkRequest "" "" (λ _, None) (λ _, "") (λ _, "") "" None None) r (mkRequest "" "" (λ _, None) (λ _, "") (λ _, "") "" None None)).
  - apply triple_gateway; [|apply stable_True]. apply plain_users. by apply (Hu 0 sa (mkRequest "" "" (λ _, None) (λ _, "") (λ _, "") "" None None) (mkRequest "" "" (λ _, None) (λ _, "") (λ _, "") "" None None) r).
  - apply plain_role.
  - apply plain_delete.
  - apply plain_login.
  - apply triple_gateway; [|apply stable_True]. apply plain_session. unfold handleRefresh, revalidate, GetByID.
    repeat first [ apply keeps_ret | apply keeps_session_users, scanOne_keeps | apply keeps_bind; [|intros ?] | progress case_match ].
  - apply plain_logout.
Qed.
End invariant.

(** ** Answers *)

Section answers.
Context {Eng : Engine} (deps : write_deps).

Definition said (w : world) : nat := length (wd_answers w).

(** A request over HTTP is answered, a command is not. *)
Definition over_http (j : job) : bool := match j with JCommand _ _ _ _ => false | _ => true end.

(** The code gives no answer of its own, and the goroutine has not ended with it. *)
Definition silent {A : Type} (b : bool) (c : code world A) : Prop := ∀ k, (∀ a, ready said b (k a)) → ready said b (c k).

Lemma silent_op {A : Type} b (m : State world A) : (∀ w, wd_answers (m w).2 = wd_answers w) → silent b (op m).
Proof.
  intros Hm k Hk. split; [done|]. intros w. specialize (Hm w). destruct (m w) as [a w']. simpl in *.
  destruct (Hk a) as [H1 H2]. split; [|done]. unfold said. rewrite Hm. destruct b; [rewrite H1 by done|]; simpl; lia.
Qed.

Lemma silent_gateway {A : Type} b (m : State gateway A) : silent b (on_gateway m).
Proof. apply silent_op. intros w. by destruct (m _). Qed.

Lemma silent_write b since role plc tag v : silent b (write_op since role plc tag v).
Proof. apply silent_op. intros w. by destruct (on_server _ _). Qed.

Lemma silent_begun b : silent b begun.
Proof. by apply silent_op. Qed.

Lemma silent_ret {A : Type} b (a : A) : silent b (mret a).
Proof. intros k Hk. apply Hk. Qed.

Lemma silent_bind {A B : Type} b (c : code world A) (f : A → code world B) :
  silent b c → (∀ a, silent b (f a)) → silent b (c ≫= f).
Proof. intros Hc Hf k Hk. apply Hc. intros a. by apply Hf. Qed.

Ltac silent_step := lazymatch goal with
  | |- silent _ (mret _) => apply silent_ret
  | |- silent _ (on_gateway _) => apply silent_gateway
  | |- silent _ (write_op _ _ _ _ _) => apply silent_write
  | |- silent _ begun => apply silent_begun
  | |- silent _ (mbind _ _) => apply silent_bind; [|intros ?]
  | |- silent _ (match _ with _ => _ end) => progress case_match
  | H : ∀ b name, silent b (get_plc name) |- silent _ (get_plc _) => apply H
  | H : ∀ b, silent b list_plcs |- silent _ list_plcs => apply H
  end.
Ltac silent_steps := unfold plcs_op, acl_op, users_op, server_op; cbv zeta; repeat silent_step.

Lemma silent_get b name : silent b (get_plc name).
Proof. unfold get_plc. silent_steps. Qed.

Lemma silent_tags b rs : silent b (tags_of_rows rs).
Proof. induction rs as [|[id r] rs IH]; cbn [tags_of_rows]; silent_steps. exact IH. Qed.

Lemma silent_list b : silent b list_plcs.
Proof. unfold list_plcs. silent_steps. apply silent_tags. Qed.

Lemma silent_write_tag b now r : silent b (write_tag deps now r).
Proof. pose proof silent_get. unfold write_tag, authorize_http, tag_meta_of, emit. silent_steps. Qed.

Lemma silent_command b now dev tag v : silent b (command deps now dev tag v).
Proof. pose proof silent_get. unfold command, authorize_dcmd, tag_meta_of, emit. silent_steps. Qed.

Lemma silent_plc b now c q : silent b (change_plc deps now c q).
Proof.
  pose proof silent_get. pose proof silent_list.
  destruct q; unfold change_plc, create_plc, update_plc, delete_plc, finish_plc, reload_plcs; silent_steps.
Qed.

Lemma silent_acl b now q : silent b (change_acl deps now q).
Proof. destruct q; unfold change_acl, create_rule, update_rule, delete_rule; silent_steps. Qed.

Lemma silent_role b r : silent b (update_role r).
Proof. unfold update_role. silent_steps. Qed.

Lemma silent_delete b r : silent b (delete_user r).
Proof. unfold delete_user. silent_steps. Qed.

Lemma ready_answered (c : code world response) : silent true c → ready said true (job_prog (answered c)).
Proof.
  intros Hc. apply (Hc (λ resp, answer resp (λ _, Done))). intros resp. split; [done|]. intros w. split; [|done].
  unfold said. simpl. by rewrite length_app.
Qed.

Context {Bc : Bcrypt} {Jw : JWT} (ad : auth_deps).

Lemma silent_login b now r : silent b (login ad now r).
Proof. unfold login, session_op. silent_steps. Qed.

Lemma silent_logout b now r : silent b (logout ad now r).
Proof. unfold logout, session_op. silent_steps. Qed.

Lemma ready_job j : ready said (over_http j) (job_prog (code_of deps ad j)).
Proof.
  destruct j; cbn [code_of over_http]; try apply ready_answered.
  - apply silent_write_tag.
  - apply silent_command. by intros [].
  - apply silent_plc.
  - apply silent_acl.
  - apply silent_gateway.
  - apply silent_gateway.
  - apply silent_role.
  - apply silent_delete.
  - apply silent_login.
  - apply silent_gateway.
  - apply silent_logout.
Qed.
End answers.

(** ** Theorems *)

Section theorems.
Context {Eng : Engine} {Bc : Bcrypt} {Jw : JWT} (deps : write_deps) (ad : auth_deps).

(** What [every_write_permitted] states. *)
Lemma requests_run (cs : list (choice (J := job))) (g : gateway) :
  user_ok (tables (gw_users g)) → plc_ok (tables (sv_plcs (gw_server g))) → acl_ok (tables (sv_acl (gw_server g))) →
  let w' := sys_state (serve_all_at_once deps ad cs (mkWorld g [] [] [])) in
  let s' := gw_server (wd_gateway w') in
  user_ok (tables (gw_users (wd_gateway w'))) ∧ plc_ok (tables (sv_plcs s')) ∧ acl_ok (tables (sv_acl s')) ∧
  tables (sv_audit (gw_server g)) `prefix_of` tables (sv_audit s') ∧
  ∀ x, x ∈ sv_written s' → x ∈ sv_written (gw_server g) ∨
    ∃ a, a ∈ wd_asked w' ∧ as_write a = x ∧ permitted (wd_past w') a.
Proof.
  intros Hu Hp Ha. cbv zeta.
  assert (H : world_ok (tables (sv_audit (gw_server g))) (sv_written (gw_server g))
    (sys_state (serve_all_at_once deps ad cs (mkWorld g [] [] [])))).
  { apply (logic_sound _ goes_on); [intros j; apply safe_request|]. split; simpl; [by split_and!|constructor|auto]. }
  destruct H as [(H1 & H2 & H3 & H4) H5 H6]. split_and!; [done..|]. intros x [Hx|Hx]%H6; [by left|right].
  apply list_elem_of_fmap in Hx as (a & -> & Hin). exists a. split_and!; [done..|].
  by eapply Forall_forall in H5.
Qed.

(** C8 Requests of any kind that run at the same time, their operations interleaved in
    any order and the databases failing whenever they do: the user, PLC and ACL
    tables keep their constraints, no audit row is lost, and whatever reached a
    driver was asked for by a request during which the tag was writable and then a
    rule granted the caller's role, or, for a command, commands were enabled. *)
Theorem every_write_permitted (cs : list (choice (J := job))) (g : gateway) :
  user_ok (tables (gw_users g)) → plc_ok (tables (sv_plcs (gw_server g))) → acl_ok (tables (sv_acl (gw_server g))) →
  let w' := sys_state (serve_all_at_once deps ad cs (mkWorld g [] [] [])) in
  let s' := gw_server (wd_gateway w') in
  user_ok (tables (gw_users (wd_gateway w'))) ∧ plc_ok (tables (sv_plcs s')) ∧ acl_ok (tables (sv_acl s')) ∧
  tables (sv_audit (gw_server g)) `prefix_of` tables (sv_audit s') ∧
  ∀ x, x ∈ sv_written s' → x ∈ sv_written (gw_server g) ∨
    ∃ a, a ∈ wd_asked w' ∧ as_write a = x ∧ permitted (wd_past w') a.
Proof. apply requests_run. Qed.

End theorems.

(** ** What can go wrong between the operations *)

(** Nothing orders the requests of two goroutines: these schedules run. *)
Abbreviation at_once cs g := (serve_all_at_once all_deps sample_auth cs (mkWorld g [] [] [])).

Section races.
#[local] Existing Instance plain_bcrypt.

Definition two_admins : user_table :=
  Table [(1, UserRow "root" "$h1" "admin" 1700000000);
         (2, UserRow "eve" "$h2" "admin" 1700000001)] 2.

Definition delete_by (id : string) (caller : Z) : job := JDeleteUser (user_request id caller tt).

(** [handleDeleteUser] counts the administrators and deletes in two statements: two
    administrators who delete each other at the same time both pass the guard. *)
Theorem concurrent_deletes :
  let cs := begin (delete_by "2" 1) 0 2 ++ begin (delete_by "1" 2) 1 4 ++ go_on 0 2 in
  let w' := sys_state (at_once cs (mkGateway (Db two_admins []) sample_server)) in
  admins two_admins = 2 ∧ (status <$> wd_answers w') = [204; 204] ∧ admins (tables (gw_users (wd_gateway w'))) = 0.
Proof. vm_compute. repeat split. Qed.

Definition create_request (name : string) : job :=
  JChangePLC 0 [] (ChangeCreate (mkRequest "POST" "" (λ _, None) (λ _, "") (λ _, "") "127.0.0.1:9"
    (Some (mkPlcReq name "10.0.0.7" 0 "" "" false "" [])) (Some (mkClaims 1 "ana" "admin" 0 0)))).

(** [reloadPLCsFromStore] lists the store and reloads the manager in two steps: the
    older of two lists can be the last that is loaded, and a PLC that was created
    and answered with success is not scanned until the next change. *)
Theorem stale_reload :
  let cs := begin (create_request "press") 0 5 ++ begin (create_request "oven") 1 10 ++ go_on 0 5 in
  let w' := sys_state (at_once cs (mkGateway (Db two_users []) sample_server)) in
  let s' := gw_server (wd_gateway w') in
  (status <$> wd_answers w') = [201; 201] ∧
  is_Some (find (tables (sv_plcs s')) "oven") ∧ workers (sv_mgr s') !! "oven" = None ∧ ¬ in_sync s'.
Proof.
  cbv zeta.
  set (w' := sys_state _). assert (E : status <$> wd_answers w' = [201; 201]) by (vm_compute; reflexivity).
  assert (Es : find (tables (sv_plcs (gw_server (wd_gateway w')))) "oven" =
    Some (mkPLC "oven" "10.0.0.7" 0 "" "" false "" None)) by (vm_compute; reflexivity).
  assert (Ew : workers (sv_mgr (gw_server (wd_gateway w'))) !! "oven" = None) by (vm_compute; reflexivity).
  split_and!; [exact E|rewrite Es; by eexists|exact Ew|]. intros H. specialize (H "oven"). by rewrite Ew, Es in H.
Qed.

(** A rule is revoked while a request it granted is on its way to the driver. *)
Definition revoked_write : list (choice (J := job)) :=
  begin (JWrite 0 (write_request "operator" "Speed" (VFloat64 0))) 0 6 ++ begin (JChangeACL 0 (RuleDelete revoke_request)) 1 4 ++
  go_on 0 3.

Theorem every_write_permitted_witness :
  let w' := sys_state (at_once revoked_write sample_gateway) in
  (AclStore.CanWrite "operator" "plc1" "Speed" (sv_acl (gw_server (wd_gateway w')))).1 = inl false ∧
  sv_written (gw_server (wd_gateway w')) = [("plc1", "Speed", VFloat64 0)] ∧
  ∃ a, a ∈ wd_asked w' ∧ as_write a = ("plc1", "Speed", VFloat64 0) ∧ permitted (wd_past w') a.
Proof.
  cbv zeta.
  pose proof (every_write_permitted all_deps sample_auth revoked_write sample_gateway sample_users_ok sample_plcs_ok gate_acl_ok)
    as (_ & _ & _ & _ & H).
  assert (E : sv_written (gw_server (wd_gateway (sys_state (at_once revoked_write sample_gateway)))) =
    [("plc1", "Speed", VFloat64 0)]) by (vm_compute; reflexivity).
  assert (E0 : sv_written (gw_server sample_gateway) = []) by reflexivity.
  assert (Er : (AclStore.CanWrite "operator" "plc1" "Speed"
    (sv_acl (gw_server (wd_gateway (sys_state (at_once revoked_write sample_gateway)))))).1 = inl false) by (vm_compute; reflexivity).
  rewrite E, E0 in H. split; [exact Er|]. split; [exact E|].
  destruct (H ("plc1", "Speed", VFloat64 0) (list_elem_of_here _ _)) as [Hin|Ha]; [|exact Ha].
  exfalso. exact (not_elem_of_nil _ Hin).
Defined.

(** A scheduler that begins a write and then comes back to goroutines 0, then 0 and
    1, then 0 to 2, and so on. *)
Definition rounds (t : nat) : choice (J := job) :=
  match t with
  | O => Spawn (JWrite 0 (write_request "operator" "Speed" (VFloat64 0)))
  | S _ => Advance (t - Nat.sqrt t * Nat.sqrt t)
  end.

Lemma rounds_fair : fair rounds.
Proof.
  intros i t. exists ((i + t + 1) * (i + t + 1) + i - t)%nat.
  replace (t + ((i + t + 1) * (i + t + 1) + i - t))%nat with ((i + t + 1) * (i + t + 1) + i)%nat by nia.
  assert (Hm : (i + t + 1 = S (i + t))%nat) by lia. rewrite Hm. set (m := S (i + t)).
  assert (E : Nat.sqrt (m * m + i) = m) by (apply Nat.sqrt_unique; subst m; nia).
  unfold rounds. destruct (m * m + i)%nat as [|k] eqn:Ek; [subst m; lia|]. rewrite E. f_equal. lia.
Qed.

End races.
