(* ===== verification/Process.v ===== *)
(** * Lives of the process

    [lgb server] from its start to its end, and started again: [runServerTo] opens
    the stores of the data directory and launches the server, [Run] starts the parts
    and serves, the requests of that time interleave, and what is on the disk then is
    what the next start finds.  A process that is killed leaves what was committed:
    the requests of a life may stop anywhere. *)

From S2P Require Import Prelude Threads GoString GoTime GoError Config Sql AclStore PlcStore UserStore Http AuditLog.
From S2P Require Import Auth ApiAuth ApiUsers PlcManager ServerState ApiPlcs Lifecycle Startup Gateway Requests.

(** ** A life *)

(** The files of the data directory a start opens. *)
Record disk := mkDisk {
  dk_plcs : plc_tables; dk_users : user_table; dk_acl : acl_table; dk_audit : list AuditEvent;
}.

(** What a life meets: the configuration and the operating system, the parts and the
    listener, the failures of the databases and of the audit file, the requests and
    commands in the order of their operations, and what the drivers answer. *)
Record life := mkLife {
  lf_config : Config;
  lf_world : Startup.world;
  lf_outside : outside;
  lf_plc_faults : list (option foreign); lf_user_faults : list (option foreign);
  lf_acl_faults : list (option foreign); lf_audit_faults : list (option foreign);
  lf_requests : list (choice (J := job));
  lf_answers : list (option error);
}.

Section process.
Context {Eng : Engine} {Bc : Bcrypt} {Jw : JWT}.

(** [Run] of the server that was launched. *)
Definition run_of (l : life) : list Lifecycle.event * option error :=
  let '(err, es) := Lifecycle.Run (Server (lf_config l)) (server_opts (lf_config l)) (lf_outside l) [] in (es, err).

Definition serves (l : life) : bool :=
  existsb (λ e, match e with EServe _ => true | _ => false end) (run_of l).1.

(** The start, with [Run] in its place. *)
Definition start_world (l : life) : Startup.world :=
  let w := lf_world l in
  Startup.mkWorld (wd_resolve w) (wd_ensure w) (wd_logger w) (wd_open w) (run_of l).2 (wd_now w) (wd_salt w)
    (wd_admin w) (wd_admin_password w) false (wd_config_path w).

Definition start (l : life) (d : disk) : option error * boot :=
  runServerTo (start_world l) (Some (lf_config l))
    (mkBoot (Db (dk_plcs d) (lf_plc_faults l)) (Db (dk_users d) (lf_user_faults l)) []).

Definition launched (b : boot) : option launch :=
  head (omap (λ e, match e with Launched la => Some la | _ => None end) (bt_events b)).

(** The gateway when it begins to serve: the manager has the PLCs it was launched
    with, and [Run] has started it. *)
Definition serving (l : life) (la : launch) (d : disk) (b : boot) : gateway :=
  mkGateway (bt_users b)
    (mkServer (bt_plcs b) (Db (dk_acl d) (lf_acl_faults l)) (Db (dk_audit d) (lf_audit_faults l))
       (PlcManager.Start [] (NewManager (la_manager la))) [] (lf_answers l)).

(** The gateway a life serves, if it gets that far. *)
Definition begins (l : life) (d : disk) : option gateway :=
  let b := (start l d).2 in
  la ← launched b; if serves l then Some (serving l la d b) else None.

(** Sessions are signed with the configured secret and live as long as configured. *)
Definition session_deps (l : life) : auth_deps :=
  let c := lf_config l in
  adeps (server_opts c) (sTLSEnabled (Server c))
    (mkTokenService (aJwtSecret (Auth c)) (match session_ttl c with inl d => d | inr _ => 8 * Hour end)).

(** What the requests of the life leave. *)
Definition served_requests (l : life) (g : gateway) : Requests.world :=
  sys_state (serve_all_at_once (wdeps (server_opts (lf_config l))) (session_deps l) (lf_requests l) (Requests.mkWorld g [] [] [])).

Definition disk_of (g : gateway) : disk :=
  mkDisk (tables (sv_plcs (gw_server g))) (tables (gw_users g)) (tables (sv_acl (gw_server g)))
    (tables (sv_audit (gw_server g))).

Definition live (d : disk) (l : life) : disk :=
  match begins l d with
  | Some g => disk_of (wd_gateway (served_requests l g))
  | None =>
      let b := (start l d).2 in
      mkDisk (tables (bt_plcs b)) (tables (bt_users b)) (dk_acl d) (dk_audit d)
  end.

(** ** What a start keeps *)

Definition boot_ok (b : boot) : Prop := plc_ok (tables (bt_plcs b)) ∧ user_ok (tables (bt_users b)).

Lemma keeps_boot_plcs {A : Type} (m : State (db plc_tables) A) : preserves plc_ok m → keeps boot_ok (Startup.on_plcs m).
Proof. intros Hm b [H1 H2]. unfold Startup.on_plcs, zoom. specialize (Hm _ H1). by destruct (m _). Qed.

Lemma keeps_boot_users {A : Type} (m : State (db user_table) A) : preserves user_ok m → keeps boot_ok (on_users m).
Proof. intros Hm b [H1 H2]. unfold on_users, zoom. specialize (Hm _ H2). by destruct (m _). Qed.

Lemma keeps_emit e : keeps boot_ok (emit_boot e).
Proof. by intros b Hb. Qed.

Lemma keeps_deferring w close r rest : keeps boot_ok rest → keeps boot_ok (deferring w close r rest).
Proof.
  intros Hr. unfold deferring. destruct (wd_open w r); [apply keeps_ret|]. apply keeps_bind; [apply keeps_emit|].
  intros _. apply keeps_bind; [done|]. intros err. apply keeps_bind; [|intros; apply keeps_ret].
  destruct close; [apply keeps_emit|apply keeps_ret].
Qed.

Lemma EnsureAdminExists_preserves now salt user pw : preserves user_ok (EnsureAdminExists now salt user pw).
Proof.
  unfold EnsureAdminExists, Count. apply preserves_bind.
  { apply preserves_bind; [apply preserves_query|]. intros. apply preserves_ret. }
  intros [n|err]; [|apply preserves_ret]. destruct (0 <? n); [apply preserves_ret|].
  destruct (String.eqb pw ""); [apply preserves_ret|]. destruct (ValidatePassword pw); [apply preserves_ret|].
  apply preserves_bind; [apply Create_preserves|]. intros. apply preserves_ret.
Qed.

Lemma keeps_run_server w c plcs ttl : keeps boot_ok (run_server w c plcs ttl).
Proof.
  apply keeps_deferring, keeps_bind; [apply keeps_boot_users, EnsureAdminExists_preserves|].
  intros [n [err|]]; [apply keeps_ret|]. apply keeps_deferring, keeps_bind; [case_match; [apply keeps_ret|apply keeps_emit]|].
  intros _. apply keeps_bind; [apply keeps_emit|]. intros _. apply keeps_ret.
Qed.

Lemma IsEmpty_preserves : preserves plc_ok IsEmpty.
Proof. unfold IsEmpty. apply preserves_bind; [apply preserves_query|]. intros. apply preserves_ret. Qed.

Lemma keeps_load_plcs w c : keeps boot_ok (load_plcs w c).
Proof.
  unfold load_plcs. apply keeps_bind; [apply keeps_boot_plcs, IsEmpty_preserves|]. intros [empty|err]; [|apply keeps_ret].
  apply keeps_bind.
  { destruct empty; [|apply keeps_ret]. apply keeps_boot_plcs. apply (plc_run_op_ok (PlcStore.OpSeed (unix_sec (wd_now w)) (PLCs c))). }
  intros [err|]; [apply keeps_ret|]. apply keeps_bind; [apply keeps_boot_plcs, plc_List_keeps|].
  intros [ps|err]; [|apply keeps_ret]. destruct (session_ttl c); [apply keeps_run_server|apply keeps_ret].
Qed.

Lemma keeps_runServerTo w c : keeps boot_ok (runServerTo w c).
Proof.
  unfold runServerTo. repeat (case_match; try apply keeps_ret).
  assert (Hs : keeps boot_ok (deferring w true RPLCStore (deferring w true RACLStore (load_plcs w c0))))
    by apply keeps_deferring, keeps_deferring, keeps_load_plcs.
  unfold with_historian. destruct (0 <? _); [|done]. apply keeps_deferring, keeps_bind; [apply keeps_emit|done].
Qed.

(** ** The manager of a start *)

Lemma new_workers cfgs m n :
  w_cfg <$> workers (fold_left new_worker cfgs m) !! n =
  match List.find (λ p, String.eqb (pName p) n) (reverse cfgs) with
  | Some p => Some p
  | None => w_cfg <$> workers m !! n
  end.
Proof.
  induction cfgs as [|p cfgs IH] using rev_ind; [done|]. rewrite fold_left_app, reverse_app. simpl.
  destruct (String.eqb_spec (pName p) n) as [->|Hn]; [by rewrite lookup_insert_eq|]. by rewrite lookup_insert_ne.
Qed.

Lemma find_unique (ps : list PLC) n p : NoDup (pName <$> ps) → p ∈ ps → pName p = n →
  List.find (λ p, String.eqb (pName p) n) ps = Some p.
Proof.
  intros Hnd Hin Hn. destruct (List.find _ ps) as [q|] eqn:E.
  - apply List.find_some in E as [Hq Hqn%String.eqb_eq]. apply list_elem_of_In in Hq.
    apply list_elem_of_lookup in Hin as [i Hi], Hq as [j Hj].
    assert (i = j) as <-; [|congruence].
    eapply NoDup_lookup; [exact Hnd|rewrite list_lookup_fmap, Hi; done|rewrite list_lookup_fmap, Hj; simpl; congruence].
  - apply List.find_none with (x := p) in E; [|by apply list_elem_of_In]. simpl in E. by rewrite Hn, String.eqb_refl in E.
Qed.

Lemma started_workers c (xs : list (string * plcWorker)) m n :
  (∀ x, x ∈ xs → workers m !! x.1 = Some x.2) → NoDup xs.*1 →
  w_cfg <$> workers (fold_left (start_worker c) xs m) !! n = w_cfg <$> workers m !! n.
Proof.
  revert m. induction xs as [|[k w] xs IH]; intros m Hx Hnd; [done|]. apply NoDup_cons in Hnd as [Hk Hnd]. simpl.
  rewrite IH; [|intros [k' w'] Hin|done].
  - simpl. destruct (decide (k = n)) as [->|Hn]; [|by rewrite lookup_insert_ne].
    rewrite lookup_insert_eq. specialize (Hx (n, w) (list_elem_of_here _ _)). simpl in Hx. by rewrite Hx.
  - simpl. rewrite lookup_insert_ne; [by apply (Hx (k', w')); right|]. intros ->. apply Hk.
    by apply (list_elem_of_fmap_2 fst) in Hin.
Qed.

(** The manager a start runs has exactly the PLCs it was launched with. *)
Lemma start_in_sync c (ps : list PLC) (m : string → option PLC) n :
  NoDup (pName <$> ps) → (∀ p, p ∈ ps ↔ m (pName p) = Some p) → (∀ n p, m n = Some p → pName p = n) →
  w_cfg <$> workers (PlcManager.Start c (NewManager ps)) !! n = m n.
Proof.
  intros Hnd Hps Hname. unfold PlcManager.Start. cbn [workers]. rewrite started_workers.
  - unfold NewManager. rewrite new_workers. destruct (m n) as [p|] eqn:Em.
    + pose proof (Hname _ _ Em) as Hn. subst n. rewrite find_unique with (p := p); [done| | |done].
      * by rewrite (reverse_Permutation ps).
      * by apply elem_of_reverse, Hps.
    + destruct (List.find _ (reverse ps)) as [q|] eqn:E; [|done].
      apply List.find_some in E as [Hq Hqn%String.eqb_eq]. subst n.
      apply list_elem_of_In, elem_of_reverse, Hps in Hq. congruence.
  - intros [k w] Hin. by apply elem_of_map_to_list in Hin.
  - apply NoDup_fst_map_to_list.
Qed.

(** ** What lives keep *)

Definition disk_ok (d : disk) : Prop := plc_ok (dk_plcs d) ∧ user_ok (dk_users d) ∧ acl_ok (dk_acl d).

Lemma start_keeps l d : disk_ok d → boot_ok (start l d).2.
Proof. intros (H1 & H2 & _). by apply keeps_runServerTo. Qed.

Lemma begins_ok l d g : disk_ok d → begins l d = Some g →
  user_ok (tables (gw_users g)) ∧ plc_ok (tables (sv_plcs (gw_server g))) ∧ acl_ok (tables (sv_acl (gw_server g))) ∧
  tables (sv_audit (gw_server g)) = dk_audit d.
Proof.
  intros Hd Hb. pose proof (start_keeps l d Hd) as [H1 H2]. unfold begins in Hb. destruct (launched _); [|done]. simpl in Hb.
  destruct (serves l); [|done]. injection Hb as <-. by destruct Hd as (_ & _ & ?).
Qed.

Lemma live_keeps l d : disk_ok d → disk_ok (live d l) ∧ dk_audit d `prefix_of` dk_audit (live d l).
Proof.
  intros Hd. unfold live. destruct (begins l d) as [g|] eqn:Eb.
  - destruct (begins_ok l d g Hd Eb) as (Hu & Hp & Ha & Eg). rewrite <- Eg.
    destruct (requests_run (wdeps (server_opts (lf_config l))) (session_deps l) (lf_requests l) g Hu Hp Ha) as (H1 & H2 & H3 & H4 & _).
    by split.
  - pose proof (start_keeps l d Hd) as [H1 H2]. destruct Hd as (_ & _ & H3). by split.
Qed.

Lemma lives_keep ls d : disk_ok d → disk_ok (foldl live d ls) ∧ dk_audit d `prefix_of` dk_audit (foldl live d ls).
Proof.
  revert d. induction ls as [|l ls IH]; intros d Hd; [done|]. destruct (live_keeps l d Hd) as [H1 H2].
  destruct (IH _ H1) as [H3 H4]. split; [done|]. by etransitivity.
Qed.

Lemma launched_in b la : launched b = Some la → Launched la ∈ bt_events b.
Proof.
  unfold launched. induction (bt_events b) as [|e es IH]; simpl; [done|]. destruct e; simpl; try (right; by apply IH).
  intros [= ->]. left.
Qed.

(** ** Theorems *)

(** C9 Whatever happened before (starts that failed at any point, parts that did not
    start, requests that raced or were cut off when the process was killed, failures
    of the databases): the stores keep their constraints and no audit row is lost.
    And a start whose databases answer serves with a manager that runs exactly the
    stored PLCs and with a user in the store; its PLCs are those the life before
    left, or, when it left none, those of the configuration file. *)
Theorem restart_correct (ls : list life) (l : life) (d : disk) (g : gateway) : disk_ok d →
  let d' := foldl live d ls in
  begins l d' = Some g →
  disk_ok d' ∧ dk_audit d `prefix_of` dk_audit d' ∧
  (lf_plc_faults l = [] → lf_user_faults l = [] →
   in_sync (gw_server g) ∧ rows (tables (gw_users g)) ≠ [] ∧
   ∃ m, boot_map (lf_config l) (dk_plcs d') = Some m ∧ ∀ n, find (tables (sv_plcs (gw_server g))) n = m n).
Proof.
  intros Hd. cbv zeta. destruct (lives_keep ls d Hd) as [Hd' Ha]. revert Hd' Ha. generalize (foldl live d ls). clear ls.
  intros d' Hd' Ha Hb. split; [done|]. split; [done|]. intros Hf1 Hf2. destruct Hd' as (Hp & _).
  unfold begins in Hb. destruct (launched _) as [la|] eqn:El; [|done]. simpl in Hb. destruct (serves l); [|done].
  injection Hb as <-. pose proof (startup_store_wins (start_world l) (lf_config l) (dk_plcs d') (dk_users d') Hp) as H.
  unfold start in *. rewrite Hf1, Hf2 in *. destruct (runServerTo _ _ _) as [r b].
  destruct (H la (launched_in _ _ El)) as (_ & _ & Hu & _ & m & Hm & _ & Hfind & _ & Hnd & Hps).
  split_and!; [|done|by exists m]. intros n. simpl. rewrite Hfind. apply start_in_sync; [done..|].
  intros k p Hk. rewrite <- Hfind in Hk. by eapply find_name.
Qed.

End process.

(** ** Concrete lives *)

Section lives.
#[local] Existing Instance plain_bcrypt.

Definition no_disk : disk := mkDisk empty_plcs empty_table empty_table [].

Definition healthy : outside := mkOutside (λ _, None) (λ _, None) None CtxEnded None.

(** A life with nothing in its way, of the file that lists [sample_plc]. *)
Definition good_life (cs : list (choice (J := job))) : life :=
  mkLife (base_config 1 "8h" [sample_plc]) good_world healthy [] [] [] [] cs [].

(** The two requests of [stale_reload], and a restart. *)
Definition stale_life : life :=
  good_life (begin (create_request "press") 0 5 ++ begin (create_request "oven") 1 10 ++ go_on 0 5).

Theorem restart_correct_witness :
  let d' := foldl live no_disk [stale_life] in
  ∃ g, begins (good_life []) d' = Some g ∧ disk_ok d' ∧ in_sync (gw_server g) ∧
       (w_cfg <$> workers (sv_mgr (gw_server g)) !! "oven") = Some (mkPLC "oven" "10.0.0.7" 0 "" "" false "" None).
Proof.
  cbv zeta. assert (H0 : disk_ok no_disk) by exact (conj plc_ok_empty (conj user_ok_empty acl_ok_empty)).
  destruct (begins (good_life []) (foldl live no_disk [stale_life])) as [g|] eqn:E; [|vm_compute in E; discriminate].
  exists g. destruct (restart_correct [stale_life] (good_life []) no_disk g H0 E) as (H1 & _ & H2).
  destruct (H2 eq_refl eq_refl) as (H3 & _ & m & _ & H4). split; [done|]. split; [exact H1|]. split; [exact H3|].
  rewrite (H3 "oven"). vm_compute in E. injection E as <-. vm_compute. reflexivity.
Defined.

(** The store is seeded whenever it is empty, not only on the first boot: when the
    PLCs of the file are deleted over the API, the next start brings them back. *)
Theorem deleted_plcs_return :
  let l := good_life (begin (JChangePLC 0 [] (ChangeDelete delete_request)) 0 5) in
  let d := live no_disk l in
  (∃ g, begins l no_disk = Some g ∧ (status <$> wd_answers (served_requests l g)) = [204]) ∧
  find (dk_plcs d) "plc1" = None ∧ find (dk_plcs (live d (good_life []))) "plc1" = Some sample_plc.
Proof.
  cbv zeta. split; [|by vm_compute]. eexists. split; [vm_compute; reflexivity|]. vm_compute. reflexivity.
Qed.

(** Two administrators delete each other while a viewer is left: [EnsureAdminExists]
    counts users of any role, so no start makes an administrator again. *)
Definition two_admins_and_a_viewer : user_table :=
  Table (rows two_admins ++ [(3, UserRow "bob" "$h3" "viewer" 1700000002)]) 3.

Theorem lockout_survives_restart :
  let d0 := mkDisk empty_plcs two_admins_and_a_viewer empty_table [] in
  let deletes := begin (delete_by "2" 1) 0 2 ++ begin (delete_by "1" 2) 1 4 ++ go_on 0 2 in
  let d := foldl live d0 [good_life deletes; good_life []] in
  admins (dk_users d0) = 2 ∧ rows (dk_users d) = [(3, UserRow "bob" "$h3" "viewer" 1700000002)] ∧
  is_Some (begins (good_life []) d).
Proof. cbv zeta. split_and!; [vm_compute; reflexivity..|]. eexists. vm_compute. reflexivity. Qed.
End lives.
