(* ===== verification/Backup.v ===== *)
(** * [internal/backup], [VacuumInto] and the backup command

    The restic runner, the manager over the configured repositories, one cycle
    of the scheduler, the snapshot of the history they save, and [lgb backup].
    The machine is what these act on: the file system, the history database,
    the snapshot files written from it, and the restic commands run so far. *)

From S2P Require Import Prelude GoString GoTime GoError Config Sql DataDir Historian.

(** ** The name of a file in a statement *)

Definition quote_rune (r : list Z) : list Z := if bool_decide (r = [39]) then [39; 39] else r.

Definition sqlQuote (path : string) : string :=
  string_of_bytes (39 :: mjoin (quote_rune <$> runes path) ++ [39]).

(** The string literal SQLite reads at the start of a text: two quotes stand for
    one, a single quote ends it. *)
Fixpoint literal (l : list Z) : option (list Z * list Z) :=
  match l with
  | [] => None
  | b :: rest =>
      if b =? 39 then
        match rest with
        | b' :: rest' => if b' =? 39 then '(s, r) ← literal rest'; Some (39 :: s, r) else Some ([], rest)
        | [] => Some ([], rest)
        end
      else '(s, r) ← literal rest; Some (b :: s, r)
  end.

Definition sql_literal (s : string) : option (string * string) :=
  match bytes s with
  | b :: rest =>
      if b =? 39 then '(x, r) ← literal rest; Some (string_of_bytes x, string_of_bytes r) else None
  | [] => None
  end.

(** What the rest of a statement after a literal can start with. *)
Definition no_quote (l : list Z) : Prop := match l with b :: _ => b ≠ 39 | [] => True end.

Lemma literal_plain r l : Forall (λ b, b ≠ 39) r →
  literal (r ++ l) = '(s, rest) ← literal l; Some (r ++ s, rest).
Proof.
  induction 1 as [|b r Hb _ IH]; simpl; [by destruct (literal l) as [[s rest]|]|].
  rewrite (proj2 (Z.eqb_neq b 39) Hb), IH. by destruct (literal l) as [[s rest]|].
Qed.

Lemma literal_escape l : literal ([39; 39] ++ l) = '(s, r) ← literal l; Some (39 :: s, r).
Proof. done. Qed.

Lemma mjoin_cons {A : Type} (x : list A) xs : mjoin (x :: xs) = x ++ mjoin xs.
Proof. done. Qed.

Lemma literal_quoted rs l : no_quote l →
  Forall (λ c, (∃ b, c = [b] ∧ b < 128) ∨ (c ≠ [] ∧ Forall (λ b, 128 ≤ b) c)) rs →
  literal (mjoin (quote_rune <$> rs) ++ 39 :: l) = Some (mjoin rs, l).
Proof.
  intros Hl Hrs. induction Hrs as [|c rs Hc Hrs IH].
  { simpl. destruct l as [|b l]; [done|]. simpl in Hl. by rewrite (proj2 (Z.eqb_neq b 39) Hl). }
  rewrite fmap_cons, !mjoin_cons, <- app_assoc.
  unfold quote_rune at 1. case_bool_decide as Hq.
  - subst c. by rewrite literal_escape, IH.
  - rewrite literal_plain, IH; [done|]. destruct Hc as [(b & -> & _)|[_ Hc]].
    + constructor; [congruence|done].
    + eapply Forall_impl; [exact Hc|]. simpl. lia.
Qed.

Lemma quote_bytes path : Forall is_byte (39 :: mjoin (quote_rune <$> runes path) ++ [39]).
Proof.
  constructor; [unfold is_byte; lia|]. apply Forall_app_2; [|repeat constructor; unfold is_byte; lia].
  pose proof (rune_chunks_range (String.length path) (bytes path) (bytes_range path)) as H.
  fold (runes path) in H. induction (runes path) as [|c cs IH]; [done|].
  rewrite mjoin_cons, Forall_app in H. destruct H as [Hc Hcs].
  rewrite fmap_cons, mjoin_cons. apply Forall_app_2; [|by apply IH].
  unfold quote_rune. case_bool_decide; [|done]. repeat constructor; unfold is_byte; lia.
Qed.

Lemma quote_literal path rest : valid_utf8 path → no_quote (bytes rest) →
  sql_literal (sqlQuote path +:+ rest) = Some (path, rest).
Proof.
  intros Hp Hr. unfold sql_literal, sqlQuote. rewrite bytes_app, bytes_string_of_bytes by apply quote_bytes.
  cbn [app]. rewrite Z.eqb_refl, <- app_assoc. cbn [app].
  rewrite literal_quoted; [|done|apply rune_chunks_ok]. cbn [mbind option_bind].
  by rewrite Hp, !string_of_bytes_bytes.
Qed.

(** Whatever the path contains, the statement names it and nothing else: the
    literal ends where [sqlQuote] ends it and stands for the path itself. *)
Theorem sqlQuote_roundtrip (path rest : string) :
  valid_utf8 path → no_quote (bytes rest) →
  sql_literal (sqlQuote path +:+ rest) = Some (path, rest).
Proof. apply quote_literal. Qed.

Example sqlQuote_roundtrip_witness :
  valid_utf8 "/data/o'neil" ∧ sqlQuote "/data/o'neil" = "'/data/o''neil'" ∧
  sql_literal (sqlQuote "/data/o'neil" +:+ "; --") = Some ("/data/o'neil", "; --").
Proof.
  assert (H : valid_utf8 "/data/o'neil") by (vm_compute; reflexivity). split_and!; [exact H|reflexivity|].
  apply (sqlQuote_roundtrip "/data/o'neil" "; --" H). vm_compute. discriminate.
Defined.

(** ** Commands *)

(** A process that was started: its program, arguments and environment. *)
Record command := mkCommand { cm_bin : string; cm_args : list string; cm_env : list string }.

Record machine := mkMachine {
  m_fs : fsys;
  m_db : db samples;
  m_snapshots : gmap string samples;
  m_commands : list command;
}.

(** The restic binary: its combined output, the error of [CombinedOutput] and
    the files it leaves; and [json.Unmarshal] of its output into a list of
    snapshots, [None] being [null]. *)
Record Snapshot := mkSnapshot {
  snID : string; snTime : time; snHostname : string; snPaths : slice string;
}.

Class Restic := {
  restic : machine → command → string * option foreign * fsys;
  unmarshal_snapshots : string → option (list Snapshot) + foreign;
}.

Record Repository := mkRepository { reURL : string; rePassword : string }.

(** [Runner], with the environment of the process. *)
Record Runner := mkRunner { bin : string; environ : list string }.

Definition NewRunner (bin : string) (env : list string) : Runner :=
  mkRunner (if String.eqb bin "" then "restic" else bin) env.

(** What a program finds under a name in its environment: of several entries
    [os/exec] keeps the last. *)
Definition getenv_last (name : string) (env : list string) : option string :=
  (λ e, str_from (S (String.length name)) e) <$>
  last (List.filter (has_prefix (name +:+ "=")) env).

Section backup.
Context {Os : OsErrors} {Rs : Restic}.

(** [exec.CommandContext(ctx, …).CombinedOutput()]: nothing is started when the
    context is done already. *)
Definition combined_output (ctx_err : option foreign) (c : command)
    : State machine (string * option foreign) := λ m,
  match ctx_err with
  | Some f => (("", Some f), m)
  | None => let '(out, err, fs) := restic m c in
            ((out, err), mkMachine fs (m_db m) (m_snapshots m) (m_commands m ++ [c]))
  end.

Definition restic_command (r : Runner) (repo : Repository) (args : list string) : command :=
  mkCommand (bin r) (("-r" :: reURL repo :: args) ++ ["--json"])
    (environ r ++ ["RESTIC_PASSWORD=" +:+ rePassword repo]).

(** [run]: the raw output, and the error. *)
Definition run (ctx_err : option foreign) (r : Runner) (repo : Repository) (args : list string)
    : State machine (string * option error) :=
  res ← combined_output ctx_err (restic_command r repo args);
  mret (res.1, match res.2 with
               | Some f => Some (Errorf "restic %v failed: %w: %s" [FStrs args; FWrap (EForeign f); FStr res.1])
               | None => None
               end).

Definition Init ctx_err r repo : State machine (option error) :=
  res ← run ctx_err r repo ["init"]; mret res.2.

Definition Backup ctx_err r repo (paths : list string) : State machine (string * option error) :=
  run ctx_err r repo ("backup" :: paths).

Definition Check ctx_err r repo : State machine (string * option error) := run ctx_err r repo ["check"].

(** [os.ReadDir]: the names of the entries of a directory. *)
Definition ReadDir (path : string) : State fsys (list string + foreign) :=
  f ← sys_fault;
  s ← get_state;
  mret (match f, nodes s !! path with
        | Some f, _ => inr f
        | None, None => inr not_exist
        | None, Some RegularFile => inr not_a_directory
        | None, Some (Directory _) =>
            inl (List.filter (has_prefix (path +:+ "/")) (map_to_list (nodes s)).*1)
        end).

Definition requireCleanDestination (dest : string) : State fsys (option error) :=
  entries ← ReadDir dest;
  match entries with
  | inr f =>
      if is_not_exist f then r ← MkdirAll dest; mret (EForeign <$> r)
      else mret (Some (EForeign f))
  | inl [] => mret None
  | inl _ => mret (Some (Errorf "restore destination %s must be empty" [FStr dest]))
  end.

Definition on_fs {A : Type} (m : State fsys A) : State machine A :=
  zoom m_fs (λ fs m, mkMachine fs (m_db m) (m_snapshots m) (m_commands m)) m.

Definition Restore ctx_err r repo (snapshotID dest : string) : State machine (string * option error) :=
  e ← on_fs (requireCleanDestination dest);
  match e with
  | Some err => mret ("", Some err)
  | None => run ctx_err r repo ["restore"; snapshotID; "--target"; dest]
  end.

Definition RunnerSnapshots ctx_err r repo : State machine (result (list Snapshot)) :=
  res ← combined_output ctx_err (restic_command r repo ["snapshots"]);
  mret (match res.2 with
        | Some f => inr (Errorf "restic snapshots failed: %w: %s" [FWrap (EForeign f); FStr res.1])
        | None =>
            match unmarshal_snapshots res.1 with
            | inr f => inr (Errorf "parse snapshots JSON: %w" [FWrap (EForeign f)])
            | inl snaps => inl (default [] snaps)
            end
        end).

(** ** The manager *)

Record Manager := mkManager { runner : Runner; repos : list Repository }.

Definition NewManager (r : option Runner) (env : list string) (repos : list Repository) : Manager :=
  mkManager (default (NewRunner "" env) r) repos.

(** One round of the loop of [BackupAll] and of [CheckAll]. *)
Definition backup_one ctx_err (m : Manager) (paths : list string) (repo : Repository)
    : State machine (option error) :=
  res ← Backup ctx_err (runner m) repo paths;
  mret ((λ err, Errorf "backup repo %s: %w" [FStr (reURL repo); FWrap err]) <$> res.2).

Definition check_one ctx_err (m : Manager) (repo : Repository) : State machine (option error) :=
  res ← Check ctx_err (runner m) repo;
  mret ((λ err, Errorf "check repo %s: %w" [FStr (reURL repo); FWrap err]) <$> res.2).

Definition BackupAll ctx_err (m : Manager) (paths : list string) : State machine (option error) :=
  for_each_err (repos m) (backup_one ctx_err m paths).

Definition CheckAll ctx_err (m : Manager) : State machine (option error) :=
  for_each_err (repos m) (check_one ctx_err m).

Definition Snapshots ctx_err (m : Manager) : State machine (result (list Snapshot)) :=
  match repos m with
  | [] => mret (inl [])
  | repo :: _ => RunnerSnapshots ctx_err (runner m) repo
  end.

(** ** The snapshot of the history *)

Definition foreign_error (msg : string) : foreign := plain_error msg.

(** [filepath.Join] of an absolute directory and a name. *)
Definition join_file (dir name : string) : string := Abs "/" (dir +:+ "/" +:+ name).

(** The statement [VACUUM INTO]: the file must not exist yet, and then holds the
    tables of the database. *)
Definition vacuum_stmt (sql : string) : State machine (option foreign) := λ m,
  let '(f, d) := next_fault (m_db m) in
  let m := mkMachine (m_fs m) d (m_snapshots m) (m_commands m) in
  match f with
  | Some f => (Some f, m)
  | None =>
      match sql_literal (trim_prefix "VACUUM INTO " sql) with
      | Some (path, "") =>
          match nodes (m_fs m) !! path with
          | Some _ => (Some (foreign_error "output file already exists"), m)
          | None => (None, mkMachine (mkFs (<[path := RegularFile]> (nodes (m_fs m))) (fs_faults (m_fs m)))
                             d (<[path := tables d]> (m_snapshots m)) (m_commands m))
          end
      | _ => (Some (foreign_error "syntax error"), m)
      end
  end.

Definition VacuumInto (dir : string) : State machine (result string) :=
  e ← on_fs (MkdirAll dir);
  match e with
  | Some f => mret (inr (EForeign f))
  | None =>
      let path := join_file dir "lgb-snapshot.db" in
      _ ← on_fs (Remove path);
      err ← vacuum_stmt ("VACUUM INTO " +:+ sqlQuote path);
      mret (match err with Some f => inr (EForeign f) | None => inl path end)
  end.

(** ** One cycle of the scheduler *)

Record Scheduler := mkScheduler {
  manager : Manager;
  paths : list string;
  Every : Z;
  PreBackup : option (State machine (option error));
}.

Definition NewScheduler (m : Manager) (ps : list string) (every : Z) : Scheduler :=
  mkScheduler m ps every None.

Definition hook_error (err : error) : error := Errorf "pre-backup hook: %w" [FWrap err].

Definition runOnce ctx_err (s : Scheduler) : State machine (option error) :=
  e ← match PreBackup s with Some hook => hook | None => mret None end;
  match e with
  | Some err => mret (Some (hook_error err))
  | None => BackupAll ctx_err (manager s) (paths s)
  end.

Definition RunOnce := runOnce.

(** The scheduler [runServerTo] makes: a hook that takes a snapshot, when there is
    a history. *)
Definition server_scheduler (m : Manager) (dataDir : string) (every : Z) (history : bool) : Scheduler :=
  let snapshotDir := join_file dataDir "backup-tmp" in
  let s := NewScheduler m [snapshotDir] every in
  if history then
    mkScheduler (manager s) (paths s) (Every s)
      (Some (r ← VacuumInto snapshotDir; mret (match r with inr err => Some err | inl _ => None end)))
  else s.

(** ** [lgb backup] *)

Definition configRepos (c : Config) : list Repository :=
  (λ r, mkRepository (rURL r) (rPassword r)) <$> bRepos (Config.Backup c).

Definition no_repos : error := Errorf "backup: no repos configured" [].

(** [open_err] is what [historian.Open] answers. *)
Definition runBackupTo (p : process) (env : list string) (ctx_err : option foreign) (open_err : option error)
    (flag : string) (cfg : option Config) : State machine (option error) :=
  match cfg with
  | None => mret (Some (Errorf "backup: config not loaded" []))
  | Some cfg =>
      match bRepos (Config.Backup cfg) with
      | [] => mret (Some no_repos)
      | _ =>
          let snapshotDir := join_file (Resolve p (Some cfg) flag) "backup-tmp" in
          e ← (if 0 <? hRetentionDays (Historian cfg) then
                 match open_err with
                 | Some err => mret (Some (Errorf "backup: open historian: %w" [FWrap err]))
                 | None =>
                     r ← VacuumInto snapshotDir;
                     mret (match r with
                           | inr err => Some (Errorf "backup: vacuum into: %w" [FWrap err])
                           | inl _ => None
                           end)
                 end
               else mret None);
          match e with
          | Some err => mret (Some err)
          | None =>
              r ← BackupAll ctx_err (NewManager None env (configRepos cfg)) [snapshotDir];
              mret ((λ err, Errorf "backup: %w" [FWrap err]) <$> r)
          end
      end
  end.

Definition runBackupCheckTo (env : list string) (ctx_err : option foreign) (cfg : option Config)
    : State machine (option error) :=
  match cfg with
  | None => mret (Some (Errorf "backup: config not loaded" []))
  | Some cfg =>
      match bRepos (Config.Backup cfg) with
      | [] => mret (Some no_repos)
      | _ =>
          r ← CheckAll ctx_err (NewManager None env (configRepos cfg));
          mret ((λ err, Errorf "backup check: %w" [FWrap err]) <$> r)
      end
  end.

(** ** Commands *)

(** The machine after commands were run, and that all of them succeed. *)
Definition machine_after (m : machine) (cs : list command) : machine :=
  foldl (λ m c, (combined_output None c m).2) m cs.

Fixpoint all_succeed (m : machine) (cs : list command) : Prop :=
  match cs with
  | [] => True
  | c :: cs => (restic m c).1.2 = None ∧ all_succeed (machine_after m [c]) cs
  end.

Lemma machine_after_log m cs :
  m_commands (machine_after m cs) = m_commands m ++ cs ∧
  m_db (machine_after m cs) = m_db m ∧ m_snapshots (machine_after m cs) = m_snapshots m.
Proof.
  unfold machine_after. revert m. induction cs as [|c cs IH]; intros m; [by rewrite app_nil_r|]. simpl.
  destruct (restic m c) as [[out err] fs]. simpl. destruct (IH (mkMachine fs (m_db m) (m_snapshots m)
    (m_commands m ++ [c]))) as (H1 & H2 & H3). simpl in *. by rewrite H1, H2, H3, <- app_assoc.
Qed.

Lemma machine_after_app m cs1 cs2 : machine_after m (cs1 ++ cs2) = machine_after (machine_after m cs1) cs2.
Proof. apply foldl_app. Qed.

Lemma last_snoc_filter {A : Type} (f : A → bool) l x : f x = true → last (List.filter f (l ++ [x])) = Some x.
Proof. intros Hx. rewrite List.filter_app. simpl. rewrite Hx. apply last_snoc. Qed.

(** Restic finds the password of the repository it works on, whatever the
    environment of the gateway has under that name. *)
Lemma restic_command_password r repo args :
  getenv_last "RESTIC_PASSWORD" (cm_env (restic_command r repo args)) = Some (rePassword repo).
Proof.
  unfold getenv_last, restic_command. simpl cm_env.
  rewrite last_snoc_filter by apply (has_prefix_app "RESTIC_PASSWORD=").
  simpl. f_equal. apply (str_from_app "RESTIC_PASSWORD=").
Qed.

(** The loop over the repositories, for a command and the text of its error. *)
Definition run_one (r : Runner) (args : list string) (format : string) (repo : Repository)
    : State machine (option error) :=
  res ← run None r repo args;
  mret ((λ err, Errorf format [FStr (reURL repo); FWrap err]) <$> res.2).

Definition failed_with (format : string) (args : list string) (repo : Repository) (out : string) (f : foreign)
    : error :=
  Errorf format [FStr (reURL repo); FWrap (Errorf "restic %v failed: %w: %s"
    [FStrs args; FWrap (EForeign f); FStr out])].

Lemma run_one_spec r args format repo m :
  let c := restic_command r repo args in
  run_one r args format repo m =
  ((λ f, failed_with format args repo (restic m c).1.1 f) <$> (restic m c).1.2, machine_after m [c]).
Proof.
  cbv zeta. unfold run_one, run, machine_after, combined_output. rewrite !bind_run. simpl.
  destruct (restic m _) as [[out [f|]] fs]; reflexivity.
Qed.

(** The repositories are worked on in order, up to the first that fails. *)
Definition loop_spec (rs : list Repository) (cmd : Repository → command)
    (wrap : Repository → string → foreign → error) (m : machine) (res : option error * machine) : Prop :=
  match res with
  | (None, m') => all_succeed m (cmd <$> rs) ∧ m' = machine_after m (cmd <$> rs)
  | (Some err, m') =>
      ∃ front repo rest out f, rs = front ++ repo :: rest ∧ all_succeed m (cmd <$> front) ∧
        (restic (machine_after m (cmd <$> front)) (cmd repo)).1 = (out, Some f) ∧
        err = wrap repo out f ∧ m' = machine_after m (cmd <$> front ++ [repo])
  end.

Lemma loop_correct r args format rs m :
  loop_spec rs (λ repo, restic_command r repo args) (failed_with format args) m
    (for_each_err rs (run_one r args format) m).
Proof.
  revert m. induction rs as [|repo rs IH]; intros m; [done|]. cbn [for_each_err].
  rewrite bind_run, run_one_spec. set (c := restic_command r repo args).
  destruct (restic m c) as [[out err] fs] eqn:E. cbn [fst snd]. destruct err as [f|];
    unfold fmap at 1, option_fmap, option_map; cbn iota beta.
  - exists [], repo, rs, out, f. split_and!; try done. simpl. fold c. by rewrite E.
  - specialize (IH (machine_after m [c])). unfold loop_spec in IH |- *.
    destruct (for_each_err rs _ _) as [[e|] m']; cbn iota in IH |- *.
    + destruct IH as (front & repo' & rest & out' & f & -> & Ha & Hf & -> & ->).
      exists (repo :: front), repo', rest, out', f. cbn [fmap list_fmap app]. fold c.
      rewrite <- (machine_after_app m [c]) in Hf. split_and!; try done.
      split; [by rewrite E|exact Ha].
    + destruct IH as [Ha ->]. cbn [fmap list_fmap app]. fold c.
      split; [split; [by rewrite E|exact Ha]|]. by rewrite <- (machine_after_app m [c]).
Qed.

(** [BackupAll] and [CheckAll] run one command per repository, in the configured
    order and with its own password, up to the first failure, which they return
    with the repository; a context that is done starts nothing. *)
Theorem manager_correct (mg : Manager) (ps : list string) (m : machine) (f : foreign) :
  loop_spec (repos mg) (λ repo, restic_command (runner mg) repo ("backup" :: ps))
    (failed_with "backup repo %s: %w" ("backup" :: ps)) m (BackupAll None mg ps m) ∧
  loop_spec (repos mg) (λ repo, restic_command (runner mg) repo ["check"])
    (failed_with "check repo %s: %w" ["check"]) m (CheckAll None mg m) ∧
  (∀ repo args, getenv_last "RESTIC_PASSWORD" (cm_env (restic_command (runner mg) repo args)) = Some (rePassword repo)) ∧
  (let '(r, m') := BackupAll (Some f) mg ps m in m' = m ∧ (r = None ↔ repos mg = [])).
Proof.
  split_and!.
  - apply loop_correct.
  - apply loop_correct.
  - intros. apply restic_command_password.
  - unfold BackupAll. by destruct (repos mg).
Qed.

(** ** The snapshot *)

Lemma fault_run s : ∃ f fs, sys_fault s = (f, mkFs (nodes s) fs) ∧ (fs_faults s = [] → f = None ∧ fs = []).
Proof.
  unfold sys_fault. destruct (fs_faults s) as [|f fs] eqn:E; [|by exists f, fs].
  exists None, []. destruct s; simpl in *; by subst.
Qed.

Lemma vacuum_target path : valid_utf8 path →
  sql_literal (trim_prefix "VACUUM INTO " ("VACUUM INTO " +:+ sqlQuote path)) = Some (path, "").
Proof.
  intros Hp. unfold trim_prefix. rewrite has_prefix_app, str_from_app.
  rewrite <- (string_app_nil_r (sqlQuote path)). by apply quote_literal.
Qed.

Lemma MkdirAll_ok dir s : fs_faults s = [] → nodes s !! dir ≠ Some RegularFile →
  let '(e, s') := MkdirAll dir s in e = None ∧ fs_faults s' = [].
Proof.
  unfold MkdirAll, sys_fault. unfold_state. intros Hf. rewrite Hf.
  destruct (nodes s !! dir) as [[|b]|]; by intros.
Qed.

Lemma Remove_ok path s : fs_faults s = [] →
  let '(_, s') := Remove path s in fs_faults s' = [] ∧ nodes s' !! path = None.
Proof.
  unfold Remove, sys_fault. unfold_state. intros Hf. rewrite Hf. simpl. split; [done|].
  apply lookup_delete_eq.
Qed.

Lemma vacuum_stmt_spec path m : valid_utf8 path →
  let '(e, m') := vacuum_stmt ("VACUUM INTO " +:+ sqlQuote path) m in
  tables (m_db m') = tables (m_db m) ∧ m_commands m' = m_commands m ∧
  match e with
  | None => nodes (m_fs m') !! path = Some RegularFile ∧ m_snapshots m' !! path = Some (tables (m_db m))
  | Some _ => m_snapshots m' = m_snapshots m
  end ∧
  (faults (m_db m) = [] → nodes (m_fs m) !! path = None → e = None).
Proof.
  intros Hp. unfold vacuum_stmt. rewrite vacuum_target by done.
  pose proof (next_fault_tables (m_db m)) as Ht. unfold next_fault in *.
  destruct (faults (m_db m)) as [|[f|] fs] eqn:Ef; simpl in *; [|by split_and!|];
    destruct (nodes (m_fs m) !! path); simpl; split_and!; try done; by rewrite ?lookup_insert_eq.
Qed.

(** [VacuumInto] never changes the database; when it succeeds the file it returns
    holds the tables of that moment, and when it fails no older snapshot is
    presented as new: the commands that follow are not run.  Without failures it
    succeeds exactly when no regular file is in the way of the directory. *)
Lemma VacuumInto_spec (dir : string) (m : machine) :
  let path := join_file dir "lgb-snapshot.db" in
  valid_utf8 path →
  let '(r, m') := VacuumInto dir m in
  tables (m_db m') = tables (m_db m) ∧ m_commands m' = m_commands m ∧
  match r with
  | inl p => p = path ∧ nodes (m_fs m') !! path = Some RegularFile ∧
             m_snapshots m' !! path = Some (tables (m_db m))
  | inr _ => m_snapshots m' = m_snapshots m
  end ∧
  (fs_faults (m_fs m) = [] → faults (m_db m) = [] → nodes (m_fs m) !! dir ≠ Some RegularFile → r = inl path).
Proof.
  cbv zeta. intros Hp. unfold VacuumInto, on_fs, zoom. rewrite bind_run.
  pose proof (MkdirAll_ok dir (m_fs m)) as Hm. destruct (MkdirAll dir (m_fs m)) as [[f|] s1].
  { simpl. split_and!; try done. intros H1 _ H2. by destruct (Hm H1 H2). }
  rewrite bind_run. cbn [m_fs m_db m_snapshots m_commands].
  pose proof (Remove_ok (join_file dir "lgb-snapshot.db") s1) as Hr.
  destruct (Remove _ s1) as [[] s2]. rewrite bind_run. cbn [m_fs m_db m_snapshots m_commands].
  pose proof (vacuum_stmt_spec _ (mkMachine s2 (m_db m) (m_snapshots m) (m_commands m)) Hp) as Hv.
  destruct (vacuum_stmt _ _) as [e m']. cbn [m_fs m_db m_snapshots m_commands] in Hv.
  destruct Hv as (H1 & H2 & H3 & H4). unfold mret, state_ret. split_and!; [done..| |].
  - by destruct e.
  - intros Hf Hd Hn. destruct (Hm Hf Hn) as [_ Hf1]. destruct (Hr Hf1) as [_ Hnone].
    by rewrite (H4 Hd Hnone).
Qed.

(** ** [lgb backup run] *)

Definition backup_commands (env : list string) (cfg : Config) (dir : string) : list command :=
  (λ repo, restic_command (NewRunner "" env) repo ["backup"; dir]) <$> configRepos cfg.

Lemma backup_manager env cfg dir m :
  let '(r, m') := BackupAll None (NewManager None env (configRepos cfg)) [dir] m in
  r = None → all_succeed m (backup_commands env cfg dir) ∧ m' = machine_after m (backup_commands env cfg dir).
Proof.
  pose proof (loop_correct (NewRunner "" env) ["backup"; dir] "backup repo %s: %w" (configRepos cfg) m) as H.
  unfold BackupAll, backup_one, Backup. unfold run_one in H. cbn [repos NewManager runner].
  destruct (for_each_err _ _ m) as [r m']. intros ->. exact H.
Qed.

(** C24 [lgb backup run] succeeds only after every configured repository was given
    the snapshot directory, and, when there is a history, only with a snapshot
    in it that holds the history as it is then.  Without repositories, or
    without the history it should save, it starts no command. *)
Theorem runBackupTo_correct (p : process) env open_err flag (cfg : Config) (m : machine) :
  let dir := join_file (Resolve p (Some cfg) flag) "backup-tmp" in
  let path := join_file dir "lgb-snapshot.db" in
  let history := 0 <? hRetentionDays (Historian cfg) in
  valid_utf8 path →
  let '(r, m') := runBackupTo p env None open_err flag (Some cfg) m in
  (r = None →
     bRepos (Config.Backup cfg) ≠ [] ∧
     m_commands m' = m_commands m ++ backup_commands env cfg dir ∧
     (history = true → m_snapshots m' !! path = Some (tables (m_db m))) ∧
     ∃ m1, all_succeed m1 (backup_commands env cfg dir) ∧ m' = machine_after m1 (backup_commands env cfg dir)) ∧
  (bRepos (Config.Backup cfg) = [] ∨ history = true ∧ open_err ≠ None → r ≠ None ∧ m' = m).
Proof.
  cbv zeta. intros Hp. unfold runBackupTo. set (dir := join_file _ "backup-tmp").
  set (path := join_file dir "lgb-snapshot.db") in *.
  destruct (bRepos (Config.Backup cfg)) as [|rp rps] eqn:Er; [by split|].
  destruct (0 <? _) eqn:Eh.
  - destruct open_err as [err|]; [split; [done|]; intros _; by split|]. rewrite !bind_run.
    pose proof (VacuumInto_spec dir m Hp) as Hv. destruct (VacuumInto dir m) as [[a|e] m1]; [|by split; [|naive_solver]].
    destruct Hv as (_ & H2 & (-> & _ & H3) & _). cbn [mret state_ret]. rewrite bind_run.
    pose proof (backup_manager env cfg dir m1) as Hb. destruct (BackupAll _ _ _ m1) as [r m2].
    split; [|naive_solver]. destruct r; [done|]. intros _. destruct (Hb eq_refl) as [Ha ->].
    destruct (machine_after_log m1 (backup_commands env cfg dir)) as (L1 & L2 & L3).
    split_and!; [done|by rewrite L1, H2|by rewrite L3|by exists m1].
  - rewrite !bind_run. cbn [mret state_ret]. rewrite bind_run.
    pose proof (backup_manager env cfg dir m) as Hb. destruct (BackupAll _ _ _ m) as [r m2].
    split; [|naive_solver]. destruct r; [done|]. intros _. destruct (Hb eq_refl) as [Ha ->].
    destruct (machine_after_log m (backup_commands env cfg dir)) as (L1 & L2 & L3).
    split_and!; [done|by rewrite L1|done|by exists m].
Qed.

(** Without a history nobody makes the directory the command saves. *)
Lemma backup_without_history p env open_err flag (cfg : Config) (m : machine) :
  hRetentionDays (Historian cfg) ≤ 0 → bRepos (Config.Backup cfg) ≠ [] →
  let dir := join_file (Resolve p (Some cfg) flag) "backup-tmp" in
  runBackupTo p env None open_err flag (Some cfg) m =
  let '(r, m') := BackupAll None (NewManager None env (configRepos cfg)) [dir] m in
  ((λ err, Errorf "backup: %w" [FWrap err]) <$> r, m').
Proof.
  intros Hh Hr. cbv zeta. unfold runBackupTo. destruct (bRepos _); [done|].
  by rewrite (proj2 (Z.ltb_ge _ _) Hh).
Qed.

(** ** Restore *)

(** [Restore] starts restic only for a destination that is an empty directory, or
    that it has just created; anything else is an error and nothing is started. *)
Theorem Restore_correct ctx_err r repo (id dest : string) (m : machine) :
  (∀ f, Some f ∈ fs_faults (m_fs m) → is_not_exist f = false) →
  let '(res, m') := Restore ctx_err r repo id dest m in
  m_commands m' = m_commands m ∧ is_Some res.2 ∨
  nodes (m_fs m) !! dest = None ∨
  (∃ b, nodes (m_fs m) !! dest = Some (Directory b)) ∧
  ∀ p, has_prefix (dest +:+ "/") p = true → nodes (m_fs m) !! p = None.
Proof.
  intros Hf. unfold Restore. rewrite bind_run. unfold on_fs, zoom, requireCleanDestination.
  rewrite bind_run. unfold ReadDir. rewrite bind_run.
  assert (Hs : let '(f, s1) := sys_fault (m_fs m) in
    nodes s1 = nodes (m_fs m) ∧ (∀ e, f = Some e → is_not_exist e = false)).
  { unfold sys_fault. destruct (fs_faults (m_fs m)) as [|f fs]; [done|]. split; [done|].
    intros e ->. apply Hf. by left. }
  destruct (sys_fault (m_fs m)) as [[f|] s1]; destruct Hs as [Hs He]; unfold_state.
  { rewrite (He f eq_refl). simpl. left. by split; [|eexists]. }
  rewrite Hs. destruct (nodes (m_fs m) !! dest) as [[|b]|] eqn:Ed.
  - rewrite not_a_directory_is. simpl. left. by split; [|eexists].
  - destruct (List.filter _ _) as [|x xs] eqn:Ex; [|simpl; left; by split; [|eexists]].
    match goal with |- let '(_, _) := ?t in _ => destruct t as [res m'] end. right; right.
    split; [by exists b|]. intros q Hq. destruct (nodes (m_fs m) !! q) as [n|] eqn:En; [|done].
    assert (Hin : q ∈ List.filter (has_prefix (dest +:+ "/")) (map_to_list (nodes (m_fs m))).*1).
    { rewrite list_elem_of_In, List.filter_In, <- list_elem_of_In, list_elem_of_fmap. split; [|done].
      exists (q, n). split; [done|]. by apply elem_of_map_to_list. }
    rewrite Ex in Hin. by apply elem_of_nil in Hin.
  - match goal with |- let '(_, _) := ?t in _ => destruct t as [res m'] end. by right; left.
Qed.
End backup.

(** ** A concrete run *)

Definition quiet_restic : Restic := {|
  restic := λ m _, ("", None, m_fs m);
  unmarshal_snapshots := λ _, inl None;
|}.

#[local] Existing Instance quiet_restic.

Definition repo_config : Config := with_repos (base_config 1 "8h" []) [mkBackupRepo "s3:plant" "secret"].
Definition unix_process : process := mkProcess (λ _, "") "/" None "/var/lib/lgb".
Definition empty_machine : machine := mkMachine (mkFs ∅ []) (Db empty_table []) ∅ [].

Example runBackupTo_correct_witness :
  valid_utf8 "/var/lib/lgb/backup-tmp/lgb-snapshot.db" ∧
  let '(r, m') := runBackupTo unix_process ["HOME=/root"] None None "" (Some repo_config) empty_machine in
  r = None ∧ length (m_commands m') = 1%nat ∧
  m_snapshots m' !! "/var/lib/lgb/backup-tmp/lgb-snapshot.db" = Some empty_table.
Proof.
  assert (Hp : valid_utf8 "/var/lib/lgb/backup-tmp/lgb-snapshot.db") by (vm_compute; reflexivity).
  split; [exact Hp|].
  pose proof (runBackupTo_correct unix_process ["HOME=/root"] None "" repo_config empty_machine Hp) as H.
  assert (E : (runBackupTo unix_process ["HOME=/root"] None None "" (Some repo_config) empty_machine).1 = None)
    by (vm_compute; reflexivity).
  destruct (runBackupTo _ _ _ _ _ _ _) as [r m']. simpl in E. destruct H as [H _].
  destruct (H E) as (_ & Hc & Hs & _). split_and!; [exact E| |exact (Hs eq_refl)].
  rewrite Hc. reflexivity.
Defined.
