(* ===== verification/ApiBackup.v ===== *)
(** * [internal/server/api_backup.go] and the scheduler's goroutine

    The backup an administrator triggers runs in a goroutine of its own beside
    the scheduler's; both save the same repositories.  A system is the status
    cell, the triggered goroutines, the scheduler's goroutine and the machine
    they share; its events are the requests and the turns of the goroutines, a
    turn being one restic command or one critical section. *)

From S2P Require Import Prelude GoString GoTime GoError Sql DataDir Http Historian Backup.

(** ** The state *)

Record backupStatus := mkStatus {
  bs_status : string; bs_lastRun : option time; bs_lastErr : option error;
}.

(** A triggered goroutine: inside [BackupAll], or about to lock the cell. *)
Inductive job := Working (todo : list Repository) | Finishing (e : option error).

(** The scheduler's goroutine: in its [select], in the hook, or in [BackupAll]. *)
Inductive phase := NotStarted | Waiting | Hooking | Saving (todo : list Repository) | Exited.

Record system := mkSystem {
  cell : backupStatus;
  jobs : list job;
  sch_phase : phase;
  ticked : bool;
  ctx_done : option foreign;
  mach : machine;
}.

Definition set_cell (c : backupStatus) (s : system) : system :=
  mkSystem c (jobs s) (sch_phase s) (ticked s) (ctx_done s) (mach s).
Definition set_jobs (js : list job) (s : system) : system :=
  mkSystem (cell s) js (sch_phase s) (ticked s) (ctx_done s) (mach s).
Definition set_phase (p : phase) (s : system) : system :=
  mkSystem (cell s) (jobs s) p (ticked s) (ctx_done s) (mach s).
Definition set_ticked (b : bool) (s : system) : system :=
  mkSystem (cell s) (jobs s) (sch_phase s) b (ctx_done s) (mach s).
Definition set_ctx (c : option foreign) (s : system) : system :=
  mkSystem (cell s) (jobs s) (sch_phase s) (ticked s) c (mach s).

Definition on_machine {A : Type} (m : State machine A) : State system A :=
  zoom mach (λ m s, mkSystem (cell s) (jobs s) (sch_phase s) (ticked s) (ctx_done s) m) m.

Definition initial (m : machine) : system :=
  mkSystem (mkStatus "idle" None None) [] NotStarted false None m.

Definition StatusAccepted : Z := 202.

Section api.
Context {Os : OsErrors} {Rs : Restic} (sc : Scheduler).

(** ** The handlers *)

Definition handleBackupTrigger : State system response :=
  s ← get_state;
  if String.eqb (bs_status (cell s)) "running"
  then mret (writeAPIError StatusConflict "conflict" "a backup is already running")
  else
    _ ← modify (set_cell (mkStatus "running" (bs_lastRun (cell s)) (bs_lastErr (cell s))));
    _ ← modify (λ s, set_jobs (jobs s ++ [Working (repos (manager sc))]) s);
    mret (writeJSON StatusAccepted (VObj [("status", VString "started")])).

(** The goroutine after [BackupAll]. *)
Definition finish (now : time) (err : option error) (c : backupStatus) : backupStatus :=
  match err with
  | Some _ => mkStatus "failed" (bs_lastRun c) err
  | None => mkStatus "idle" (Some now) None
  end.

(** A turn of the [i]-th triggered goroutine. *)
Definition job_turn (now : time) (i : nat) : State system unit :=
  s ← get_state;
  match jobs s !! i with
  | None => mret tt
  | Some (Working []) => modify (λ s, set_jobs (<[i := Finishing None]> (jobs s)) s)
  | Some (Working (repo :: todo)) =>
      err ← on_machine (backup_one None (manager sc) [] repo);
      modify (λ s, set_jobs (<[i := match err with Some _ => Finishing err | None => Working todo end]> (jobs s)) s)
  | Some (Finishing err) =>
      modify (λ s, set_jobs (delete i (jobs s)) (set_cell (finish now err (cell s)) s))
  end.

(** [handleBackupStatus]: the last run in seconds, as RFC 3339 keeps it. *)
Record status_response := mkStatusResponse {
  st_status : string; st_last_run : option Z; st_last_error : option error;
}.

Definition handleBackupStatus : State system status_response :=
  s ← get_state;
  mret (mkStatusResponse (bs_status (cell s)) ((λ t, t / Second) <$> bs_lastRun (cell s)) (bs_lastErr (cell s))).

Definition snapshot_value (sn : Snapshot) : value :=
  VObj [("id", VString (snID sn)); ("time", VTime (snTime sn)); ("hostname", VString (snHostname sn));
        ("paths", match snPaths sn with Some ps => VList (VString <$> ps) | None => VNil end)].

Definition handleBackupSnapshots (ctx_err : option foreign) : State system response :=
  snaps ← on_machine (Snapshots ctx_err (manager sc));
  mret (match snaps with
        | inr _ => internal_error "could not retrieve snapshots"
        | inl snaps => writeJSON StatusOK (data (VList (snapshot_value <$> snaps)))
        end).

(** ** The scheduler's goroutine *)

Definition Start : State system unit :=
  modify (set_phase (if Every sc <=? 0 then Exited else Waiting)).

(** A turn; [prefer_ctx] is what [select] picks when both channels are ready. *)
Definition sched_turn (prefer_ctx : bool) : State system unit :=
  s ← get_state;
  match sch_phase s with
  | NotStarted | Exited => mret tt
  | Waiting =>
      let leave := match ctx_done s with Some _ => negb (ticked s) || prefer_ctx | None => false end in
      if leave then modify (set_phase Exited)
      else if ticked s then modify (λ s, set_phase Hooking (set_ticked false s))
      else mret tt
  | Hooking =>
      e ← on_machine (match PreBackup sc with Some hook => hook | None => mret None end);
      modify (set_phase (match e with Some _ => Waiting | None => Saving (repos (manager sc)) end))
  | Saving [] => modify (set_phase Waiting)
  | Saving (repo :: todo) =>
      e ← on_machine (backup_one (ctx_done s) (manager sc) (paths sc) repo);
      modify (set_phase (match e with Some _ => Waiting | None => Saving todo end))
  end.

(** The ticker drops a tick nobody has received yet. *)
Definition tick : State system unit :=
  s ← get_state;
  match sch_phase s with NotStarted | Exited => mret tt | _ => modify (set_ticked true) end.

(** [Stop] waits for the goroutine, if it was ever started. *)
Definition Stop_returns (s : system) : bool :=
  match sch_phase s with NotStarted | Exited => true | _ => false end.

(** ** Events *)

Inductive event :=
| Trigger | JobTurn (now : time) (i : nat)
| StartScheduler | Tick | Cancel (f : foreign) | SchedTurn (prefer_ctx : bool).

Definition apply_event (e : event) : State system unit :=
  match e with
  | Trigger => _ ← handleBackupTrigger; mret tt
  | JobTurn now i => job_turn now i
  | StartScheduler => s ← get_state; match sch_phase s with NotStarted => Start | _ => mret tt end
  | Tick => tick
  | Cancel f => modify (λ s, set_ctx (match ctx_done s with Some f => Some f | None => Some f end) s)
  | SchedTurn b => sched_turn b
  end.

Definition run_events (es : list event) (s : system) : system := foldl (λ s e, (apply_event e s).2) s es.

(** ** At most one triggered backup *)

Definition cell_ok (s : system) : Prop :=
  match jobs s with
  | [] => bs_status (cell s) = "idle" ∧ bs_lastErr (cell s) = None ∨
          bs_status (cell s) = "failed" ∧ is_Some (bs_lastErr (cell s))
  | [_] => bs_status (cell s) = "running"
  | _ => False
  end.

(** What the cell and the triggered goroutines do not share with the rest. *)
Definition same_jobs (s s' : system) : Prop := jobs s' = jobs s ∧ cell s' = cell s.

Lemma on_machine_run {A : Type} (m : State machine A) s :
  on_machine m s = ((m (mach s)).1, mkSystem (cell s) (jobs s) (sch_phase s) (ticked s) (ctx_done s) (m (mach s)).2).
Proof. unfold on_machine, zoom. by destruct (m (mach s)). Qed.

Lemma sched_turn_jobs b s : same_jobs s (sched_turn b s).2.
Proof.
  unfold sched_turn. rewrite bind_run. cbn [get_state].
  destruct (sch_phase s) as [| | |[|repo todo]|]; try done.
  - cbv zeta. destruct (match ctx_done s with Some _ => _ | None => _ end); [done|]. by destruct (ticked s).
  - rewrite bind_run, on_machine_run. done.
  - rewrite bind_run, on_machine_run. done.
Qed.

Lemma cell_ok_step e s : cell_ok s → cell_ok (apply_event e s).2.
Proof.
  assert (Hsame : ∀ s', same_jobs s s' → cell_ok s → cell_ok s').
  { intros s' [Hj Hc]. unfold cell_ok. by rewrite Hj, Hc. }
  intros H. destruct e as [|now i| | |f|b]; simpl apply_event.
  - rewrite bind_run. unfold handleBackupTrigger. rewrite bind_run. cbn [get_state].
    destruct (String.eqb_spec (bs_status (cell s)) "running") as [|Hn]; [done|].
    unfold cell_ok in H |- *. unfold_state. simpl. by destruct (jobs s) as [|j [|j' js]].
  - unfold job_turn. rewrite bind_run. cbn [get_state]. unfold cell_ok in H.
    destruct (jobs s) as [|j [|j' js]] eqn:Ej; [|destruct i as [|i]|done].
    + rewrite lookup_nil. unfold_state. unfold cell_ok. simpl. by rewrite Ej.
    + simpl. destruct j as [[|repo todo]|err]; unfold_state; unfold cell_ok; simpl; try by rewrite Ej.
      * rewrite on_machine_run. simpl. by rewrite Ej.
      * rewrite Ej. simpl. destruct err as [err|]; simpl; [right; by split|by left].
    + simpl. rewrite ?lookup_nil. unfold_state. unfold cell_ok. simpl. by rewrite Ej.
  - rewrite bind_run. cbn [get_state]. destruct (sch_phase s); try done; by apply Hsame.
  - unfold tick. rewrite bind_run. cbn [get_state]. destruct (sch_phase s); try done; by apply Hsame.
  - by apply Hsame.
  - apply Hsame; [apply sched_turn_jobs|done].
Qed.

Lemma run_events_ok es s : cell_ok s → cell_ok (run_events es s).
Proof.
  unfold run_events. revert s. induction es as [|e es IH]; intros s Hs; [done|]. simpl.
  by apply IH, cell_ok_step.
Qed.

(** C25 However requests, backups and the scheduler interleave, at most one triggered
    backup runs; the cell says so, and says whether the last one failed.  A
    request is accepted exactly when none runs. *)
Theorem one_triggered_backup (es : list event) (m : machine) :
  let s := run_events es (initial m) in
  (length (jobs s) ≤ 1)%nat ∧
  (bs_status (cell s) = "running" ↔ jobs s ≠ []) ∧
  (bs_status (cell s) = "idle" → bs_lastErr (cell s) = None) ∧
  (bs_status (cell s) = "failed" → is_Some (bs_lastErr (cell s))) ∧
  let '(resp, s') := handleBackupTrigger s in
  if decide (jobs s = []) then status resp = 202 ∧ jobs s' = [Working (repos (manager sc))]
  else status resp = 409 ∧ s' = s.
Proof.
  cbv zeta. assert (H : cell_ok (run_events es (initial m))) by (apply run_events_ok; by left).
  set (s := run_events es (initial m)) in *. clearbody s. unfold cell_ok in H.
  unfold handleBackupTrigger. rewrite bind_run. cbn [get_state].
  destruct (jobs s) as [|j [|j' js]] eqn:Ej; [|rewrite H; simpl; naive_solver (lia || done)|done].
  destruct H as [[H1 H2]|[H1 H2]]; rewrite H1; simpl; rewrite ?Ej; naive_solver (lia || done).
Qed.

(** ** A triggered backup ends *)

(** The turns a triggered backup has left. *)
Definition turns_left (s : system) : nat :=
  match jobs s with
  | [] => O
  | Finishing _ :: _ => 1
  | Working todo :: _ => S (S (length todo))
  end.

Definition is_turn (e : event) : bool := match e with JobTurn _ O => true | _ => false end.

Lemma turns_left_step e s : cell_ok s → jobs s ≠ [] →
  if is_turn e then (turns_left (apply_event e s).2 < turns_left s)%nat
  else jobs (apply_event e s).2 = jobs s.
Proof.
  intros H Hj. unfold cell_ok in H. destruct (jobs s) as [|j [|j' js]] eqn:Ej; [done| |done].
  destruct e as [|now [|i]| | |f|b]; simpl; rewrite ?Ej.
  - unfold handleBackupTrigger. rewrite !bind_run. cbn [get_state]. rewrite H. simpl. done.
  - unfold job_turn, turns_left. rewrite bind_run. cbn [get_state]. rewrite Ej. simpl.
    destruct j as [[|repo todo]|err]; unfold_state; simpl; rewrite ?Ej; simpl; try lia.
    rewrite on_machine_run. simpl. rewrite Ej. simpl. destruct (backup_one _ _ _ _ _).1; simpl; lia.
  - unfold job_turn. rewrite bind_run. cbn [get_state]. rewrite Ej. simpl. by rewrite ?lookup_nil, <- Ej.
  - rewrite bind_run. cbn [get_state]. by destruct (sch_phase s).
  - unfold tick. rewrite bind_run. cbn [get_state]. by destruct (sch_phase s).
  - done.
  - rewrite <- Ej. apply sched_turn_jobs.
Qed.

(** Among any events, a running backup has ended and released the cell once its
    goroutine has had one turn per repository and two more. *)
Theorem triggered_backup_ends (es0 es : list event) (m : machine) :
  let s := run_events es0 (initial m) in
  (turns_left s ≤ length (List.filter is_turn es))%nat →
  ∃ es1 es2, es = es1 ++ es2 ∧ jobs (run_events es1 s) = [] ∧
             bs_status (cell (run_events es1 s)) ≠ "running".
Proof.
  cbv zeta. assert (H : cell_ok (run_events es0 (initial m))) by (apply run_events_ok; by left).
  generalize dependent (run_events es0 (initial m)). clear es0 m.
  induction es as [|e es IH]; intros s H Hn.
  - exists [], []. unfold cell_ok, turns_left in *. simpl in *.
    destruct (jobs s) as [|[] ?]; simpl in *; try lia. split_and!; [done..|].
    destruct H as [[-> _]|[-> _]]; done.
  - destruct (decide (jobs s = [])) as [Hj|Hj].
    { exists [], (e :: es). unfold cell_ok in H. rewrite Hj in H. split_and!; [done..|]. simpl.
      destruct H as [[-> _]|[-> _]]; done. }
    pose proof (turns_left_step e s H Hj) as Ht. simpl in Hn.
    destruct (IH (apply_event e s).2 (cell_ok_step e s H)) as (es1 & es2 & -> & H1 & H2).
    { destruct (is_turn e); simpl in Hn; [lia|]. unfold turns_left in *. by rewrite Ht. }
    by exists (e :: es1), es2.
Qed.

(** ** What a triggered backup does *)

Lemma job_run todo now n s : cell_ok s → jobs s = [Working todo] → (length todo + 2 ≤ n)%nat →
  run_events (replicate n (JobTurn now 0)) s =
  let '(r, m') := for_each_err todo (backup_one None (manager sc) []) (mach s) in
  mkSystem (finish now r (cell s)) [] (sch_phase s) (ticked s) (ctx_done s) m'.
Proof.
  assert (Hidle : ∀ k s, jobs s = [] → run_events (replicate k (JobTurn now 0)) s = s).
  { intros k s' Hj. unfold run_events. induction k as [|k IH]; [done|]. simpl.
    assert (E : job_turn now 0 s' = (tt, s')) by (unfold job_turn; rewrite bind_run; cbn [get_state]; by rewrite Hj).
    by rewrite E. }
  assert (Hfin : ∀ k r s, jobs s = [Finishing r] → run_events (replicate (S k) (JobTurn now 0)) s =
    mkSystem (finish now r (cell s)) [] (sch_phase s) (ticked s) (ctx_done s) (mach s)).
  { intros k r s' Hj. unfold run_events. cbn [replicate foldl]. rewrite <- (Hidle k (mkSystem _ _ _ _ _ _)) by done.
    unfold run_events. f_equal. simpl. unfold job_turn. rewrite bind_run. cbn [get_state]. rewrite Hj. simpl.
    unfold_state. simpl. by rewrite Hj. }
  revert n s. induction todo as [|repo todo IH]; intros n s Hs Hj Hn; destruct n as [|[|n]]; simpl in Hn; try lia.
  - change (run_events (replicate (S (S n)) (JobTurn now 0)) s) with
      (run_events (replicate (S n) (JobTurn now 0)) (apply_event (JobTurn now 0) s).2).
    assert (E : (apply_event (JobTurn now 0) s).2 = set_jobs [Finishing None] s).
    { simpl. unfold job_turn. rewrite bind_run. cbn [get_state]. rewrite Hj. simpl. unfold modify. simpl. by rewrite Hj. }
    rewrite E, (Hfin n None) by done. done.
  - change (run_events (replicate (S (S n)) (JobTurn now 0)) s) with
      (run_events (replicate (S n) (JobTurn now 0)) (apply_event (JobTurn now 0) s).2).
    cbn [for_each_err]. rewrite bind_run.
    destruct (backup_one None (manager sc) [] repo (mach s)) as [err m1] eqn:Eb.
    assert (E : (apply_event (JobTurn now 0) s).2 =
      mkSystem (cell s) [match err with Some _ => Finishing err | None => Working todo end]
        (sch_phase s) (ticked s) (ctx_done s) m1).
    { simpl. unfold job_turn. rewrite bind_run. cbn [get_state]. rewrite Hj. simpl. rewrite bind_run, on_machine_run, Eb.
      simpl. by rewrite Hj. }
    rewrite E. destruct err as [err|]; [by rewrite (Hfin n (Some err))|].
    rewrite (IH (S n)); [done| |done|lia]. unfold cell_ok in Hs |- *. simpl. by rewrite Hj in Hs.
Qed.

(** A triggered backup that is not disturbed is [BackupAll] without any path: its
    commands, and its result in the cell. *)
Theorem trigger_runs_BackupAll (now : time) (n : nat) (es : list event) (m : machine) :
  let s := run_events es (initial m) in
  jobs s = [] → (length (repos (manager sc)) + 2 ≤ n)%nat →
  let '(r, m') := BackupAll None (manager sc) [] (mach s) in
  let s' := run_events (Trigger :: replicate n (JobTurn now 0)) s in
  jobs s' = [] ∧ mach s' = m' ∧
  cell s' = match r with
            | None => mkStatus "idle" (Some now) None
            | Some err => mkStatus "failed" (bs_lastRun (cell s)) (Some err)
            end.
Proof.
  cbv zeta. assert (H : cell_ok (run_events es (initial m))) by (apply run_events_ok; by left).
  generalize dependent (run_events es (initial m)). clear es m. intros s H Hj Hn.
  change (run_events (Trigger :: ?es) s) with (run_events es (apply_event Trigger s).2).
  assert (Hs : ∃ s1, (apply_event Trigger s).2 = s1 ∧ jobs s1 = [Working (repos (manager sc))] ∧
    cell_ok s1 ∧ mach s1 = mach s ∧ bs_lastRun (cell s1) = bs_lastRun (cell s)).
  { eexists. split; [done|]. split_and!; [|by apply cell_ok_step|..]; simpl;
      unfold handleBackupTrigger; rewrite !bind_run; cbn [get_state]; unfold cell_ok in H; rewrite Hj in H;
      destruct H as [[-> _]|[-> _]]; simpl; by rewrite ?Hj. }
  destruct Hs as (s1 & -> & Hj1 & Hok & Hm & Hr).
  rewrite (job_run (repos (manager sc)) now n s1 Hok Hj1) by lia. unfold BackupAll. rewrite Hm.
  destruct (for_each_err _ _ _) as [[err|] m']; split_and!; try done. simpl. by rewrite Hr.
Qed.

(** ** The scheduler *)

(** No restic command is started by the scheduler once its context is done, if its
    hook starts none. *)
Definition quiet_hook : Prop :=
  match PreBackup sc with
  | Some hook => ∀ m, m_commands (hook m).2 = m_commands m
  | None => True
  end.

Definition by_job (e : event) : bool := match e with JobTurn _ _ => true | _ => false end.

Lemma cancelled_step e s : quiet_hook → is_Some (ctx_done s) → by_job e = false →
  is_Some (ctx_done (apply_event e s).2) ∧
  m_commands (mach (apply_event e s).2) = m_commands (mach s).
Proof.
  intros Hq [f Hf] He. destruct e as [|now i| | |f'|b]; try done; simpl.
  - unfold handleBackupTrigger. rewrite !bind_run. cbn [get_state].
    destruct (String.eqb (bs_status (cell s)) "running"); simpl; rewrite Hf; by split.
  - rewrite bind_run. cbn [get_state]. destruct (sch_phase s); simpl; by rewrite Hf.
  - unfold tick. rewrite bind_run. cbn [get_state]. destruct (sch_phase s); simpl; by rewrite Hf.
  - unfold modify. simpl. by rewrite Hf.
  - unfold sched_turn. rewrite bind_run. cbn [get_state].
    destruct (sch_phase s) as [| | |[|repo todo]|]; simpl; try (by rewrite Hf).
    + rewrite Hf. destruct (negb (ticked s) || b); [simpl; by rewrite Hf|]. destruct (ticked s); simpl; by rewrite Hf.
    + rewrite bind_run, on_machine_run. simpl. rewrite Hf. split; [done|]. unfold quiet_hook in Hq.
      by destruct (PreBackup sc).
Qed.

(** The turns the scheduler has left when its context is done, no tick is waiting
    and none comes any more. *)
Definition sched_left (s : system) : nat :=
  match sch_phase s with
  | NotStarted | Exited => 0
  | Waiting => 1
  | Saving todo => 2 + length todo
  | Hooking => 4 + length (repos (manager sc))
  end.

Lemma sched_left_step b s : is_Some (ctx_done s) → ticked s = false → Stop_returns s = false →
  let s' := (sched_turn b s).2 in
  (sched_left s' < sched_left s)%nat ∧ is_Some (ctx_done s') ∧ ticked s' = false.
Proof.
  intros [f Hf] Ht Hs. unfold sched_turn, sched_left, Stop_returns in *. cbv zeta. rewrite bind_run. cbn [get_state].
  destruct (sch_phase s) as [| | |[|repo todo]|]; try done; simpl.
  - rewrite Hf, Ht. simpl. rewrite Hf. split_and!; [lia|done|done].
  - rewrite bind_run, on_machine_run. simpl. rewrite Hf. split_and!; [|done|done].
    destruct (_ (mach s)).1; lia.
  - rewrite Hf. split_and!; [lia|done|done].
  - rewrite bind_run, on_machine_run. simpl. rewrite Hf. split_and!; [|done|done].
    by destruct (backup_one _ _ _ _ _).1; simpl; lia.
Qed.

End api.

(** The hook of the server's scheduler starts no command. *)
Lemma VacuumInto_commands {Os : OsErrors} dir m : m_commands (VacuumInto dir m).2 = m_commands m.
Proof.
  unfold VacuumInto, on_fs, zoom. rewrite bind_run. destruct (MkdirAll dir (m_fs m)) as [[f|] s1]; [done|].
  rewrite bind_run. cbn [m_fs m_db m_snapshots m_commands]. destruct (Remove _ s1) as [[] s2].
  rewrite bind_run. cbn [m_fs m_db m_snapshots m_commands].
  assert (H : ∀ q m, m_commands (vacuum_stmt q m).2 = m_commands m).
  { clear. intros q m. unfold vacuum_stmt. destruct (next_fault (m_db m)) as [[f|] d]; [done|].
    destruct (sql_literal _) as [[path [|c r]]|]; try done. simpl. by destruct (nodes (m_fs m) !! path). }
  specialize (H ("VACUUM INTO " +:+ sqlQuote (join_file dir "lgb-snapshot.db"))
    (mkMachine s2 (m_db m) (m_snapshots m) (m_commands m))).
  by destruct (vacuum_stmt _ _) as [e m'].
Qed.

Lemma server_scheduler_quiet {Os : OsErrors} mg dir every history : quiet_hook (server_scheduler mg dir every history).
Proof.
  unfold quiet_hook, server_scheduler. destruct history; [|done]. simpl. intros m. rewrite bind_run.
  pose proof (VacuumInto_commands (join_file dir "backup-tmp") m) as H.
  by destruct (VacuumInto _ m).
Qed.

(** ** Concrete runs *)

#[local] Existing Instance quiet_restic.

Definition sample_repo : Repository := mkRepository "s3:plant" "secret".
Definition sample_scheduler : Scheduler :=
  server_scheduler (NewManager None [] [sample_repo]) "/var/lib/lgb" (24 * Hour) true.

(** The cell does not cover the scheduler: a triggered and a scheduled backup of
    the same repository run at once. *)
Lemma scheduled_overlap :
  let s := run_events sample_scheduler [StartScheduler; Tick; SchedTurn false; SchedTurn false; Trigger]
             (initial empty_machine) in
  jobs s = [Working [sample_repo]] ∧ sch_phase s = Saving [sample_repo].
Proof. vm_compute. by split. Qed.

(** The command of a triggered backup names no path to save. *)
Lemma triggered_command :
  let s := run_events sample_scheduler [Trigger; JobTurn 0 0] (initial empty_machine) in
  cm_args <$> m_commands (mach s) = [["-r"; "s3:plant"; "backup"; "--json"]].
Proof. vm_compute. reflexivity. Qed.

Example triggered_backup_ends_witness :
  let s := run_events sample_scheduler [Trigger] (initial empty_machine) in
  ∃ es1 es2, [JobTurn 1 0; Tick; JobTurn 2 0; JobTurn 3 0] = es1 ++ es2 ∧
             jobs (run_events sample_scheduler es1 s) = [] ∧
             bs_status (cell (run_events sample_scheduler es1 s)) ≠ "running".
Proof.
  apply (triggered_backup_ends sample_scheduler [Trigger] [JobTurn 1 0; Tick; JobTurn 2 0; JobTurn 3 0] empty_machine).
  vm_compute. lia.
Defined.

Example trigger_runs_BackupAll_witness :
  let s := run_events sample_scheduler [] (initial empty_machine) in
  jobs s = [] ∧
  bs_status (cell (run_events sample_scheduler (Trigger :: replicate 3 (JobTurn 7 0)) s)) = "idle".
Proof.
  cbv zeta. split; [done|].
  pose proof (trigger_runs_BackupAll sample_scheduler 7 3 [] empty_machine eq_refl ltac:(vm_compute; lia)) as H.
  assert (E : (BackupAll None (manager sample_scheduler) [] (mach (initial empty_machine))).1 = None)
    by (vm_compute; reflexivity).
  change (mach (run_events sample_scheduler [] (initial empty_machine))) with (mach (initial empty_machine)) in H.
  destruct (BackupAll _ _ _ _) as [r m']. simpl in E. subst r. destruct H as (_ & _ & H).
  by rewrite H.
Defined.

