(* ===== verification/ApiHistorian.v ===== *)
(** * [internal/server/api_historian.go]: [GET /api/historian/query]

    The handler over the history store, with the bounds it parses; and what it
    answers when a bound or the PLC is left out. *)

From S2P Require Import Prelude GoString GoTime Rfc3339 GoError Sql Http Historian.

(** The page of samples of a successful answer. *)
Record sample_page := mkSamplePage {
  sp_data : list (Sample text); sp_limit : Z; sp_offset : Z; sp_count : Z;
}.

(** An optional bound: the zero instant when it is absent. *)
Definition parse_bound (raw : string) : option time :=
  if String.eqb raw "" then Some zero_time else parse_rfc3339 raw.

Definition bad_request (message : string) : response :=
  writeAPIError StatusBadRequest "bad_request" message.

Definition handleHistorianQuery {B : Type} (r : request B)
    : State (option (db samples)) (sample_page + response) := λ histStore,
  match histStore with
  | None => (inr (writeAPIError StatusServiceUnavailable "unavailable" "historian not configured"), None)
  | Some store =>
      let tag := r_query r "tag" in
      if String.eqb tag "" then (inr (bad_request "tag parameter is required"), Some store)
      else match parse_bound (r_query r "from") with
      | None => (inr (bad_request "from must be an RFC3339 timestamp"), Some store)
      | Some from =>
          match parse_bound (r_query r "to") with
          | None => (inr (bad_request "to must be an RFC3339 timestamp"), Some store)
          | Some to =>
              match parse_limit (r_query r "limit") with
              | None => (inr (bad_request "limit must be an integer between 1 and 1000"), Some store)
              | Some limit =>
                  let '(samples, store) := Query (mkQuery (r_query r "plc") tag from to limit) store in
                  (match samples with
                   | inr _ => inr (internal_error "historian query failed")
                   | inl ss => let data := elems ss in
                               inl (mkSamplePage data limit 0 (Z.of_nat (length data)))
                   end, Some store)
              end
          end
      end
  end.

(** ** Answers *)

Lemma parse_limit_range raw limit : parse_limit raw = Some limit → 1 ≤ limit ≤ 1000.
Proof.
  unfold parse_limit. destruct (String.eqb raw ""); [intros [= <-]; lia|].
  destruct (parse_int64 raw) as [n|]; [|done].
  destruct ((n <? 1) || (1000 <? n)) eqn:E; [done|]. intros [= <-]. bool_to_prop. lia.
Qed.

(** The samples a request is for. *)
Definition wanted {B : Type} (r : request B) (from to : time) (x : Z * sample_row) : bool :=
  in_range (mkQuery (r_query r "plc") (r_query r "tag") from to 0) x.

(** What the handler answers. *)
Definition query_answer {B : Type} (r : request B) (t : samples) (answer : sample_page + response) : Prop :=
  match answer with
  | inr resp =>
      status resp = 400 ∧
      (r_query r "tag" = "" ∨ parse_bound (r_query r "from") = None ∨
       parse_bound (r_query r "to") = None ∨ parse_limit (r_query r "limit") = None)
  | inl page =>
      r_query r "tag" ≠ "" ∧
      ∃ from to found rest,
        parse_bound (r_query r "from") = Some from ∧ parse_bound (r_query r "to") = Some to ∧
        parse_limit (r_query r "limit") = Some (sp_limit page) ∧ sp_limit page ≤ 1000 ∧
        sp_data page = sample_of ∘ snd <$> found ∧ sp_count page = Z.of_nat (length found) ∧
        found ++ rest ≡ₚ select_where (wanted r from to) t ∧
        Sorted by_time found ∧ (∀ x y, x ∈ found → y ∈ rest → by_time x y) ∧
        (sp_count page = sp_limit page ∨ rest = [])
  end.

Lemma handle_spec {B : Type} (r : request B) (t : samples) :
  let '(answer, s) := handleHistorianQuery r (Some (Db t [])) in
  s = Some (Db t []) ∧ query_answer r t answer.
Proof.
  unfold query_answer.
  unfold handleHistorianQuery. destruct (String.eqb_spec (r_query r "tag") "") as [Ht|Ht]; [by auto|].
  destruct (parse_bound (r_query r "from")) as [from|] eqn:Ef; [|by auto 10].
  destruct (parse_bound (r_query r "to")) as [to|] eqn:Eto; [|by auto 10].
  destruct (parse_limit (r_query r "limit")) as [limit|] eqn:El; [|by auto 10].
  pose proof (parse_limit_range _ _ El) as Hlim. set (q := mkQuery _ _ from to limit).
  destruct (Query_correct q t) as (xs & found & rest & -> & Hxs & Hperm & Hs & Hle & Hcount).
  split; [done|]. split; [done|]. exists from, to, found, rest. simpl. rewrite Hxs, length_fmap.
  split_and!; try done; [lia|]. destruct Hcount as [Hc|Hc]; [left|by right].
  rewrite Hc. unfold query_limit, q. simpl. destruct (Z.leb_spec limit 0); lia.
Qed.

(** A query with a tag and well-formed parameters is answered with the earliest
    samples of exactly that tag of that PLC between the two bounds, in the order
    of their instants, at most as many as asked for and never more than a
    thousand, and all of them when there are fewer; any other request is a 400.
    The store is not changed. *)
Theorem handleHistorianQuery_correct {B : Type} (r : request B) (t : samples) :
  let '(answer, s) := handleHistorianQuery r (Some (Db t [])) in
  s = Some (Db t []) ∧
  match answer with
  | inr resp =>
      status resp = 400 ∧
      (r_query r "tag" = "" ∨ parse_bound (r_query r "from") = None ∨
       parse_bound (r_query r "to") = None ∨ parse_limit (r_query r "limit") = None)
  | inl page =>
      r_query r "tag" ≠ "" ∧
      ∃ from to found rest,
        parse_bound (r_query r "from") = Some from ∧ parse_bound (r_query r "to") = Some to ∧
        parse_limit (r_query r "limit") = Some (sp_limit page) ∧ sp_limit page ≤ 1000 ∧
        sp_data page = sample_of ∘ snd <$> found ∧ sp_count page = Z.of_nat (length found) ∧
        found ++ rest ≡ₚ select_where (wanted r from to) t ∧
        Sorted by_time found ∧ (∀ x y, x ∈ found → y ∈ rest → by_time x y) ∧
        (sp_count page = sp_limit page ∨ rest = [])
  end.
Proof. apply handle_spec. Qed.

(** ** Omitted parameters *)

Lemma no_rows {B : Type} (r : request B) (t : samples) :
  (∀ from to x, parse_bound (r_query r "from") = Some from → parse_bound (r_query r "to") = Some to →
     x ∈ rows t → wanted r from to x = false) →
  ∀ page, (handleHistorianQuery r (Some (Db t []))).1 = inl page → sp_data page = [].
Proof.
  intros H page. pose proof (handle_spec r t) as Hc.
  destruct (handleHistorianQuery r (Some (Db t []))) as [answer s]. simpl. intros ->.
  destruct Hc as (_ & _ & from & to & found & rest & Hf & Ht & _ & _ & -> & _ & Hp & _).
  assert (E : select_where (wanted r from to) t = []).
  { destruct (select_where _ t) as [|x xs] eqn:E; [done|]. assert (Hx : x ∈ x :: xs) by left.
    rewrite <- E, elem_of_select in Hx. destruct Hx as [Hin Hx]. by rewrite (H from to x Hf Ht Hin) in Hx. }
  rewrite E in Hp. symmetry in Hp. apply Permutation_nil in Hp. by apply app_eq_nil in Hp as [-> _].
Qed.

(** [to] is documented as optional, but without it the upper bound is the zero
    instant, which [UnixNano] turns into one of the year 1754: every sample
    recorded since then is left out. *)
Theorem query_without_to {B : Type} (r : request B) (t : samples) (page : sample_page) :
  r_query r "to" = "" → (∀ x, x ∈ rows t → -6795364578871345152 < sr_ts x.2) →
  (handleHistorianQuery r (Some (Db t []))).1 = inl page → sp_data page = [].
Proof.
  intros Hto Hts. apply no_rows. intros from to x _. rewrite Hto. intros [= <-] Hx.
  unfold wanted, in_range. simpl. specialize (Hts x Hx). rewrite unix_nano_zero_time.
  rewrite (proj2 (Z.leb_gt _ _) Hts). by rewrite andb_false_r.
Qed.

(** [plc] is documented as optional too, but only samples of a PLC with the empty
    name match its absence. *)
Theorem query_without_plc {B : Type} (r : request B) (t : samples) (page : sample_page) :
  r_query r "plc" = "" → (∀ x, x ∈ rows t → sr_plc x.2 ≠ "") →
  (handleHistorianQuery r (Some (Db t []))).1 = inl page → sp_data page = [].
Proof.
  intros Hplc Hp. apply no_rows. intros from to x _ _ Hx. unfold wanted, in_range. simpl. rewrite Hplc.
  by rewrite (proj2 (String.eqb_neq _ _) (Hp x Hx)).
Qed.

(** ** Recorded samples are served *)

Definition get_request (q : string → string) : request unit :=
  mkRequest "GET" "" (λ _, None) q (λ _, "") "" None None.

Definition query_of (kvs : list (string * string)) (k : string) : string :=
  default "" (snd <$> List.find (λ kv, String.eqb kv.1 k) kvs).



Example query_without_to_witness :
  let t := insert_row (SampleRow "plc1" "Speed" (1750000000 * Second) (Lit "1") "good") empty_table in
  ∃ page, (handleHistorianQuery (get_request (query_of [("plc", "plc1"); ("tag", "Speed")])) (Some (Db t []))).1 = inl page ∧
  sp_data page = [].
Proof.
  cbv zeta. eexists. split; [vm_compute; reflexivity|].
  eapply (query_without_to (get_request (query_of [("plc", "plc1"); ("tag", "Speed")]))
    (insert_row (SampleRow "plc1" "Speed" (1750000000 * Second) (Lit "1") "good") empty_table)).
  - reflexivity.
  - intros x Hx. apply list_elem_of_singleton in Hx as ->. vm_compute. reflexivity.
  - vm_compute. reflexivity.
Defined.
