(* ===== verification/Pipeline.v ===== *)
(** * [cmd/lgb/cmd/server.go]: from a scan to its consumers

    [buildTagCallback] hands every update of a scan to the history writer and to
    the edge node; the server adds the tag hub to the callbacks.  This file
    composes the scan of [PlcManager], the callbacks and the writer of
    [HistorianWriter], and states what reaches the store. *)

From S2P Require Import Prelude GoString GoTime GoError Config Sql Sparkplug EdgeNode.
From S2P Require Import PlcManager ApiTags Historian HistorianWriter.

(** ** The callback *)

(** The sample and the Sparkplug update made from an update of the manager. *)
Definition to_sample (u : PlcManager.TagUpdate) : Sample value :=
  mkSample (PlcManager.uPLCName u) (PlcManager.uTag u) (PlcManager.uTimestamp u)
    (PlcManager.uValue u) (PlcManager.uQuality u).

Definition to_sparkplug (u : PlcManager.TagUpdate) : Sparkplug.TagUpdate :=
  Sparkplug.mkTagUpdate (PlcManager.uPLCName u) (PlcManager.uTag u) (PlcManager.uValue u)
    (PlcManager.uTimestamp u) (PlcManager.uQuality u).

(** The consumers, each absent when it is not configured, and the warnings
    logged for samples that were refused. *)
Record consumers (B : Type) := mkConsumers {
  c_writer : option writer;
  c_node : option (EdgeNode.node B);
  c_hub : tagHub;
  c_warned : list (string * error);
}.
Arguments mkConsumers {B} _ _ _ _.
Arguments c_writer {B} _.
Arguments c_node {B} _.
Arguments c_hub {B} _.
Arguments c_warned {B} _.

(** A callback returns, waits for room in the writer's channel, or panics. *)
Inductive delivery := Delivered | Waits | Panicked.

Section pipeline.
Context {B : Type} (opts : WriterOptions).

(** [spHandler(…)]. *)
Definition to_node (u : PlcManager.TagUpdate) (c : consumers B) : consumers B :=
  mkConsumers (c_writer c) ((λ n, (HandleTagUpdate (to_sparkplug u) n).2) <$> c_node c) (c_hub c) (c_warned c).

(** The closure [buildTagCallback] returns; [prefer_ctx] and [ctx_err] as for
    [Enqueue]. *)
Definition tag_callback (prefer_ctx : bool) (ctx_err : option error) (u : PlcManager.TagUpdate)
    (c : consumers B) : delivery * consumers B :=
  match c_writer c with
  | None => (Delivered, to_node u c)
  | Some w =>
      let '(r, w) := Enqueue opts prefer_ctx ctx_err (to_sample u) w in
      let c := mkConsumers (Some w) (c_node c) (c_hub c) (c_warned c) in
      match r with
      | Accepted => (Delivered, to_node u c)
      | Refused err =>
          (Delivered, to_node u (mkConsumers (Some w) (c_node c) (c_hub c) (c_warned c ++ [(PlcManager.uTag u, err)])))
      | Blocks => (Waits, c)
      | SendOnClosed => (Panicked, c)
      end
  end.

(** The callbacks of the manager for one update: the fan-out, then the hub. *)
Definition callbacks (prefer_ctx : bool) (ctx_err : option error) (u : PlcManager.TagUpdate)
    (c : consumers B) : delivery * consumers B :=
  match tag_callback prefer_ctx ctx_err u c with
  | (Delivered, c) =>
      match publish u (c_hub c) with
      | Some h => (Delivered, mkConsumers (c_writer c) (c_node c) h (c_warned c))
      | None => (Panicked, c)
      end
  | r => r
  end.

(** The updates of a scan, in order, until one waits. *)
Fixpoint deliver (prefer_ctx : bool) (ctx_err : option error) (us : list PlcManager.TagUpdate)
    (c : consumers B) : delivery * consumers B :=
  match us with
  | [] => (Delivered, c)
  | u :: us =>
      match callbacks prefer_ctx ctx_err u c with
      | (Delivered, c) => deliver prefer_ctx ctx_err us c
      | r => r
      end
  end.

(** ** Fan-out *)

(** What the node queues of a list of updates: nothing unless it is online, and
    no more than its channel holds. *)
Definition node_after (us : list PlcManager.TagUpdate) (n : EdgeNode.node B) : EdgeNode.node B :=
  if decide (sm n = Online) then
    EdgeNode.set_updates (updates n ++ take (updates_cap - length (updates n)) (to_sparkplug <$> us)) n
  else n.

Lemma set_updates_id (n : EdgeNode.node B) : EdgeNode.set_updates (updates n) n = n.
Proof. by destruct n. Qed.

Lemma node_after_nil n : node_after [] n = n.
Proof. unfold node_after. case_decide; [|done]. by rewrite fmap_nil, take_nil, app_nil_r, set_updates_id. Qed.

Lemma node_after_cons u us n :
  node_after us (HandleTagUpdate (to_sparkplug u) n).2 = node_after (u :: us) n.
Proof.
  unfold node_after, HandleTagUpdate. rewrite bind_run. cbn [get_state].
  destruct (decide (sm n = Online)) as [Ho|Ho]; [|by simpl; rewrite decide_False].
  destruct (Nat.ltb_spec (length (updates n)) updates_cap) as [Hc|Hc]; simpl; rewrite decide_True by done.
  - rewrite length_app. simpl. rewrite <- app_assoc.
    assert (E : (updates_cap - length (updates n) = S (updates_cap - (length (updates n) + 1)))%nat)
      by (unfold updates_cap in *; lia).
    by rewrite E.
  - assert (E : (updates_cap - length (updates n) = 0)%nat) by (unfold updates_cap in *; lia).
    by rewrite E, take_0.
Qed.

(** The writer has room for more samples, and is not closed. *)
Definition room (n : nat) (w : writer) : Prop :=
  wr_closed w = false ∧ Z.of_nat (length (wr_ch w) + n) ≤ BufferSize (writer_defaults opts).

Lemma Enqueue_room p s w n : room (S n) w →
  Enqueue opts p None s w = (Accepted, set_ch (wr_ch w ++ [s]) w) ∧ room n (set_ch (wr_ch w ++ [s]) w).
Proof.
  intros [Hc Hr]. unfold Enqueue, room in *. rewrite Hc. rewrite (proj2 (Z.ltb_lt _ _)) by lia.
  split; [done|]. split; [done|].
  cbn [set_ch wr_ch]. rewrite length_app. cbn [length]. lia.
Qed.

Lemma callbacks_room p u c :
  (∀ w, c_writer c = Some w → room 1 w) → hub_ok (c_hub c) →
  ∃ h, publish u (c_hub c) = Some h ∧ hub_ok h ∧
  callbacks p None u c =
    (Delivered, mkConsumers ((λ w, set_ch (wr_ch w ++ [to_sample u]) w) <$> c_writer c)
                  ((λ n, (HandleTagUpdate (to_sparkplug u) n).2) <$> c_node c) h (c_warned c)).
Proof.
  intros Hw Hh. destruct (publish_ok u (c_hub c) Hh) as (h & Hp & Hok). exists h. split_and!; [done..|].
  unfold callbacks, tag_callback. destruct c as [[w|] n hb ws]; simpl in *.
  - destruct (Enqueue_room p (to_sample u) w 0 (Hw w eq_refl)) as [-> _]. simpl. by rewrite Hp.
  - by rewrite Hp.
Qed.

Lemma deliver_room p us c :
  (∀ w, c_writer c = Some w → room (length us) w) → hub_ok (c_hub c) →
  ∃ h, hub_ok h ∧ deliver p None us c =
    (Delivered, mkConsumers ((λ w, set_ch (wr_ch w ++ (to_sample <$> us)) w) <$> c_writer c)
                  (node_after us <$> c_node c) h (c_warned c)).
Proof.
  revert c. induction us as [|u us IH]; intros c Hw Hh; simpl.
  - exists (c_hub c). split; [done|]. destruct c as [w n h ws]. simpl. f_equal. f_equal.
    + destruct w as [w|]; [|done]. simpl. rewrite app_nil_r. by destruct w.
    + destruct n; [|done]. simpl. by rewrite node_after_nil.
  - destruct (callbacks_room p u c) as (h & _ & Hok & ->); [|done|].
    { intros w Hc. destruct (Hw w Hc) as [H1 H2]. split; [done|]. cbn [length] in H2. lia. }
    set (c1 := mkConsumers _ _ h _).
    destruct (IH c1) as (h' & Hok' & ->); [|done|].
    { intros w. unfold c1. simpl. destruct (c_writer c) as [w1|]; [|done]. intros [= <-].
      apply (Enqueue_room p (to_sample u) w1). by apply Hw. }
    exists h'. split; [done|]. unfold c1. simpl. f_equal. f_equal.
    + destruct (c_writer c) as [w|]; [|done]. simpl. by rewrite <- app_assoc.
    + destruct (c_node c) as [n|]; [|done]. simpl. by rewrite node_after_cons.
Qed.

(** ** From the driver to the store *)

(** The formatted values of the good rows of a tag. *)
Definition good_rows (tag : string) (rs : list sample_row) : list text :=
  sr_value <$> List.filter (λ r, String.eqb (sr_tag r) tag && String.eqb (sr_quality r) "good") rs.

Lemma good_rows_of tag us :
  Forall (λ u, PlcManager.uQuality u = "good" ∨ PlcManager.uQuality u = "bad") us →
  good_rows tag (row_of ∘ to_sample <$> us) =
  stringify <$> (PlcManager.uValue <$> List.filter (λ u, String.eqb (PlcManager.uQuality u) "good") (of_tag tag us)).
Proof.
  unfold good_rows, of_tag. induction 1 as [|u us Hq _ IH]; [done|].
  rewrite fmap_cons. cbn [List.filter]. unfold compose at 1. cbn [sr_tag row_of to_sample smTag].
  assert (E : sr_quality (row_of (to_sample u)) = PlcManager.uQuality u).
  { unfold row_of. simpl. by destruct Hq as [->| ->]. }
  unfold compose at 1. rewrite E. destruct (String.eqb (PlcManager.uTag u) tag); simpl; [|exact IH].
  destruct (String.eqb (PlcManager.uQuality u) "good"); simpl; [|exact IH]. f_equal. exact IH.
Qed.


(** A full channel whose writer does not take anything holds the scan up, and the
    node is not given the update either, until the context ends: then the sample
    is dropped with a warning and the node gets the update. *)
Theorem backpressure (u : PlcManager.TagUpdate) (us : list PlcManager.TagUpdate) (p : bool) (err : error)
    (w : writer) (n : option (EdgeNode.node B)) (h : tagHub) (ws : list (string * error)) :
  wr_closed w = false → BufferSize (writer_defaults opts) ≤ Z.of_nat (length (wr_ch w)) →
  let c := mkConsumers (Some w) n h ws in
  deliver p None (u :: us) c = (Waits, c) ∧
  tag_callback p (Some err) u c =
    (Delivered, mkConsumers (Some w) ((λ n, (HandleTagUpdate (to_sparkplug u) n).2) <$> n) h
                  (ws ++ [(PlcManager.uTag u, err)])).
Proof.
  intros Hc Hb. cbv zeta.
  assert (E : ∀ e, Enqueue opts p e (to_sample u) w = match e with Some err => (Refused err, w) | None => (Blocks, w) end).
  { intros e. unfold Enqueue. rewrite Hc, (proj2 (Z.ltb_ge _ _) Hb). by destruct e. }
  split.
  - cbn [deliver]. unfold callbacks, tag_callback. cbn [c_writer]. by rewrite E.
  - unfold tag_callback. cbn [c_writer]. by rewrite E.
Qed.
End pipeline.

(** ** Types *)

(** A value a read may leave behind a pointer of the type. *)
Definition has_type (ty : dest_type) (v : value) : Prop :=
  value_ok v ∧
  match ty, v with
  | DBool, VBool _ | DInt8, VInt8 _ | DInt16, VInt16 _ | DInt32, VInt32 _ | DInt64, VInt64 _
  | DUint8, VUint8 _ | DUint16, VUint16 _ | DUint32, VUint32 _ | DUint64, VUint64 _
  | DFloat32, VFloat32 _ | DFloat64, VFloat64 _ | DString, VString _ | DAny, _ => True
  | _, _ => False
  end.

(** The Sparkplug metric of an update of the manager. *)
Definition metric_of (name tag : string) (now : time) (v : value) (quality : string) : GoError.result metric :=
  ddata_metric (to_sparkplug (PlcManager.mkTagUpdate name tag v now quality)).

Definition type_flows (typeName : string) : Prop :=
  let '(ty, zero) := allocDest typeName in
  has_type ty zero ∧ sparkplugTypeToDataType typeName ≠ 0 ∧
  ∀ name tag now content, has_type ty content →
    ∃ m, metric_of name tag now (deref ty content) "good" = inl m ∧
         Datatype m = Some (sparkplugTypeToDataType typeName) ∧ DecodeMetricValue (Some m) = content.

Lemma scalar_type_flows typeName : typeName ∈ Config.sparkplugScalarTypes → type_flows typeName.
Proof.
  intros Ht. unfold Config.sparkplugScalarTypes in Ht.
  repeat (apply elem_of_cons in Ht as [->|Ht]; [|]); [..|by apply not_elem_of_nil in Ht].
  all: unfold type_flows; simpl allocDest; cbv beta iota.
  all: split; [split; [vm_compute; try done; by split|done]|]; split; [vm_compute; done|].
  all: intros name tag now content [Hok Hty]; destruct content; try done.
  all: match goal with |- context [deref _ ?c] =>
         pose proof (ddata_metric_ok (to_sparkplug (PlcManager.mkTagUpdate name tag c now "good")) Hok) as H end.
  all: unfold metric_of; cbn [deref]; destruct (ddata_metric _) as [m|e] eqn:E; [|by destruct H].
  all: exists m; split; [done|]; destruct H as (_ & _ & _ & _ & H); split; [|exact H].
  all: unfold ddata_metric in E; simpl in E; by injection E as <-.
Qed.

Lemma other_type typeName : typeName ∉ Config.sparkplugScalarTypes → allocDest typeName = (DAny, VNil).
Proof.
  intros Ht. unfold allocDest.
  repeat match goal with
  | |- context [String.eqb typeName ?x] =>
      destruct (String.eqb_spec typeName x) as [->|?];
        [destruct Ht; unfold Config.sparkplugScalarTypes; rewrite !elem_of_cons; tauto|]
  end.
  done.
Qed.

(** C22 The type of a tag is kept from the PLC to the wire.  A type the configuration
    accepts gives a destination of its Go type; whatever is read into it is
    encoded with the data type the NBIRTH announced, and decodes to the value
    read.  A tag of any other type never produces data.  But the metric of a bad
    reading, null as it is, announces the data type Float for every tag. *)
Theorem tag_types_agree (typeName : string) :
  (if bool_decide (typeName ∈ Config.sparkplugScalarTypes) then type_flows typeName
   else ∀ name tag now content, ∃ e, metric_of name tag now (deref (allocDest typeName).1 content) "good" = inr e) ∧
  (∀ name tag now, ∃ m, metric_of name tag now VNil "bad" = inl m ∧ IsNull m = Some true ∧ Datatype m = Some dtFloat) ∧
  ∀ now tag, Datatype (birth_metric now (mkTagDef tag typeName)) = Some (sparkplugTypeToDataType typeName).
Proof.
  split_and!; [|by intros; eexists|done]. case_bool_decide as Ht; [by apply scalar_type_flows|].
  intros name tag now content. rewrite other_type by done. by eexists.
Qed.

(** ** A concrete scan *)

Definition two_reads : list (Config.TagDef * time * (value + error)) :=
  [(Config.mkTagDef "Speed" "Int32" false false, 0, inl (VInt32 7));
   (Config.mkTagDef "Run" "Boolean" false false, 1, inr (Sentinel ErrPLCRead));
   (Config.mkTagDef "Speed" "Int32" false false, Second, inl (VInt32 8))].


Example backpressure_witness :
  let opts := mkWriterOptions 1 0 0 in
  let w := set_ch [speed 0 (VBool true)] (NewWriter (mkHist (Db empty_table []) false)) in
  let c := mkConsumers (B := unit) (Some w) None newTagHub [] in
  deliver opts false None [speed_update "plc1"] c = (Waits, c).
Proof.
  cbv zeta. eapply (backpressure (B := unit) (mkWriterOptions 1 0 0) (speed_update "plc1") [] false
    (Sentinel CtxCanceled)); [reflexivity|vm_compute; discriminate].
Defined.
