(* ===== verification/WebSocket.v ===== *)
(** * [internal/server/api.go]: the live stream of tags over a WebSocket

    [handleTagsWebSocket] as a step relation: the handler goroutine with its
    program counter, its writer goroutine, the tag hub they share with the PLC
    scan loops and with the other clients, and the events a step makes visible.
    The WebSocket library reads and writes frames; each read and write may fail. *)

From S2P Require Import Prelude GoString GoTime GoError Http Auth PlcManager ApiTags.

(** ** Frames *)

Record wsAuthFrame := mkAuthFrame { afType : string; afToken : string }.
Record tagWSClientMessage := mkClientMessage { cmType : string; cmPLC : string; cmTag : string }.

(** The messages of the server. *)
Inductive message :=
| MAuthOK
| MSubscribed (plc tag : string)
| MUnsubscribed
| MPing
| MPong
| MBadMessage
| MTagUpdate (u : TagUpdate).

(** ** Handler and writer *)

(** Where the handler is: reading the auth frame, answering it, before
    registering, writing an answer, at the head of its loop, reading, and its
    deferred calls: cancel, unregister, close. *)
Inductive pc :=
| PAuth | PAuthOK | PRegister
| PReply (m : message) | PLoop | PRead | PExit | PLeave
| PClose | PEnd.

(** The writer goroutine: not started, at its select, writing, returned. *)
Inductive ws_writer := WNone | WIdle | WSending (m : message) | WGone.

(** [w_ctx] is whether the context of the stream is done, [w_err] whether
    [writeErr] holds an error. *)
Record ws := mkWs { w_pc : pc; w_hub : tagHub; w_ctx : bool; w_writer : ws_writer; w_err : bool }.

Inductive event :=
| AuthRead (now : time) (f : wsAuthFrame)
| ClientRead (m : tagWSClientMessage)
| Queued (u : TagUpdate)
| Sent (m : message)
| Closed (code : Z).

Definition StatusNormalClosure : Z := 1000.
Definition auth_failed : Z := 4001.

(** What the handler does with a message of the client. *)
Definition on_message (m : tagWSClientMessage) : (tagSubscriber → tagSubscriber) * message :=
  if String.eqb (cmType m) "subscribe" then (setFilter (cmPLC m) (cmTag m), MSubscribed (cmPLC m) (cmTag m))
  else if String.eqb (cmType m) "unsubscribe" then (unsubscribe, MUnsubscribed)
  else if String.eqb (cmType m) "ping" then (id, MPong)
  else (id, MBadMessage).

Section ws.
Context {Jw : JWT}.
(** [authTokens], the subscriber, and the [plc] and [tag] of the request. *)
Context (auth : option TokenService) (i : nat) (plc0 tag0 : string).

Definition auth_accepts (ts : TokenService) (now : time) (f : wsAuthFrame) : bool :=
  String.eqb (afType f) "auth" && negb (String.eqb (afToken f) "") &&
  match Validate ts now (afToken f) with inl _ => true | inr _ => false end.

(** The connection was accepted. *)
Definition accepted (h : tagHub) : ws :=
  mkWs (match auth with Some _ => PAuth | None => PRegister end) h false WNone false.

Definition new_sub : tagSubscriber := mkSubscriber plc0 tag0 true [] false.

(** Whether a publish puts the update in the channel of the subscriber. *)
Definition takes (h : tagHub) (u : TagUpdate) : bool :=
  bool_decide (i ∈ clients h) &&
  match subs h !! i with
  | Some s => matches s u && (length (sbQueue s) <? chan_cap)%nat
  | None => false
  end.

Definition with_queue (q : list TagUpdate) (s : tagSubscriber) : tagSubscriber :=
  mkSubscriber (sbPLC s) (sbTag s) (sbActive s) q (sbClosed s).

Inductive ws_step : ws → list event → ws → Prop :=
(* the handler *)
| ws_auth ts now f h c :
    auth = Some ts → auth_accepts ts now f = true →
    ws_step (mkWs PAuth h c WNone false) [AuthRead now f] (mkWs PAuthOK h c WNone false)
| ws_auth_refused ts now f h c :
    auth = Some ts → auth_accepts ts now f = false →
    ws_step (mkWs PAuth h c WNone false) [AuthRead now f; Closed auth_failed] (mkWs PEnd h c WNone false)
| ws_auth_unread h c :
    (* a read error or the five seconds passed *)
    ws_step (mkWs PAuth h c WNone false) [Closed auth_failed] (mkWs PEnd h c WNone false)
| ws_auth_ok h c : ws_step (mkWs PAuthOK h c WNone false) [Sent MAuthOK] (mkWs PRegister h c WNone false)
| ws_auth_unsent h c :
    ws_step (mkWs PAuthOK h c WNone false) [Closed StatusNormalClosure] (mkWs PEnd h c WNone false)
| ws_register h c :
    subs h !! i = None →
    ws_step (mkWs PRegister h c WNone false) []
      (mkWs (PReply (MSubscribed plc0 tag0)) (register i (mkHub (<[i := new_sub]> (subs h)) (clients h))) c WIdle false)
| ws_reply m h c w e : ws_step (mkWs (PReply m) h c w e) [Sent m] (mkWs PLoop h c w e)
| ws_reply_failed m h c w e : ws_step (mkWs (PReply m) h c w e) [] (mkWs PExit h c w e)
| ws_stop h c w e : c || e = true → ws_step (mkWs PLoop h c w e) [] (mkWs PExit h c w e)
| ws_go_on h w : ws_step (mkWs PLoop h false w false) [] (mkWs PRead h false w false)
| ws_read m h c w e :
    ws_step (mkWs PRead h c w e) [ClientRead m]
      (mkWs (PReply (on_message m).2) (alter_sub (on_message m).1 i h) c w e)
| ws_read_failed h c w e : ws_step (mkWs PRead h c w e) [] (mkWs PExit h c w e)
| ws_cancel h c w e : ws_step (mkWs PExit h c w e) [] (mkWs PLeave h true w e)
| ws_unregister h h' c w e :
    unregister i h = Some h' → ws_step (mkWs PLeave h c w e) [] (mkWs PClose h' c w e)
| ws_close h c w e :
    ws_step (mkWs PClose h c w e) [Closed StatusNormalClosure] (mkWs PEnd h c w e)
(* the writer *)
| ws_take s u q p h c e :
    subs h !! i = Some s → sbQueue s = u :: q →
    ws_step (mkWs p h c WIdle e) []
      (mkWs p (mkHub (<[i := with_queue q s]> (subs h)) (clients h)) c (WSending (MTagUpdate u)) e)
| ws_tick p h c e : ws_step (mkWs p h c WIdle e) [] (mkWs p h c (WSending MPing) e)
| ws_write m p h c e : ws_step (mkWs p h c (WSending m) e) [Sent m] (mkWs p h c WIdle e)
| ws_write_failed m p h c e : ws_step (mkWs p h c (WSending m) e) [] (mkWs p h true WGone true)
| ws_writer_done p h c e s :
    subs h !! i = Some s → c = true ∨ (sbQueue s = [] ∧ sbClosed s = true) →
    ws_step (mkWs p h c WIdle e) [] (mkWs p h c WGone e)
(* the others *)
| ws_request_done p h c w e : ws_step (mkWs p h c w e) [] (mkWs p h true w e)
| ws_publish u p h h' c w e :
    publish u h = Some h' →
    ws_step (mkWs p h c w e) (if takes h u then [Queued u] else []) (mkWs p h' c w e)
| ws_others p h h' c w e :
    hub_step h h' → subs h' !! i = subs h !! i → (i ∈ clients h' ↔ i ∈ clients h) →
    ws_step (mkWs p h c w e) [] (mkWs p h' c w e).

(** Runs from an accepted connection, with their events. *)
Inductive ws_run (s0 : ws) : list event → ws → Prop :=
| run_here : ws_run s0 [] s0
| run_step tr s e s' : ws_run s0 tr s → ws_step s e s' → ws_run s0 (tr ++ e) s'.

(** ** Readings of a trace *)

Definition queued (tr : list event) : list TagUpdate :=
  omap (λ e, match e with Queued u => Some u | _ => None end) tr.

Definition streamed (tr : list event) : list TagUpdate :=
  omap (λ e, match e with Sent (MTagUpdate u) => Some u | _ => None end) tr.

(** What the client asked for last: the PLC and the tag, empty for any. *)
Definition filter_step (f : option (string * string)) (e : event) : option (string * string) :=
  match e with
  | ClientRead m =>
      if String.eqb (cmType m) "subscribe" then Some (cmPLC m, cmTag m)
      else if String.eqb (cmType m) "unsubscribe" then None else f
  | _ => f
  end.

Definition filter_of (tr : list event) : option (string * string) :=
  foldl filter_step (Some (plc0, tag0)) tr.

Definition wants (f : option (string * string)) (u : TagUpdate) : bool :=
  match f with
  | None => false
  | Some (plc, tag) =>
      (String.eqb plc "" || String.eqb plc (uPLCName u)) && (String.eqb tag "" || String.eqb tag (uTag u))
  end.

(** A trace that begins with the frame of a token that was valid when read. *)
Definition authenticated (tr : list event) : Prop :=
  ∀ ts, auth = Some ts → ∃ now f tr' c, tr = AuthRead now f :: tr' ∧ afType f = "auth" ∧
                                       Validate ts now (afToken f) = inl c.

(** ** The invariant *)

(** Between [register] and [unregister]. *)
Definition streaming (p : pc) : bool :=
  match p with PReply _ | PLoop | PRead | PExit | PLeave => true | _ => false end.

Definition sub_filter (s : tagSubscriber) : option (string * string) :=
  if sbActive s then Some (sbPLC s, sbTag s) else None.

(** The update in the hands of the writer. *)
Definition holding (w : ws_writer) : list TagUpdate :=
  match w with WSending (MTagUpdate u) => [u] | _ => [] end.

(** The subscriber and the trace agree: on the filter, and on the updates that
    are still on their way. *)
Definition sub_agrees (w : ws_writer) (tr : list event) (s : tagSubscriber) : Prop :=
  filter_of tr = sub_filter s ∧
  ∃ taken, queued tr = streamed tr ++ taken ++ sbQueue s ∧ (length taken ≤ 1)%nat ∧
           (w ≠ WGone → taken = holding w).

(** Every queued update was wanted when it was queued. *)
Definition all_wanted (tr : list event) : Prop :=
  ∀ tr1 u tr2, tr = tr1 ++ Queued u :: tr2 → wants (filter_of tr1) u = true.

Definition silent (tr : list event) : Prop := ∀ m, Sent m ∉ tr.

Definition closes (tr : list event) : list event :=
  List.filter (λ e, match e with Closed _ => true | _ => false end) tr.

Record ws_inv (tr : list event) (s : ws) : Prop := {
  inv_hub : hub_ok (w_hub s);
  inv_streaming : (streaming (w_pc s) = true ↔ i ∈ clients (w_hub s));
  inv_started : match w_pc s with
                | PAuth | PAuthOK | PRegister => w_writer s = WNone
                | PEnd => True
                | _ => w_writer s ≠ WNone
                end;
  inv_before : w_writer s = WNone → subs (w_hub s) !! i = None ∧ filter_of tr = Some (plc0, tag0) ∧
                                   queued tr = [] ∧ streamed tr = [];
  inv_after : w_writer s ≠ WNone → ∃ sub, subs (w_hub s) !! i = Some sub ∧ sub_agrees (w_writer s) tr sub;
  inv_wanted : all_wanted tr;
  inv_auth : (w_pc s = PAuth ∧ tr = []) ∨ authenticated tr ∨ (w_pc s = PEnd ∧ w_writer s = WNone ∧ silent tr);
  inv_reply : ∀ m, w_pc s = PReply m → streamed [Sent m] = [];
  inv_err : w_err s = true → w_writer s = WGone;
  inv_closes : length (closes tr) = match w_pc s with PEnd => 1 | _ => 0 end%nat;
}.

(** *** What the events of a step add to a trace *)

Lemma filter_of_app tr e : filter_of (tr ++ e) = foldl filter_step (filter_of tr) e.
Proof. apply foldl_app. Qed.

Lemma queued_app tr e : queued (tr ++ e) = queued tr ++ queued e.
Proof. apply omap_app. Qed.

Lemma streamed_app tr e : streamed (tr ++ e) = streamed tr ++ streamed e.
Proof. apply omap_app. Qed.

Lemma closes_app tr e : closes (tr ++ e) = closes tr ++ closes e.
Proof. apply List.filter_app. Qed.

Lemma authenticated_app tr e : authenticated tr → authenticated (tr ++ e).
Proof.
  intros H ts Hts. destruct (H ts Hts) as (now & f & tr' & c & -> & Hf & Hc).
  by exists now, f, (tr' ++ e), c.
Qed.

Lemma all_wanted_app tr e : queued e = [] → all_wanted tr → all_wanted (tr ++ e).
Proof.
  intros He H tr1 u tr2 E. apply app_eq_inv in E as [(k & Hk & E)|(k & Hk & E)].
  - destruct k as [|e0 k]; simplify_eq/=. by apply (H tr1 u k).
  - subst e. rewrite queued_app in He. destruct (app_eq_nil _ _ He) as [_ [=]].
Qed.

Lemma all_wanted_snoc tr u : wants (filter_of tr) u = true → all_wanted tr → all_wanted (tr ++ [Queued u]).
Proof.
  intros Hu H tr1 v tr2 E. destruct tr2 as [|e tr2] using rev_ind; [by apply app_inj_tail in E as [-> [= <-]]|].
  rewrite app_comm_cons, app_assoc in E. apply app_inj_tail in E as [-> _]. by apply (H tr1 v tr2).
Qed.

Lemma silent_app tr e : silent tr → silent e → silent (tr ++ e).
Proof. intros H1 H2 m [?|?]%elem_of_app; [by eapply H1|by eapply H2]. Qed.

Lemma matches_wants s u : matches s u = wants (sub_filter s) u.
Proof.
  unfold matches, wants, sub_filter. destruct (sbActive s); simpl; [|done].
  by destruct (String.eqb (sbPLC s) ""), (String.eqb (sbPLC s) (uPLCName u)), (String.eqb (sbTag s) ""),
    (String.eqb (sbTag s) (uTag u)).
Qed.

(** *** Steps keep the invariant *)

Lemma alter_sub_id j h : alter_sub id j h = h.
Proof. unfold alter_sub. destruct h as [ss cs]. simpl. by rewrite alter_id. Qed.

(** A step changes the hub as one of its clients does. *)
Lemma ws_step_hub s e s' :
  ws_step s e s' → (streaming (w_pc s) = true → i ∈ clients (w_hub s)) →
  w_hub s' = w_hub s ∨ hub_step (w_hub s) (w_hub s').
Proof.
  intros [] Hin; simpl in *; auto.
  - right. by apply hub_connect.
  - unfold on_message. repeat case_match; simpl; rewrite ?alter_sub_id; auto; right; constructor.
  - right. eapply hub_leave; eauto.
  - right. eapply hub_receive; eauto.
  - right. eapply hub_publish; eauto.
Qed.

Lemma auth_accepts_spec ts now f :
  auth_accepts ts now f = true → afType f = "auth" ∧ ∃ c, Validate ts now (afToken f) = inl c.
Proof.
  unfold auth_accepts. intros [[H1%String.eqb_eq _]%andb_true_iff H2]%andb_true_iff. split; [done|].
  destruct (Validate ts now (afToken f)); [eauto|done].
Qed.

Lemma silent_one e : (∀ m, e ≠ Sent m) → silent [e].
Proof. intros H m E%list_elem_of_singleton. by apply (H m). Qed.

Lemma takes_member h u : i ∉ clients h → takes h u = false.
Proof. intros H. unfold takes. by rewrite bool_decide_eq_false_2. Qed.

Lemma ws_step_auth s e s' tr : ws_inv tr s → ws_step s e s' →
  (w_pc s' = PAuth ∧ tr ++ e = []) ∨ authenticated (tr ++ e) ∨
  (w_pc s' = PEnd ∧ w_writer s' = WNone ∧ silent (tr ++ e)).
Proof.
  intros [_ Hst Hstart _ _ _ Hauth _ _ _] Hstep.
  assert (Hno : streaming (w_pc s) = false → ∀ u, takes (w_hub s) u = false).
  { intros Hs u. apply takes_member. rewrite <- Hst, Hs. done. }
  destruct Hauth as [[Hp ->]|[Ha|(Hp & Hw & Hs)]]; [|right; left; by apply authenticated_app|].
  - destruct Hstep; simplify_eq/=; try (left; by rewrite ?Hno).
    all: try (right; right; split_and!; [done..|]; intros m Hm; set_solver).
    right; left. apply auth_accepts_spec in H0 as [Hf [cl Hv]]. intros ts' Hts. simplify_eq.
    by exists now, f, [], cl.
  - destruct Hstep; simplify_eq/=; right; right; rewrite ?Hno, ?app_nil_r by done; done.
Qed.
Lemma agrees_quiet w tr e sub :
  filter_of (tr ++ e) = filter_of tr → queued e = [] → streamed e = [] →
  sub_agrees w tr sub → sub_agrees w (tr ++ e) sub.
Proof.
  intros Hf Hq Hs [H1 (l & H2 & H3)]. split; [by rewrite Hf|].
  exists l. by rewrite queued_app, streamed_app, Hq, Hs, !app_nil_r.
Qed.

Lemma agrees_gone w tr sub : sub_agrees w tr sub → sub_agrees WGone tr sub.
Proof. intros [H1 (l & H2 & H3 & _)]. split; [done|]. by exists l. Qed.

Lemma agrees_write m tr sub : sub_agrees (WSending m) tr sub → sub_agrees WIdle (tr ++ [Sent m]) sub.
Proof.
  intros [H1 (l & H2 & _ & H3)]. split; [by rewrite filter_of_app|].
  specialize (H3 ltac:(done)). subst l. exists []. rewrite queued_app, streamed_app, H2.
  split; [|by split; [simpl; lia|]]. destruct m; simpl; by rewrite ?app_nil_r, <- ?app_assoc.
Qed.

Lemma agrees_take u q tr sub : sbQueue sub = u :: q → sub_agrees WIdle tr sub →
  sub_agrees (WSending (MTagUpdate u)) tr (with_queue q sub).
Proof.
  intros Hq [H1 (l & H2 & _ & H3)]. split; [done|]. exists [u]. rewrite (H3 ltac:(done)), Hq in H2. done.
Qed.

Lemma agrees_read w m tr sub : sub_agrees w tr sub → sub_agrees w (tr ++ [ClientRead m]) ((on_message m).1 sub).
Proof.
  intros [H1 (l & H2 & H3)]. split.
  - rewrite filter_of_app, H1. simpl. unfold on_message. by repeat case_match.
  - exists l. rewrite queued_app, streamed_app, !app_nil_r. split; [|done].
    rewrite H2. unfold on_message. by repeat case_match.
Qed.

Lemma agrees_publish w u h tr sub :
  subs h !! i = Some sub → (i ∈ clients h → sbClosed sub = false) → sub_agrees w tr sub →
  sub_agrees w (tr ++ if takes h u then [Queued u] else []) (if decide (i ∈ clients h) then (offer u sub).1 else sub).
Proof.
  intros Hs Hc Hag. pose proof Hag as [H1 (l & H2 & H3)]. unfold takes. rewrite Hs.
  destruct (decide (i ∈ clients h)) as [Hin|Hn].
  2: { by rewrite bool_decide_eq_false_2, app_nil_r by done. }
  rewrite bool_decide_eq_true_2 by done. unfold offer. rewrite (Hc Hin).
  destruct (matches sub u); simpl; [|by rewrite app_nil_r].
  destruct (length (sbQueue sub) <? chan_cap)%nat; [|by rewrite app_nil_r].
  split; [by rewrite filter_of_app|]. exists l. rewrite queued_app, streamed_app, H2, app_nil_r.
  simpl. by rewrite <- !app_assoc.
Qed.

Lemma unregister_inv j h h' : unregister j h = Some h' →
  ∃ s, subs h !! j = Some s ∧ subs h' !! j = Some (mkSubscriber (sbPLC s) (sbTag s) (sbActive s) (sbQueue s) true) ∧
       clients h' = clients h ∖ {[j]}.
Proof.
  intros (s & Hs & E)%bind_Some. exists s. destruct (sbClosed s); [done|]. injection E as <-. simpl.
  by rewrite lookup_insert_eq.
Qed.

Lemma ws_step_streaming s e s' : ws_step s e s' →
  (streaming (w_pc s) = true ↔ i ∈ clients (w_hub s)) → (streaming (w_pc s') = true ↔ i ∈ clients (w_hub s')).
Proof.
  intros [] Hst; simplify_eq/=; try done.
  - split; [|done]. intros _. apply elem_of_union_l. by apply elem_of_singleton.
  - destruct (unregister_inv _ _ _ H) as (? & _ & _ & ->). split; [done|].
    by intros [_ []%not_elem_of_singleton]%elem_of_difference.
  - by rewrite (proj1 (publish_lookup _ _ _ i H)).
  - by rewrite H1.
Qed.

Lemma inv_silent tr s : ws_inv tr s → w_writer s = WNone → ∀ u, takes (w_hub s) u = false.
Proof.
  intros H Hw u. apply takes_member. rewrite <- (inv_streaming _ _ H). pose proof (inv_started _ _ H) as Hs.
  by destruct (w_pc s).
Qed.

Lemma ws_step_before tr s e s' : ws_inv tr s → ws_step s e s' → w_writer s' = WNone →
  subs (w_hub s') !! i = None ∧ filter_of (tr ++ e) = Some (plc0, tag0) ∧
  queued (tr ++ e) = [] ∧ streamed (tr ++ e) = [].
Proof.
  intros Hinv Hstep Hw. pose proof (inv_silent tr s Hinv) as Hno.
  pose proof (inv_before _ _ Hinv) as Hb. pose proof (inv_started _ _ Hinv) as Hs. clear Hinv.
  rewrite filter_of_app, queued_app, streamed_app.
  destruct Hstep; simplify_eq/=; try done; destruct (Hb eq_refl) as (Hnone & -> & -> & ->); try done.
  - rewrite Hno by done. by rewrite (proj2 (publish_lookup _ _ _ i H)), Hnone.
  - by rewrite H0.
Qed.

Lemma ws_step_after tr s e s' : ws_inv tr s → ws_step s e s' → w_writer s' ≠ WNone →
  ∃ sub, subs (w_hub s') !! i = Some sub ∧ sub_agrees (w_writer s') (tr ++ e) sub.
Proof.
  intros [Hhub _ Hstart Hb Ha _ _ Hrep _ _] Hstep Hw.
  destruct Hstep; simplify_eq/=; try done.
  all: try (destruct Ha as (sub & Hsub & Hag); [done|]).
  all: rewrite ?app_nil_r; try (by exists sub).
  - exists new_sub. rewrite lookup_insert_eq. split; [done|]. destruct Hb as (_ & Hf & Hq & Hs); [done|].
    split; [done|]. exists []. rewrite Hq, Hs. simpl. split_and!; [done|lia|done].
  - exists sub. split; [done|]. apply agrees_quiet; try done; [by rewrite filter_of_app|by apply Hrep].
  - exists ((on_message m).1 sub). rewrite lookup_alter_eq, Hsub. split; [done|]. by apply agrees_read.
  - destruct (unregister_inv _ _ _ H) as (sub' & Hs & -> & _). simplify_eq. eexists. split; [done|].
    destruct Hag as [H1 H2]. by split.
  - exists sub. split; [done|]. apply agrees_quiet; try done. by rewrite filter_of_app.
  - simplify_eq. eexists. rewrite lookup_insert_eq. split; [done|]. by apply agrees_take.
  - exists sub. split; [done|]. destruct Hag as [H1 (l & H2 & H3 & H4)]. split; [done|]. exists l.
    split_and!; [done..|]. intros _. by apply H4.
  - exists sub. split; [done|]. by apply agrees_write.
  - exists sub. split; [done|]. by eapply agrees_gone.
  - exists sub. split; [done|]. by eapply agrees_gone.
  - rewrite (proj2 (publish_lookup _ _ _ i H)), Hsub. eexists. split; [done|].
    apply agrees_publish; [done| |done]. intros Hin. destruct (Hhub i) as [H1 _].
    destruct (H1 Hin) as (? & ? & ?). by simplify_eq.
  - exists sub. by rewrite H0.
Qed.

Lemma ws_step_wanted tr s e s' : ws_inv tr s → ws_step s e s' → all_wanted (tr ++ e).
Proof.
  intros Hinv Hstep. pose proof (inv_wanted _ _ Hinv) as Hw.
  assert (w_writer s = WNone ∨ w_writer s ≠ WNone) as [E|E] by (destruct (w_writer s); auto).
  - pose proof (inv_silent _ _ Hinv E) as Hno. clear Hinv.
    destruct Hstep; simplify_eq/=; apply all_wanted_app; try done. by rewrite Hno.
  - destruct (inv_after _ _ Hinv E) as (sub & Hs & Hf & _). clear Hinv.
    destruct Hstep; simplify_eq/=; try (by apply all_wanted_app).
    unfold takes. rewrite Hs. destruct (bool_decide _); [|by rewrite app_nil_r]. simpl.
    destruct (matches sub u) eqn:Em; [|by rewrite app_nil_r]. simpl.
    case_match; [|by rewrite app_nil_r]. apply all_wanted_snoc; [|done]. by rewrite Hf, <- matches_wants.
Qed.

Lemma ws_step_inv tr s e s' : ws_inv tr s → ws_step s e s' → ws_inv (tr ++ e) s'.
Proof.
  intros Hinv Hstep. constructor.
  - destruct (ws_step_hub s e s' Hstep (proj1 (inv_streaming _ _ Hinv))) as [->|Hh]; [apply Hinv|].
    apply (hub_step_ok _ _ Hh), Hinv.
  - apply (ws_step_streaming _ _ _ Hstep), Hinv.
  - pose proof (inv_started _ _ Hinv) as H. clear Hinv. destruct Hstep; simplify_eq/=; try done; by destruct p.
  - by apply (ws_step_before tr s).
  - by apply (ws_step_after tr s).
  - by apply (ws_step_wanted tr s e s').
  - by apply (ws_step_auth s).
  - pose proof (inv_reply _ _ Hinv) as H. clear Hinv. destruct Hstep; simplify_eq/=; try done.
    + by intros m [= <-].
    + intros m' [= <-]. unfold on_message. by repeat case_match.
  - pose proof (inv_err _ _ Hinv) as H. clear Hinv. destruct Hstep; simplify_eq/=; try done; intros E; by apply H in E.
  - rewrite closes_app, length_app, (inv_closes _ _ Hinv). clear Hinv.
    destruct Hstep; simplify_eq/=; try done; try lia. destruct (takes h u); simpl; lia.
Qed.
Definition fresh (h : tagHub) : Prop := hub_ok h ∧ subs h !! i = None.

Lemma ws_inv_accepted h : fresh h → ws_inv [] (accepted h).
Proof.
  intros [Hok Hn]. assert (Hi : i ∉ clients h).
  { intros Hi. destruct (proj1 (Hok i) Hi) as (? & ? & _). congruence. }
  unfold accepted. constructor; simpl; try (by destruct auth); try done.
  - intros tr1 u tr2 E. by destruct tr1.
  - destruct auth as [ts|] eqn:E; [by left|]. right; left. intros ts. by rewrite E.
Qed.

Lemma ws_run_inv h tr s : fresh h → ws_run (accepted h) tr s → ws_inv tr s.
Proof. intros Hf. induction 1; [by apply ws_inv_accepted|]. by eapply ws_step_inv. Qed.

Lemma ws_run_app s0 tr1 s1 tr2 s2 : ws_run s0 tr1 s1 → ws_run s1 tr2 s2 → ws_run s0 (tr1 ++ tr2) s2.
Proof.
  intros H1. induction 1 as [|tr s e s' _ IH Hs]; [by rewrite app_nil_r|]. rewrite app_assoc. by apply (run_step s0 _ s).
Qed.

(** ** Theorems *)

(** C18 With authentication on, nothing is sent to a client that has not first sent
    the frame of a token that was valid when it was read. *)
Theorem stream_authenticated (ts : TokenService) (h : tagHub) (tr : list event) (s : ws) (m : message) :
  auth = Some ts → fresh h → ws_run (accepted h) tr s → Sent m ∈ tr →
  ∃ now f tr' c, tr = AuthRead now f :: tr' ∧ afType f = "auth" ∧ Validate ts now (afToken f) = inl c.
Proof.
  intros Hts Hf Hr Hm. destruct (inv_auth _ _ (ws_run_inv h tr s Hf Hr)) as [[_ ->]|[H|(_ & _ & H)]].
  - by apply not_elem_of_nil in Hm.
  - by apply H.
  - by destruct (H m).
Qed.

Lemma on_the_way tr s : ws_inv tr s → w_writer s ≠ WNone →
  ∃ sub taken, subs (w_hub s) !! i = Some sub ∧ filter_of tr = sub_filter sub ∧
  queued tr = streamed tr ++ taken ++ sbQueue sub ∧ (length taken ≤ 1)%nat ∧ (length (sbQueue sub) ≤ chan_cap)%nat.
Proof.
  intros H Hw. destruct (inv_after _ _ H Hw) as (sub & Hs & Hf & l & Hq & Hl & _).
  exists sub, l. split_and!; try done. by apply (proj2 (inv_hub _ _ H i)).
Qed.

Lemma streamed_prefix tr s : ws_inv tr s →
  ∃ rest, queued tr = streamed tr ++ rest ∧ (length rest ≤ 17)%nat.
Proof.
  intros H. assert (w_writer s = WNone ∨ w_writer s ≠ WNone) as [Hw|Hw] by (destruct (w_writer s); auto).
  - destruct (inv_before _ _ H Hw) as (_ & _ & -> & ->). exists []. simpl. split; [done|lia].
  - destruct (on_the_way tr s H Hw) as (sub & l & _ & _ & Hq & Hl & Hc). exists (l ++ sbQueue sub).
    split; [done|]. rewrite length_app. unfold chan_cap in Hc. lia.
Qed.

(** C19 The client is sent the updates that entered its channel, each once and in the
    order they were published; only updates that its filter asked for when they
    were published enter it, and every such update does while fewer than 16 are
    on their way.  At most 17 ever are. *)
Theorem stream_faithful (h : tagHub) (tr : list event) (s : ws) :
  fresh h → ws_run (accepted h) tr s →
  (∃ rest, queued tr = streamed tr ++ rest ∧ (length rest ≤ 17)%nat) ∧
  (∀ tr1 u tr2, tr = tr1 ++ Queued u :: tr2 → wants (filter_of tr1) u = true) ∧
  (streaming (w_pc s) = true → (length (queued tr) < length (streamed tr) + 16)%nat →
   ∀ u, wants (filter_of tr) u = true →
   ∃ h', publish u (w_hub s) = Some h' ∧
         ws_step s [Queued u] (mkWs (w_pc s) h' (w_ctx s) (w_writer s) (w_err s))).
Proof.
  intros Hf Hr. pose proof (ws_run_inv h tr s Hf Hr) as Hinv. split_and!.
  - by apply (streamed_prefix tr s).
  - apply Hinv.
  - intros Hs Hroom u Hu. assert (Hw : w_writer s ≠ WNone).
    { pose proof (inv_started _ _ Hinv). by destruct (w_pc s). }
    destruct (on_the_way tr s Hinv Hw) as (sub & l & Hsub & Hfl & Hq & _ & _).
    destruct (publish_ok u (w_hub s) (inv_hub _ _ Hinv)) as (h' & Hp & _). exists h'. split; [done|].
    pose proof (ws_publish u (w_pc s) (w_hub s) h' (w_ctx s) (w_writer s) (w_err s) Hp) as Hstep.
    assert (Ht : takes (w_hub s) u = true).
    { unfold takes. rewrite bool_decide_eq_true_2 by (by apply Hinv). rewrite Hsub, matches_wants, <- Hfl, Hu. simpl.
      apply Nat.ltb_lt. rewrite Hq, !length_app in Hroom. unfold chan_cap. lia. }
    rewrite Ht in Hstep. by destruct s.
Qed.

Lemma filter_none tr : (∀ m, ClientRead m ∈ tr → cmType m ≠ "subscribe") → foldl filter_step None tr = None.
Proof.
  induction tr as [|e tr IH]; intros H; [done|]. simpl. replace (filter_step None e) with (@None (string * string)).
  - apply IH. intros m Hm. apply H. by right.
  - destruct e as [|m| | |]; try done. simpl. rewrite (proj2 (String.eqb_neq _ _) (H m ltac:(left))).
    by destruct (String.eqb _ _).
Qed.

Lemma nothing_queued f tr : (∀ tr1 u tr2, tr = tr1 ++ Queued u :: tr2 → wants (foldl filter_step f tr1) u = true) →
  f = None → (∀ m, ClientRead m ∈ tr → cmType m ≠ "subscribe") → queued tr = [].
Proof.
  intros Hw -> Hs. destruct (queued tr) as [|u us] eqn:E; [done|]. exfalso.
  assert (Hu : u ∈ queued tr) by (rewrite E; left).
  apply list_elem_of_omap in Hu as (e & He & Hu). destruct e; simplify_eq.
  apply list_elem_of_split in He as (tr1 & tr2 & ->). specialize (Hw tr1 u tr2 eq_refl).
  rewrite filter_none in Hw; [done|]. intros m Hm. apply Hs. set_solver.
Qed.


(** Whatever happens, a publish never panics, the handler can always go on until
    it has returned, and then its subscriber is registered no more and the
    connection was closed, once. *)
Theorem stream_ends (h : tagHub) (tr : list event) (s : ws) :
  fresh h → ws_run (accepted h) tr s →
  (∀ u, ∃ h', publish u (w_hub s) = Some h') ∧
  (w_pc s = PEnd → i ∉ clients (w_hub s) ∧ length (closes tr) = 1%nat) ∧
  (w_pc s ≠ PEnd → ∃ e s', ws_step s e s' ∧ w_pc s' ≠ w_pc s).
Proof.
  intros Hf Hr. pose proof (ws_run_inv h tr s Hf Hr) as Hinv.
  assert (Hreg : w_pc s = PRegister → subs (w_hub s) !! i = None).
  { intros Hp. pose proof (inv_started _ _ Hinv) as Hw. rewrite Hp in Hw. by apply (inv_before _ _ Hinv). }
  split_and!.
  - intros u. destruct (publish_ok u (w_hub s) (inv_hub _ _ Hinv)) as (h' & ? & _). by exists h'.
  - intros Hp. rewrite <- (inv_streaming _ _ Hinv), (inv_closes _ _ Hinv), Hp. done.
  - pose proof (inv_started _ _ Hinv) as Hw. pose proof (inv_err _ _ Hinv) as He.
    pose proof (inv_streaming _ _ Hinv) as Hs. pose proof (inv_hub _ _ Hinv) as Hok. clear Hinv Hr Hf.
    destruct s as [p h0 c w e]. simpl in *. destruct p; intros Hp; try done.
    all: try (subst w; destruct e; [by specialize (He eq_refl)|]).
    + eexists _, _. split; [apply ws_auth_unread|done].
    + eexists _, _. split; [apply ws_auth_ok|done].
    + eexists _, _. split; [apply ws_register; auto|done].
    + eexists _, _. split; [apply ws_reply|done].
    + destruct (c || e) eqn:E; [eexists _, _; split; [by apply ws_stop|done]|].
      apply orb_false_iff in E as [-> ->]. eexists _, _. split; [apply ws_go_on|done].
    + eexists _, _. split; [apply ws_read_failed|done].
    + eexists _, _. split; [apply ws_cancel|done].
    + destruct (proj1 (Hok i) (proj1 Hs eq_refl)) as (sub & Hsub & Hc).
      eexists _, _. split; [apply ws_unregister; unfold unregister; rewrite Hsub; simpl; by rewrite Hc|done].
    + eexists _, _. split; [apply ws_close|done].
Qed.

Definition reads (tr : list event) : nat :=
  length (omap (λ e, match e with ClientRead m => Some m | _ => None end) tr).

(** Once the context of the stream is done, because the request ended or a write
    failed, the handler takes at most the one message it is reading. *)
Theorem done_stream_reads (s : ws) (tr : list event) (s' : ws) :
  w_ctx s = true → ws_run s tr s' →
  (reads tr ≤ 1)%nat ∧ (reads tr = 1%nat → w_pc s' ≠ PRead).
Proof.
  intros Hc Hr.
  assert (w_ctx s' = true ∧ (reads tr + match w_pc s' with PRead => 1 | _ => 0 end ≤ 1)%nat) as [_ H].
  2: { destruct (w_pc s'); split; try done; lia. }
  induction Hr as [|tr s' e s'' _ [IH1 IH2] Hstep].
  - split; [done|]. destruct (w_pc s); simpl; lia.
  - unfold reads in *. rewrite omap_app, length_app.
    destruct Hstep; simplify_eq/=; (split; [done|]); try (destruct (takes _ _); simpl); try lia.
Qed.

End ws.

(** ** A concrete stream *)

Lemma run_cons {Jw : JWT} auth i plc0 tag0 s e s' tr s'' t :
  ws_step auth i plc0 tag0 s e s' → ws_run auth i plc0 tag0 s' tr s'' → t = e ++ tr →
  ws_run auth i plc0 tag0 s t s''.
Proof.
  intros Hs Hr ->. apply (ws_run_app _ _ _ _ s e s'); [|done]. apply (run_step _ _ _ _ s [] s); [constructor|done].
Qed.

Definition sample_frame : wsAuthFrame :=
  mkAuthFrame "auth" (match Issue sample_tokens (5 * Second) 7 "ana" "viewer" with inl tok => tok | inr _ => "" end).

(** The client authenticates, gets an update, and unsubscribes. *)
Definition sample_trace : list event :=
  [AuthRead (1800 * Second) sample_frame; Sent MAuthOK; Sent (MSubscribed "" ""); Queued (speed_update "plc1");
   Sent (MTagUpdate (speed_update "plc1")); ClientRead (mkClientMessage "unsubscribe" "" ""); Sent MUnsubscribed].

Lemma fresh_newTagHub i : fresh i newTagHub.
Proof. split; [|done]. intros j. split; [set_solver|done]. Qed.

Lemma sample_run : ∃ s, ws_run (Some sample_tokens) 0 "" "" (accepted (Some sample_tokens) newTagHub) sample_trace s ∧
  w_pc s = PLoop ∧ w_ctx s = false ∧ w_err s = false.
Proof.
  eexists. split.
  - eapply run_cons; [eapply (ws_auth _ _ _ _ _ (1800 * Second) sample_frame); [reflexivity|vm_compute; reflexivity]| |reflexivity].
    eapply run_cons; [apply ws_auth_ok| |reflexivity].
    eapply run_cons; [apply ws_register; reflexivity| |reflexivity].
    eapply run_cons; [apply ws_reply| |reflexivity].
    eapply run_cons; [eapply (ws_publish _ _ _ _ (speed_update "plc1")); vm_compute; reflexivity| |vm_compute; reflexivity].
    eapply run_cons; [eapply ws_take; vm_compute; reflexivity| |reflexivity].
    eapply run_cons; [apply ws_write| |reflexivity].
    eapply run_cons; [apply ws_go_on| |reflexivity].
    eapply run_cons; [apply ws_read| |reflexivity].
    eapply run_cons; [apply ws_reply| |reflexivity].
    constructor.
  - split_and!; reflexivity.
Qed.

Definition ping_message : tagWSClientMessage := mkClientMessage "ping" "" "".

Lemma ping_run auth i plc0 tag0 p h c w : p = PLoop ∧ c = false ∨ p = PRead →
  ws_run auth i plc0 tag0 (mkWs p h c w false) [ClientRead ping_message; Sent MPong] (mkWs PLoop h c w false).
Proof.
  assert (Hr : ws_run auth i plc0 tag0 (mkWs PRead h c w false) [ClientRead ping_message; Sent MPong]
                 (mkWs PLoop h c w false)).
  { eapply run_cons; [apply ws_read| |reflexivity]. rewrite alter_sub_id.
    eapply run_cons; [apply ws_reply|constructor|reflexivity]. }
  intros [[-> ->]| ->]; [|done]. eapply run_cons; [apply ws_go_on|exact Hr|done].
Qed.

Example stream_authenticated_witness :
  ∃ s, ws_run (Some sample_tokens) 0 "" "" (accepted (Some sample_tokens) newTagHub) sample_trace s ∧
  ∃ now f tr' c, sample_trace = AuthRead now f :: tr' ∧ afType f = "auth" ∧ Validate sample_tokens now (afToken f) = inl c.
Proof.
  destruct sample_run as (s & Hr & _). exists s. split; [exact Hr|].
  apply (stream_authenticated (Some sample_tokens) 0 "" "" sample_tokens newTagHub sample_trace s MAuthOK
    eq_refl (fresh_newTagHub 0) Hr).
  right. left.
Defined.

Example stream_faithful_witness :
  ∃ s, ws_run (Some sample_tokens) 0 "" "" (accepted (Some sample_tokens) newTagHub) sample_trace s ∧
  ∃ rest, [speed_update "plc1"] = [speed_update "plc1"] ++ rest ∧ (length rest ≤ 17)%nat.
Proof.
  destruct sample_run as (s & Hr & _). exists s. split; [exact Hr|].
  exact (proj1 (stream_faithful (Some sample_tokens) 0 "" "" newTagHub sample_trace s (fresh_newTagHub 0) Hr)).
Defined.


Example stream_ends_witness :
  ∃ s, ws_run (Some sample_tokens) 0 "" "" (accepted (Some sample_tokens) newTagHub) sample_trace s ∧
  (∀ u, ∃ h', publish u (w_hub s) = Some h') ∧
  (w_pc s ≠ PEnd → ∃ e s', ws_step (Some sample_tokens) 0 "" "" s e s' ∧ w_pc s' ≠ w_pc s).
Proof.
  destruct sample_run as (s & Hr & _). exists s. split; [exact Hr|].
  destruct (stream_ends (Some sample_tokens) 0 "" "" newTagHub sample_trace s (fresh_newTagHub 0) Hr) as (H1 & _ & H3).
  split; [exact H1|exact H3].
Defined.

Example done_stream_reads_witness :
  let s := mkWs PRead newTagHub true WIdle false in
  w_ctx s = true ∧ (reads [ClientRead ping_message; Sent MPong] ≤ 1)%nat.
Proof.
  split; [reflexivity|].
  exact (proj1 (done_stream_reads None 0 "" "" (mkWs PRead newTagHub true WIdle false) _ _ eq_refl
    (ping_run None 0 "" "" PRead newTagHub true WIdle (or_intror eq_refl)))).
Defined.
