(* ===== verification/Cli.v ===== *)
(** * [cmd/lgb]: the command line

    What a process of [lgb] does: [persistentPreRun] loads the configuration and
    builds the logger before every subcommand, the subcommand runs, and [main]
    turns its error into the exit code.  [lgb config validate], [lgb version],
    [lgb status] and [lgb server] are modelled with what they print; [doctor] and
    [backup] are in their own files. *)

From S2P Require Import Prelude GoString GoTime GoError Sql Config ConfigLoad Logging PlcStore UserStore Startup.

(** ** Output *)

(** A value given to the JSON encoder. *)
Inductive json := JText (t : text) | JBool (b : bool) | JInt (z : Z) | JList (js : list json) | JObj (kvs : list (string * json)).

Inductive output := Stdout (t : text) | StdoutJSON (j : json) | Stderr (t : text).

(** ** [persistentPreRun] *)

(** The flags of the root command. *)
Record root_flags := mkRootFlags { rf_config : string; rf_json : bool; rf_overrides : flags }.

Section cli.
Context {Ko : Koanf} (env : list (string * string)) (rf : root_flags).

(** The configuration and the logger of [Deps]. *)
Definition persistentPreRun : result (Config * slog_handler) :=
  match Load env (rf_config rf) with
  | inr err => inr err
  | inl cfg =>
      let cfg := apply_flags (rf_overrides rf) cfg in
      match Logging.New (Logging.mkOptions (gLogLevel (Gateway cfg)) (gLogFormat (Gateway cfg))) with
      | inr err => inr err
      | inl logger => inl (cfg, logger)
      end
  end.

(** ** [lgb config validate] *)

(** [extractViolations]: the errors of a joined error, also when [fmt.Errorf]
    joined them by wrapping several. *)
Definition wrapped (args : list (fmt_arg error)) : list error :=
  omap (λ a, match a with FWrap e => Some e | _ => None end) args.

Definition extractViolations (err : option error) : list text :=
  match err with
  | None => []
  | Some (Join es) => ErrText <$> es
  | Some (Errorf format args) =>
      match wrapped args with
      | e1 :: e2 :: es => ErrText <$> e1 :: e2 :: es
      | _ => [ErrText (Errorf format args)]
      end
  | Some e => [ErrText e]
  end.

Definition validate_output (valid : bool) (errors : list text) : json :=
  JObj (("valid", JBool valid) :: match errors with [] => [] | _ => [("errors", JList (JText <$> errors))] end).

(** [stat] as for [Validate]; [write_err] is what writing the answer to stdout
    returns, which only the last branch looks at. *)
Definition runConfigValidateTo (stat : string → bool + foreign) (write_err : option foreign)
    : list output * option error :=
  match Load env (rf_config rf) with
  | inr err =>
      ((if rf_json rf then [StdoutJSON (validate_output false [ErrText err])]
        else [Stderr (Fmt "config error: %v" [FErr err])]), Some err)
  | inl cfg =>
      match Validate stat cfg with
      | Some err =>
          let violations := extractViolations (Some err) in
          ((if rf_json rf then [StdoutJSON (validate_output false violations)] else Stderr <$> violations), Some err)
      | None =>
          if rf_json rf then ([StdoutJSON (validate_output true [])], EForeign <$> write_err)
          else ([Stdout (Lit "config OK")], None)
      end
  end.

(** ** [lgb version] and [lgb status] *)

(** [version.Info()]: the variables the linker sets. *)
Record BuildInfo := mkBuildInfo { biVersion : string; biCommit : string; biDate : string }.

Definition Info : BuildInfo := mkBuildInfo "dev" "none" "unknown".

Definition runVersionToWriter (info : BuildInfo) (write_err : option foreign) : list output * option error :=
  if rf_json rf
  then ([StdoutJSON (JObj [("version", JText (Lit (biVersion info))); ("commit", JText (Lit (biCommit info)));
                           ("date", JText (Lit (biDate info)))])], EForeign <$> write_err)
  else ([Stdout (Fmt "lgb %s (commit: %s, built: %s)" [FStr (biVersion info); FStr (biCommit info); FStr (biDate info)])],
        None).

Definition runStatusToWriter (write_err : option foreign) : list output * option error :=
  ([StdoutJSON (JObj [("status", JText (Lit "ok")); ("phase", JText (Lit "0")); ("uptime_seconds", JInt 0)])],
   EForeign <$> write_err).

(** ** [main] *)

(** [main] with the [RunE] of the subcommand, over the state [S] it changes. *)
Definition main {S : Type} (runE : Config → slog_handler → State S (list output * option error))
    : State S (list output * Z) :=
  r ← match persistentPreRun with
      | inr err => mret ([], Some err)
      | inl (cfg, logger) => runE cfg logger
      end;
  let '(out, err) := r in
  mret (match err with
        | None => (out, 0)
        | Some e => (out ++ [Stderr (Fmt "error: %v" [FErr e])], ExitCode (Some e))
        end).

(** A subcommand that keeps no state. *)
Definition pure_main (run : list output * option error) : list output * Z :=
  (main (S := unit) (λ _ _, mret run) tt).1.

Definition validate_main (stat : string → bool + foreign) (write_err : option foreign) : list output * Z :=
  pure_main (runConfigValidateTo stat write_err).

Definition version_main (info : BuildInfo) (write_err : option foreign) : list output * Z :=
  pure_main (runVersionToWriter info write_err).

Definition status_main (write_err : option foreign) : list output * Z :=
  pure_main (runStatusToWriter write_err).

(** What [runServerTo] prints before it starts. *)
Definition server_prints (cfg : Config) : list output :=
  if String.eqb (aJwtSecret (Auth cfg)) ""
  then [Stderr (Lit "error: auth.jwtSecret is required — set via config or LGB_AUTH_JWTSECRET env")]
  else [Stdout (Fmt "lgb server starting on %s" [FStr (sHTTPAddr (Server cfg))])].

(** [lgb server] outside tests: the logger is the one of [persistentPreRun], and
    nothing is injected. *)
Definition process_world (w : world) : world :=
  mkWorld (wd_resolve w) (wd_ensure w) None (wd_open w) (wd_run w) (wd_now w) (wd_salt w) (wd_admin w)
    (wd_admin_password w) false (rf_config rf).

Definition server_main {En : Engine} {Bc : Bcrypt} (w : world) : State boot (list output * Z) :=
  main (λ cfg _, err ← runServerTo (process_world w) (Some cfg); mret (server_prints cfg, err)).

(** ** Theorems *)

Lemma ExitCode_nonzero (err : error) : ExitCode (Some err) ≠ 0.
Proof. simpl. by repeat case_match. Qed.
#[local] Arguments ExitCode _ : simpl never.

Lemma pure_main_run (run : list output * option error) :
  pure_main run =
  match persistentPreRun with
  | inr e => ([Stderr (Fmt "error: %v" [FErr e])], ExitCode (Some e))
  | inl _ =>
      match run with
      | (out, None) => (out, 0)
      | (out, Some e) => (out ++ [Stderr (Fmt "error: %v" [FErr e])], ExitCode (Some e))
      end
  end.
Proof.
  unfold pure_main, main. rewrite bind_run.
  destruct persistentPreRun as [[cfg logger]|e]; simpl; [|done]. by destruct run as [out [e|]].
Qed.

(** What is loaded before every subcommand. *)
Lemma persistentPreRun_inl (cfg : Config) (logger : slog_handler) :
  persistentPreRun = inl (cfg, logger) ↔
  ∃ c, Load env (rf_config rf) = inl c ∧ cfg = apply_flags (rf_overrides rf) c ∧
       Logging.New (Logging.mkOptions (gLogLevel (Gateway cfg)) (gLogFormat (Gateway cfg))) = inl logger.
Proof.
  unfold persistentPreRun. destruct (Load env (rf_config rf)) as [c|e].
  - split.
    + destruct (Logging.New _) as [h|e] eqn:E; [|done]. intros [= <- <-]. by exists c.
    + intros (c' & [= <-] & -> & ->). done.
  - split; [done|]. by intros (c & ? & _).
Qed.

(** C28 [lgb config validate] exits with 0 exactly when the file can be loaded, a
    logger can be built from it and [Validate] finds nothing (and the answer can
    be written).  An invalid file is answered with one line, or one JSON string,
    per violation, in the order of the checks.  But a file that cannot be loaded,
    or whose log level or format is unknown, is never answered in JSON: it stops
    the process before the subcommand. *)
Theorem validate_main_correct (stat : string → bool + foreign) (write_err : option foreign) :
  let '(out, code) := validate_main stat write_err in
  (code = 0 ↔ ∃ c h, Load env (rf_config rf) = inl c ∧ persistentPreRun = inl (apply_flags (rf_overrides rf) c, h) ∧
                     valid_config stat c ∧ (rf_json rf = true → write_err = None)) ∧
  (∀ e, persistentPreRun = inr e → out = [Stderr (Fmt "error: %v" [FErr e])]) ∧
  (∀ c r, Load env (rf_config rf) = inl c → persistentPreRun = inl r → ¬ valid_config stat c →
     let es := ErrText <$> violations stat c in
     es ≠ [] ∧
     out = (if rf_json rf then [StdoutJSON (JObj [("valid", JBool false); ("errors", JList (JText <$> es))])]
            else Stderr <$> es) ++ [Stderr (Fmt "error: %v" [FErr (Join (violations stat c))])]).
Proof.
  unfold validate_main. rewrite pure_main_run.
  destruct persistentPreRun as [[cfg h]|e] eqn:Epre.
  2: { split_and!; [|by intros e' [= <-]|done]. split; [|by intros (c & h & _ & [=] & _)].
       intros H. by apply ExitCode_nonzero in H. }
  pose proof Epre as (c & Hl & -> & _)%persistentPreRun_inl. unfold runConfigValidateTo. rewrite Hl.
  pose proof (violations_nil stat c) as Hv. unfold Validate, errors_join.
  destruct (violations stat c) as [|v vs] eqn:Ev.
  - assert (Hc : valid_config stat c) by (by apply Hv). destruct (rf_json rf).
    + destruct write_err as [f|]; simpl; split_and!; try done.
      * split; [by intros H%ExitCode_nonzero|]. intros (c' & h' & _ & _ & _ & H). by specialize (H eq_refl).
      * by intros c' r [= <-] _ [].
      * split; [|done]. intros _. by exists c, h.
      * by intros c' r [= <-] _ [].
    + simpl. split_and!; try done; [|by intros c' r [= <-] _ []]. split; [|done]. intros _. by exists c, h.
  - assert (Hc : ¬ valid_config stat c) by (rewrite <- Hv; done).
    assert (Hcode : ∀ e, ExitCode (Some e) = 0 ↔ ∃ c' h', @inl Config error c = inl c' ∧
      @inl (Config * slog_handler) error (apply_flags (rf_overrides rf) c, h) = inl (apply_flags (rf_overrides rf) c', h') ∧
      valid_config stat c' ∧ (rf_json rf = true → write_err = None)).
    { intros e. split; [by intros H%ExitCode_nonzero|]. by intros (c' & h' & [= <-] & _ & H & _). }
    destruct (rf_json rf); split_and!; try done; intros c' r [= <-] _ _; rewrite Ev; done.
Qed.

(** A server whose configuration cannot be loaded changes nothing. *)
Lemma server_main_unloaded {En : Engine} {Bc : Bcrypt} (w : world) (b : boot) (e : error) :
  persistentPreRun = inr e → server_main w b = (([Stderr (Fmt "error: %v" [FErr e])], ExitCode (Some e)), b).
Proof. intros H. unfold server_main, main. rewrite bind_run, H. done. Qed.

End cli.

(** ** Concrete runs *)

(** A koanf that decodes every file to [c]; no file is missing but the one with
    the empty name. *)
Definition fixed_koanf (c : Config) : Koanf := {|
  koanf := unit; K_new := tt;
  K_load_map _ k := inl k; K_load_file _ k := inl k; K_load_env _ _ k := inl k;
  K_unmarshal _ := inl c; K_get _ _ := VNil;
  file_missing path := String.eqb path ""; is_permission _ := false |}.

Definition no_overrides : flags := mkFlags "" "" "".

(** A bad QoS: one violation, exit code 1.  With an unknown log level on top the
    QoS is not reported, and nothing is written to stdout. *)
Example validate_runs :
  let qos := invalid "mqtt.qos: must be 0, 1, or 2, got %d: %w" [FInt 7] in
  validate_main (Ko := fixed_koanf (base_config 7 "8h" [])) [] (mkRootFlags "lgb.yaml" true no_overrides)
    (λ _, inl false) None =
    ([StdoutJSON (validate_output false [ErrText qos]); Stderr (Fmt "error: %v" [FErr (Join [qos])])], 1) ∧
  (validate_main (Ko := fixed_koanf (base_config 7 "8h" [])) []
     (mkRootFlags "lgb.yaml" true (mkFlags "" "loud" "")) (λ _, inl false) None).1 =
    [Stderr (Fmt "error: %v" [FErr (Errorf "log: invalid level %q: must be one of debug|info|warn|error" [FStr "loud"])])] ∧
  validate_main (Ko := fixed_koanf (base_config 1 "8h" [])) [] (mkRootFlags "lgb.yaml" false no_overrides)
    (λ _, inl false) None = ([Stdout (Lit "config OK")], 0) ∧
  (version_main (Ko := fixed_koanf (base_config 1 "8h" [])) [] (mkRootFlags "" false no_overrides) Info None).2 = 1.
Proof. split_and!; vm_compute; reflexivity. Qed.
