(* ===== verification/CommandTree.v ===== *)
(** * [cmd/lgb/cmd]: the commands and their flags

    [NewRoot] builds the tree of commands and binds the flags every command inherits
    to the fields of [Deps].  Reading a command line against them is cobra's. *)

From S2P Require Import Prelude GoString GoTime GoError Config ConfigLoad Logging Cli.

(** ** Commands *)

(** What a leaf runs. *)
Inductive run_e :=
| RunVersion | RunStatus | RunConfigValidate | RunDoctor | RunServer | RunBackup | RunBackupCheck.

#[export] Instance run_e_eq_dec : EqDecision run_e.
Proof. solve_decision. Defined.

Inductive command := Command (use short : string) (runE : option run_e) (subs : list command).

Definition Use (c : command) : string := match c with Command use _ _ _ => use end.
Definition RunE (c : command) : option run_e := match c with Command _ _ r _ => r end.
Definition subcommands (c : command) : list command := match c with Command _ _ _ subs => subs end.

Definition AddCommand (sub c : command) : command :=
  match c with Command use short r subs => Command use short r (subs ++ [sub]) end.

Definition NewVersionCmd : command := Command "version" "Print version information" (Some RunVersion) [].
Definition NewStatusCmd : command := Command "status" "Print gateway status snapshot as JSON" (Some RunStatus) [].
Definition NewConfigValidateCmd : command :=
  Command "validate" "Validate the configuration file" (Some RunConfigValidate) [].
Definition NewConfigCmd : command :=
  AddCommand NewConfigValidateCmd (Command "config" "Configuration management commands" None []).
Definition NewDoctorCmd : command := Command "doctor" "Run diagnostic checks" (Some RunDoctor) [].
Definition NewServerCmd : command := Command "server" "Start the HTTP server stub" (Some RunServer) [].
Definition newBackupRunCmd : command :=
  Command "run" "Run an immediate backup of the historian snapshot" (Some RunBackup) [].
Definition newBackupCheckCmd : command :=
  Command "check" "Verify integrity of all configured backup repositories" (Some RunBackupCheck) [].
Definition NewBackupCmd : command :=
  AddCommand newBackupCheckCmd (AddCommand newBackupRunCmd (Command "backup" "Manage restic backups" None [])).

(** ** Flags *)

(** A persistent flag: its name, its default, and the field it is bound to. *)
Record flag := mkFlag { fl_name : string; fl_default : string; fl_set : string → root_flags → root_flags }.

(** pflag reads a boolean with [strconv.ParseBool]. *)
Definition parse_bool (s : string) : bool :=
  existsb (String.eqb s) ["1"; "t"; "T"; "true"; "TRUE"; "True"].

Definition set_overrides (f : flags → flags) (rf : root_flags) : root_flags :=
  mkRootFlags (rf_config rf) (rf_json rf) (f (rf_overrides rf)).

Definition persistent_flags : list flag := [
  mkFlag "config" "lgb.yaml" (λ v rf, mkRootFlags v (rf_json rf) (rf_overrides rf));
  mkFlag "data-dir" "" (λ v, set_overrides (λ f, mkFlags v (f_log_level f) (f_log_format f)));
  mkFlag "log-level" "" (λ v, set_overrides (λ f, mkFlags (f_data_dir f) v (f_log_format f)));
  mkFlag "log-format" "" (λ v, set_overrides (λ f, mkFlags (f_data_dir f) (f_log_level f) v));
  mkFlag "json" "false" (λ v rf, mkRootFlags (rf_config rf) (parse_bool v) (rf_overrides rf))
].

(** ** The root

    Binding a flag gives its field the default. *)

Definition bind_flags (rf : root_flags) : root_flags :=
  foldl (λ rf f, fl_set f (fl_default f) rf) rf persistent_flags.

Definition NewRoot : command * root_flags :=
  let root := Command "lgb" "LGB — industrial IoT gateway" None [] in
  (foldl (λ c sub, AddCommand sub c) root
     [NewVersionCmd; NewStatusCmd; NewConfigCmd; NewDoctorCmd; NewServerCmd; NewBackupCmd],
   bind_flags (mkRootFlags "" false (mkFlags "" "" ""))).

(** The flags a command line sets, in its order. *)
Definition given (settings : list (flag * string)) : root_flags :=
  foldl (λ rf x, fl_set x.1 x.2 rf) NewRoot.2 settings.

(** ** Theorems *)

(** The names on the way to every command that runs something. *)
Fixpoint leaves (c : command) : list (list string * run_e) :=
  match c with
  | Command use _ r subs =>
      (match r with Some e => [([use], e)] | None => [] end) ++
      flat_map (λ sub, (λ x, (use :: x.1, x.2)) <$> leaves sub) subs
  end.

Fixpoint siblings_differ (c : command) : bool :=
  match c with
  | Command _ _ r subs =>
      bool_decide (NoDup (Use <$> subs)) && (match r, subs with None, [] => false | _, _ => true end) &&
      forallb siblings_differ subs
  end.

(** The tree names every operation once; no two commands of a group share a name,
    and a group that runs nothing has commands. *)
Theorem NewRoot_correct :
  leaves NewRoot.1 =
    [(["lgb"; "version"], RunVersion); (["lgb"; "status"], RunStatus); (["lgb"; "config"; "validate"], RunConfigValidate);
     (["lgb"; "doctor"], RunDoctor); (["lgb"; "server"], RunServer);
     (["lgb"; "backup"; "run"], RunBackup); (["lgb"; "backup"; "check"], RunBackupCheck)] ∧
  siblings_differ NewRoot.1 = true ∧
  NewRoot.2 = mkRootFlags "lgb.yaml" false (mkFlags "" "" "").
Proof. split_and!; vm_compute; reflexivity. Qed.

(** The flags of a command line do not disturb each other: the last setting of a
    flag counts, whatever is set after it by other flags. *)
Theorem flags_independent (f1 f2 : flag) (v1 v2 : string) (rf : root_flags) :
  f1 ∈ persistent_flags → f2 ∈ persistent_flags →
  (fl_name f1 ≠ fl_name f2 → fl_set f1 v1 (fl_set f2 v2 rf) = fl_set f2 v2 (fl_set f1 v1 rf)) ∧
  (fl_name f1 = fl_name f2 → fl_set f1 v1 (fl_set f2 v2 rf) = fl_set f1 v1 rf).
Proof.
  unfold persistent_flags. rewrite !elem_of_cons, !elem_of_nil.
  intros [->|[->|[->|[->|[->|[]]]]]] [->|[->|[->|[->|[->|[]]]]]]; split; intros H;
    first [reflexivity | discriminate H | by destruct H].
Qed.
