(* ===== verification/Plcsim.v ===== *)
(** * [cmd/plcsim], [internal/testutil/plcsim.go]: the simulated PLC

    The program that serves three tags over CIP, the listener the tests dial, and the
    probe of it when [lgb server] starts.
    The protocol, the router and the parser of paths are gologix's: what they answer
    is an argument. *)

From S2P Require Import Prelude GoString GoTime GoError Config.

(** ** The tags *)

(** The data of the [MapTagProvider], which looks names up in lower case. *)
Definition NewPLCSimProvider : gmap string value :=
  <["simbool" := VBool true]> (<["simint" := VInt16 42]> (<["simfloat" := VFloat32 1078523331]> ∅)).

Lemma provider_names : map_Forall (λ name v, to_lower name = name ∧ value_ok v) NewPLCSimProvider.
Proof.
  apply map_Forall_insert_2; [by split|]. apply map_Forall_insert_2; [by split|].
  apply map_Forall_insert_2; [by split|]. apply map_Forall_empty.
Qed.

(** ** The program *)

Section main.
Context {P : Type}.

Inductive sim_event :=
| SParseError (err : foreign)
| SHandle (path : P) (data : gmap string value)
| SListening
| SShuttingDown
| SCloseTCP | SCloseUDP
| SServeError (err : foreign).

(** What the [select] at the end receives: a signal, while the server has the
    listeners it has bound by then, or what [Serve] returned. *)
Inductive sim_wakeup :=
| Signalled (tcp udp : bool)
| ServeEnded (err : option foreign).

(** What the program does, and its exit code. *)
Definition main (parsed : P + foreign) (w : sim_wakeup) : list sim_event * Z :=
  match parsed with
  | inr err => ([SParseError err], 1)
  | inl path =>
      let started := [SHandle path NewPLCSimProvider; SListening] in
      match w with
      | Signalled tcp udp =>
          (started ++ [SShuttingDown] ++ (if tcp then [SCloseTCP] else []) ++ (if udp then [SCloseUDP] else []), 0)
      | ServeEnded (Some err) => (started ++ [SServeError err], 1)
      | ServeEnded None => (started, 0)
      end
  end.

(** The simulator serves its tags exactly when the path can be parsed, fails only
    with an error in its log, and on a signal closes the listeners there are. *)
Theorem main_correct (parsed : P + foreign) (w : sim_wakeup) :
  let '(es, code) := main parsed w in
  (SListening ∈ es ↔ ∃ path, parsed = inl path ∧ SHandle path NewPLCSimProvider ∈ es) ∧
  (code = 0 ∨ code = 1) ∧
  (code = 1 ↔ ∃ err, SParseError err ∈ es ∨ SServeError err ∈ es) ∧
  (∀ path tcp udp, parsed = inl path → w = Signalled tcp udp →
     (SCloseTCP ∈ es ↔ tcp = true) ∧ (SCloseUDP ∈ es ↔ udp = true)).
Proof. destruct parsed as [path|err], w as [[|] [|]|[err'|]]; simpl; set_solver. Qed.
End main.

(** ** The listener of the tests

    [StartPLCSim] accepts connections and closes them until its listener is closed. *)

Record listener := mkListener { ln_open : bool; ln_running : bool; ln_dropped : list nat }.

(** One round of the accept loop: a connection is accepted and closed; [Accept]
    fails when the listener is closed, and the loop ends. *)
Definition accept_round (conn : option nat) (l : listener) : listener :=
  if ln_running l then
    match (if ln_open l then conn else None) with
    | Some c => mkListener (ln_open l) true (ln_dropped l ++ [c])
    | None => if ln_open l then l else mkListener false false (ln_dropped l)
    end
  else l.

(** [stop] closes the listener and waits for the loop. *)
Definition stop_begin (l : listener) : listener := mkListener false (ln_running l) (ln_dropped l).
Definition stop_returns (l : listener) : bool := negb (ln_running l).

Definition StartPLCSim : listener := mkListener true true [].

(** Every connection that arrives before [stop] is accepted and dropped; [stop]
    returns after the next round, and calling it again, as the cleanup of the test
    does, changes nothing. *)
Theorem stop_correct (conns : list nat) (later : option nat) :
  let l := foldl (λ l c, accept_round (Some c) l) StartPLCSim conns in
  let l' := accept_round later (stop_begin l) in
  ln_dropped l' = conns ∧ stop_returns l' = true ∧ stop_begin l' = l'.
Proof.
  cbv zeta. assert (H : ∀ d, foldl (λ l c, accept_round (Some c) l) (mkListener true true d) conns = mkListener true true (d ++ conns)).
  { induction conns as [|c conns IH]; intros d; simpl; [by rewrite app_nil_r|]. unfold accept_round at 2. simpl.
    by rewrite IH, <- app_assoc. }
  unfold StartPLCSim. rewrite H. done.
Qed.

(** ** The probe

    [runServerTo] dials the simulator once and only logs what came of it. *)

Inductive probe_event := Dialled (addr : string) | ConnClosed | Unreachable (addr : string) (err : foreign) | Reachable (addr : string).

Definition plcsim_addr (c : Config) : string :=
  if String.eqb (PLCSimAddr c) "" then "plcsim:44818" else PLCSimAddr c.

Definition probePlCSim (dial : string → option foreign) (addr : string) : list probe_event :=
  Dialled addr ::
  match dial addr with
  | Some err => [Unreachable addr err]
  | None => [ConnClosed; Reachable addr]
  end.

(** The probe dials an address that is not empty and leaves no connection open. *)
Theorem probe_correct (dial : string → option foreign) (c : Config) :
  let es := probePlCSim dial (plcsim_addr c) in
  plcsim_addr c ≠ "" ∧ (ConnClosed ∈ es ↔ dial (plcsim_addr c) = None) ∧
  (Reachable (plcsim_addr c) ∈ es ↔ ConnClosed ∈ es).
Proof.
  cbv zeta. split.
  { unfold plcsim_addr. by destruct (String.eqb_spec (PLCSimAddr c) ""). }
  unfold probePlCSim. destruct (dial _) as [err|]; split; set_solver.
Qed.
